(* ===== verification/_CoqProject ===== *)
-Q . S2P
Prelude.v
Struct.v
Xdr.v
Sha256.v
Auth.v
RpcMsg.v
Kernel.v
Mutex.v
Rpc.v
Registry.v
Wire.v
Master.v
Assign.v
Hop.v
Llama.v
Checkpoint.v
Shard.v
Join.v
Worker.v
Threads.v
Text.v
Sort.v
Tokenizer.v
Sampler.v
Session.v
Ring.v
Generate.v
Cluster.v
Weights.v
Ftp.v
Transfer.v
Peer.v
Switch.v
Malloc.v
Ulib.v
Grep.v
Printf.v
Shell.v
ShellGrammar.v
