(* ===== verification/Prelude.v ===== *)
(** * Distributed inference on xv6: a verification development

    The program runs a Llama-style transformer on a ring of xv6-riscv nodes.  A
    master admits workers (discovery over ONC RPC), splits the layers of the
    model among them, and for every token sends an activation round the ring;
    each worker runs its layers on it and passes it on; the master classifies
    what comes back and prints the next token.  The weights come from a server
    in Python over a chunked UDP protocol.  A single-node program runs the same
    model alone.  The code is under src/xv6-riscv/user (C) and src/server
    (Python); the kernel's C files are not part of the sources.

    ** How the code is modelled

    Shallow embedding.  A C integer is a [Z] with the wrap-around of its width
    written out ([u8], [u16], [u32], [u64], [s32], [s64]; LP64, [char] unsigned).
    A buffer is a list of bytes; an access outside it is a fault, the result
    [None] of the state monad [M S A := S → option (A * S)] of this file, so a
    statement with [wp] says that the operation returns, without a fault, with
    the result described; [wlp] speaks only of runs that return.  A structure is
    a [Record], static variables are fields of a state record, and a function is
    one definition with the name it has in C.  Loops with a bound in the code
    recurse on the bound; others take a fuel that the theorems show to suffice.
    The kernel is a type class of system calls over an abstract state (Kernel.v)
    with its documented behaviour as the class [KernelLaws]; floating point is
    the class [FloatOps] (Llama.v), with no law assumed, so equal results are
    equal bit patterns.  Python code has a monad of its own with exceptions.

    ** Files

    - Prelude.v (this file): machine integers, byte lists, the monad and its
      weakest preconditions, tactics and hints.
    - Xdr.v (xdr.c), RpcMsg.v (rpc.h and the codecs of rpc.c), Rpc.v (transport
      and [rpc_call] of rpc.c), Mutex.v (mutex.c), Kernel.v (system calls).
    - Sha256.v (sha256.c) and Auth.v ([hmac_sha256], [cap_identity] of
      discovery.c), against FIPS 180-4 and RFC 2104.
    - Registry.v (tables of discovery.c: look-ups, memory probe, rate limiter,
      ring, split of the layers), Master.v (its handlers, expiry and
      assignment), Assign.v (what an assignment puts on the network), Join.v
      (the worker's registration and heartbeat).
    - Wire.v and Hop.v (records of distinf.h, activation datagrams), Worker.v
      (the worker's call-back and one pass of each of its three threads),
      Threads.v (the threads under preemption, one shared access per step).
    - Llama.v (kernels of llama_core.c), Checkpoint.v (layout of a checkpoint),
      Shard.v (shard.c, the master's head, the single-node forward pass), Ring.v
      (what a shard computes for a position, against the single node).
    - Text.v (xstrlib.c, parts of ulib.c and xstdlib.c), Sort.v ([xqsort],
      [xbsearch]), Tokenizer.v and Sampler.v (llama_core.c), Generate.v (the
      loops of llama.c).
    - Session.v (the master of distinf.c: pump, ring traversal of a token,
      session), Cluster.v (master, workers and network as one system).
    - Struct.v (Python's struct), Weights.v (server/server.py), Ftp.v
      (ftpclient.c), Transfer.v (the two over a network), Switch.v
      (server/mcast_switch.py, the same handlers behind Ethernet frames), Peer.v
      (server/rpc_proto.py, the RPC peer of the host).
    - Malloc.v (umalloc.c), Ulib.v (the memory and string loops of ulib.c),
      Printf.v (printf.c), Grep.v (grep.c), Shell.v (the parser of sh.c) and
      ShellGrammar.v (its tokens and grammar).

    ** What the theorems show

    - The system.  In every state a session of the ring reaches, over a network
      that loses, delays, duplicates and reorders, the master has printed what
      the single-node program prints ([ring_prints_what_one_node_prints]), under
      the conditions listed below; it
      rests on the shards computing the model ([ring_computes_model],
      [llama_block_refines], [reprocessing_idempotent], [threads_any_order]) and
      on the layouts of the checkpoint agreeing ([checkpoint_layout_agrees]).
    - Membership.  The registry invariant under any sequence of calls, what each
      call does to every slot ([handle_call_lifecycle]), admission of an honest worker, the ring as a cycle
      through all active workers, the split of the layers delivered to them, the
      worker's registration, the rate limit.
    - Worker and master.  Memory safety of the three threads in every reachable
      state, exact behaviour of the call-back and of the inference thread, no
      replay (in a trace of the hops and assignments the worker takes), mutual
      exclusion and the mailbox under preemption, the liveness of
      the socket hand-off, and [master_run_token] for any datagrams.
    - Wire formats.  Round trips, the decoder against the message format of RFC
      5531 read off the words of the datagram ([rfc_parse]),
      confinement of any sequence of XDR calls to the buffer, [rpc_call] with its
      retransmissions, SHA-256 and HMAC against their standards.
    - Transfer.  Without loss the client gets the bytes of the server's file
      ([transfer_completes]); with any loss, order or repetition it never returns
      success with other bytes ([fetch_window_exact]); a lost answer to its first
      request makes it wait for ever ([lost_metadata_waits]); a lost chunk is never
      recovered, since the server's handler of retransmissions raises
      ([lost_chunk_is_fatal]); and what a worker loads is its range of that file
      ([shard_from_server]), which discharges the assumption [fetch_faithful] of
      the loader theorems.
    - Host.  A frame with a request is answered with the frames of the server's
      datagrams and no frame makes the switch raise ([switch_serves_requests],
      [switch_survives_any_frame]); the peer in Python writes and reads the
      datagrams of the C codec ([peer_sends_what_c_sends],
      [peer_reads_what_c_reads]) and is admitted by the master
      ([python_worker_admitted]).
    - User library.  The allocator never hands out overlapping blocks, faults or
      loops ([allocator_safe]); [printf] writes the text of its arguments and
      keeps to its buffers up to a precision that is stated
      ([printf_renders], [printdouble_buffer]); [match] is the language of the
      regular expression and grep prints the matching lines
      ([match_is_regex], [grep_prints_matching_lines]).
    - Shell.  The parser ends on every line, keeps to the memory and overwrites
      nothing but the line ([parsecmd_exact]); it returns a command exactly for
      the lines of the grammar, the one the grammar gives
      ([parsecmd_grammar]).  The proof goes through a parser of token lists
      without memory ([parse_sim], [pline_decides]).
    - Text.  Encoder and decoder of the tokenizer, the echo of the prompt by
      [generate] ([prompt_echo_roundtrip]), the quicksort with its bounded stack.

    ** Conditions of the theorems

    The statements carry these as hypotheses, and their comments name them.
    - [no_overrun]: no datagram that is received makes [xdr_decode_opaque_auth]
      write behind [auth->body].  The code does not check the second length word
      (rpc.c:184, [rpc_decode_auth_overrun]), so an attacker on the network can break
      this; every theorem about a node that receives calls needs it.
    - [heap_available]: the stream record of 32 bytes can be allocated;
      [xdrmem_create] has no error path for its callers.
    - [calloc_succeeds] and [narrow_models] (Worker.v): the run state of a shard can
      be allocated and a served model is no wider than the activation buffers of 1024
      floats.  A width above 1017 does not fit the payload of a hop
      ([infer_hop_transfer]); the theorems on a token and on a session need at most
      1017.
    - [pools_agree] (Shard.v): the nodes add the products of a row in the same
      order.  Only the master and the single-node program start a thread pool, so
      for the program as it is wired this is a model without an output of 128 rows or
      more; for others the sums are ordered differently.
    - [honest] (Ftp.v): the datagrams a client of the weight server receives are
      the server's; the client does not check their source.
    - [SbrkLaws] (Malloc.v): the contract of sbrk; and requests below 2^31 - 32
      bytes ([huge_request_granted_without_memory]).

    ** Bounds and fuel

    The protocol loops have the code's bounds (three transmissions of a call,
    three attempts of a token, 10000 receptions and 50 rounds of a transfer).
    The loops over a transfer window take the number of its chunks plus one as
    fuel, at most 2^23 + 1; the quicksort takes a fuel derived from the length of
    the array, and its theorem says that it ends; the byte pair merges take one
    step per token.  The shell's parser takes four units per character and eight
    more, one for each of its mutually recursive functions; printf takes
    one unit per character of the format and 64 for the digits of a number, grep
    one per character of its buffer and any number above the length of the
    stream; the allocator has fuel for one round of the free list in
    [free] and two in [malloc].  In each case the theorem says that the function
    returns.  Waits with a timeout are the kernel's; the one wait without, in
    [llm_meta_request], can be without end, which is a result of its own.

    ** Not modelled

    - The kernel: only its headers are in the sources; it is the class [Kernel].
    - Test programs (usertests, nettest, schedtest, threadtest, testxmath,
      rpc_test and the like; the regression tests, simulator and test bed under
      src/server) exercise the code and are not part of the running system.
    - xmath.c: polynomial approximations in floating point, whose correctness is
      a numerical bound; the operations are those of [FloatOps].
    - Profiling (perf.c), the log of the server, the messages the protocol code
      prints, and the argument parsers of main.
    - The shell's [runcmd] and main loop, and the utilities of xv6 other than
      grep: short sequences of system calls.  In Shell.v [malloc] never fails;
      the code does not test its result.
    - In Cluster.v the membership does not change during a session and the nodes
      receive no other traffic; Session.v and Worker.v cover both for one node.
*)
From stdpp Require Export prelude.
From Stdlib Require Export ZArith Lia.

Declare Scope c_scope.
Delimit Scope c_scope with C.
#[global] Open Scope Z_scope.
#[global] Open Scope c_scope.

(** ** Machine integers

    A C integer is a [Z]; an operation that can leave the type's range is
    followed by the wrap-around of its width.  RISC-V is LP64: [int] and
    [uint32] have 32 bits, [long] and pointers 64, and plain [char] is
    unsigned. *)

Definition u8 (x : Z) : Z := x mod 2 ^ 8.
Definition u16 (x : Z) : Z := x mod 2 ^ 16.
Definition u32 (x : Z) : Z := x mod 2 ^ 32.
Definition u64 (x : Z) : Z := x mod 2 ^ 64.

Definition s32 (x : Z) : Z := (x + 2 ^ 31) mod 2 ^ 32 - 2 ^ 31.
Definition s64 (x : Z) : Z := (x + 2 ^ 63) mod 2 ^ 64 - 2 ^ 63.
Definition s16 (x : Z) : Z := (x + 2 ^ 15) mod 2 ^ 16 - 2 ^ 15.

(** A byte of memory, and a list of them. *)
Definition is_byte (b : Z) : Prop := 0 ≤ b < 256.
Definition is_bytes (l : list Z) : Prop := Forall is_byte l.
Definition is_u32 (x : Z) : Prop := 0 ≤ x < 2 ^ 32.
Definition is_u16 (x : Z) : Prop := 0 ≤ x < 2 ^ 16.

(** Big-endian (network order) and little-endian (C struct) integers. *)
Definition put_be32 (v : Z) : list Z :=
  [u8 (v ≫ 24); u8 (v ≫ 16); u8 (v ≫ 8); u8 v].
Definition get_be32 (b0 b1 b2 b3 : Z) : Z :=
  Z.lor (Z.lor (Z.lor (b0 ≪ 24) (b1 ≪ 16)) (b2 ≪ 8)) b3.
Definition put_le32 (v : Z) : list Z :=
  [u8 v; u8 (v ≫ 8); u8 (v ≫ 16); u8 (v ≫ 24)].
Definition put_le16 (v : Z) : list Z := [u8 v; u8 (v ≫ 8)].
Definition put_le64 (v : Z) : list Z := put_le32 v ++ put_le32 (v ≫ 32).

(** A sequence of big-endian words. *)
Definition be_words (ws : list Z) : list Z := flat_map put_be32 ws.

(** The bytes [off, off + n) of a buffer, and a buffer whose bytes from
    [off] on are replaced by [bs].  Both are total; the memory operations
    below check the bounds first. *)
Definition slice (off n : Z) (l : list Z) : list Z :=
  take (Z.to_nat n) (drop (Z.to_nat off) l).
Definition splice (off : Z) (bs l : list Z) : list Z :=
  take (Z.to_nat off) l ++ bs ++ drop (Z.to_nat off + length bs) l.
Definition len (l : list Z) : Z := Z.of_nat (length l).

(** The 32-bit word at an offset of a buffer, in the two byte orders. *)
Definition byte_at (l : list Z) (i : Z) : Z := nth (Z.to_nat i) l 0.
Definition be32_at (l : list Z) (i : Z) : Z :=
  get_be32 (byte_at l i) (byte_at l (i + 1)) (byte_at l (i + 2)) (byte_at l (i + 3)).
Definition le32_at (l : list Z) (i : Z) : Z :=
  get_be32 (byte_at l (i + 3)) (byte_at l (i + 2)) (byte_at l (i + 1)) (byte_at l i).
Definition le16_at (l : list Z) (i : Z) : Z :=
  Z.lor (byte_at l (i + 1) ≪ 8) (byte_at l i).
Definition le64_at (l : list Z) (i : Z) : Z :=
  Z.lor (le32_at l (i + 4) ≪ 32) (le32_at l i).

(** ** The effect monad

    A computation threads a state and may fault: [None] is an access the C
    abstract machine leaves undefined (an out-of-bounds load or store, a
    stream that was never initialised).  A theorem of safety says that a
    computation is never [None]. *)
Definition M (S A : Type) : Type := S → option (A * S).

Definition ret {S A} (a : A) : M S A := λ s, Some (a, s).
Definition bind {S A B} (m : M S A) (k : A → M S B) : M S B :=
  λ s, match m s with Some (a, s') => k a s' | None => None end.
Definition fault {S A} : M S A := λ _, None.
Definition get {S} : M S S := λ s, Some (s, s).
Definition gets {S A} (f : S → A) : M S A := λ s, Some (f s, s).
Definition put {S} (s : S) : M S unit := λ _, Some (tt, s).
Definition modify {S} (f : S → S) : M S unit := λ s, Some (tt, f s).

Notation "'let*' x ':=' m 'in' k" := (bind m (λ x, k))
  (at level 10, x pattern, m at level 100, k at level 200,
   format "'[v' 'let*'  x  ':='  m  'in' '/' k ']'") : c_scope.
Notation "m ';;*' k" := (bind m (λ _, k))
  (at level 100, right associativity, format "'[v' m  ';;*' '/' k ']'") : c_scope.

(** A computation that may jump to the [fail] label of its function: [None] as
    a value is the jump. *)
Definition try {S A B} (m : M S (option A)) (k : A → M S (option B)) : M S (option B) :=
  bind m (λ r, match r with Some a => k a | None => ret None end).
Definition next {S A} (a : A) : M S (option A) := ret (Some a).
Definition goto_fail {S A} : M S (option A) := ret None.

Notation "'let?' x ':=' m 'in' k" := (try m (λ x, k))
  (at level 10, x pattern, m at level 100, k at level 200,
   format "'[v' 'let?'  x  ':='  m  'in' '/' k ']'") : c_scope.
Notation "m ';;?' k" := (try m (λ _, k))
  (at level 100, right associativity, format "'[v' m  ';;?' '/' k ']'") : c_scope.

(** Running a computation of a component on its part of a larger state. *)
Definition zoom {S T A} (getS : T → S) (setS : S → T → T) (m : M S A) : M T A :=
  λ t, match m (getS t) with Some (a, s') => Some (a, setS s' t) | None => None end.

Lemma bind_run {S A B} (m : M S A) (k : A → M S B) s a s' :
  m s = Some (a, s') → bind m k s = k a s'.
Proof. intros E. unfold bind. by rewrite E. Qed.

Lemma try_next {S A B} (m : M S (option A)) (k : A → M S (option B)) s a s' :
  m s = Some (Some a, s') → try m k s = k a s'.
Proof. intros E. unfold try, bind. by rewrite E. Qed.

Lemma try_fail {S A B} (m : M S (option A)) (k : A → M S (option B)) s s' :
  m s = Some (None, s') → try m k s = Some (None, s').
Proof. intros E. unfold try, bind. by rewrite E. Qed.

Lemma bind_ret {S A B} (a : A) (k : A → M S B) s : bind (ret a) k s = k a s.
Proof. done. Qed.

Lemma bind_inv {S A B} (m : M S A) (k : A → M S B) s b s'' :
  bind m k s = Some (b, s'') → ∃ a s', m s = Some (a, s') ∧ k a s' = Some (b, s'').
Proof. unfold bind. destruct (m s) as [[a s']|]; [eauto|done]. Qed.

(** *** Total and partial correctness

    [wp m Q s]: from [s] the computation returns, with a result and a state that
    satisfy [Q].  [wlp m Q s]: if it returns, they do. *)
Definition wp {S A} (m : M S A) (Q : A → S → Prop) (s : S) : Prop :=
  ∃ a s', m s = Some (a, s') ∧ Q a s'.
Definition wlp {S A} (m : M S A) (Q : A → S → Prop) (s : S) : Prop :=
  ∀ a s', m s = Some (a, s') → Q a s'.

Lemma wp_ret {S A} (a : A) Q (s : S) : Q a s → wp (ret a) Q s.
Proof. intros HQ. by exists a, s. Qed.
Lemma wp_gets {S A} (f : S → A) Q s : Q (f s) s → wp (gets f) Q s.
Proof. intros HQ. by exists (f s), s. Qed.
Lemma wp_modify {S} (f : S → S) Q s : Q tt (f s) → wp (modify f) Q s.
Proof. intros HQ. by exists tt, (f s). Qed.

Lemma wp_bind {S A B} (m : M S A) (k : A → M S B) Q s :
  wp m (λ a s', wp (k a) Q s') s → wp (bind m k) Q s.
Proof.
  intros (a & s1 & E & b & s2 & E' & HQ). exists b, s2. split; [|done].
  unfold bind. by rewrite E.
Qed.

Lemma wp_mono {S A} (m : M S A) (Q Q' : A → S → Prop) s :
  wp m Q s → (∀ a s', Q a s' → Q' a s') → wp m Q' s.
Proof. intros (a & s' & E & HQ) H. exists a, s'. auto. Qed.

(** A prefix of a sequence of steps, as one step. *)
Lemma wp_try {S A B} (m : M S (option A)) (k : A → M S (option B)) Q s :
  wp m (λ r s', match r with Some a => wp (k a) Q s' | None => Q None s' end) s → wp (try m k) Q s.
Proof. intros Hm. apply wp_bind. eapply wp_mono; [exact Hm|]. intros [a|] s'; [done|]. intros HQ. by apply wp_ret. Qed.

Lemma wp_bind2 {S A B C} (m : M S A) (f : A → M S B) (k : B → M S C) Q s :
  wp (bind m f) (λ b s', wp (k b) Q s') s → wp (bind m (λ a, bind (f a) k)) Q s.
Proof.
  intros (b & s1 & E & c & s2 & E' & HQ). apply bind_inv in E as (a & s0 & E0 & E1).
  exists c, s2. split; [|done]. by rewrite (bind_run _ _ _ _ _ E0), (bind_run _ _ _ _ _ E1).
Qed.

Lemma wp_wlp {S A} (m : M S A) (Q Q' : A → S → Prop) s :
  wp m Q s → wlp m Q' s → wp m (λ a s', Q a s' ∧ Q' a s') s.
Proof. intros (a & s' & E & HQ) H. exists a, s'. auto. Qed.

Lemma wlp_ret {S A} (a : A) Q (s : S) : Q a s → wlp (ret a) Q s.
Proof. intros HQ a' s' E. unfold ret in E. by simplify_eq. Qed.
Lemma wlp_gets {S A} (f : S → A) Q s : Q (f s) s → wlp (gets f) Q s.
Proof. intros HQ a' s' E. unfold gets in E. by simplify_eq. Qed.
Lemma wlp_modify {S} (f : S → S) Q s : Q tt (f s) → wlp (modify f) Q s.
Proof. intros HQ a' s' E. unfold modify in E. by simplify_eq. Qed.
Lemma wlp_fault {S A} Q (s : S) : wlp (@fault S A) Q s.
Proof. by intros a s'. Qed.

Lemma wlp_bind {S A B} (m : M S A) (k : A → M S B) Q s :
  wlp m (λ a s', wlp (k a) Q s') s → wlp (bind m k) Q s.
Proof.
  intros H b s2 E. apply bind_inv in E as (a & s1 & E1 & E2). exact (H a s1 E1 b s2 E2).
Qed.

Lemma wlp_mono {S A} (m : M S A) (Q Q' : A → S → Prop) s :
  wlp m Q s → (∀ a s', Q a s' → Q' a s') → wlp m Q' s.
Proof. intros H HQ a s' E. auto. Qed.

Lemma wlp_of_wp {S A} (m : M S A) (Q : A → S → Prop) s : wp m Q s → wlp m Q s.
Proof. intros (a & s' & E & HQ) a' s'' E'. by simplify_eq. Qed.

Lemma wp_zoom {S T A} (getS : T → S) (setS : S → T → T) (m : M S A) Q t :
  wp m (λ a s', Q a (setS s' t)) (getS t) → wp (zoom getS setS m) Q t.
Proof. intros (a & s' & E & HQ). exists a, (setS s' t). split; [|done]. unfold zoom. by rewrite E. Qed.

Lemma wlp_zoom {S T A} (getS : T → S) (setS : S → T → T) (m : M S A) Q t :
  wlp m (λ a s', Q a (setS s' t)) (getS t) → wlp (zoom getS setS m) Q t.
Proof.
  intros HQ a t' E. unfold zoom in E. destruct (m (getS t)) as [[a' s']|] eqn:Em; [|done].
  simplify_eq. by apply HQ.
Qed.

Lemma wp_get {S} Q (s : S) : Q s s → wp get Q s.
Proof. intros HQ. by exists s, s. Qed.

(** ** Automation *)
Create HintDb cmodel.
Create Rewrite HintDb len.

Ltac unfold_M := unfold bind, ret, fault, get, gets, put, modify, zoom in *.

(** Splits every boolean comparison of the goal and the hypotheses. *)
Ltac case_bool :=
  match goal with
  | |- context [?a <? ?b] => destruct (Z.ltb_spec a b)
  | |- context [?a <=? ?b] => destruct (Z.leb_spec a b)
  | |- context [?a =? ?b] => destruct (Z.eqb_spec a b)
  | H : context [?a <? ?b] |- _ => destruct (Z.ltb_spec a b)
  | H : context [?a <=? ?b] |- _ => destruct (Z.leb_spec a b)
  | H : context [?a =? ?b] |- _ => destruct (Z.eqb_spec a b)
  end.

(** Runs the first step of a sequence, whose outcome [tac] establishes. *)
Tactic Notation "mstep" "by" tactic3(tac) :=
  erewrite bind_run by tac; cbv beta iota.

Tactic Notation "tstep" "by" tactic3(tac) :=
  first [erewrite try_next by tac | erewrite try_fail by tac]; cbv beta iota.

(** Decides the condition of the first [if] of the goal. *)
Ltac if_true :=
  match goal with |- context [if ?b then _ else _] => replace b with true by lia end;
  cbv beta iota.
Ltac if_false :=
  match goal with |- context [if ?b then _ else _] => replace b with false by lia end;
  cbv beta iota.

(** Membership in an explicit list. *)
Ltac in_list := apply list_elem_of_In; simpl; tauto.

Ltac zdivmod := Z.to_euclidean_division_equations; lia.

(** ** Lemmas on machine integers *)

Lemma shiftr_div x n : 0 ≤ n → x ≫ n = x / 2 ^ n.
Proof. apply Z.shiftr_div_pow2. Qed.

Lemma lor_shiftl_add a b n : 0 ≤ n → 0 ≤ b < 2 ^ n → Z.lor (a ≪ n) b = a * 2 ^ n + b.
Proof.
  intros Hn Hb. rewrite <- Z.shiftl_mul_pow2 by done.
  assert (Hdisj : Z.land (a ≪ n) b = 0).
  { apply Z.bits_inj'; intros i Hi. rewrite Z.land_spec, Z.bits_0.
    destruct (Z.lt_ge_cases i n); [by rewrite Z.shiftl_spec_low by lia|].
    destruct (Z.eq_dec b 0) as [->|]; [by rewrite Z.bits_0, andb_false_r|].
    assert (Z.log2 b < n) by (apply Z.log2_lt_pow2; lia).
    rewrite (Z.bits_above_log2 b) by lia. by rewrite andb_false_r. }
  by rewrite Z.add_nocarry_lxor, Z.lxor_lor.
Qed.

Lemma u8_byte x : is_byte (u8 x).
Proof. apply Z.mod_pos_bound. lia. Qed.
Lemma u32_range x : is_u32 (u32 x).
Proof. apply Z.mod_pos_bound. lia. Qed.
Lemma u16_range x : is_u16 (u16 x).
Proof. apply Z.mod_pos_bound. lia. Qed.
Lemma u8_id x : is_byte x → u8 x = x.
Proof. intros. by apply Z.mod_small. Qed.
Lemma u32_id x : is_u32 x → u32 x = x.
Proof. intros. by apply Z.mod_small. Qed.
Lemma u16_id x : is_u16 x → u16 x = x.
Proof. intros. by apply Z.mod_small. Qed.
Lemma s32_id x : - 2 ^ 31 ≤ x < 2 ^ 31 → s32 x = x.
Proof. intros. unfold s32. rewrite Z.mod_small; lia. Qed.
Lemma s64_id x : - 2 ^ 63 ≤ x < 2 ^ 63 → s64 x = x.
Proof. intros. unfold s64. rewrite Z.mod_small; lia. Qed.

#[export] Hint Resolve u8_byte u32_range u16_range : cmodel.

Lemma get_be32_sum b0 b1 b2 b3 :
  is_byte b0 → is_byte b1 → is_byte b2 → is_byte b3 →
  get_be32 b0 b1 b2 b3 = b0 * 2 ^ 24 + b1 * 2 ^ 16 + b2 * 2 ^ 8 + b3.
Proof.
  unfold is_byte, get_be32. intros.
  assert (E : ∀ a b n m, 0 ≤ n → 0 ≤ m → Z.lor (a ≪ (n + m)) (b ≪ m) = Z.lor (a ≪ n) b ≪ m).
  { intros. by rewrite Z.shiftl_lor, Z.shiftl_shiftl. }
  change 24 with (8 + 16). rewrite E by lia.
  change 16 with (8 + 8) at 1. rewrite E by lia.
  rewrite !lor_shiftl_add by lia. lia.
Qed.

Lemma get_put_be32 v :
  get_be32 (u8 (v ≫ 24)) (u8 (v ≫ 16)) (u8 (v ≫ 8)) (u8 v) = u32 v.
Proof.
  rewrite get_be32_sum by auto with cmodel.
  rewrite !shiftr_div by lia. unfold u8, u32. zdivmod.
Qed.

(** ** Lemmas on buffers *)

Lemma len_nonneg l : 0 ≤ len l.
Proof. unfold len. lia. Qed.
Lemma len_app l1 l2 : len (l1 ++ l2) = len l1 + len l2.
Proof. unfold len. rewrite length_app. lia. Qed.
Lemma len_cons x l : len (x :: l) = 1 + len l.
Proof. unfold len. simpl. lia. Qed.
Lemma len_nil : len [] = 0.
Proof. done. Qed.
Lemma len_put_be32 v : len (put_be32 v) = 4.
Proof. done. Qed.
Lemma len_drop n l : (n ≤ length l)%nat → len (drop n l) = len l - Z.of_nat n.
Proof. intros. unfold len. rewrite length_drop. lia. Qed.
Lemma len_take n l : (n ≤ length l)%nat → len (take n l) = Z.of_nat n.
Proof. intros. unfold len. rewrite length_take. lia. Qed.
#[export] Hint Rewrite len_app len_cons len_nil len_put_be32 : len.

(** Linear arithmetic on the lengths of buffers. *)
Ltac lia_len :=
  autorewrite with len in *; unfold len in *;
  rewrite ?length_app, ?length_take, ?length_drop, ?length_replicate in *; simpl length in *; lia.

Lemma to_nat_len l : Z.to_nat (len l) = length l.
Proof. unfold len. lia. Qed.

Lemma slice_app w bs r n : n = len bs → slice (len w) n (w ++ bs ++ r) = bs.
Proof.
  intros ->. unfold slice. rewrite !to_nat_len.
  by rewrite drop_app_length, take_app_length.
Qed.

Lemma slice_app_0 bs r : slice 0 (len bs) (bs ++ r) = bs.
Proof. by apply (slice_app []). Qed.

Lemma splice_app w bs r : splice (len w) bs (w ++ r) = w ++ bs ++ drop (length bs) r.
Proof.
  unfold splice. rewrite to_nat_len, take_app_length.
  by rewrite <- drop_drop, drop_app_length.
Qed.

Lemma len_splice off bs l :
  0 ≤ off → off + len bs ≤ len l → len (splice off bs l) = len l.
Proof.
  unfold splice, len. intros. rewrite !length_app, length_take, length_drop. lia.
Qed.

Lemma byte_at_splice_out off bs l i :
  0 ≤ off → off + len bs ≤ len l → 0 ≤ i → i < off ∨ off + len bs ≤ i →
  byte_at (splice off bs l) i = byte_at l i.
Proof.
  unfold byte_at, splice, len. intros Hoff Hlen Hi Hout.
  rewrite !nth_lookup. f_equal. destruct Hout.
  - rewrite lookup_app_l by (rewrite length_take; lia).
    by rewrite lookup_take_lt by lia.
  - rewrite lookup_app_r by (rewrite length_take; lia).
    rewrite lookup_app_r by (rewrite length_take; lia).
    rewrite lookup_drop. f_equal. rewrite length_take. lia.
Qed.

Lemma len_slice a n l : 0 ≤ a → 0 ≤ n → a + n ≤ len l → len (slice a n l) = n.
Proof.
  unfold slice, len. intros. rewrite length_take, length_drop. lia.
Qed.

Lemma byte_at_slice a n l i :
  0 ≤ a → 0 ≤ i < n → byte_at (slice a n l) i = byte_at l (a + i).
Proof.
  unfold byte_at, slice. intros. rewrite !nth_lookup. f_equal.
  rewrite lookup_take_lt by lia. rewrite lookup_drop. f_equal. lia.
Qed.

Lemma byte_at_app_l w l i : 0 ≤ i < len w → byte_at (w ++ l) i = byte_at w i.
Proof.
  intros. unfold byte_at, len in *. rewrite !nth_lookup. f_equal.
  apply lookup_app_l. lia.
Qed.

Lemma byte_at_app_r w l i : 0 ≤ i → byte_at (w ++ l) (len w + i) = byte_at l i.
Proof.
  intros. unfold byte_at, len. rewrite !nth_lookup. f_equal.
  rewrite lookup_app_r by lia. f_equal. lia.
Qed.

Lemma byte_at_byte l i : is_bytes l → is_byte (byte_at l i).
Proof.
  intros H. unfold byte_at. rewrite nth_lookup.
  destruct (l !! Z.to_nat i) as [b|] eqn:E; simpl; [|done].
  by eapply Forall_lookup in H.
Qed.

Lemma get_be32_range b0 b1 b2 b3 :
  is_byte b0 → is_byte b1 → is_byte b2 → is_byte b3 → is_u32 (get_be32 b0 b1 b2 b3).
Proof. intros. rewrite get_be32_sum by done. unfold is_byte, is_u32 in *. lia. Qed.

Lemma be32_at_range l i : is_bytes l → is_u32 (be32_at l i).
Proof. intros. unfold be32_at. apply get_be32_range; by apply byte_at_byte. Qed.

Lemma le32_at_range l i : is_bytes l → is_u32 (le32_at l i).
Proof. intros. unfold le32_at. apply get_be32_range; by apply byte_at_byte. Qed.

Lemma be32_at_put w v r : be32_at (w ++ put_be32 v ++ r) (len w) = u32 v.
Proof.
  unfold be32_at.
  rewrite <- (Z.add_0_r (len w)) at 1. rewrite !byte_at_app_r by lia.
  apply get_put_be32.
Qed.

Lemma le32_at_put w v r : le32_at (w ++ put_le32 v ++ r) (len w) = u32 v.
Proof.
  unfold le32_at. rewrite <- (Z.add_0_r (len w)) at 4. rewrite !byte_at_app_r by lia.
  apply get_put_be32.
Qed.

Lemma le16_at_put w v r : le16_at (w ++ put_le16 v ++ r) (len w) = u16 v.
Proof.
  unfold le16_at. rewrite <- (Z.add_0_r (len w)) at 2. rewrite !byte_at_app_r by lia.
  change (byte_at _ 1) with (u8 (v ≫ 8)). change (byte_at _ 0) with (u8 v).
  rewrite lor_shiftl_add by (try apply u8_byte; lia).
  rewrite shiftr_div by lia. unfold u8, u16. zdivmod.
Qed.

(** The same at a position given as a number. *)
Lemma le32_at_pos w v r p : p = len w → is_u32 v → le32_at (w ++ put_le32 v ++ r) p = v.
Proof. intros -> Hv. rewrite le32_at_put. by apply u32_id. Qed.
Lemma le16_at_pos w v r p : p = len w → is_u16 v → le16_at (w ++ put_le16 v ++ r) p = v.
Proof. intros -> Hv. rewrite le16_at_put. by apply u16_id. Qed.
Lemma le32_at_0 v r : is_u32 v → le32_at (put_le32 v ++ r) 0 = v.
Proof. by apply (le32_at_pos []). Qed.

Lemma be32_at_put_0 v r : be32_at (put_be32 v ++ r) 0 = u32 v.
Proof. apply (be32_at_put []). Qed.

Lemma put_be32_bytes v : is_bytes (put_be32 v).
Proof. repeat constructor; auto with cmodel; apply u8_byte. Qed.

Lemma be_words_cons v ws : be_words (v :: ws) = put_be32 v ++ be_words ws.
Proof. done. Qed.

Lemma be_words_app ws1 ws2 : be_words (ws1 ++ ws2) = be_words ws1 ++ be_words ws2.
Proof. apply flat_map_app. Qed.

Lemma len_be_words ws : len (be_words ws) = 4 * Z.of_nat (length ws).
Proof.
  induction ws as [|v ws IH]; [done|].
  rewrite be_words_cons, len_app, IH. change (len (put_be32 v)) with 4. simpl length. lia.
Qed.

Lemma be_words_bytes ws : is_bytes (be_words ws).
Proof.
  induction ws as [|v ws IH]; [constructor|].
  rewrite be_words_cons. apply Forall_app. split; [apply put_be32_bytes|done].
Qed.

Lemma be32_at_words ws r i v :
  ws !! i = Some v → be32_at (be_words ws ++ r) (4 * Z.of_nat i) = u32 v.
Proof.
  intros Hi. pose proof (lookup_lt_Some _ _ _ Hi).
  rewrite <- (take_drop_middle ws i v Hi), be_words_app, be_words_cons, <- !app_assoc.
  replace (4 * Z.of_nat i) with (len (be_words (take i ws))); [apply be32_at_put|].
  rewrite len_be_words, length_take. lia.
Qed.

Lemma be32_at_app_l w l i : 0 ≤ i → i + 4 ≤ len w → be32_at (w ++ l) i = be32_at w i.
Proof. intros. unfold be32_at. by rewrite !byte_at_app_l by lia. Qed.

Lemma slice_app_l w l i n : 0 ≤ i → 0 ≤ n → i + n ≤ len w → slice i n (w ++ l) = slice i n w.
Proof.
  intros. unfold slice, len in *. rewrite drop_app_le by lia.
  apply take_app_le. rewrite length_drop. lia.
Qed.

Lemma map_lookup_seq (l : list Z) : map (λ t, l !!! t) (seq 0 (length l)) = l.
Proof.
  apply list_eq_same_length with (length l); [done|by rewrite length_map, length_seq|].
  intros i x y Hi Hx Hy. rewrite list_lookup_fmap, lookup_seq_lt in Hx by done.
  simplify_eq/=. by apply list_lookup_total_correct.
Qed.

#[global] Arguments u8 : simpl never.
#[global] Arguments u16 : simpl never.
#[global] Arguments u32 : simpl never.
#[global] Arguments u64 : simpl never.
#[global] Arguments s16 : simpl never.
#[global] Arguments s32 : simpl never.
#[global] Arguments s64 : simpl never.
#[global] Arguments len : simpl never.
#[global] Arguments slice : simpl never.
#[global] Arguments splice : simpl never.
#[global] Arguments byte_at : simpl never.
#[global] Arguments be32_at : simpl never.
#[global] Arguments le32_at : simpl never.
#[global] Arguments le16_at : simpl never.
#[global] Arguments le64_at : simpl never.
#[global] Arguments put_be32 : simpl never.
#[global] Arguments get_be32 : simpl never.
#[global] Arguments put_le32 : simpl never.
#[global] Arguments put_le16 : simpl never.
#[global] Arguments put_le64 : simpl never.
#[global] Arguments be_words : simpl never.
