(* ===== verification/Struct.v ===== *)
(** * Python's [struct]

    [struct.pack] and [struct.unpack_from] of the field codes the host programs
    use, in the network's order (no suffix) and in little endian ([le]).  A
    value out of the range of its field, or a buffer that is too short, raises
    [struct.error]: [None]. *)
From S2P Require Import Prelude.

Module Struct.
Definition pack_B (v : Z) : option (list Z) := if (0 <=? v) && (v <? 256) then Some [v] else None.
Definition pack_H (v : Z) : option (list Z) := if (0 <=? v) && (v <? 2 ^ 16) then Some [u8 (v ≫ 8); u8 v] else None.
Definition pack_I (v : Z) : option (list Z) := if (0 <=? v) && (v <? 2 ^ 32) then Some (put_be32 v) else None.
Definition pack_le_I (v : Z) : option (list Z) := if (0 <=? v) && (v <? 2 ^ 32) then Some (put_le32 v) else None.
Definition pack_le_H (v : Z) : option (list Z) := if (0 <=? v) && (v <? 2 ^ 16) then Some (put_le16 v) else None.
Fixpoint pack (fields : list (option (list Z))) : option (list Z) :=
  match fields with
  | [] => Some []
  | f :: fields => b ← f; bs ← pack fields; Some (b ++ bs)
  end.
Definition unpack_I (buf : list Z) (off : Z) : option Z := if off + 4 <=? len buf then Some (be32_at buf off) else None.

(** [b[:32].ljust(32, b"\x00")]: the 32s field. *)
Definition ljust32 (b : list Z) : list Z := take 32 b ++ replicate (32 - length (take 32 b)) 0.
End Struct.

Ltac struct_field := intros Hv; by rewrite (proj2 (Z.leb_le _ _)), (proj2 (Z.ltb_lt _ _)) by lia.

Lemma pack_B_some v : is_byte v → Struct.pack_B v = Some [v].
Proof. unfold is_byte, Struct.pack_B. struct_field. Qed.
Lemma pack_H_some v : is_u16 v → Struct.pack_H v = Some [u8 (v ≫ 8); u8 v].
Proof. unfold is_u16, Struct.pack_H. struct_field. Qed.
Lemma pack_I_some v : is_u32 v → Struct.pack_I v = Some (put_be32 v).
Proof. unfold is_u32, Struct.pack_I. struct_field. Qed.
Lemma pack_le_I_some v : is_u32 v → Struct.pack_le_I v = Some (put_le32 v).
Proof. unfold is_u32, Struct.pack_le_I. struct_field. Qed.
Lemma pack_le_H_some v : is_u16 v → Struct.pack_le_H v = Some (put_le16 v).
Proof. unfold is_u16, Struct.pack_le_H. struct_field. Qed.

Lemma ljust_full b : length b = 32%nat → Struct.ljust32 b = b.
Proof. intros Hb. unfold Struct.ljust32. rewrite take_ge by lia. rewrite Hb. cbn. by rewrite app_nil_r. Qed.
