(* ===== verification/Xdr.v ===== *)
(** XDR streams over memory (user/xdr.c, user/xdr.h).

    The state of a stream is the [XDR] handle with its private record and the
    memory its pointers address.  A pointer is an offset into [mem]; a load or
    store outside [mem] faults.  Every [xdr_*] routine takes the object it is
    given a pointer to and returns the C result (0 or 1 as a [bool]) with the
    object's new value. *)
From S2P Require Import Prelude.

(** ** Data *)

Inductive xdr_op :=
  | XDR_ENCODE
  | XDR_DECODE
  | XDR_FREE.

#[export] Instance xdr_op_eq_dec : EqDecision xdr_op.
Proof. solve_decision. Defined.

Record xdrmem_private := Priv {
  pv_buf : Z;
  pv_ptr : Z;
  pv_end : Z;
  pv_op : xdr_op;
}.

(** [x_ops] is whether the operation table has been set (to [xdrmem_ops]). *)
Record XDR := mkXDR {
  x_op : xdr_op;
  x_ops : bool;
  x_private : option xdrmem_private;
  x_base : Z;
  x_handy : Z;
}.

Record xst := Xst { mem : list Z; xdrs : XDR }.

Definition X : Type → Type := M xst.

(** ** Memory *)

Definition load_bytes (a n : Z) : X (list Z) := λ s,
  if (0 <=? a) && (0 <=? n) && (a + n <=? len (mem s))
  then Some (slice a n (mem s), s) else None.

Definition store_bytes (a : Z) (bs : list Z) : X unit := λ s,
  if (0 <=? a) && (a + len bs <=? len (mem s))
  then Some (tt, Xst (splice a bs (mem s)) (xdrs s)) else None.

Definition priv : X xdrmem_private := λ s,
  match x_private (xdrs s) with Some p => Some (p, s) | None => None end.

Definition set_ptr (q : Z) : X unit := λ s,
  match x_private (xdrs s) with
  | Some p =>
      let x := xdrs s in
      Some (tt, Xst (mem s) (mkXDR (x_op x) (x_ops x)
                  (Some (Priv (pv_buf p) q (pv_end p) (pv_op p))) (x_base x) (x_handy x)))
  | None => None
  end.

(** A call through [xdrs->x_ops]. *)
Definition via_ops {A} (m : X A) : X A := λ s, if x_ops (xdrs s) then m s else None.

(** ** The memory stream *)

Definition xdrmem_getlong : X (option Z) :=
  let* p := priv in
  if pv_end p <? pv_ptr p + 4 then ret None
  else let* b := load_bytes (pv_ptr p) 4 in
       set_ptr (pv_ptr p + 4) ;;*
       ret (Some (get_be32 (byte_at b 0) (byte_at b 1) (byte_at b 2) (byte_at b 3))).

Definition xdrmem_putlong (l : Z) : X bool :=
  let* p := priv in
  if pv_end p <? pv_ptr p + 4 then ret false
  else store_bytes (pv_ptr p) (put_be32 l) ;;*
       set_ptr (pv_ptr p + 4) ;;*
       ret true.

(** The bytes [memmove]d to [addr], or [None] for the return value 0. *)
Definition xdrmem_getbytes (n : Z) : X (option (list Z)) :=
  let* p := priv in
  if pv_end p <? pv_ptr p + n then ret None
  else let* b := load_bytes (pv_ptr p) n in
       set_ptr (pv_ptr p + n) ;;*
       ret (Some b).

Definition xdrmem_putbytes (bs : list Z) (n : Z) : X bool :=
  let* p := priv in
  if pv_end p <? pv_ptr p + n then ret false
  else store_bytes (pv_ptr p) (take (Z.to_nat n) bs) ;;*
       set_ptr (pv_ptr p + n) ;;*
       ret true.

Definition xdrmem_getpos : X Z :=
  let* p := priv in ret (u32 (pv_ptr p - pv_buf p)).

Definition xdrmem_setpos (pos : Z) : X bool :=
  let* p := priv in
  let newptr := pv_buf p + pos in
  if (newptr <? pv_buf p) || (pv_end p <? newptr) then ret false
  else set_ptr newptr ;;* ret true.

(** The address handed out, or [None] for a null pointer.  [n] is an [int]. *)
Definition xdrmem_inline (n : Z) : X (option Z) :=
  let* p := priv in
  if pv_ptr p + n <=? pv_end p
  then set_ptr (pv_ptr p + n) ;;* ret (Some (pv_ptr p))
  else ret None.

(** Frees the private record: the handle must not be used afterwards. *)
Definition xdrmem_destroy : X unit :=
  modify (λ s, let x := xdrs s in
               Xst (mem s) (mkXDR (x_op x) (x_ops x) None (x_base x) (x_handy x))).

(** [malloc_ok] is whether the allocation of the private record succeeds; when
    it does not, the handle is left as it was. *)
Definition xdrmem_create (malloc_ok : bool) (addr size : Z) (op : xdr_op) : X unit :=
  if malloc_ok
  then modify (λ s, Xst (mem s) (mkXDR op true (Some (Priv addr addr (addr + size) op)) 0 0))
  else ret tt.

(** ** Primitive routines *)

(** The switch shared by the routines that go through a [long]: [enc] and [dec]
    are the casts of the encoding and the decoding branch. *)
Definition xdr_via_long (enc dec : Z → Z) (v : Z) : X (bool * Z) :=
  let* o := gets (λ s, x_op (xdrs s)) in
  match o with
  | XDR_ENCODE => let* r := via_ops (xdrmem_putlong (enc v)) in ret (r, v)
  | XDR_DECODE =>
      let* r := via_ops xdrmem_getlong in
      match r with
      | None => ret (false, v)
      | Some l => ret (true, dec l)
      end
  | XDR_FREE => ret (true, v)
  end.

Definition xdr_void : X bool := ret true.
Definition xdr_bool : Z → X (bool * Z) :=
  xdr_via_long (λ b, if b =? 0 then 0 else 1) (λ l, if l =? 0 then 0 else 1).
Definition xdr_char : Z → X (bool * Z) := xdr_via_long u8 u8.
Definition xdr_u_char : Z → X (bool * Z) := xdr_via_long (λ c, c) u8.
Definition xdr_short : Z → X (bool * Z) := xdr_via_long (λ v, v) s16.
Definition xdr_u_short : Z → X (bool * Z) := xdr_via_long (λ v, v) u16.
Definition xdr_int : Z → X (bool * Z) := xdr_via_long (λ v, v) s32.
Definition xdr_u_int : Z → X (bool * Z) := xdr_via_long (λ v, v) u32.
Definition xdr_long : Z → X (bool * Z) := xdr_via_long (λ v, v) (λ l, l).
Definition xdr_u_long : Z → X (bool * Z) := xdr_via_long (λ v, v) (λ l, l).
Definition xdr_enum : Z → X (bool * Z) := xdr_via_long (λ v, v) s32.

Definition xdr_hyper (v : Z) : X (bool * Z) :=
  let* o := gets (λ s, x_op (xdrs s)) in
  match o with
  | XDR_ENCODE =>
      let* r0 := via_ops (xdrmem_putlong (v ≫ 32)) in
      if r0 : bool then let* r1 := via_ops (xdrmem_putlong v) in ret (r1, v)
      else ret (false, v)
  | XDR_DECODE =>
      let* r0 := via_ops xdrmem_getlong in
      match r0 with
      | None => ret (false, v)
      | Some t0 =>
          let* r1 := via_ops xdrmem_getlong in
          match r1 with
          | None => ret (false, v)
          | Some t1 => ret (true, s64 (Z.lor (u64 (t0 ≪ 32)) (Z.land t1 4294967295)))
          end
      end
  | XDR_FREE => ret (true, v)
  end.

(** The pointer cast reinterprets the unsigned object as a signed one. *)
Definition xdr_u_hyper (v : Z) : X (bool * Z) :=
  let* (r, w) := xdr_hyper (s64 v) in ret (r, u64 w).

(** [obj] is the memory from the [float *] on; the routine accesses it through
    a [long *], so it touches eight bytes. *)
Definition xdr_float (obj : list Z) : X (bool * list Z) :=
  let* o := gets (λ s, x_op (xdrs s)) in
  match o with
  | XDR_ENCODE =>
      if len obj <? 8 then fault
      else let* r := via_ops (xdrmem_putlong (s64 (le64_at obj 0))) in ret (r, obj)
  | XDR_DECODE =>
      let* r := via_ops xdrmem_getlong in
      match r with
      | None => ret (false, obj)
      | Some l => if len obj <? 8 then fault else ret (true, splice 0 (put_le64 l) obj)
      end
  | XDR_FREE => ret (true, obj)
  end.

(** [obj] is the memory from the [double *] on, accessed as two [long]s. *)
Definition xdr_double (obj : list Z) : X (bool * list Z) :=
  let* o := gets (λ s, x_op (xdrs s)) in
  match o with
  | XDR_ENCODE =>
      if len obj <? 16 then fault
      else let* r0 := via_ops (xdrmem_putlong (s64 (le64_at obj 0))) in
           if r0 : bool
           then let* r1 := via_ops (xdrmem_putlong (s64 (le64_at obj 8))) in ret (r1, obj)
           else ret (false, obj)
  | XDR_DECODE =>
      let* r0 := via_ops xdrmem_getlong in
      match r0 with
      | None => ret (false, obj)
      | Some t0 =>
          let* r1 := via_ops xdrmem_getlong in
          match r1 with
          | None => ret (false, obj)
          | Some t1 =>
              if len obj <? 16 then fault
              else ret (true, splice 8 (put_le64 t1) (splice 0 (put_le64 t0) obj))
          end
      end
  | XDR_FREE => ret (true, obj)
  end.

(** ** Utilities *)

(** A handle on the stack before [xdrmem_create]. *)
Definition xdr_uninit : XDR := mkXDR XDR_ENCODE false None 0 0.

(** [stack] is the 4096-byte local buffer; the size in bytes, or 0. *)
Definition xdr_sizeof (malloc_ok : bool) (stack : list Z) (func : X bool) : option Z :=
  match (xdrmem_create malloc_ok 0 4096 XDR_ENCODE ;;*
         let* r := func in
         if r : bool then via_ops xdrmem_getpos else ret 0)
        (Xst stack xdr_uninit) with
  | Some (n, _) => Some n
  | None => None
  end.

Definition xdr_free (malloc_ok : bool) (proc : X bool) : X unit :=
  xdrmem_create malloc_ok 0 0 XDR_FREE ;;*
  proc ;;*
  via_ops xdrmem_destroy.

(** ** Streams in normal form

    [strm op m p e] is a stream over the memory [m] with base 0, position [p]
    and end [e], as [xdrmem_create] makes it for the RPC layer. *)
Definition strm (op : xdr_op) (m : list Z) (p e : Z) : xst :=
  Xst m (mkXDR op true (Some (Priv 0 p e op)) 0 0).

(** The stream invariant: the operation table is set, and the position lies in
    the region, which lies in memory. *)
Definition stream_ok (s : xst) : Prop :=
  x_ops (xdrs s) = true ∧
  ∃ p, x_private (xdrs s) = Some p ∧
       0 ≤ pv_buf p ≤ pv_ptr p ∧ pv_ptr p ≤ pv_end p ≤ len (mem s).

(** What a call may do to a stream: the handle keeps its mode and region, and
    memory changes only inside the region. *)
Definition confined (s s' : xst) : Prop :=
  x_op (xdrs s') = x_op (xdrs s) ∧
  len (mem s') = len (mem s) ∧
  ∀ p p', x_private (xdrs s) = Some p → x_private (xdrs s') = Some p' →
    pv_buf p' = pv_buf p ∧ pv_end p' = pv_end p ∧
    ∀ i, 0 ≤ i → i < pv_buf p ∨ pv_end p ≤ i → byte_at (mem s') i = byte_at (mem s) i.

Definition safe {A} (m : X A) : Prop := ∀ s, stream_ok s →
  ∃ a s', m s = Some (a, s') ∧ stream_ok s' ∧ confined s s'.

(** The calls a client can make, as data. *)
Inductive xcall :=
  | Cscalar (f : Z → X (bool * Z)) (v : Z)
  | Chyper (v : Z)
  | Cu_hyper (v : Z)
  | Cfloat (obj : list Z)
  | Cdouble (obj : list Z)
  | Cgetbytes (n : Z)
  | Cputbytes (bs : list Z)
  | Cgetpos
  | Csetpos (pos : Z)
  | Cinline (n : Z).

Definition scalars : list (Z → X (bool * Z)) :=
  [xdr_bool; xdr_char; xdr_u_char; xdr_short; xdr_u_short; xdr_int; xdr_u_int;
   xdr_long; xdr_u_long; xdr_enum].

Definition run_xcall (c : xcall) : X unit :=
  match c with
  | Cscalar f v => f v ;;* ret tt
  | Chyper v => xdr_hyper v ;;* ret tt
  | Cu_hyper v => xdr_u_hyper v ;;* ret tt
  | Cfloat obj => xdr_float obj ;;* ret tt
  | Cdouble obj => xdr_double obj ;;* ret tt
  | Cgetbytes n => via_ops (xdrmem_getbytes n) ;;* ret tt
  | Cputbytes bs => via_ops (xdrmem_putbytes bs (len bs)) ;;* ret tt
  | Cgetpos => via_ops xdrmem_getpos ;;* ret tt
  | Csetpos pos => via_ops (xdrmem_setpos pos) ;;* ret tt
  | Cinline n => via_ops (xdrmem_inline n) ;;* ret tt
  end.

(** The arguments: a scalar routine of xdr.c, unsigned lengths and positions as the
    C types have them, a non-negative inline length (an [int] in the code, a negative
    one moves the cursor before the region), and the eight or sixteen bytes behind
    the pointer that [xdr_float] and [xdr_double] access. *)
Definition xcall_ok (c : xcall) : Prop :=
  match c with
  | Cscalar f _ => f ∈ scalars
  | Cgetbytes n | Csetpos n | Cinline n => 0 ≤ n
  | Cfloat obj => 8 ≤ len obj
  | Cdouble obj => 16 ≤ len obj
  | _ => True
  end.

Fixpoint run_xcalls (cs : list xcall) : X unit :=
  match cs with
  | [] => ret tt
  | c :: cs => run_xcall c ;;* run_xcalls cs
  end.

(** ** Lemmas *)

Lemma confined_refl s : confined s s.
Proof. split_and!; [done..|]. intros p p' H1 H2. by simplify_eq. Qed.

Lemma safe_ret {A} (a : A) : safe (ret a).
Proof. intros s H. exists a, s. split_and!; auto using confined_refl. Qed.

Lemma safe_bind {A B} (m : X A) (k : A → X B) :
  safe m → (∀ a, safe (k a)) → safe (bind m k).
Proof.
  intros Hm Hk s Hs. destruct (Hm s Hs) as (a & s1 & E1 & Hs1 & O1 & L1 & C1).
  destruct (Hk a s1 Hs1) as (b & s2 & E2 & Hs2 & O2 & L2 & C2).
  exists b, s2. unfold bind. rewrite E1. split; [done|]. split; [done|].
  split_and!; [congruence..|].
  intros p p2 Hp Hp2. destruct Hs1 as (_ & p1 & Hp1 & _).
  destruct (C1 _ _ Hp Hp1) as (B1 & N1 & F1), (C2 _ _ Hp1 Hp2) as (B2 & N2 & F2).
  split_and!; [congruence..|]. intros i Hi Hout.
  rewrite F2, F1; auto. rewrite B1, N1. auto.
Qed.

Lemma safe_via_ops {A} (m : X A) : safe m → safe (via_ops m).
Proof. intros Hm s Hs. unfold via_ops. rewrite (proj1 Hs). auto. Qed.

Lemma safe_gets {A} (f : xst → A) : safe (gets f).
Proof. intros s H. exists (f s), s. split_and!; auto using confined_refl. Qed.

(** A stream operation that reads its record [p] and continues. *)
Lemma safe_priv {A} (k : xdrmem_private → X A) :
  (∀ s p, stream_ok s → x_private (xdrs s) = Some p →
    ∃ a s', k p s = Some (a, s') ∧ stream_ok s' ∧ confined s s') →
  safe (bind priv k).
Proof.
  intros Hk s Hs. destruct Hs as (Ho & p & Hp & Hb).
  unfold bind, priv. rewrite Hp. apply Hk; [|done]. split; eauto.
Qed.

Lemma stream_ok_priv s p : stream_ok s → x_private (xdrs s) = Some p →
  0 ≤ pv_buf p ≤ pv_ptr p ∧ pv_ptr p ≤ pv_end p ≤ len (mem s).
Proof. intros (_ & p' & Hp' & Hb) Hp. by simplify_eq. Qed.

(** Moving the position inside the region, with memory [m'] that differs only
    inside it. *)
Lemma move_ok s p q m' :
  stream_ok s → x_private (xdrs s) = Some p →
  pv_buf p ≤ q ≤ pv_end p → len m' = len (mem s) →
  (∀ i, 0 ≤ i → i < pv_buf p ∨ pv_end p ≤ i → byte_at m' i = byte_at (mem s) i) →
  ∃ s', set_ptr q (Xst m' (xdrs s)) = Some (tt, s') ∧ stream_ok s' ∧ confined s s'.
Proof.
  intros Hs Hp Hq Hlen Hf. pose proof (stream_ok_priv s p Hs Hp).
  unfold set_ptr. simpl. rewrite Hp. eexists. split; [done|]. split.
  - split; [apply Hs|]. eexists. split; [done|]. simpl. lia.
  - split_and!; [done..|]. intros ? ? ? ?; simplify_eq/=. auto.
Qed.

Lemma safe_getbytes n : 0 ≤ n → safe (xdrmem_getbytes n).
Proof.
  intros Hn. apply safe_priv. intros s p Hs Hp. simpl.
  case_bool; [eexists _, s; split_and!; auto using confined_refl|].
  pose proof (stream_ok_priv s p Hs Hp) as Hb.
  destruct (move_ok s p (pv_ptr p + n) (mem s)) as (s' & E & ? & ?); auto; [lia|].
  unfold bind, load_bytes, ret. destruct s as [m x]. simpl in *.
  replace ((0 <=? pv_ptr p) && (0 <=? n) && (pv_ptr p + n <=? len m)) with true by lia.
  rewrite E. eauto.
Qed.

Lemma safe_getlong : safe xdrmem_getlong.
Proof.
  apply safe_priv. intros s p Hs Hp. simpl.
  case_bool; [eexists _, s; split_and!; auto using confined_refl|].
  pose proof (stream_ok_priv s p Hs Hp) as Hb.
  destruct (move_ok s p (pv_ptr p + 4) (mem s)) as (s' & E & ? & ?); auto; [lia|].
  unfold bind, load_bytes, ret. destruct s as [m x]. simpl in *.
  replace ((0 <=? pv_ptr p) && (pv_ptr p + 4 <=? len m)) with true by lia.
  rewrite andb_true_r, ?E. simpl.
  replace ((0 <=? pv_ptr p) && (pv_ptr p + 4 <=? len m)) with true by lia.
  rewrite E. eauto.
Qed.

Lemma safe_store bs :
  safe (let* p := priv in
        if pv_end p <? pv_ptr p + len bs then ret false
        else store_bytes (pv_ptr p) bs ;;* set_ptr (pv_ptr p + len bs) ;;* ret true).
Proof.
  apply safe_priv. intros s p Hs Hp. simpl.
  case_bool; [eexists _, s; split_and!; auto using confined_refl|].
  pose proof (stream_ok_priv s p Hs Hp) as Hb. pose proof (len_nonneg bs).
  destruct (move_ok s p (pv_ptr p + len bs) (splice (pv_ptr p) bs (mem s)))
    as (s' & E & ? & ?); auto; [lia|rewrite len_splice; lia|..].
  { intros. rewrite byte_at_splice_out; auto; lia. }
  unfold bind, store_bytes, ret. destruct s as [m x]. simpl in *.
  replace ((0 <=? pv_ptr p) && (pv_ptr p + len bs <=? len m)) with true by lia.
  rewrite E. eauto.
Qed.

Lemma safe_putlong l : safe (xdrmem_putlong l).
Proof. apply (safe_store (put_be32 l)). Qed.

Lemma safe_putbytes bs : safe (xdrmem_putbytes bs (len bs)).
Proof.
  pose proof (safe_store bs) as H. unfold xdrmem_putbytes.
  by rewrite to_nat_len, firstn_all.
Qed.

Lemma safe_inline n : 0 ≤ n → safe (xdrmem_inline n).
Proof.
  intros Hn. apply safe_priv. intros s p Hs Hp. simpl.
  case_bool; [|eexists _, s; split_and!; auto using confined_refl].
  pose proof (stream_ok_priv s p Hs Hp) as Hb.
  destruct (move_ok s p (pv_ptr p + n) (mem s)) as (s' & E & ? & ?); auto; [lia|].
  destruct s as [m x]. unfold bind, ret. simpl in *. rewrite E. eauto.
Qed.

Lemma safe_setpos pos : 0 ≤ pos → safe (xdrmem_setpos pos).
Proof.
  intros Hn. apply safe_priv. intros s p Hs Hp. simpl.
  pose proof (stream_ok_priv s p Hs Hp) as Hb.
  repeat case_bool; try (eexists _, s; split_and!; auto using confined_refl; done).
  destruct (move_ok s p (pv_buf p + pos) (mem s)) as (s' & E & ? & ?); auto.
  destruct s as [m x]. unfold bind, ret. simpl in *. rewrite E. eauto.
Qed.

Create HintDb xdr.
#[export] Hint Resolve safe_ret safe_gets safe_getbytes safe_getlong safe_putlong
  safe_putbytes safe_inline safe_setpos : xdr.

(** Safety of a composition: split the sequences and the branches, and close
    the stream operations with the lemmas above. *)
Ltac xdr_safe :=
  repeat (intros;
    match goal with
    | |- safe (bind priv _) => fail 1
    | |- safe (bind _ _) => apply safe_bind
    | |- safe (via_ops _) => apply safe_via_ops
    | |- safe (match ?x with _ => _ end) => destruct x
    | _ => solve [auto with xdr]
    end).

Lemma safe_via_long enc dec v : safe (xdr_via_long enc dec v).
Proof. unfold xdr_via_long. xdr_safe. Qed.

Lemma safe_hyper v : safe (xdr_hyper v).
Proof. unfold xdr_hyper. xdr_safe. Qed.

Lemma safe_u_hyper v : safe (xdr_u_hyper v).
Proof. unfold xdr_u_hyper. apply safe_bind; [apply safe_hyper|xdr_safe]. Qed.

Lemma safe_float obj : 8 ≤ len obj → safe (xdr_float obj).
Proof. intros Hl. unfold xdr_float. rewrite (proj2 (Z.ltb_ge _ _)) by done. xdr_safe. Qed.

Lemma safe_double obj : 16 ≤ len obj → safe (xdr_double obj).
Proof. intros Hl. unfold xdr_double. rewrite (proj2 (Z.ltb_ge _ _)) by done. xdr_safe. Qed.

Lemma safe_getpos : safe xdrmem_getpos.
Proof.
  apply safe_priv. intros s p Hs Hp.
  eexists _, s. split_and!; auto using confined_refl.
Qed.

Lemma safe_scalar f v : f ∈ scalars → safe (f v).
Proof.
  unfold scalars. rewrite !elem_of_cons.
  intros Hf. destruct_or! Hf; subst; try apply safe_via_long. by apply not_elem_of_nil in Hf.
Qed.

#[export] Hint Resolve safe_hyper safe_u_hyper safe_float safe_double safe_getpos safe_scalar : xdr.

Lemma safe_run_xcall c : xcall_ok c → safe (run_xcall c).
Proof. destruct c; simpl; intros; xdr_safe. Qed.

Lemma safe_run_xcalls cs : Forall xcall_ok cs → safe (run_xcalls cs).
Proof. induction 1; simpl; [apply safe_ret|]. apply safe_bind; auto using safe_run_xcall. Qed.

(** *** The stream operations on a normal-form stream *)

Lemma strm_ok op m p e : 0 ≤ p ≤ e → e ≤ len m → stream_ok (strm op m p e).
Proof. intros. split; [done|]. eexists. split; [done|]. simpl. lia. Qed.

Lemma putlong_strm op w r e v :
  len w + 4 ≤ e → e ≤ len (w ++ r) →
  via_ops (xdrmem_putlong v) (strm op (w ++ r) (len w) e) =
    Some (true, strm op ((w ++ put_be32 v) ++ drop 4 r) (len (w ++ put_be32 v)) e).
Proof.
  intros He Hr. pose proof (len_nonneg w).
  unfold via_ops, xdrmem_putlong, bind, priv, store_bytes, strm, set_ptr, ret. simpl.
  if_false. simpl. rewrite len_put_be32. if_true. simpl.
  rewrite splice_app, len_app, len_put_be32, <- app_assoc. done.
Qed.

Lemma putlong_strm_full op m p e v :
  e < p + 4 → via_ops (xdrmem_putlong v) (strm op m p e) = Some (false, strm op m p e).
Proof.
  intros. unfold via_ops, xdrmem_putlong, bind, priv, strm. simpl. case_bool; [done|lia].
Qed.

Lemma getlong_strm op m p e :
  0 ≤ p → p + 4 ≤ e → e ≤ len m →
  via_ops xdrmem_getlong (strm op m p e) = Some (Some (be32_at m p), strm op m (p + 4) e).
Proof.
  intros. unfold via_ops, xdrmem_getlong, bind, priv, load_bytes, strm, set_ptr, ret. simpl.
  if_false. simpl. if_true. simpl.
  rewrite !byte_at_slice by lia. unfold be32_at. by rewrite Z.add_0_r.
Qed.

Lemma getlong_strm_short op m p e :
  e < p + 4 → via_ops xdrmem_getlong (strm op m p e) = Some (None, strm op m p e).
Proof.
  intros. unfold via_ops, xdrmem_getlong, bind, priv, strm. simpl. case_bool; [done|lia].
Qed.

Lemma via_long_encode enc dec w r e v :
  len w + 4 ≤ e → e ≤ len (w ++ r) →
  xdr_via_long enc dec v (strm XDR_ENCODE (w ++ r) (len w) e) =
    Some ((true, v), strm XDR_ENCODE ((w ++ put_be32 (enc v)) ++ drop 4 r)
                          (len (w ++ put_be32 (enc v))) e).
Proof.
  intros. unfold xdr_via_long, gets, bind at 1. simpl. unfold bind.
  by rewrite putlong_strm.
Qed.

Lemma via_long_encode_full enc dec m p e v :
  e < p + 4 →
  xdr_via_long enc dec v (strm XDR_ENCODE m p e) = Some ((false, v), strm XDR_ENCODE m p e).
Proof.
  intros. unfold xdr_via_long, gets, bind at 1. simpl. unfold bind.
  by rewrite putlong_strm_full.
Qed.

Lemma via_long_decode enc dec m p e v :
  0 ≤ p → p + 4 ≤ e → e ≤ len m →
  xdr_via_long enc dec v (strm XDR_DECODE m p e) =
    Some ((true, dec (be32_at m p)), strm XDR_DECODE m (p + 4) e).
Proof.
  intros. unfold xdr_via_long, gets, bind at 1. simpl. unfold bind.
  by rewrite getlong_strm.
Qed.

Lemma via_long_decode_short enc dec m p e v :
  e < p + 4 →
  xdr_via_long enc dec v (strm XDR_DECODE m p e) = Some ((false, v), strm XDR_DECODE m p e).
Proof.
  intros. unfold xdr_via_long, gets, bind at 1. simpl. unfold bind.
  by rewrite getlong_strm_short.
Qed.

Lemma putbytes_strm op w r e bs :
  len w + len bs ≤ e → e ≤ len (w ++ r) →
  via_ops (xdrmem_putbytes bs (len bs)) (strm op (w ++ r) (len w) e) =
    Some (true, strm op ((w ++ bs) ++ drop (length bs) r) (len (w ++ bs)) e).
Proof.
  intros He Hr. pose proof (len_nonneg w).
  unfold via_ops, xdrmem_putbytes, bind, priv, store_bytes, strm, set_ptr, ret. simpl.
  if_false. simpl. rewrite to_nat_len, firstn_all. if_true. simpl.
  rewrite splice_app, len_app, <- app_assoc. done.
Qed.

Lemma putbytes_strm_full op m p e bs :
  e < p + len bs →
  via_ops (xdrmem_putbytes bs (len bs)) (strm op m p e) = Some (false, strm op m p e).
Proof. intros. unfold via_ops, xdrmem_putbytes, bind, priv, strm. simpl. by if_true. Qed.

Lemma getbytes_strm op m p e n :
  0 ≤ p → 0 ≤ n → p + n ≤ e → e ≤ len m →
  via_ops (xdrmem_getbytes n) (strm op m p e) = Some (Some (slice p n m), strm op m (p + n) e).
Proof.
  intros. unfold via_ops, xdrmem_getbytes, bind, priv, load_bytes, strm, set_ptr, ret. simpl.
  if_false. simpl. by if_true.
Qed.

Lemma getbytes_strm_short op m p e n :
  e < p + n → via_ops (xdrmem_getbytes n) (strm op m p e) = Some (None, strm op m p e).
Proof. intros. unfold via_ops, xdrmem_getbytes, bind, priv, strm. simpl. by if_true. Qed.

Lemma getpos_strm op m p e :
  via_ops xdrmem_getpos (strm op m p e) = Some (u32 p, strm op m p e).
Proof. unfold via_ops, xdrmem_getpos, bind, priv, ret, strm. simpl. by rewrite Z.sub_0_r. Qed.

(** *** Round trips

    Encodes [v] at the start of [buf], then decodes the same memory into an
    object that held [v0]. *)
Definition xdr_roundtrip (f : Z → X (bool * Z)) (v v0 : Z) (buf : list Z) : option (bool * Z) :=
  match (xdrmem_create true 0 (len buf) XDR_ENCODE ;;*
         let* (r, _) := f v in
         if r : bool
         then xdrmem_create true 0 (len buf) XDR_DECODE ;;* f v0
         else ret (false, v0)) (Xst buf xdr_uninit) with
  | Some (res, _) => Some res
  | None => None
  end.

(** The routines that carry every value of their C type, with the type. *)
Definition scalar_types : list ((Z → X (bool * Z)) * (Z → Prop)) :=
  [(xdr_bool, λ v, v = 0 ∨ v = 1); (xdr_char, is_byte); (xdr_u_char, is_byte);
   (xdr_short, λ v, - 2 ^ 15 ≤ v < 2 ^ 15); (xdr_u_short, is_u16);
   (xdr_int, λ v, - 2 ^ 31 ≤ v < 2 ^ 31); (xdr_u_int, is_u32);
   (xdr_enum, λ v, - 2 ^ 31 ≤ v < 2 ^ 31);
   (xdr_hyper, λ v, - 2 ^ 63 ≤ v < 2 ^ 63); (xdr_u_hyper, λ v, 0 ≤ v < 2 ^ 64)].

Lemma create_strm n op s : xdrmem_create true 0 n op s = Some (tt, strm op (mem s) 0 n).
Proof. done. Qed.

Lemma gets_op_strm op m p e :
  gets (λ s, x_op (xdrs s)) (strm op m p e) = Some (op, strm op m p e).
Proof. done. Qed.

Lemma mem_strm op m p e : mem (strm op m p e) = m.
Proof. done. Qed.

Lemma via_long_roundtrip enc dec v v0 buf :
  4 ≤ len buf →
  xdr_roundtrip (xdr_via_long enc dec) v v0 buf = Some (true, dec (u32 (enc v))).
Proof.
  intros. unfold xdr_roundtrip. mstep by apply create_strm.
  mstep by (apply (via_long_encode enc dec [] buf (len buf)); simpl; lia_len).
  mstep by apply create_strm. rewrite mem_strm, app_nil_l.
  rewrite via_long_decode; [by rewrite be32_at_put_0|lia|lia|].
  rewrite len_app, len_put_be32, len_drop; lia_len.
Qed.

Lemma hyper_halves v :
  s64 (Z.lor (u64 (u32 (v ≫ 32) ≪ 32)) (Z.land (u32 v) 4294967295)) = s64 v.
Proof.
  change 4294967295 with (Z.ones 32). rewrite Z.land_ones by lia.
  rewrite shiftr_div, Z.shiftl_mul_pow2 by lia.
  assert (E : u64 (u32 (v / 2 ^ 32) * 2 ^ 32) = u32 (v / 2 ^ 32) ≪ 32).
  { rewrite Z.shiftl_mul_pow2 by lia. apply Z.mod_small. unfold u32. zdivmod. }
  rewrite E, lor_shiftl_add by (try apply Z.mod_pos_bound; lia).
  unfold s64, u32. zdivmod.
Qed.

Lemma hyper_roundtrip v v0 buf :
  8 ≤ len buf → xdr_roundtrip xdr_hyper v v0 buf = Some (true, s64 v).
Proof.
  intros. unfold xdr_roundtrip. mstep by apply create_strm.
  erewrite bind_run.
  2: { unfold xdr_hyper, gets, bind at 1. simpl.
       mstep by (apply (putlong_strm XDR_ENCODE [] buf (len buf)); simpl; lia_len).
       mstep by (apply putlong_strm; rewrite ?len_app, ?len_drop, ?len_put_be32; lia_len).
       rewrite drop_drop. change (4 + 4)%nat with 8%nat. reflexivity. }
  cbv beta iota. mstep by apply create_strm. rewrite mem_strm, app_nil_l.
  assert (L : len ((put_be32 (v ≫ 32) ++ put_be32 v) ++ drop 8 buf) = len buf).
  { rewrite !len_app, !len_put_be32, len_drop; lia_len. }
  unfold xdr_hyper. mstep by apply gets_op_strm.
  mstep by (apply getlong_strm; lia). mstep by (apply getlong_strm; lia).
  rewrite <- app_assoc, be32_at_put_0.
  change (0 + 4) with (len (put_be32 (v ≫ 32))). rewrite be32_at_put.
  unfold ret. by rewrite hyper_halves.
Qed.

Lemma u_hyper_roundtrip v v0 buf :
  8 ≤ len buf → xdr_roundtrip xdr_u_hyper v v0 buf = Some (true, u64 (s64 v)).
Proof.
  intros Hl. pose proof (hyper_roundtrip (s64 v) (s64 v0) buf Hl) as H. revert H.
  unfold xdr_roundtrip, xdr_u_hyper, bind, xdrmem_create, modify, ret.
  destruct (xdr_hyper (s64 v) _) as [[[[] w] s]|]; simpl; [|done..].
  destruct (xdr_hyper (s64 v0) _) as [[[r w'] s']|]; simpl; [|done].
  intros [= -> ->]. f_equal. f_equal. unfold u64, s64. zdivmod.
Qed.

Lemma scalar_roundtrip f P v v0 buf :
  (f, P) ∈ scalar_types → P v → 8 ≤ len buf → xdr_roundtrip f v v0 buf = Some (true, v).
Proof.
  intros Hin HP Hlen. unfold scalar_types in Hin. rewrite !elem_of_cons in Hin.
  destruct_or! Hin; simplify_eq; [..|by apply not_elem_of_nil in Hin].
  1-8: unfold xdr_bool, xdr_char, xdr_u_char, xdr_short, xdr_u_short, xdr_int, xdr_u_int, xdr_enum;
    rewrite via_long_roundtrip by lia; do 2 f_equal.
  1: by destruct HP as [-> | ->].
  1-7: unfold is_byte, is_u16, is_u32 in HP; unfold u8, s16, u16, s32, u32; zdivmod.
  - rewrite hyper_roundtrip by done. by rewrite s64_id.
  - rewrite u_hyper_roundtrip by done. do 2 f_equal. unfold u64, s64. zdivmod.
Qed.

(** ** Properties *)

(** C40: A client that makes any sequence of XDR calls (scalars, hypers, raw
    bytes, position queries and moves, inline requests of non-negative length,
    floats with eight and doubles with sixteen accessible bytes behind the pointer)
    on a well-formed stream never faults: every call returns, the stream stays
    well-formed, its mode and region do not change, and no byte of memory
    outside the region handed to [xdrmem_create] is modified. *)
Theorem xdr_calls_confined (cs : list xcall) (s : xst) :
  Forall xcall_ok cs → stream_ok s →
  ∃ s', run_xcalls cs s = Some (tt, s') ∧ stream_ok s' ∧ confined s s'.
Proof.
  intros Hcs Hs. destruct (safe_run_xcalls cs Hcs s Hs) as ([] & s' & ? & ? & ?). eauto.
Qed.

Lemma xdr_calls_confined_witness :
  ∃ s', run_xcalls [Cscalar xdr_u_int 7; Cputbytes [1; 2; 3]; Chyper 5; Cfloat (replicate 8 1); Csetpos 0]
          (strm XDR_ENCODE (replicate 12 0) 0 12) = Some (tt, s') ∧ stream_ok s' ∧
        confined (strm XDR_ENCODE (replicate 12 0) 0 12) s'.
Proof.
  apply (xdr_calls_confined [Cscalar xdr_u_int 7; Cputbytes [1; 2; 3]; Chyper 5; Cfloat (replicate 8 1); Csetpos 0]).
  - rewrite !Forall_cons. split_and!; [simpl; unfold scalars; do 6 right; left|done..].
  - apply strm_ok; vm_compute; repeat split; discriminate.
Defined.

(** Every XDR routine that claims to carry a C type does: for each of the
    ten integer routines and every value of its C type, encoding the value into
    a buffer and decoding the same bytes succeeds and gives the value back,
    whatever the buffer and the target object held before. *)
Theorem xdr_scalar_roundtrip f P v v0 buf :
  (f, P) ∈ scalar_types → P v → 8 ≤ len buf → xdr_roundtrip f v v0 buf = Some (true, v).
Proof. apply scalar_roundtrip. Qed.

Lemma xdr_scalar_roundtrip_witness :
  xdr_roundtrip xdr_hyper (-5) 0 (replicate 8 255) = Some (true, -5).
Proof.
  apply (xdr_scalar_roundtrip xdr_hyper (λ v, - 2 ^ 63 ≤ v < 2 ^ 63)).
  - unfold scalar_types. do 8 right. left.
  - lia.
  - vm_compute. discriminate.
Defined.

(** [xdr_long] and [xdr_u_long] do not carry a 64-bit [long]: the value that
    comes back is the low 32 bits, read as an unsigned number, so a negative
    value and one of 2^32 or more come back changed although both calls report
    success. *)
Theorem xdr_long_truncates f v v0 buf :
  f = xdr_long ∨ f = xdr_u_long → 4 ≤ len buf →
  xdr_roundtrip f v v0 buf = Some (true, u32 v) ∧
  (xdr_roundtrip f v v0 buf = Some (true, v) ↔ 0 ≤ v < 2 ^ 32).
Proof.
  intros Hf Hb.
  assert (E : xdr_roundtrip f v v0 buf = Some (true, u32 v)).
  { destruct Hf as [-> | ->]; unfold xdr_long, xdr_u_long; by rewrite via_long_roundtrip. }
  rewrite E. split; [done|]. split; [|intros; by rewrite u32_id].
  intros [= Hv]. rewrite <- Hv. apply u32_range.
Qed.

Lemma xdr_long_truncates_witness :
  xdr_roundtrip xdr_long (-1) 0 (replicate 4 0) = Some (true, 4294967295).
Proof.
  apply (xdr_long_truncates xdr_long (-1) 0 (replicate 4 0)); [by left|].
  vm_compute. discriminate.
Defined.

(** [xdr_float] and [xdr_double] overrun their object.  Decoding into a
    [float] also zeroes the four bytes behind it, and on an object of exactly
    the size of a [float] (4) or a [double] (8) the access leaves the object:
    decoding and encoding fault whenever the stream has the word(s). *)
Theorem xdr_float_double_overrun obj m p e :
  is_bytes m → 0 ≤ p → p + 8 ≤ e → e ≤ len m →
  (8 ≤ len obj → ∃ obj', xdr_float obj (strm XDR_DECODE m p e) =
     Some ((true, obj'), strm XDR_DECODE m (p + 4) e) ∧ slice 4 4 obj' = [0; 0; 0; 0]) ∧
  (len obj = 4 → xdr_float obj (strm XDR_DECODE m p e) = None ∧
                 xdr_float obj (strm XDR_ENCODE m p e) = None) ∧
  (len obj = 8 → xdr_double obj (strm XDR_DECODE m p e) = None ∧
                 xdr_double obj (strm XDR_ENCODE m p e) = None).
Proof.
  intros Hb Hp He Hm. split_and!; intros Hl.
  - unfold xdr_float. mstep by apply gets_op_strm. mstep by (apply getlong_strm; lia).
    if_false. eexists. split; [done|].
    pose proof (be32_at_range m p Hb) as Hr. unfold is_u32 in Hr.
    unfold put_le64, splice, slice. rewrite shiftr_div, Z.div_small by lia. done.
  - unfold xdr_float. split; [|mstep by apply gets_op_strm; by if_true].
    mstep by apply gets_op_strm. mstep by (apply getlong_strm; lia). by if_true.
  - unfold xdr_double. split; [|mstep by apply gets_op_strm; by if_true].
    mstep by apply gets_op_strm. mstep by (apply getlong_strm; lia).
    mstep by (apply getlong_strm; lia). by if_true.
Qed.

Lemma xdr_float_double_overrun_witness :
  ∃ obj', xdr_float [1; 2; 3; 4; 5; 6; 7; 8] (strm XDR_DECODE (replicate 8 9) 0 8) =
    Some ((true, obj'), strm XDR_DECODE (replicate 8 9) 4 8) ∧ slice 4 4 obj' = [0; 0; 0; 0].
Proof.
  apply (xdr_float_double_overrun [1; 2; 3; 4; 5; 6; 7; 8] (replicate 8 9) 0 8);
    [|vm_compute; discriminate..].
  apply Forall_replicate. unfold is_byte. lia.
Defined.
