(* ===== verification/Sha256.v ===== *)
(** SHA-256 (user/sha256.c, user/sha256.h).

    The implementation keeps a rotating schedule of 16 words, runs four rounds
    per step on two arrays of four words and appends one byte at a time.  The
    module [FIPS] is the algorithm as FIPS 180-4 states it (a schedule of 64
    words, one round per step, the padded message cut into blocks); the
    theorems say that the two compute the same function. *)
From S2P Require Import Prelude.

(** ** The implementation *)

Definition ROTRIGHT (a b : Z) : Z := Z.lor (a ≫ b) (u32 (a ≪ (32 - b))).
Definition SIG0 (x : Z) : Z := Z.lxor (Z.lxor (ROTRIGHT x 7) (ROTRIGHT x 18)) (x ≫ 3).
Definition SIG1 (x : Z) : Z := Z.lxor (Z.lxor (ROTRIGHT x 17) (ROTRIGHT x 19)) (x ≫ 10).

Definition STEP1 (e f g : Z) : Z :=
  u32 (Z.lxor (Z.lxor (ROTRIGHT e 6) (ROTRIGHT e 11)) (ROTRIGHT e 25) +
       Z.lxor (Z.land e f) (Z.land (u32 (Z.lnot e)) g)).

Definition STEP2 (a b c : Z) : Z :=
  u32 (Z.lxor (Z.lxor (ROTRIGHT a 2) (ROTRIGHT a 13)) (ROTRIGHT a 22) +
       Z.lxor (Z.lxor (Z.land a b) (Z.land a c)) (Z.land b c)).

(** One iteration of the loop of [update_m]; [m] has 16 words. *)
Definition update_word (i : Z) (buffer : list Z) (m : list Z) (j : nat) : list Z :=
  if i <? 16
  then <[j := be32_at buffer (4 * Z.of_nat j)]> m
  else
    let a := m !!! Nat.land (j + 1) 15 in
    let b := m !!! Nat.land (j + 14) 15 in
    <[j := u32 (m !!! j + (m !!! Nat.land (j + 9) 15 + SIG0 a + SIG1 b))]> m.

Definition update_m (m : list Z) (i : Z) (buffer : list Z) : list Z :=
  foldl (update_word i buffer) m (seq 0 16).

Definition sha_k : list Z := concat [
  [0x428a2f98; 0x71374491; 0xb5c0fbcf; 0xe9b5dba5; 0x3956c25b; 0x59f111f1; 0x923f82a4; 0xab1c5ed5];
  [0xd807aa98; 0x12835b01; 0x243185be; 0x550c7dc3; 0x72be5d74; 0x80deb1fe; 0x9bdc06a7; 0xc19bf174];
  [0xe49b69c1; 0xefbe4786; 0x0fc19dc6; 0x240ca1cc; 0x2de92c6f; 0x4a7484aa; 0x5cb0a9dc; 0x76f988da];
  [0x983e5152; 0xa831c66d; 0xb00327c8; 0xbf597fc7; 0xc6e00bf3; 0xd5a79147; 0x06ca6351; 0x14292967];
  [0x27b70a85; 0x2e1b2138; 0x4d2c6dfc; 0x53380d13; 0x650a7354; 0x766a0abb; 0x81c2c92e; 0x92722c85];
  [0xa2bfe8a1; 0xa81a664b; 0xc24b8b70; 0xc76c51a3; 0xd192e819; 0xd6990624; 0xf40e3585; 0x106aa070];
  [0x19a4c116; 0x1e376c08; 0x2748774c; 0x34b0bcb5; 0x391c0cb3; 0x4ed8aa4a; 0x5b9cca4f; 0x682e6ff3];
  [0x748f82ee; 0x78a5636f; 0x84c87814; 0x8cc70208; 0x90befffa; 0xa4506ceb; 0xbef9a3f7; 0xc67178f2]].

(** The arrays [lo] and [hi] of [sha256_block], indexed by constants only. *)
Record work := Work {
  lo0 : Z; lo1 : Z; lo2 : Z; lo3 : Z;
  hi0 : Z; hi1 : Z; hi2 : Z; hi3 : Z;
}.

(** The body of the inner loop: four rounds. *)
Definition four_rounds (i : nat) (m : list Z) (w : work) (j : nat) : work :=
  let 'Work l0 l1 l2 l3 h0 h1 h2 h3 := w in
  let temp := u32 (h3 + STEP1 h0 h1 h2 + sha_k !!! (i + j + 0)%nat + m !!! (j + 0)%nat) in
  let h3 := u32 (temp + l3) in
  let l3 := u32 (temp + STEP2 l0 l1 l2) in
  let temp := u32 (h2 + STEP1 h3 h0 h1 + sha_k !!! (i + j + 1)%nat + m !!! (j + 1)%nat) in
  let h2 := u32 (temp + l2) in
  let l2 := u32 (temp + STEP2 l3 l0 l1) in
  let temp := u32 (h1 + STEP1 h2 h3 h0 + sha_k !!! (i + j + 2)%nat + m !!! (j + 2)%nat) in
  let h1 := u32 (temp + l1) in
  let l1 := u32 (temp + STEP2 l2 l3 l0) in
  let temp := u32 (h0 + STEP1 h1 h2 h3 + sha_k !!! (i + j + 3)%nat + m !!! (j + 3)%nat) in
  let h0 := u32 (temp + l0) in
  let l0 := u32 (temp + STEP2 l1 l2 l3) in
  Work l0 l1 l2 l3 h0 h1 h2 h3.

(** The body of the outer loop: 16 rounds on the words of one schedule. *)
Definition sixteen_rounds (data : list Z) (mw : list Z * work) (i : nat) : list Z * work :=
  let m := update_m (fst mw) (Z.of_nat i) data in
  (m, foldl (four_rounds i m) (snd mw) [0; 4; 8; 12]%nat).

Record SHA256_CTX := Ctx {
  ctx_state : list Z;
  ctx_data : list Z;
  bitlen : Z;
  datalen : Z;
}.

(** [m] is uninitialised stack memory; the first pass overwrites all of it. *)
Definition block_state (m0 st dat : list Z) : list Z :=
  let w := Work (st !!! 0%nat) (st !!! 1%nat) (st !!! 2%nat) (st !!! 3%nat)
                (st !!! 4%nat) (st !!! 5%nat) (st !!! 6%nat) (st !!! 7%nat) in
  let 'Work l0 l1 l2 l3 h0 h1 h2 h3 :=
    snd (foldl (sixteen_rounds dat) (m0, w) [0; 16; 32; 48]%nat) in
  [u32 (st !!! 0%nat + l0); u32 (st !!! 1%nat + l1); u32 (st !!! 2%nat + l2);
   u32 (st !!! 3%nat + l3); u32 (st !!! 4%nat + h0); u32 (st !!! 5%nat + h1);
   u32 (st !!! 6%nat + h2); u32 (st !!! 7%nat + h3)].

Definition sha256_block (ctx : SHA256_CTX) : SHA256_CTX :=
  Ctx (block_state (replicate 16 0) (ctx_state ctx) (ctx_data ctx)) (ctx_data ctx) (bitlen ctx) (datalen ctx).

Definition sha256_append_byte (ctx : SHA256_CTX) (byte : Z) : SHA256_CTX :=
  let ctx := Ctx (ctx_state ctx) (<[Z.to_nat (datalen ctx) := byte]> (ctx_data ctx))
                 (u64 (bitlen ctx + 8)) (u8 (datalen ctx + 1)) in
  if datalen ctx =? 64
  then sha256_block (Ctx (ctx_state ctx) (ctx_data ctx) (bitlen ctx) 0)
  else ctx.

(** [while (ctx->datalen != 56) sha256_append_byte(ctx, 0);] *)
Fixpoint pad_loop (fuel : nat) (ctx : SHA256_CTX) : SHA256_CTX :=
  match fuel with
  | O => ctx
  | S fuel => if datalen ctx =? 56 then ctx else pad_loop fuel (sha256_append_byte ctx 0)
  end.

Definition sha256_finalize (ctx : SHA256_CTX) : SHA256_CTX :=
  let n_bits := bitlen ctx in
  let ctx := pad_loop 64 (sha256_append_byte ctx 0x80) in
  foldl (λ c i, sha256_append_byte c (u8 (Z.land (n_bits ≫ (8 * i)) 255))) ctx
        [7; 6; 5; 4; 3; 2; 1; 0].

(** [data] is uninitialised stack memory in the callers. *)
Definition sha256_init (ctx : SHA256_CTX) : SHA256_CTX :=
  Ctx [0x6a09e667; 0xbb67ae85; 0x3c6ef372; 0xa54ff53a;
       0x510e527f; 0x9b05688c; 0x1f83d9ab; 0x5be0cd19] (ctx_data ctx) 0 0.

Definition sha256_update (ctx : SHA256_CTX) (bytes : list Z) (n : Z) : SHA256_CTX :=
  foldl sha256_append_byte ctx (take (Z.to_nat n) bytes).

(** The context and the 32 bytes written to [hash]. *)
Definition sha256_final (ctx : SHA256_CTX) : SHA256_CTX * list Z :=
  let ctx := sha256_finalize ctx in
  (ctx, flat_map (λ i, map (λ j, Z.land (ctx_state ctx !!! i ≫ (j * 8)) 255) [3; 2; 1; 0])
                 (seq 0 8)).

(** A context on the stack before [sha256_init]. *)
Definition ctx_uninit : SHA256_CTX := Ctx (replicate 8 0) (replicate 64 0) 0 0.

Definition sha256_hash (bytes : list Z) (n : Z) : list Z :=
  snd (sha256_final (sha256_update (sha256_init ctx_uninit) bytes n)).

(** Character codes; the string ends with a NUL. *)
Definition hex_chars : list Z := [48; 49; 50; 51; 52; 53; 54; 55; 56; 57; 97; 98; 99; 100; 101; 102].
Definition sha256_to_hex (hash : list Z) : list Z :=
  flat_map (λ i, [hex_chars !!! Z.to_nat (Z.land (hash !!! i ≫ 4) 15);
                  hex_chars !!! Z.to_nat (Z.land (hash !!! i) 15)]) (seq 0 32) ++ [0].

(** ** The specification (FIPS 180-4) *)
Module FIPS.

(** Rotation of a 32-bit word, arithmetically. *)
Definition rotr (n x : Z) : Z := x / 2 ^ n + x mod 2 ^ n * 2 ^ (32 - n).
Definition shr (n x : Z) : Z := x / 2 ^ n.
Definition add (x y : Z) : Z := (x + y) mod 2 ^ 32.
Definition Sigma0 (x : Z) : Z := Z.lxor (Z.lxor (rotr 2 x) (rotr 13 x)) (rotr 22 x).
Definition Sigma1 (x : Z) : Z := Z.lxor (Z.lxor (rotr 6 x) (rotr 11 x)) (rotr 25 x).
Definition sigma0 (x : Z) : Z := Z.lxor (Z.lxor (rotr 7 x) (rotr 18 x)) (shr 3 x).
Definition sigma1 (x : Z) : Z := Z.lxor (Z.lxor (rotr 17 x) (rotr 19 x)) (shr 10 x).
Definition Ch (x y z : Z) : Z := Z.lxor (Z.land x y) (Z.ldiff z x).
Definition Maj (x y z : Z) : Z := Z.lxor (Z.lxor (Z.land x y) (Z.land x z)) (Z.land y z).

(** The message schedule: the 16 words of the block, extended one by one. *)
Definition next_word (ws : list Z) : Z :=
  let t := length ws in
  add (add (add (sigma1 (ws !!! (t - 2)%nat)) (ws !!! (t - 7)%nat))
           (sigma0 (ws !!! (t - 15)%nat))) (ws !!! (t - 16)%nat).
Fixpoint extend (n : nat) (ws : list Z) : list Z :=
  match n with O => ws | S n => extend n (ws ++ [next_word ws]) end.
Definition words (block : list Z) : list Z :=
  map (λ j, byte_at block (4 * Z.of_nat j) * 2 ^ 24 + byte_at block (4 * Z.of_nat j + 1) * 2 ^ 16 +
            byte_at block (4 * Z.of_nat j + 2) * 2 ^ 8 + byte_at block (4 * Z.of_nat j + 3)) (seq 0 16).
Definition schedule (block : list Z) : list Z := extend 48 (words block).

(** The constants: the first 32 bits of the fractional parts of the cube roots
    of the first 64 primes, and of the square roots of the first eight. *)
Definition primes : list Z :=
  [2; 3; 5; 7; 11; 13; 17; 19; 23; 29; 31; 37; 41; 43; 47; 53; 59; 61; 67; 71; 73; 79; 83; 89; 97;
   101; 103; 107; 109; 113; 127; 131; 137; 139; 149; 151; 157; 163; 167; 173; 179; 181; 191; 193;
   197; 199; 211; 223; 227; 229; 233; 239; 241; 251; 257; 263; 269; 271; 277; 281; 283; 293; 307; 311].
(** The integer cube root, bit by bit from bit [n] down. *)
Fixpoint cbrt (n : nat) (x r : Z) : Z :=
  let r' := r + 2 ^ Z.of_nat n in
  let r := if r' * r' * r' <=? x then r' else r in
  match n with O => r | S n => cbrt n x r end.
Definition K : list Z := map (λ p, cbrt 40 (p * 2 ^ 96) 0 mod 2 ^ 32) primes.
Definition H0 : list Z := map (λ p, Z.sqrt (p * 2 ^ 64) mod 2 ^ 32) (take 8 primes).

Record vars := Vars { a : Z; b : Z; c : Z; d : Z; e : Z; f : Z; g : Z; h : Z }.

Definition round (W : list Z) (v : vars) (t : nat) : vars :=
  let 'Vars a b c d e f g h := v in
  let T1 := add (add (add (add h (Sigma1 e)) (Ch e f g)) (K !!! t)) (W !!! t) in
  let T2 := add (Sigma0 a) (Maj a b c) in
  Vars (add T1 T2) a b c (add d T1) e f g.

Definition of_list (H : list Z) : vars :=
  Vars (H !!! 0%nat) (H !!! 1%nat) (H !!! 2%nat) (H !!! 3%nat)
       (H !!! 4%nat) (H !!! 5%nat) (H !!! 6%nat) (H !!! 7%nat).

Definition compress (H : list Z) (block : list Z) : list Z :=
  let 'Vars a b c d e f g h := foldl (round (schedule block)) (of_list H) (seq 0 64) in
  [add a (H !!! 0%nat); add b (H !!! 1%nat); add c (H !!! 2%nat); add d (H !!! 3%nat);
   add e (H !!! 4%nat); add f (H !!! 5%nat); add g (H !!! 6%nat); add h (H !!! 7%nat)].

(** A 1 bit, the fewest zeros that leave eight bytes of the last block, and the
    length in bits as a 64-bit big-endian number. *)
Definition pad (msg : list Z) : list Z :=
  msg ++ [0x80] ++ replicate (Z.to_nat ((55 - len msg) mod 64)) 0 ++
  map (λ i, (8 * len msg) / 2 ^ (8 * i) mod 256) [7; 6; 5; 4; 3; 2; 1; 0].

Fixpoint chunks (fuel : nat) (l : list Z) : list (list Z) :=
  match fuel, l with
  | O, _ | _, [] => []
  | S fuel, _ => take 64 l :: chunks fuel (drop 64 l)
  end.

Definition be_word (x : Z) : list Z := map (λ i, x / 2 ^ (8 * i) mod 256) [3; 2; 1; 0].

Definition sha256 (msg : list Z) : list Z :=
  flat_map be_word (foldl compress H0 (chunks (length (pad msg)) (pad msg))).

End FIPS.

(** Value of a hexadecimal digit character. *)
Definition hex_value (c : Z) : Z := if c <? 58 then c - 48 else c - 87.

Fixpoint hex_decode (l : list Z) : list Z :=
  match l with
  | a :: b :: l => hex_value a * 16 + hex_value b :: hex_decode l
  | _ => []
  end.

Example sha256_abc :
  sha256_hash [97; 98; 99] 3 =
    [0xba; 0x78; 0x16; 0xbf; 0x8f; 0x01; 0xcf; 0xea; 0x41; 0x41; 0x40; 0xde; 0x5d; 0xae; 0x22; 0x23;
     0xb0; 0x03; 0x61; 0xa3; 0x96; 0x17; 0x7a; 0x9c; 0xb4; 0x10; 0xff; 0x61; 0xf2; 0x00; 0x15; 0xad].
Proof. vm_compute. reflexivity. Qed.

Example fips_sha256_abc : FIPS.sha256 [97; 98; 99] = sha256_hash [97; 98; 99] 3.
Proof. vm_compute. reflexivity. Qed.

(** ** Lemmas *)

Lemma sha_k_fips : sha_k = FIPS.K.
Proof. vm_compute. reflexivity. Qed.

Lemma init_fips ctx : ctx_state (sha256_init ctx) = FIPS.H0.
Proof. vm_compute. reflexivity. Qed.

Lemma ROTRIGHT_rotr x n : is_u32 x → 0 < n < 32 → ROTRIGHT x n = FIPS.rotr n x.
Proof.
  unfold is_u32. intros Hx Hn. unfold ROTRIGHT, FIPS.rotr.
  assert (Hp : 2 ^ 32 = 2 ^ (32 - n) * 2 ^ n) by (rewrite <- Z.pow_add_r; [f_equal; lia|lia..]).
  assert (Hp1 : 0 < 2 ^ n) by (apply Z.pow_pos_nonneg; lia).
  assert (Hp2 : 0 < 2 ^ (32 - n)) by (apply Z.pow_pos_nonneg; lia).
  assert (E : u32 (x ≪ (32 - n)) = (x mod 2 ^ n) ≪ (32 - n)).
  { rewrite !Z.shiftl_mul_pow2 by lia. unfold u32. rewrite Hp, (Z.mul_comm (2 ^ (32 - n))).
    by rewrite Z.mul_mod_distr_r by lia. }
  rewrite E, Z.lor_comm, shiftr_div by lia.
  rewrite lor_shiftl_add; [lia|lia|].
  split; [apply Z.div_pos; lia|]. apply Z.div_lt_upper_bound; lia.
Qed.

Lemma Ch_eq e f g : is_u32 g →
  Z.lxor (Z.land e f) (Z.land (u32 (Z.lnot e)) g) = FIPS.Ch e f g.
Proof.
  unfold is_u32. intros Hg. unfold FIPS.Ch. f_equal.
  apply Z.bits_inj'. intros i Hi. rewrite Z.land_spec, Z.ldiff_spec, andb_comm.
  unfold u32. destruct (Z.lt_ge_cases i 32).
  - rewrite Z.mod_pow2_bits_low by lia. by rewrite Z.lnot_spec by lia.
  - rewrite Z.mod_pow2_bits_high by lia.
    replace g with (g mod 2 ^ 32) by (apply Z.mod_small; lia).
    by rewrite !Z.mod_pow2_bits_high by lia.
Qed.

(** Sums of words taken modulo 2^32 at any point are equal. *)
Ltac add_mod := unfold FIPS.add, u32; zdivmod.

Definition abs (w : work) : FIPS.vars :=
  FIPS.Vars (lo0 w) (lo1 w) (lo2 w) (lo3 w) (hi0 w) (hi1 w) (hi2 w) (hi3 w).

Definition vars_ok (v : FIPS.vars) : Prop :=
  is_u32 (FIPS.a v) ∧ is_u32 (FIPS.b v) ∧ is_u32 (FIPS.c v) ∧ is_u32 (FIPS.d v) ∧
  is_u32 (FIPS.e v) ∧ is_u32 (FIPS.f v) ∧ is_u32 (FIPS.g v) ∧ is_u32 (FIPS.h v).

(** One round of the specification in the terms of the implementation. *)
Lemma round_impl W a b c d e f g h t :
  is_u32 a → is_u32 e → is_u32 g →
  FIPS.round W (FIPS.Vars a b c d e f g h) t =
    let temp := u32 (h + STEP1 e f g + sha_k !!! t + W !!! t) in
    FIPS.Vars (u32 (temp + STEP2 a b c)) a b c (u32 (temp + d)) e f g.
Proof.
  intros Ha He Hg. unfold FIPS.round. rewrite <- sha_k_fips. cbv zeta.
  unfold STEP1, STEP2, FIPS.Sigma0, FIPS.Sigma1, FIPS.Maj.
  rewrite Ch_eq, <- !ROTRIGHT_rotr by (done || lia). f_equal; add_mod.
Qed.

Lemma four_rounds_fips W i m w j :
  vars_ok (abs w) →
  (∀ x, (x < 4)%nat → m !!! (j + x)%nat = W !!! (i + j + x)%nat) →
  abs (four_rounds i m w j) = foldl (FIPS.round W) (abs w) (seq (i + j) 4) ∧
  vars_ok (abs (four_rounds i m w j)).
Proof.
  destruct w as [l0 l1 l2 l3 h0 h1 h2 h3]. intros Hok Hm.
  unfold vars_ok in Hok; simpl in Hok; destruct_and! Hok.
  split; [|unfold four_rounds, abs, vars_ok; simpl; split_and!; apply u32_range].
  unfold abs, four_rounds. simpl seq. cbn [lo0 lo1 lo2 lo3 hi0 hi1 hi2 hi3 foldl].
  rewrite !Hm by lia.
  replace (i + j + 0)%nat with (i + j)%nat by lia.
  replace (i + j + 1)%nat with (S (i + j)) by lia.
  replace (i + j + 2)%nat with (S (S (i + j))) by lia.
  replace (i + j + 3)%nat with (S (S (S (i + j)))) by lia.
  rewrite !round_impl by (done || apply u32_range). reflexivity.
Qed.

(** *** The schedule *)

Lemma length_extend n ws : length (FIPS.extend n ws) = (n + length ws)%nat.
Proof.
  revert ws. induction n as [|n IH]; intros ws; simpl; [done|].
  rewrite IH, length_app. simpl. lia.
Qed.

Lemma extend_prefix n ws t : (t < length ws)%nat → FIPS.extend n ws !!! t = ws !!! t.
Proof.
  revert ws. induction n as [|n IH]; intros ws Ht; simpl; [done|].
  rewrite IH by (rewrite length_app; simpl; lia).
  by rewrite lookup_total_app_l.
Qed.

(** The recurrence of the schedule. *)
Lemma extend_rec n ws t :
  (16 ≤ length ws ≤ t)%nat → (t < n + length ws)%nat →
  let W := FIPS.extend n ws in
  W !!! t = FIPS.add (FIPS.add (FIPS.add (FIPS.sigma1 (W !!! (t - 2)%nat)) (W !!! (t - 7)%nat))
              (FIPS.sigma0 (W !!! (t - 15)%nat))) (W !!! (t - 16)%nat).
Proof.
  revert ws. induction n as [|n IH]; intros ws Ht Hn W; [lia|].
  subst W. simpl. destruct (decide (t = length ws)) as [->|].
  - rewrite (extend_prefix n (ws ++ _) (length ws)) by (rewrite length_app; simpl; lia).
    rewrite lookup_total_app_r, Nat.sub_diag by lia. simpl. unfold FIPS.next_word.
    rewrite !(extend_prefix n) by (rewrite length_app; simpl; lia).
    by rewrite !lookup_total_app_l by lia.
  - apply IH; rewrite length_app; simpl; lia.
Qed.

#[global] Arguments FIPS.schedule : simpl never.
#[global] Arguments FIPS.words : simpl never.

Section schedule.
Context (block : list Z) (Hbytes : is_bytes block).

#[local] Abbreviation W := (FIPS.schedule block).

Lemma length_words : length (FIPS.words block) = 16%nat.
Proof. done. Qed.

Lemma words_be32 j : (j < 16)%nat → FIPS.words block !!! j = be32_at block (4 * Z.of_nat j).
Proof.
  intros Hj. unfold FIPS.words. rewrite (list_lookup_total_fmap _ _ j) by (rewrite length_seq; lia).
  rewrite lookup_total_seq_lt by lia. unfold be32_at.
  by rewrite get_be32_sum by (by apply byte_at_byte).
Qed.

Lemma schedule_rec t : (16 ≤ t < 64)%nat →
  W !!! t = FIPS.add (FIPS.add (FIPS.add (FIPS.sigma1 (W !!! (t - 2)%nat)) (W !!! (t - 7)%nat))
              (FIPS.sigma0 (W !!! (t - 15)%nat))) (W !!! (t - 16)%nat).
Proof. intros. apply (extend_rec 48 (FIPS.words block)); rewrite length_words; lia. Qed.

Lemma schedule_head t : (t < 16)%nat → W !!! t = be32_at block (4 * Z.of_nat t).
Proof.
  intros. unfold FIPS.schedule. rewrite extend_prefix by (rewrite length_words; lia).
  by apply words_be32.
Qed.

#[local] Opaque FIPS.schedule FIPS.words.

Lemma schedule_u32 t : (t < 64)%nat → is_u32 (W !!! t).
Proof.
  intros Ht. destruct (decide (t < 16)%nat).
  - rewrite schedule_head by done. by apply be32_at_range.
  - rewrite schedule_rec by lia. apply Z.mod_pos_bound. lia.
Qed.

(** The recurrence in the terms of the implementation. *)
Lemma schedule_impl b j : (b + j < 48)%nat →
  W !!! (16 + b + j)%nat =
    u32 (W !!! (b + j)%nat + (W !!! (b + j + 9)%nat + SIG0 (W !!! (b + j + 1)%nat) +
                              SIG1 (W !!! (b + j + 14)%nat))).
Proof.
  intros Hb. rewrite schedule_rec by lia.
  replace (16 + b + j - 2)%nat with (b + j + 14)%nat by lia.
  replace (16 + b + j - 7)%nat with (b + j + 9)%nat by lia.
  replace (16 + b + j - 15)%nat with (b + j + 1)%nat by lia.
  replace (16 + b + j - 16)%nat with (b + j)%nat by lia.
  pose proof (schedule_u32 (b + j + 14)%nat ltac:(lia)).
  pose proof (schedule_u32 (b + j + 1)%nat ltac:(lia)).
  generalize dependent (W !!! (b + j + 14)%nat). generalize dependent (W !!! (b + j + 1)%nat).
  generalize (W !!! (b + j)%nat) (W !!! (b + j + 9)%nat). intros.
  unfold FIPS.sigma0, FIPS.sigma1, FIPS.shr, SIG0, SIG1.
  rewrite <- !ROTRIGHT_rotr by (done || lia). rewrite !shiftr_div by lia. add_mod.
Qed.

(** The rotating buffer after [j] steps of the pass that starts at word
    [16 + b]: the new words, then the old ones not yet replaced. *)
Definition mixed (b j : nat) : list Z :=
  map (λ t, W !!! (16 + b + t)%nat) (seq 0 j) ++ map (λ t, W !!! (b + t)%nat) (seq j (16 - j)).

Lemma mixed_new b j t : (t < j)%nat → mixed b j !!! t = W !!! (16 + b + t)%nat.
Proof.
  intros. unfold mixed. rewrite lookup_total_app_l by (rewrite length_map, length_seq; lia).
  rewrite (list_lookup_total_fmap _ _ t) by (rewrite length_seq; lia).
  by rewrite lookup_total_seq_lt.
Qed.

Lemma mixed_old b j t : (j ≤ t < 16)%nat → mixed b j !!! t = W !!! (b + t)%nat.
Proof.
  intros. unfold mixed. rewrite lookup_total_app_r by (rewrite length_map, length_seq; lia).
  rewrite length_map, length_seq.
  rewrite (list_lookup_total_fmap _ _ (t - j)) by (rewrite length_seq; lia).
  rewrite lookup_total_seq_lt by lia.
  by replace (b + (j + (t - j)))%nat with (b + t)%nat by lia.
Qed.

Lemma mixed_insert b j : (j < 16)%nat → <[j := W !!! (16 + b + j)%nat]> (mixed b j) = mixed b (S j).
Proof.
  intros. unfold mixed. rewrite seq_S, map_app, <- app_assoc.
  rewrite insert_app_r_alt by (rewrite length_map, length_seq; lia).
  rewrite length_map, length_seq, Nat.sub_diag.
  replace (16 - j)%nat with (S (16 - S j)) by lia. done.
Qed.

Lemma land15 x : Nat.land x 15 = (x mod 16)%nat.
Proof. apply (Nat.land_ones x 4). Qed.

(** The word the implementation reads at index [(j + x) & 15] is the word
    [x] places after the one it replaces. *)
Lemma mixed_rotated b j x : (j < 16)%nat → (0 < x < 16)%nat →
  mixed b j !!! Nat.land (j + x) 15 = W !!! (b + j + x)%nat.
Proof.
  intros. rewrite land15. destruct (decide (j + x < 16)%nat).
  - rewrite Nat.mod_small, mixed_old by lia. by rewrite Nat.add_assoc.
  - replace ((j + x) mod 16)%nat with (j + x - 16)%nat
      by (apply Nat.mod_unique with 1%nat; lia).
    rewrite mixed_new by lia. by replace (16 + b + (j + x - 16))%nat with (b + j + x)%nat by lia.
Qed.

Lemma update_word_mixed b j i : (j < 16)%nat → (b ≤ 32)%nat → 16 ≤ i →
  update_word i block (mixed b j) j = mixed b (S j).
Proof.
  intros. unfold update_word. if_false. cbv zeta.
  rewrite !mixed_rotated, mixed_old by lia.
  rewrite <- schedule_impl by lia. by apply mixed_insert.
Qed.

Lemma update_word_load m j i : (j < 16)%nat → i < 16 → length m = 16%nat →
  update_word i block (take j (FIPS.words block) ++ drop j m) j =
    take (S j) (FIPS.words block) ++ drop (S j) m.
Proof.
  intros Hj Hi Hm. unfold update_word. if_true.
  pose proof length_words as Hw.
  rewrite insert_app_r_alt by (rewrite length_take; lia).
  rewrite length_take, Hw. replace (j - j `min` 16)%nat with O by lia.
  destruct (drop j m) as [|x l] eqn:E.
  { apply (f_equal length) in E. rewrite length_drop in E. simpl in E. lia. }
  rewrite (take_S_r _ _ (be32_at block (4 * Z.of_nat j))), <- app_assoc.
  - simpl. do 2 f_equal. by apply (f_equal (drop 1)) in E; rewrite drop_drop, Nat.add_1_r in E.
  - rewrite <- words_be32 by done. apply list_lookup_lookup_total_lt. lia.
Qed.

Lemma foldl_seq_inv {A} (g : A → nat → A) (P : nat → A) n :
  (∀ j, (j < n)%nat → g (P j) j = P (S j)) → foldl g (P O) (seq 0 n) = P n.
Proof.
  induction n as [|n IH]; intros Hg; [done|].
  rewrite seq_S, foldl_app. simpl. rewrite IH by (intros; apply Hg; lia). apply Hg. lia.
Qed.

(** After the pass that starts at word [i] the buffer holds words [i, i + 16). *)
Lemma update_m_first m : length m = 16%nat →
  update_m m 0 block = map (λ t, W !!! t) (seq 0 16).
Proof.
  intros Hm. unfold update_m.
  rewrite (foldl_seq_inv _ (λ j, take j (FIPS.words block) ++ drop j m));
    [|intros; by apply update_word_load].
  rewrite (firstn_all2 (n := 16)), drop_ge, app_nil_r by (rewrite ?length_words; lia).
  rewrite <- (map_lookup_seq (FIPS.words block)), length_words.
  apply map_ext_in. intros t Ht%in_seq. by rewrite schedule_head, words_be32 by lia.
Qed.

Lemma update_m_next b : (b ≤ 32)%nat →
  update_m (map (λ t, W !!! (b + t)%nat) (seq 0 16)) (Z.of_nat (16 + b)) block =
    map (λ t, W !!! (16 + b + t)%nat) (seq 0 16).
Proof.
  intros. unfold update_m.
  change (map _ (seq 0 16)) with (mixed b 0) at 1.
  rewrite (foldl_seq_inv _ (mixed b)); [|intros; apply update_word_mixed; lia].
  unfold mixed. by rewrite app_nil_r.
Qed.

End schedule.

#[local] Opaque FIPS.schedule.

(** *** One block *)

Lemma rounds_16 W i m w :
  vars_ok (abs w) → m = map (λ t, W !!! (i + t)%nat) (seq 0 16) →
  abs (foldl (four_rounds i m) w [0; 4; 8; 12]%nat) = foldl (FIPS.round W) (abs w) (seq i 16) ∧
  vars_ok (abs (foldl (four_rounds i m) w [0; 4; 8; 12]%nat)).
Proof.
  intros Hok Hm.
  assert (Hq : ∀ w j, vars_ok (abs w) → (j ≤ 12)%nat →
    abs (four_rounds i m w j) = foldl (FIPS.round W) (abs w) (seq (i + j) 4) ∧
    vars_ok (abs (four_rounds i m w j))).
  { intros w' j Hw Hj. apply four_rounds_fips; [done|]. intros x Hx. subst m.
    rewrite (list_lookup_total_fmap _ _ (j + x)) by (rewrite length_seq; lia).
    rewrite lookup_total_seq_lt by lia. by rewrite Nat.add_0_l, Nat.add_assoc. }
  change 16%nat with (4 + (4 + (4 + 4)))%nat. rewrite !seq_app, !foldl_app.
  cbn [foldl].
  destruct (Hq w 0%nat) as [E0 H0]; [done|lia|].
  destruct (Hq _ 4%nat H0) as [E1 H1]; [lia|].
  destruct (Hq _ 8%nat H1) as [E2 H2]; [lia|].
  destruct (Hq _ 12%nat H2) as [E3 H3]; [lia|].
  split; [|done]. rewrite E3, E2, E1, E0, Nat.add_0_r.
  by replace (i + 4 + 4)%nat with (i + 8)%nat by lia;
    replace (i + 8 + 4)%nat with (i + 12)%nat by lia.
Qed.

Definition words_of (block : list Z) (i : nat) : list Z :=
  map (λ t, FIPS.schedule block !!! (i + t)%nat) (seq 0 16).

Lemma sixteen_rounds_fips block m w i :
  is_bytes block → vars_ok (abs w) →
  (i = 0%nat ∧ length m = 16%nat ∨ ∃ b, (b ≤ 32)%nat ∧ i = (16 + b)%nat ∧ m = words_of block b) →
  fst (sixteen_rounds block (m, w) i) = words_of block i ∧
  abs (snd (sixteen_rounds block (m, w) i)) =
    foldl (FIPS.round (FIPS.schedule block)) (abs w) (seq i 16) ∧
  vars_ok (abs (snd (sixteen_rounds block (m, w) i))).
Proof.
  intros Hb Hw Hi. unfold sixteen_rounds. cbn [fst snd].
  assert (Em : update_m m (Z.of_nat i) block = words_of block i).
  { destruct Hi as [[-> Hm]|(b & Hb' & -> & ->)]; [by apply update_m_first|by apply update_m_next]. }
  split; [done|]. apply rounds_16; [done|]. done.
Qed.

Lemma block_state_fips m0 st block :
  is_bytes block → length m0 = 16%nat → Forall is_u32 st → length st = 8%nat →
  block_state m0 st block = FIPS.compress st block.
Proof.
  intros Hb Hm Hst Hl.
  assert (Hw : vars_ok (FIPS.of_list st)).
  { assert (∀ i, is_u32 (st !!! i)) as H; [|by split_and!; apply H].
    intros i. rewrite list_lookup_total_alt. destruct (st !! i) eqn:E; simpl; [|done].
    by eapply Forall_lookup in E. }
  unfold block_state, FIPS.compress.
  set (w := Work _ _ _ _ _ _ _ _). change (FIPS.of_list st) with (abs w) in *.
  change 64%nat with (16 + (16 + (16 + 16)))%nat. rewrite !seq_app, !foldl_app.
  cbn [foldl].
  destruct (sixteen_rounds_fips block m0 w 0) as (M0 & E0 & K0); auto.
  destruct (sixteen_rounds block (m0, w) 0) as [m1 w1] eqn:F1. cbn [fst snd] in *. subst m1.
  destruct (sixteen_rounds_fips block (words_of block 0) w1 16) as (M1 & E1 & K1); auto.
  { right. exists 0%nat. split_and!; [lia|done..]. }
  destruct (sixteen_rounds block _ 16) as [m2 w2] eqn:F2. cbn [fst snd] in *. subst m2.
  destruct (sixteen_rounds_fips block (words_of block 16) w2 32) as (M2 & E2 & K2); auto.
  { right. exists 16%nat. split_and!; [lia|done..]. }
  destruct (sixteen_rounds block _ 32) as [m3 w3] eqn:F3. cbn [fst snd] in *. subst m3.
  destruct (sixteen_rounds_fips block (words_of block 32) w3 48) as (M3 & E3 & K3); auto.
  { right. exists 32%nat. split_and!; [lia|done..]. }
  destruct (sixteen_rounds block _ 48) as [m4 w4] eqn:F4. cbn [fst snd] in *.
  rewrite <- E0. change (0 + 16)%nat with 16%nat. rewrite <- E1.
  change (16 + 16)%nat with 32%nat. rewrite <- E2.
  change (32 + 16)%nat with 48%nat. rewrite <- E3.
  destruct w4 as [l0 l1 l2 l3 h0 h1 h2 h3]. cbn [abs lo0 lo1 lo2 lo3 hi0 hi1 hi2 hi3].
  unfold u32, FIPS.add. by rewrite !(Z.add_comm (st !!! _)).
Qed.

(** *** The byte stream

    A context represents the bytes [s] appended so far: full blocks are folded
    into the state and the rest is the prefix of the buffer. *)
Definition represents (ctx : SHA256_CTX) (s : list Z) : Prop :=
  ∃ bs r, s = concat bs ++ r ∧ Forall (λ b, length b = 64%nat) bs ∧ (length r < 64)%nat ∧
    ctx_state ctx = foldl FIPS.compress FIPS.H0 bs ∧
    length (ctx_data ctx) = 64%nat ∧ take (length r) (ctx_data ctx) = r ∧
    datalen ctx = len r ∧ bitlen ctx = u64 (8 * len s).

Lemma length_compress st b : length (FIPS.compress st b) = 8%nat.
Proof. unfold FIPS.compress. by destruct (foldl _ _ _). Qed.

Lemma compress_u32 st b : Forall is_u32 (FIPS.compress st b).
Proof.
  unfold FIPS.compress. destruct (foldl _ _ _).
  repeat constructor; apply Z.mod_pos_bound; lia.
Qed.

Lemma fold_compress_ok bs :
  length (foldl FIPS.compress FIPS.H0 bs) = 8%nat ∧ Forall is_u32 (foldl FIPS.compress FIPS.H0 bs).
Proof.
  destruct bs as [|b bs] using rev_ind.
  - simpl. rewrite <- (init_fips ctx_uninit). split; [done|].
    repeat constructor; unfold is_u32; lia.
  - rewrite foldl_app. split; [apply length_compress|apply compress_u32].
Qed.

Lemma u64_add x y : u64 (u64 x + y) = u64 (x + y).
Proof. unfold u64. by rewrite Zplus_mod_idemp_l. Qed.

Lemma append_represents ctx s b :
  represents ctx s → is_bytes s → is_byte b → represents (sha256_append_byte ctx b) (s ++ [b]).
Proof.
  intros (bs & r & -> & Hbs & Hr & Hst & Hd & Htk & Hdl & Hbl) Hs Hb.
  unfold sha256_append_byte. simpl.
  assert (Hu : u8 (datalen ctx + 1) = len r + 1) by (rewrite Hdl; apply u8_id; unfold is_byte; lia_len).
  assert (Hn : Z.to_nat (datalen ctx) = length r) by (rewrite Hdl; apply to_nat_len).
  assert (Hbits : u64 (bitlen ctx + 8) = u64 (8 * len ((concat bs ++ r) ++ [b]))).
  { rewrite Hbl, u64_add. f_equal. lia_len. }
  assert (Htk' : take (S (length r)) (<[length r := b]> (ctx_data ctx)) = r ++ [b]).
  { rewrite (take_S_r _ _ b) by (apply list_lookup_insert_eq; lia).
    by rewrite take_insert_ge, Htk by lia. }
  rewrite Hu, Hn. destruct (decide (length r = 63%nat)) as [Hl|Hl].
  - replace (len r + 1 =? 64) with true by (unfold len; lia).
    exists (bs ++ [r ++ [b]]), []. unfold sha256_block. simpl.
    assert (Hdata : <[length r := b]> (ctx_data ctx) = r ++ [b]).
    { rewrite <- Htk', firstn_all2; [done|]. rewrite length_insert. lia. }
    destruct (fold_compress_ok bs) as [L8 U8].
    split_and!; [by rewrite concat_app, app_nil_r; simpl; rewrite app_nil_r, app_assoc| | |
      |by rewrite length_insert|done..].
    + apply Forall_app. split; [done|]. repeat constructor. rewrite length_app. simpl. lia.
    + simpl. lia.
    + rewrite foldl_app, Hdata, Hst. simpl. apply block_state_fips; auto.
      apply Forall_app in Hs as [_ Hs]. apply Forall_app. split; [done|]. by constructor.
  - replace (len r + 1 =? 64) with false by (unfold len; lia).
    exists bs, (r ++ [b]). simpl. rewrite length_insert, length_app. simpl.
    rewrite Nat.add_1_r.
    split_and!; [by rewrite app_assoc|done|lia|done|lia|done|lia_len|done].
Qed.

Lemma bytes_app s t : is_bytes (s ++ t) ↔ is_bytes s ∧ is_bytes t.
Proof. apply Forall_app. Qed.

Lemma appends_represent ctx s t :
  represents ctx s → is_bytes s → is_bytes t →
  represents (foldl sha256_append_byte ctx t) (s ++ t).
Proof.
  revert ctx s. induction t as [|b t IH]; intros ctx s Hc Hs Ht; simpl.
  - by rewrite app_nil_r.
  - inversion Ht; subst. change (s ++ b :: t) with (s ++ [b] ++ t). rewrite app_assoc.
    apply IH; [by apply append_represents| |done]. apply bytes_app. split; [done|]. by constructor.
Qed.

Lemma init_represents ctx : length (ctx_data ctx) = 64%nat → represents (sha256_init ctx) [].
Proof.
  intros. exists [], []. split_and!; [done|done|simpl; lia| |done|done|done|done].
  apply init_fips.
Qed.

Lemma represents_datalen ctx s : represents ctx s → datalen ctx = len s mod 64 ∧ 0 ≤ datalen ctx < 64.
Proof.
  intros (bs & r & -> & Hbs & Hr & _ & _ & _ & Hdl & _).
  rewrite Hdl, len_app.
  assert (E : len (concat bs) = 64 * Z.of_nat (length bs)).
  { clear -Hbs. induction Hbs as [|b bs Hb]; simpl; [done|]. lia_len. }
  rewrite E, Z.mul_comm, Z.add_comm, Z.mod_add by lia. rewrite Z.mod_small; unfold len; lia.
Qed.

(** The padding loop stops after at most 63 bytes, at position 56. *)
Lemma pad_loop_represents fuel ctx s :
  represents ctx s → is_bytes s → (56 - len s) mod 64 < Z.of_nat fuel →
  represents (pad_loop fuel ctx) (s ++ replicate (Z.to_nat ((56 - len s) mod 64)) 0) ∧
  datalen (pad_loop fuel ctx) = 56.
Proof.
  revert ctx s. induction fuel as [|fuel IH]; intros ctx s Hc Hs Hf.
  { pose proof (Z.mod_pos_bound (56 - len s) 64). lia. }
  destruct (represents_datalen _ _ Hc) as [Hd Hd']. simpl.
  destruct (Z.eqb_spec (datalen ctx) 56) as [H|H].
  - replace ((56 - len s) mod 64) with 0 by (clear -Hd H; zdivmod).
    simpl. by rewrite app_nil_r.
  - assert (Hk : (56 - len (s ++ [0])) mod 64 = (56 - len s) mod 64 - 1).
    { rewrite len_app. change (len [0]) with 1. clear -Hd H Hd'. zdivmod. }
    destruct (IH (sha256_append_byte ctx 0) (s ++ [0])) as [Hr He].
    + by apply append_represents.
    + apply bytes_app. split; [done|]. by repeat constructor.
    + lia.
    + split; [|done]. revert Hr. rewrite Hk.
      pose proof (Z.mod_pos_bound (56 - len (s ++ [0])) 64 ltac:(lia)).
      replace (Z.to_nat ((56 - len s) mod 64)) with (S (Z.to_nat ((56 - len s) mod 64 - 1))) by lia.
      simpl. by rewrite <- app_assoc.
Qed.

Lemma chunks_concat bs fuel :
  Forall (λ b, length b = 64%nat) bs → (length (concat bs) ≤ fuel)%nat →
  FIPS.chunks fuel (concat bs) = bs.
Proof.
  intros Hbs. revert fuel. induction Hbs as [|b bs Hb Hbs IH]; intros fuel Hf; simpl in *.
  { by destruct fuel. }
  rewrite length_app in Hf. destruct fuel as [|fuel]; [lia|]. simpl.
  destruct (b ++ concat bs) as [|x l] eqn:E.
  { apply (f_equal length) in E. rewrite length_app in E. simpl in E. lia. }
  rewrite <- E, take_app_length' by done. rewrite drop_app_length' by done.
  f_equal. apply IH. lia.
Qed.

Lemma land_255 x : Z.land x 255 = x mod 256.
Proof. apply (Z.land_ones x 8). lia. Qed.

Lemma finalize_represents ctx s :
  represents ctx s → is_bytes s → 8 * len s < 2 ^ 64 →
  represents (sha256_finalize ctx) (FIPS.pad s).
Proof.
  intros Hc Hs Hlen. unfold sha256_finalize, FIPS.pad.
  assert (Hbl : bitlen ctx = 8 * len s).
  { destruct Hc as (? & ? & ? & ? & ? & ? & ? & ? & ? & ->). apply Z.mod_small. lia_len. }
  assert (Hs1 : is_bytes (s ++ [0x80])).
  { apply bytes_app. split; [done|]. repeat constructor; lia. }
  destruct (pad_loop_represents 64 (sha256_append_byte ctx 0x80) (s ++ [0x80])) as [Hp _].
  { apply append_represents; [done..|unfold is_byte; lia]. }
  { done. }
  { apply Z.mod_pos_bound. lia. }
  set (bs := map (λ i, (8 * len s) / 2 ^ (8 * i) mod 256) [7; 6; 5; 4; 3; 2; 1; 0]).
  assert (E : ∀ c, foldl (λ c i, sha256_append_byte c (u8 (Z.land (bitlen ctx ≫ (8 * i)) 255))) c
      [7; 6; 5; 4; 3; 2; 1; 0] = foldl sha256_append_byte c bs).
  { intros c. subst bs. rewrite Hbl. cbn [map foldl].
    rewrite !land_255, !shiftr_div by lia. unfold u8. change (2 ^ 8) with 256.
    by rewrite !Zmod_mod. }
  rewrite E. rewrite len_app in Hp. change (len [0x80]) with 1 in Hp.
  replace (56 - (len s + 1)) with (55 - len s) in Hp by lia.
  rewrite !app_assoc. apply appends_represent.
  - done.
  - apply bytes_app. split; [done|]. apply Forall_replicate. unfold is_byte. lia.
  - subst bs. apply Forall_fmap, Forall_true. intros i. apply Z.mod_pos_bound. lia.
Qed.

Lemma final_fips ctx s :
  represents ctx s → is_bytes s → 8 * len s < 2 ^ 64 → snd (sha256_final ctx) = FIPS.sha256 s.
Proof.
  intros Hc Hs Hlen. pose proof (finalize_represents ctx s Hc Hs Hlen) as Hf.
  pose proof (represents_datalen _ _ Hf) as [Hd _].
  destruct Hf as (bs & r & Hpad & Hbs & Hr & Hst & _ & _ & Hdl & _).
  assert (Hr0 : r = []).
  { apply length_zero_iff_nil. rewrite Hdl in Hd.
    assert (Hm : len (FIPS.pad s) mod 64 = 0); [|unfold len in *; lia].
    unfold FIPS.pad. rewrite !len_app. cbn [map]. rewrite !len_cons, len_nil.
    generalize (Z.mod_pos_bound (55 - len s) 64). clear. intros Hb.
    set (n := (55 - len s) mod 64) in *. unfold len at 2. rewrite length_replicate.
    rewrite Z2Nat.id by lia. subst n. zdivmod. }
  subst r. rewrite app_nil_r in Hpad. unfold FIPS.sha256.
  rewrite Hpad, chunks_concat, <- Hst by (done || lia).
  unfold sha256_final. cbn [snd].
  destruct (fold_compress_ok bs) as [L8 _]. rewrite <- Hst in L8.
  set (st := ctx_state (sha256_finalize ctx)) in *.
  transitivity (flat_map FIPS.be_word (map (λ t, st !!! t) (seq 0 8)));
    [|by rewrite <- L8, map_lookup_seq].
  rewrite !flat_map_concat_map, map_map. f_equal. apply map_ext. intros i.
  unfold FIPS.be_word. cbn [map]. rewrite !land_255, !shiftr_div by lia.
  repeat f_equal; lia.
Qed.

Lemma updates_represent ctx s (parts : list (list Z)) :
  represents ctx s → is_bytes s → Forall is_bytes parts →
  represents (foldl (λ c p, sha256_update c p (len p)) ctx parts) (s ++ concat parts).
Proof.
  revert ctx s. induction parts as [|p parts IH]; intros ctx s Hc Hs Hp; simpl.
  { by rewrite app_nil_r. }
  inversion Hp; subst. rewrite app_assoc. apply IH; [|by apply bytes_app|done].
  unfold sha256_update. rewrite to_nat_len, firstn_all. by apply appends_represent.
Qed.

Lemma fips_length s : length (FIPS.sha256 s) = 32%nat.
Proof.
  unfold FIPS.sha256. destruct (fold_compress_ok (FIPS.chunks (length (FIPS.pad s)) (FIPS.pad s))) as [L _].
  revert L. generalize (foldl FIPS.compress FIPS.H0 (FIPS.chunks (length (FIPS.pad s)) (FIPS.pad s))).
  intros l Hl. do 9 (destruct l as [|? l]; try done).
Qed.

Lemma fips_bytes s : is_bytes (FIPS.sha256 s).
Proof.
  unfold FIPS.sha256. apply Forall_forall. intros x Hx%list_elem_of_In.
  apply in_flat_map in Hx as (w & _ & Hx). unfold FIPS.be_word in Hx.
  apply in_map_iff in Hx as (i & <- & _). apply Z.mod_pos_bound. lia.
Qed.

(** Two updates of a fresh context: the digest, and a context that can be
    initialised again. *)
Lemma two_updates_fips ctx p q n :
  length (ctx_data ctx) = 64%nat → is_bytes p → is_bytes q → 0 ≤ n ≤ len q →
  8 * (len p + n) < 2 ^ 64 →
  let r := sha256_final (sha256_update (sha256_update (sha256_init ctx) p (len p)) q n) in
  snd r = FIPS.sha256 (p ++ take (Z.to_nat n) q) ∧ length (ctx_data (fst r)) = 64%nat.
Proof.
  intros Hd Hp Hq Hn Hl r.
  assert (Ht : is_bytes (take (Z.to_nat n) q)) by (by apply Forall_take).
  assert (Hr : represents (sha256_update (sha256_update (sha256_init ctx) p (len p)) q n)
                 (p ++ take (Z.to_nat n) q)).
  { apply appends_represent; [|done|done].
    unfold sha256_update at 1. rewrite to_nat_len, firstn_all.
    apply (appends_represent _ []); [by apply init_represents|constructor|done]. }
  assert (Hb : is_bytes (p ++ take (Z.to_nat n) q)) by (by apply bytes_app).
  assert (Hlen : 8 * len (p ++ take (Z.to_nat n) q) < 2 ^ 64).
  { rewrite len_app. unfold len in *. rewrite length_take. lia. }
  split; [by apply final_fips|].
  destruct (finalize_represents _ _ Hr Hb Hlen) as (? & ? & ? & ? & ? & ? & HL & _). apply HL.
Qed.

Lemma hash_fips bytes n :
  is_bytes bytes → 0 ≤ n ≤ len bytes → 8 * n < 2 ^ 64 →
  sha256_hash bytes n = FIPS.sha256 (take (Z.to_nat n) bytes).
Proof.
  intros Hb Hn Hl. assert (Ht : is_bytes (take (Z.to_nat n) bytes)) by (by apply Forall_take).
  apply final_fips; [|done|unfold len in *; rewrite length_take; lia].
  apply (appends_represent _ []); [by apply init_represents|constructor|done].
Qed.

Lemma bytes_concat (parts : list (list Z)) : Forall is_bytes parts → is_bytes (concat parts).
Proof. induction 1; simpl; [constructor|]. by apply bytes_app. Qed.

(** ** Properties *)

(** C35: Hashing in one call or in any number of updates computes SHA-256: for
    any way to cut a message into pieces, initialising a context (whatever its
    buffer held), updating it with the pieces in order and finalising it writes
    the digest FIPS 180-4 defines for the whole message.  The rotating 16-word
    schedule, the unrolled rounds, the byte-wise buffering and the padding loop
    are thereby all correct. *)
Theorem sha256_incremental_fips ctx (parts : list (list Z)) :
  length (ctx_data ctx) = 64%nat → Forall is_bytes parts → 8 * len (concat parts) < 2 ^ 64 →
  snd (sha256_final (foldl (λ c p, sha256_update c p (len p)) (sha256_init ctx) parts)) =
    FIPS.sha256 (concat parts).
Proof.
  intros Hd Hp Hl. apply final_fips; [|by apply bytes_concat|done].
  apply (updates_represent _ []); [by apply init_represents|constructor|done].
Qed.

Lemma sha256_incremental_fips_witness :
  snd (sha256_final (foldl (λ c p, sha256_update c p (len p)) (sha256_init ctx_uninit)
    [[97]; [98; 99]])) = FIPS.sha256 [97; 98; 99].
Proof.
  apply (sha256_incremental_fips ctx_uninit [[97]; [98; 99]]); [done| |done].
  repeat constructor; unfold is_byte; lia.
Defined.

(** [sha256_hash] on the first [n] bytes of a buffer is FIPS 180-4 SHA-256 of
    those bytes. *)
Theorem sha256_hash_fips bytes n :
  is_bytes bytes → 0 ≤ n ≤ len bytes → 8 * n < 2 ^ 64 →
  sha256_hash bytes n = FIPS.sha256 (take (Z.to_nat n) bytes).
Proof. apply hash_fips. Qed.

Lemma sha256_hash_fips_witness :
  sha256_hash [97; 98; 99; 100] 3 = FIPS.sha256 [97; 98; 99].
Proof.
  apply (sha256_hash_fips [97; 98; 99; 100] 3); [|unfold len; simpl; lia|lia].
  repeat constructor; unfold is_byte; lia.
Defined.

Lemma hex_value_chars i : 0 ≤ i < 16 → hex_value (hex_chars !!! Z.to_nat i) = i.
Proof.
  intros Hi. assert (∃ k, i = Z.of_nat k ∧ (k < 16)%nat) as (k & -> & Hk).
  { exists (Z.to_nat i). lia. }
  rewrite Nat2Z.id. do 16 (destruct k as [|k]; [done|]). lia.
Qed.

Lemma hex_decode_bytes (hash : list Z) ks :
  Forall (λ i : nat, is_byte (hash !!! i)) ks →
  hex_decode (flat_map (λ i, [hex_chars !!! Z.to_nat (Z.land (hash !!! i ≫ 4) 15);
                              hex_chars !!! Z.to_nat (Z.land (hash !!! i) 15)]) ks ++ [0])
  = map (λ i, hash !!! i) ks.
Proof.
  induction 1 as [|i ks Hi _ IH]; [done|]. cbn [flat_map app hex_decode map].
  rewrite IH, !hex_value_chars.
  all: rewrite ?(Z.land_ones _ 4), ?shiftr_div by lia.
  2,3: apply Z.mod_pos_bound; lia.
  f_equal. unfold is_byte in Hi. zdivmod.
Qed.

(** The hexadecimal form of a digest is 64 digits and a NUL, and reading the
    digits back gives the digest, so distinct digests print differently. *)
Theorem sha256_to_hex_roundtrip hash :
  is_bytes hash → len hash = 32 →
  len (sha256_to_hex hash) = 65 ∧ sha256_to_hex hash !! 64%nat = Some 0 ∧
  hex_decode (sha256_to_hex hash) = hash.
Proof.
  intros Hb Hl. unfold len in Hl. split_and!; [done..|].
  unfold sha256_to_hex. rewrite hex_decode_bytes.
  - replace 32%nat with (length hash) by lia. apply map_lookup_seq.
  - apply Forall_forall. intros i [_ Hi]%elem_of_seq.
    destruct (lookup_lt_is_Some_2 hash i) as [x Hx]; [lia|].
    rewrite (list_lookup_total_correct _ _ _ Hx). by eapply Forall_lookup_1.
Qed.

Lemma sha256_to_hex_roundtrip_witness :
  hex_decode (sha256_to_hex (replicate 32 0xa5)) = replicate 32 0xa5.
Proof.
  apply (sha256_to_hex_roundtrip (replicate 32 0xa5)); [|done].
  apply Forall_replicate. unfold is_byte. lia.
Defined.
