(* ===== verification/Auth.v ===== *)
(** * Node authentication

    The keyed hash and the identity proof of src/xv6-riscv/user/discovery.c
    ([hmac_sha256], [cap_identity]) over the pre-shared key of discovery.h.  The
    reference is RFC 2104 over the SHA-256 of FIPS 180-4 ([FIPS.sha256]). *)
From stdpp Require Import base list.
From S2P Require Import Prelude Sha256.

Open Scope Z_scope.

(** ** The implementation *)

(** "distinf-shared-psk-v1", without the NUL. *)
Definition DISTINF_PSK : list Z :=
  [100; 105; 115; 116; 105; 110; 102; 45; 115; 104; 97; 114; 101; 100; 45; 112; 115; 107; 45; 118; 49].
Definition DISTINF_PSK_LEN : Z := 21.

(** The two scratch buffers [pad] and [c] of the C function are reused for the
    inner and the outer pass; [key] and [msg] are the buffers the lengths refer
    to. *)
Definition hmac_sha256 (key : list Z) (keylen : Z) (msg : list Z) (msglen : Z) : list Z :=
  let k := replicate 64 0 in
  let k := if 64 <? keylen then splice 0 (sha256_hash key keylen) k
           else splice 0 (slice 0 keylen key) k in
  let pad := map (λ b, Z.lxor b 0x36) k in
  let c := sha256_init ctx_uninit in
  let c := sha256_update c pad 64 in
  let c := sha256_update c msg msglen in
  let '(c, inner) := sha256_final c in
  let pad := map (λ b, Z.lxor b 0x5c) k in
  let c := sha256_init c in
  let c := sha256_update c pad 64 in
  let c := sha256_update c inner 32 in
  snd (sha256_final c).

Definition cap_identity (nonce : Z) : list Z :=
  let m := [u8 nonce; u8 (nonce ≫ 8); u8 (nonce ≫ 16); u8 (nonce ≫ 24)] in
  hmac_sha256 DISTINF_PSK DISTINF_PSK_LEN m 4.

(** ** The specification (RFC 2104) *)
Module RFC2104.

(** The key brought to the 64-byte block: hashed if longer, then zero-padded. *)
Definition block_key (key : list Z) : list Z :=
  let k := if decide (length key ≤ 64)%nat then key else FIPS.sha256 key in
  k ++ replicate (64 - length k) 0.

Definition xor_pad (k : list Z) (p : Z) : list Z := map (Z.lxor p) k.

Definition hmac (key msg : list Z) : list Z :=
  let k := block_key key in
  FIPS.sha256 (xor_pad k 0x5c ++ FIPS.sha256 (xor_pad k 0x36 ++ msg)).

End RFC2104.

Example hmac_rfc4231_case2 :
  hmac_sha256 [0x4a; 0x65; 0x66; 0x65] 4
    [0x77; 0x68; 0x61; 0x74; 0x20; 0x64; 0x6f; 0x20; 0x79; 0x61; 0x20; 0x77; 0x61; 0x6e; 0x74;
     0x20; 0x66; 0x6f; 0x72; 0x20; 0x6e; 0x6f; 0x74; 0x68; 0x69; 0x6e; 0x67; 0x3f] 28 =
  [0x5b; 0xdc; 0xc1; 0x46; 0xbf; 0x60; 0x75; 0x4e; 0x6a; 0x04; 0x24; 0x26; 0x08; 0x95; 0x75; 0xc7;
   0x5a; 0x00; 0x3f; 0x08; 0x9d; 0x27; 0x39; 0x83; 0x9d; 0xec; 0x58; 0xb9; 0x64; 0xec; 0x38; 0x43].
Proof. vm_compute. reflexivity. Qed.

(** ** Lemmas *)

Lemma lxor_byte a b : is_byte a → is_byte b → is_byte (Z.lxor a b).
Proof.
  unfold is_byte. intros Ha Hb. split; [apply Z.lxor_nonneg; lia|].
  destruct (Z.eq_dec (Z.lxor a b) 0) as [->|Hn]; [lia|].
  assert (H0 : 0 ≤ Z.lxor a b) by (apply Z.lxor_nonneg; lia).
  apply (Z.log2_lt_pow2 _ 8); [lia|].
  eapply Z.le_lt_trans; [apply Z.log2_lxor; lia|].
  apply Z.max_lub_lt; destruct (Z.eq_dec a 0) as [->|], (Z.eq_dec b 0) as [->|];
    simpl; try lia; apply Z.log2_lt_pow2; lia.
Qed.

Lemma xor_pad_bytes k p : is_bytes k → is_byte p → is_bytes (RFC2104.xor_pad k p).
Proof.
  intros Hk Hp. unfold RFC2104.xor_pad. apply Forall_fmap. eapply Forall_impl; [exact Hk|].
  intros x Hx. simpl. by apply lxor_byte.
Qed.

Lemma block_key_ok key : is_bytes key →
  is_bytes (RFC2104.block_key key) ∧ len (RFC2104.block_key key) = 64.
Proof.
  intros Hk. unfold RFC2104.block_key.
  assert (H0 : ∀ n, is_bytes (replicate n 0)).
  { intros n. apply Forall_replicate. unfold is_byte. lia. }
  case_decide; rewrite len_app; split; try (apply bytes_app; auto using fips_bytes).
  all: unfold len; rewrite length_replicate, ?fips_length; lia.
Qed.

(** The key block built with [memset] and [memmove]. *)
Lemma key_block_eq key keylen :
  is_bytes key → 0 ≤ keylen ≤ len key → 8 * keylen < 2 ^ 64 →
  (if 64 <? keylen then splice 0 (sha256_hash key keylen) (replicate 64 0)
   else splice 0 (slice 0 keylen key) (replicate 64 0)) =
  RFC2104.block_key (take (Z.to_nat keylen) key).
Proof.
  intros Hk Hl Hb. assert (Hlen : len (take (Z.to_nat keylen) key) = keylen).
  { unfold len in *. rewrite length_take. lia. }
  assert (E : ∀ bs, splice 0 bs (replicate 64 0) = bs ++ replicate (64 - length bs) 0).
  { intros bs. unfold splice. by rewrite drop_replicate. }
  unfold RFC2104.block_key, slice. change (Z.to_nat 0) with 0%nat. rewrite drop_0, !E.
  unfold len in *. destruct (Z.ltb_spec 64 keylen); case_decide; try lia; [|done].
  by rewrite hash_fips.
Qed.

Lemma hmac_rfc2104 key keylen msg msglen :
  is_bytes key → is_bytes msg → 0 ≤ keylen ≤ len key → 0 ≤ msglen ≤ len msg →
  keylen < 2 ^ 31 → msglen < 2 ^ 31 →
  hmac_sha256 key keylen msg msglen =
    RFC2104.hmac (take (Z.to_nat keylen) key) (take (Z.to_nat msglen) msg).
Proof.
  intros Hk Hm Hkl Hml Hkb Hmb. unfold hmac_sha256. rewrite key_block_eq by (done || lia).
  set (K := RFC2104.block_key (take (Z.to_nat keylen) key)).
  destruct (block_key_ok (take (Z.to_nat keylen) key)) as [HK HL]; [by apply Forall_take|].
  fold K in HK, HL.
  assert (P : ∀ p, map (λ b, Z.lxor b p) K = RFC2104.xor_pad K p).
  { intros p. apply map_ext. intros b. apply Z.lxor_comm. }
  rewrite !P. assert (L : ∀ p, len (RFC2104.xor_pad K p) = 64).
  { intros p. unfold RFC2104.xor_pad, len. by rewrite length_map. }
  assert (B : ∀ p, is_byte p → is_bytes (RFC2104.xor_pad K p)) by eauto using xor_pad_bytes.
  destruct (two_updates_fips ctx_uninit (RFC2104.xor_pad K 0x36) msg msglen) as [E1 D1];
    [done|apply B; unfold is_byte; lia|done|done|rewrite L; lia|].
  rewrite L in E1, D1. destruct (sha256_final _) as [c inner]. cbn [fst snd] in E1, D1. subst inner.
  set (I := FIPS.sha256 _). assert (HI : len I = 32) by (unfold len, I; by rewrite fips_length).
  destruct (two_updates_fips c (RFC2104.xor_pad K 0x5c) I 32) as [E2 _];
    [done|apply B; unfold is_byte; lia|apply fips_bytes|lia|rewrite L; lia|].
  rewrite L in E2. rewrite E2, <- HI, to_nat_len, firstn_all. done.
Qed.

Lemma cap_identity_length nonce : length (cap_identity nonce) = 32%nat.
Proof.
  unfold cap_identity. rewrite hmac_rfc2104; [apply fips_length| | |unfold len, DISTINF_PSK_LEN; simpl; lia..].
  - repeat constructor; unfold is_byte; lia.
  - repeat constructor; apply Z.mod_pos_bound; lia.
Qed.

Lemma cap_identity_bytes nonce : is_bytes (cap_identity nonce).
Proof.
  unfold cap_identity. rewrite hmac_rfc2104; [apply fips_bytes| | |unfold len, DISTINF_PSK_LEN; simpl; lia..].
  - repeat constructor; unfold is_byte; lia.
  - repeat constructor; apply Z.mod_pos_bound; lia.
Qed.

(** ** Properties *)

(** C36: [hmac_sha256] is the HMAC of RFC 2104 over SHA-256, for keys shorter and
    longer than the block and messages of any length an [int] can hold; the
    reuse of one pad buffer and one hash context for both passes is harmless. *)
Theorem hmac_sha256_rfc2104 key keylen msg msglen :
  is_bytes key → is_bytes msg → 0 ≤ keylen ≤ len key → 0 ≤ msglen ≤ len msg →
  keylen < 2 ^ 31 → msglen < 2 ^ 31 →
  hmac_sha256 key keylen msg msglen =
    RFC2104.hmac (take (Z.to_nat keylen) key) (take (Z.to_nat msglen) msg).
Proof. apply hmac_rfc2104. Qed.

Lemma hmac_sha256_rfc2104_witness :
  hmac_sha256 (replicate 80 7) 70 [1; 2; 3] 2 = RFC2104.hmac (replicate 70 7) [1; 2].
Proof.
  apply (hmac_sha256_rfc2104 (replicate 80 7) 70 [1; 2; 3] 2); try (unfold len; simpl; lia).
  - apply Forall_replicate. unfold is_byte. lia.
  - repeat constructor; unfold is_byte; lia.
Defined.
