(* ===== verification/RpcMsg.v ===== *)
(** ONC RPC messages (user/rpc.h, and the encoders and the decoder of
    user/rpc.c).

    The encoders and [rpc_decode_msg] run on an XDR stream over the caller's
    buffer.  C enumerations that are filled from the wire can hold any 32-bit
    value, so they are integers with named constants.  A message is the whole
    [rpc_msg_t]: the decoder overwrites the fields it reads and leaves the
    others, also when it fails half-way. *)
From S2P Require Import Prelude Xdr.

(** ** Constants *)

Definition RPC_VERSION : Z := 2.
Definition INFERENCE_PROG : Z := 0x20000001.
Definition INFERENCE_VERS : Z := 1.
Definition TICK_HZ : Z := 10.

Definition PROC_NULL : Z := 0.
Definition PROC_AUTH_HELLO : Z := 1.
Definition PROC_CAP_ACK : Z := 2.
Definition PROC_CAP_PROBE : Z := 3.
Definition PROC_INFER_REQ : Z := 4.
Definition PROC_HEARTBEAT : Z := 5.
Definition PROC_SET_NEIGHBOR : Z := 6.
Definition PROC_EVICT : Z := 7.
Definition PROC_CAP_ADVERTISE : Z := 8.
Definition PROC_ASSIGN_LAYERS : Z := 9.
Definition PROC_SHARD_READY : Z := 10.

Definition MSG_CALL : Z := 0.
Definition MSG_REPLY : Z := 1.

Definition MSG_ACCEPTED : Z := 0.
Definition MSG_DENIED : Z := 1.

Definition SUCCESS : Z := 0.
Definition PROG_UNAVAIL : Z := 1.
Definition PROG_MISMATCH : Z := 2.
Definition PROC_UNAVAIL : Z := 3.
Definition GARBAGE_ARGS : Z := 4.
Definition SYSTEM_ERR : Z := 5.

Definition RPC_MISMATCH : Z := 0.
Definition AUTH_ERROR : Z := 1.

Definition AUTH_NONE : Z := 0.
Definition OPAQUE_AUTH_BODY_MAX : Z := 400.
Definition RPC_PAYLOAD_MAX : Z := 4096.

Definition RPC_OK : Z := 0.
Definition RPC_ERR_TIMEOUT : Z := -1.
Definition RPC_ERR_NET : Z := -2.
Definition RPC_ERR_ENCODE : Z := -3.
Definition RPC_ERR_DECODE : Z := -4.
Definition RPC_ERR_TOOBIG : Z := -5.
Definition RPC_ERR_DENIED : Z := -6.
Definition RPC_ERR_PROG : Z := -7.
Definition RPC_ERR_PROC : Z := -8.
Definition RPC_ERR_GARBAGE : Z := -9.

Definition RPC_TIMEOUT_MS : Z := 500.
Definition RPC_MAX_RETRIES : nat := 3.

(** ** Data *)

Record opaque_auth_t := OpaqueAuth {
  flavor : Z;
  body_len : Z;
  body : list Z;            (* 400 bytes *)
}.

Record call_body_t := CallBody {
  rpcvers : Z;
  prog : Z;
  vers : Z;
  proc : Z;
  cred : opaque_auth_t;
  verf : opaque_auth_t;
}.

Record mismatch_info_t := MismatchInfo { low : Z; high : Z }.

Record accepted_reply_t := AcceptedReply {
  acc_verf : opaque_auth_t;
  acc_stat : Z;
  acc_mismatch : mismatch_info_t;
}.

Record rejected_reply_t := RejectedReply {
  rej_stat : Z;
  rej_mismatch : mismatch_info_t;
  auth_stat : Z;
}.

Record rpc_msg_t := RpcMsg {
  xid : Z;
  mtype : Z;
  call : call_body_t;
  reply_stat : Z;
  accepted : accepted_reply_t;
  rejected : rejected_reply_t;
  payload : list Z;         (* 4096 bytes *)
  payload_len : Z;
}.

Record rpc_addr_t := RpcAddr { ip : Z; port : Z }.

(** Assignments to fields. *)
Definition set_head (x t : Z) (m : rpc_msg_t) : rpc_msg_t :=
  RpcMsg x t (call m) (reply_stat m) (accepted m) (rejected m) (payload m) (payload_len m).
Definition set_call (c : call_body_t) (m : rpc_msg_t) : rpc_msg_t :=
  RpcMsg (xid m) (mtype m) c (reply_stat m) (accepted m) (rejected m) (payload m) (payload_len m).
Definition set_reply_stat (r : Z) (m : rpc_msg_t) : rpc_msg_t :=
  RpcMsg (xid m) (mtype m) (call m) r (accepted m) (rejected m) (payload m) (payload_len m).
Definition set_accepted (a : accepted_reply_t) (m : rpc_msg_t) : rpc_msg_t :=
  RpcMsg (xid m) (mtype m) (call m) (reply_stat m) a (rejected m) (payload m) (payload_len m).
Definition set_rejected (r : rejected_reply_t) (m : rpc_msg_t) : rpc_msg_t :=
  RpcMsg (xid m) (mtype m) (call m) (reply_stat m) (accepted m) r (payload m) (payload_len m).
Definition set_payload (bs : list Z) (n : Z) (m : rpc_msg_t) : rpc_msg_t :=
  RpcMsg (xid m) (mtype m) (call m) (reply_stat m) (accepted m) (rejected m) bs n.
Definition set_acc_verf (a : opaque_auth_t) (r : accepted_reply_t) : accepted_reply_t :=
  AcceptedReply a (acc_stat r) (acc_mismatch r).
Definition set_acc_stat (s : Z) (r : accepted_reply_t) : accepted_reply_t :=
  AcceptedReply (acc_verf r) s (acc_mismatch r).
Definition set_acc_mismatch (i : mismatch_info_t) (r : accepted_reply_t) : accepted_reply_t :=
  AcceptedReply (acc_verf r) (acc_stat r) i.
Definition set_verf (v : opaque_auth_t) (c : call_body_t) : call_body_t :=
  CallBody (rpcvers c) (prog c) (vers c) (proc c) (cred c) v.
Definition set_cred (v : opaque_auth_t) (c : call_body_t) : call_body_t :=
  CallBody (rpcvers c) (prog c) (vers c) (proc c) v (verf c).

(** ** Encoding *)

(** [if (!xdr_u_int(xdrs, &v)) goto fail]. *)
Definition put_u_int (v : Z) : X (option unit) :=
  let* (r, _) := xdr_u_int v in
  if r : bool then next tt else goto_fail.

Definition xdr_encode_auth_none : X (option unit) :=
  put_u_int AUTH_NONE ;;?
  put_u_int 0 ;;?
  next tt.

(** [x_putbytes] of the first [n] bytes of [bs] when [n > 0]. *)
Definition put_opaque (bs : list Z) (n : Z) : X (option unit) :=
  if 0 <? n then
    let* r := via_ops (xdrmem_putbytes bs n) in
    if r : bool then next tt else goto_fail
  else next tt.

(** [XDR_GETPOS], [XDR_DESTROY] and the return value, for both ends of an
    encoder. *)
Definition finish_encode (r : option unit) : X Z :=
  match r with
  | Some _ =>
      let* written := via_ops xdrmem_getpos in
      via_ops xdrmem_destroy ;;*
      ret (s32 written)
  | None =>
      via_ops xdrmem_destroy ;;*
      ret RPC_ERR_ENCODE
  end.

(** The new contents of [buf] come with the return value. *)
Definition on_buffer (buf : list Z) (m : X Z) : option (Z * list Z) :=
  match m (Xst buf xdr_uninit) with
  | Some (r, s) => Some (r, mem s)
  | None => None
  end.

Definition rpc_encode_call (malloc_ok : bool) (buf : list Z) (buflen : Z) (msg : rpc_msg_t)
    : option (Z * list Z) :=
  on_buffer buf (
    if negb (rpcvers (call msg) =? RPC_VERSION) then ret RPC_ERR_ENCODE
    else if RPC_PAYLOAD_MAX <? payload_len msg then ret RPC_ERR_ENCODE
    else
      xdrmem_create malloc_ok 0 buflen XDR_ENCODE ;;*
      let* r :=
        put_u_int (xid msg) ;;?
        put_u_int MSG_CALL ;;?
        put_u_int (rpcvers (call msg)) ;;?
        put_u_int (prog (call msg)) ;;?
        put_u_int (vers (call msg)) ;;?
        put_u_int (proc (call msg)) ;;?
        xdr_encode_auth_none ;;?
        xdr_encode_auth_none ;;?
        put_opaque (payload msg) (payload_len msg) in
      finish_encode r).

Definition rpc_encode_reply (malloc_ok : bool) (buf : list Z) (buflen : Z)
    (xid stat : Z) (payload : list Z) (payload_len : Z) : option (Z * list Z) :=
  on_buffer buf (
    if RPC_PAYLOAD_MAX <? payload_len then ret RPC_ERR_ENCODE
    else
      xdrmem_create malloc_ok 0 buflen XDR_ENCODE ;;*
      let* r :=
        put_u_int xid ;;?
        put_u_int MSG_REPLY ;;?
        put_u_int MSG_ACCEPTED ;;?
        xdr_encode_auth_none ;;?
        put_u_int stat ;;?
        (if stat =? SUCCESS then put_opaque payload payload_len else next tt) in
      finish_encode r).

(** ** Decoding *)

(** The stream and the message being filled. *)
Record dst := Dst { strm_of : xst; out : rpc_msg_t }.

Definition D (A : Type) : Type := M dst (option A).

Definition on_stream {A} (m : X A) : M dst A := zoom strm_of (λ s d, Dst s (out d)) m.
Definition assign (f : rpc_msg_t → rpc_msg_t) : D unit := λ d,
  Some (Some tt, Dst (strm_of d) (f (out d))).

(** [uint32 v = 0; if (!xdr_u_int(&xdrs, &v)) goto fail]. *)
Definition get_u_int : D Z :=
  let* (r, v) := on_stream (xdr_u_int 0) in
  if r : bool then next v else goto_fail.

(** [upd] stores the structure back where the pointer [auth] points; [auth] is
    its value before.  The second read of [body_len] is not compared with
    [OPAQUE_AUTH_BODY_MAX] again: a longer body overruns [auth->body]. *)
Definition xdr_decode_opaque_auth (auth : opaque_auth_t)
    (upd : opaque_auth_t → rpc_msg_t → rpc_msg_t) : D unit :=
  let? flavor := get_u_int in
  let? body_len := get_u_int in
  assign (upd (OpaqueAuth flavor body_len (body auth))) ;;?
  if OPAQUE_AUTH_BODY_MAX <? body_len then goto_fail
  else if 0 <? body_len then
    let? body_len' := get_u_int in
    let* b := on_stream (via_ops (xdrmem_getbytes body_len')) in
    match b with
    | None => goto_fail
    | Some bs =>
        if OPAQUE_AUTH_BODY_MAX <? len bs then fault
        else assign (upd (OpaqueAuth flavor body_len (splice 0 bs (body auth))))
    end
  else next tt.

Definition decode_call_body : D unit :=
  let? rpcvers := get_u_int in
  let? prog := get_u_int in
  let? vers := get_u_int in
  let? proc := get_u_int in
  if negb (rpcvers =? RPC_VERSION) then goto_fail
  else
    let* m := gets out in
    let c := CallBody rpcvers prog vers proc (cred (call m)) (verf (call m)) in
    assign (set_call c) ;;?
    xdr_decode_opaque_auth (cred c) (λ a m, set_call (set_cred a (call m)) m) ;;?
    xdr_decode_opaque_auth (verf c) (λ a m, set_call (set_verf a (call m)) m).

Definition decode_accepted : D unit :=
  let* m := gets out in
  xdr_decode_opaque_auth (acc_verf (accepted m))
    (λ a m, set_accepted (set_acc_verf a (accepted m)) m) ;;?
  let? stat := get_u_int in
  assign (λ m, set_accepted (set_acc_stat stat (accepted m)) m) ;;?
  if stat =? PROG_MISMATCH then
    let? l := get_u_int in
    assign (λ m, set_accepted (set_acc_mismatch
      (MismatchInfo l (high (acc_mismatch (accepted m)))) (accepted m)) m) ;;?
    let? h := get_u_int in
    assign (λ m, set_accepted (set_acc_mismatch
      (MismatchInfo (low (acc_mismatch (accepted m))) h) (accepted m)) m)
  else next tt.

Definition decode_rejected : D unit :=
  let? stat := get_u_int in
  assign (λ m, set_rejected (RejectedReply stat (rej_mismatch (rejected m))
                               (auth_stat (rejected m))) m) ;;?
  if stat =? RPC_MISMATCH then
    let? l := get_u_int in
    assign (λ m, set_rejected (RejectedReply (rej_stat (rejected m))
      (MismatchInfo l (high (rej_mismatch (rejected m)))) (auth_stat (rejected m))) m) ;;?
    let? h := get_u_int in
    assign (λ m, set_rejected (RejectedReply (rej_stat (rejected m))
      (MismatchInfo (low (rej_mismatch (rejected m))) h) (auth_stat (rejected m))) m)
  else
    let? a := get_u_int in
    assign (λ m, set_rejected (RejectedReply (rej_stat (rejected m))
      (rej_mismatch (rejected m)) a) m).

Definition decode_reply_body : D unit :=
  let? rs := get_u_int in
  assign (set_reply_stat rs) ;;?
  if rs =? MSG_ACCEPTED then decode_accepted else decode_rejected.

(** The rest of the datagram is the procedure payload. *)
Definition decode_payload (buflen : Z) : D unit :=
  let* pos := on_stream (via_ops xdrmem_getpos) in
  let remaining := u32 (buflen - pos) in
  if RPC_PAYLOAD_MAX <? remaining then goto_fail
  else
    assign (λ m, set_payload (payload m) remaining m) ;;?
    if 0 <? remaining then
      let* b := on_stream (via_ops (xdrmem_getbytes remaining)) in
      match b with
      | Some bs => assign (λ m, set_payload (splice 0 bs (payload m)) remaining m)
      | None => next tt
      end
    else next tt.

Definition decode_body (buflen : Z) : D unit :=
  let? x := get_u_int in
  let? t := get_u_int in
  assign (set_head x t) ;;?
  (if t =? MSG_CALL then decode_call_body
   else if t =? MSG_REPLY then decode_reply_body
   else goto_fail) ;;?
  decode_payload buflen.

(** The return value and the message; the buffer is only read. *)
Definition rpc_decode_msg (malloc_ok : bool) (buf : list Z) (buflen : Z) (m : rpc_msg_t)
    : option (Z * rpc_msg_t) :=
  match (on_stream (xdrmem_create malloc_ok 0 buflen XDR_DECODE) ;;*
         let* r := decode_body buflen in
         on_stream (via_ops xdrmem_destroy) ;;*
         ret (match r with Some _ => RPC_OK | None => RPC_ERR_DECODE end))
        (Dst (Xst buf xdr_uninit) m) with
  | Some (r, d) => Some (r, out d)
  | None => None
  end.

(** A message structure on the stack. *)
Definition auth_zero : opaque_auth_t := OpaqueAuth 0 0 (replicate 400 0).
Definition msg_zero : rpc_msg_t :=
  RpcMsg 0 0 (CallBody 0 0 0 0 auth_zero auth_zero) 0
    (AcceptedReply auth_zero 0 (MismatchInfo 0 0)) (RejectedReply 0 (MismatchInfo 0 0) 0)
    (replicate 4096 0) 0.

Definition msg_sample : rpc_msg_t :=
  RpcMsg 9 0 (CallBody 2 INFERENCE_PROG 1 5 auth_zero auth_zero) 0 (accepted msg_zero)
    (rejected msg_zero) ([1; 2; 3] ++ replicate 4093 0) 3.

(** ** The wire format (RFC 5531, section 9) *)

Definition auth_none_wire : list Z := put_be32 AUTH_NONE ++ put_be32 0.

Definition call_wire (msg : rpc_msg_t) : list Z :=
  put_be32 (xid msg) ++ put_be32 MSG_CALL ++ put_be32 (rpcvers (call msg)) ++
  put_be32 (prog (call msg)) ++ put_be32 (vers (call msg)) ++ put_be32 (proc (call msg)) ++
  auth_none_wire ++ auth_none_wire ++ take (Z.to_nat (payload_len msg)) (payload msg).

Definition reply_wire (xid stat : Z) (payload : list Z) (payload_len : Z) : list Z :=
  put_be32 xid ++ put_be32 MSG_REPLY ++ put_be32 MSG_ACCEPTED ++ auth_none_wire ++
  put_be32 stat ++
  (if stat =? SUCCESS then take (Z.to_nat payload_len) payload else []).

(** The shape of the C structures: arrays of their declared sizes, fields in
    their types' ranges. *)
Definition auth_ok (a : opaque_auth_t) : Prop := len (body a) = OPAQUE_AUTH_BODY_MAX.

Definition msg_ok (m : rpc_msg_t) : Prop :=
  len (payload m) = RPC_PAYLOAD_MAX ∧ is_bytes (payload m) ∧
  auth_ok (cred (call m)) ∧ auth_ok (verf (call m)) ∧ auth_ok (acc_verf (accepted m)).

(** *** Reading a datagram

    What a datagram says, independently of streams and structures: its
    transaction id, what kind of message it is, and its payload.  [Overrun] marks
    a datagram whose credentials announce a second length above the 400 bytes
    of [auth->body] (see [xdr_decode_opaque_auth]). *)

Inductive rpc_view :=
  | VCall (prog vers proc : Z)
  | VAccepted (stat : Z)
  | VDenied (stat : Z).

Inductive parsed (A : Type) :=
  | Overrun
  | Malformed
  | Parsed (a : A).
Arguments Overrun {A}.
Arguments Malformed {A}.
Arguments Parsed {A}.

Definition word (d : list Z) (p : Z) : option Z :=
  if p + 4 <=? len d then Some (be32_at d p) else None.

(** The position behind the [opaque_auth] at [p]. *)
Definition parse_auth (d : list Z) (p : Z) : parsed Z :=
  match word d p, word d (p + 4) with
  | Some _, Some n =>
      if OPAQUE_AUTH_BODY_MAX <? n then Malformed
      else if 0 <? n then
        match word d (p + 8) with
        | Some n' =>
            if len d <? p + 12 + n' then Malformed
            else if OPAQUE_AUTH_BODY_MAX <? n' then Overrun
            else Parsed (p + 12 + n')
        | None => Malformed
        end
      else Parsed (p + 8)
  | _, _ => Malformed
  end.

Definition parse_call (d : list Z) : parsed (rpc_view * Z) :=
  match word d 8, word d 12, word d 16, word d 20 with
  | Some rv, Some pg, Some vs, Some pc =>
      if negb (rv =? RPC_VERSION) then Malformed
      else match parse_auth d 24 with
           | Parsed q =>
               match parse_auth d q with
               | Parsed r => Parsed (VCall pg vs pc, r)
               | Overrun => Overrun
               | Malformed => Malformed
               end
           | Overrun => Overrun
           | Malformed => Malformed
           end
  | _, _, _, _ => Malformed
  end.

Definition parse_accepted (d : list Z) : parsed (rpc_view * Z) :=
  match parse_auth d 12 with
  | Parsed q =>
      match word d q with
      | Some st =>
          if st =? PROG_MISMATCH then
            if len d <? q + 12 then Malformed else Parsed (VAccepted st, q + 12)
          else Parsed (VAccepted st, q + 4)
      | None => Malformed
      end
  | Overrun => Overrun
  | Malformed => Malformed
  end.

Definition parse_denied (d : list Z) : parsed (rpc_view * Z) :=
  match word d 12 with
  | Some st =>
      let e := if st =? RPC_MISMATCH then 24 else 20 in
      if len d <? e then Malformed else Parsed (VDenied st, e)
  | None => Malformed
  end.

Definition parse_body (d : list Z) (t : Z) : parsed (rpc_view * Z) :=
  if t =? MSG_CALL then parse_call d
  else if t =? MSG_REPLY then
    match word d 8 with
    | Some rs => if rs =? MSG_ACCEPTED then parse_accepted d else parse_denied d
    | None => Malformed
    end
  else Malformed.

(** The transaction id, the kind and the payload. *)
Definition rpc_parse (d : list Z) : parsed (Z * rpc_view * list Z) :=
  match word d 0, word d 4 with
  | Some x, Some t =>
      match parse_body d t with
      | Parsed r =>
          if RPC_PAYLOAD_MAX <? len d - snd r then Malformed
          else Parsed (x, fst r, drop (Z.to_nat (snd r)) d)
      | Overrun => Overrun
      | Malformed => Malformed
      end
  | _, _ => Malformed
  end.

(** *** The message format of RFC 5531

    The same datagram read by the standard, a word at a time.  An [opaque_auth] is a
    flavour and a counted string of at most 400 bytes.  [WOther] is a message that
    neither side of this program sends: a credential or verifier that is not empty,
    or a discriminant the standard does not have. *)

Inductive wire (A : Type) :=
  | WBad
  | WOther
  | WMsg (a : A).
Arguments WBad {A}.
Arguments WOther {A}.
Arguments WMsg {A}.

Definition next_word {A} (d : list Z) (k : Z → list Z → wire A) : wire A :=
  if len d <? 4 then WBad else k (be32_at d 0) (drop 4 d).

Definition rfc_auth {A} (d : list Z) (k : list Z → wire A) : wire A :=
  next_word d (λ _ d, next_word d (λ n d, if 400 <? n then WBad else if n =? 0 then k d else WOther)).

Definition rfc_call (d : list Z) : wire (rpc_view * list Z) :=
  next_word d (λ rpcvers d, next_word d (λ prog d, next_word d (λ vers d, next_word d (λ proc d,
    if negb (rpcvers =? 2) then WBad else rfc_auth d (λ d, rfc_auth d (λ d, WMsg (VCall prog vers proc, d))))))).

Definition rfc_accepted (d : list Z) : wire (rpc_view * list Z) :=
  rfc_auth d (λ d, next_word d (λ stat d,
    if 5 <? stat then WOther
    else if stat =? 2 then next_word d (λ _ d, next_word d (λ _ d, WMsg (VAccepted stat, d)))
    else WMsg (VAccepted stat, d))).

Definition rfc_denied (d : list Z) : wire (rpc_view * list Z) :=
  next_word d (λ stat d,
    if 1 <? stat then WOther
    else if stat =? 0 then next_word d (λ _ d, next_word d (λ _ d, WMsg (VDenied stat, d)))
    else next_word d (λ _ d, WMsg (VDenied stat, d))).

Definition rfc_body (t : Z) (d : list Z) : wire (rpc_view * list Z) :=
  if t =? 0 then rfc_call d
  else if t =? 1 then
    next_word d (λ stat d, if stat =? 0 then rfc_accepted d else if stat =? 1 then rfc_denied d else WOther)
  else WBad.

(** The transaction id, the kind and the payload, of at most 4096 bytes. *)
Definition rfc_parse (d : list Z) : wire (Z * rpc_view * list Z) :=
  next_word d (λ x d, next_word d (λ t d,
    match rfc_body t d with
    | WMsg (v, args) => if 4096 <? len args then WBad else WMsg (x, v, args)
    | WOther => WOther
    | WBad => WBad
    end)).

(** What a decoded structure says. *)
Definition view_of (m : rpc_msg_t) : rpc_view :=
  if mtype m =? MSG_CALL then VCall (prog (call m)) (vers (call m)) (proc (call m))
  else if reply_stat m =? MSG_ACCEPTED then VAccepted (acc_stat (accepted m))
  else VDenied (rej_stat (rejected m)).

Definition args_of (m : rpc_msg_t) : list Z := take (Z.to_nat (payload_len m)) (payload m).

(** ** Encoder lemmas *)

(** [m] appends [bs] to an encoding stream if it fits, and otherwise jumps to
    [fail] without leaving the region. *)
Definition writes (m : X (option unit)) (bs : list Z) : Prop :=
  ∀ w r e, len w ≤ e → e ≤ len (w ++ r) →
    (len w + len bs ≤ e →
     m (strm XDR_ENCODE (w ++ r) (len w) e) =
       Some (Some tt, strm XDR_ENCODE ((w ++ bs) ++ drop (length bs) r) (len (w ++ bs)) e)) ∧
    (e < len w + len bs → ∃ m' p',
     m (strm XDR_ENCODE (w ++ r) (len w) e) = Some (None, strm XDR_ENCODE m' p' e) ∧
     len m' = len (w ++ r)).

Lemma writes_nil : writes (next tt) [].
Proof.
  intros w r e H1 H2. rewrite len_nil, app_nil_r, drop_0. split; [done|lia].
Qed.

Lemma writes_u_int v : writes (put_u_int v) (put_be32 v).
Proof.
  intros w r e H1 H2. rewrite len_put_be32. split; intros H.
  - unfold put_u_int. mstep by (apply via_long_encode; [done|done]). done.
  - exists (w ++ r), (len w). split; [|done].
    unfold put_u_int. by mstep by (apply via_long_encode_full; lia).
Qed.

Lemma writes_seq m1 b1 m2 b2 :
  writes m1 b1 → writes m2 b2 → writes (m1 ;;? m2) (b1 ++ b2).
Proof.
  intros W1 W2 w r e H1 H2. destruct (W1 w r e H1 H2) as [S1 F1].
  rewrite len_app. pose proof (len_nonneg b1). pose proof (len_nonneg b2).
  destruct (Z.le_gt_cases (len w + len b1) e) as [Hle|Hgt].
  2: { split; [lia|]. intros _. destruct (F1 Hgt) as (m' & p' & E & L).
       exists m', p'. split; [|done]. by apply try_fail. }
  assert (L : len ((w ++ b1) ++ drop (length b1) r) = len (w ++ r)).
  { rewrite !len_app in *. unfold len in *. rewrite length_drop. lia. }
  destruct (W2 (w ++ b1) (drop (length b1) r) e) as [S2 F2]; [by rewrite len_app|lia|].
  split; intros H3.
  - erewrite try_next by (by apply S1). rewrite S2 by (rewrite len_app; lia).
    by rewrite drop_drop, length_app, <- !app_assoc.
  - destruct F2 as (m' & p' & E & L'); [rewrite len_app; lia|].
    exists m', p'. split; [|by rewrite L'].
    erewrite try_next by (by apply S1). done.
Qed.

Lemma writes_opaque bs n :
  0 ≤ n ≤ len bs → writes (put_opaque bs n) (take (Z.to_nat n) bs).
Proof.
  intros Hn. unfold put_opaque. destruct (Z.ltb_spec 0 n) as [Hp|Hp].
  2: { replace n with 0 by lia. apply writes_nil. }
  assert (Ht : len (take (Z.to_nat n) bs) = n) by (unfold len in *; rewrite length_take; lia).
  assert (E : xdrmem_putbytes bs n =
    xdrmem_putbytes (take (Z.to_nat n) bs) (len (take (Z.to_nat n) bs))).
  { unfold xdrmem_putbytes. rewrite Ht, take_take, Nat.min_id. done. }
  rewrite E. intros w r e H1 H2. split; intros H.
  - mstep by (by apply putbytes_strm). done.
  - exists (w ++ r), (len w). split; [|done]. mstep by (by apply putbytes_strm_full). done.
Qed.

Lemma writes_auth : writes xdr_encode_auth_none auth_none_wire.
Proof.
  unfold xdr_encode_auth_none, auth_none_wire. apply writes_seq; [apply writes_u_int|].
  rewrite <- (app_nil_r (put_be32 0)). apply writes_seq; [apply writes_u_int|apply writes_nil].
Qed.

(** Matches an encoder with its wire format, field by field. *)
Ltac writes :=
  repeat first [apply writes_u_int | apply writes_auth | apply writes_nil
               | apply writes_opaque; lia | apply writes_seq].

(** An encoder that writes [bs] into a buffer. *)
Lemma encoder_run m bs buf buflen :
  writes m bs → 0 ≤ buflen ≤ len buf → buflen < 2 ^ 31 →
  (len bs ≤ buflen →
   on_buffer buf (xdrmem_create true 0 buflen XDR_ENCODE ;;* let* r := m in finish_encode r) =
     Some (len bs, bs ++ drop (length bs) buf)) ∧
  (buflen < len bs → ∃ buf',
   on_buffer buf (xdrmem_create true 0 buflen XDR_ENCODE ;;* let* r := m in finish_encode r) =
     Some (RPC_ERR_ENCODE, buf') ∧ len buf' = len buf).
Proof.
  intros W Hb H31. destruct (W [] buf buflen) as [Sc Fl]; [lia_len|simpl; lia|].
  unfold on_buffer. rewrite len_nil, app_nil_l in *. pose proof (len_nonneg bs). split; intros H1.
  - mstep by apply create_strm. cbn [mem]. mstep by (apply Sc; lia).
    unfold finish_encode. mstep by apply getpos_strm. mstep by reflexivity.
    rewrite u32_id by (unfold is_u32; rewrite app_nil_l; lia). rewrite app_nil_l, s32_id by lia. done.
  - destruct Fl as (m' & p' & E & L); [lia|]. exists m'. split; [|done].
    mstep by apply create_strm. cbn [mem]. mstep by exact E. done.
Qed.

Lemma len_auth_none : len auth_none_wire = 8.
Proof. done. Qed.

Lemma len_call_wire msg :
  0 ≤ payload_len msg ≤ len (payload msg) → len (call_wire msg) = 40 + payload_len msg.
Proof.
  intros H. unfold call_wire. rewrite !len_app, !len_put_be32, !len_auth_none.
  unfold len in *. rewrite length_take. lia.
Qed.

Lemma call_wire_bytes msg : is_bytes (payload msg) → is_bytes (call_wire msg).
Proof.
  intros H. change (call_wire msg) with
    (be_words [xid msg; MSG_CALL; rpcvers (call msg); prog (call msg); vers (call msg);
               proc (call msg); 0; 0; 0; 0] ++ take (Z.to_nat (payload_len msg)) (payload msg)).
  apply Forall_app. split; [apply be_words_bytes|by apply Forall_take].
Qed.

Lemma reply_wire_bytes x stat bs n : is_bytes bs → is_bytes (reply_wire x stat bs n).
Proof.
  intros H. change (reply_wire x stat bs n) with
    (be_words [x; MSG_REPLY; MSG_ACCEPTED; 0; 0; stat] ++
     (if stat =? SUCCESS then take (Z.to_nat n) bs else [])).
  apply Forall_app. split; [apply be_words_bytes|].
  destruct (stat =? SUCCESS); [by apply Forall_take|constructor].
Qed.

Lemma encode_call_run buf buflen msg :
  rpcvers (call msg) = RPC_VERSION → 0 ≤ payload_len msg ≤ RPC_PAYLOAD_MAX →
  len (payload msg) = RPC_PAYLOAD_MAX → 0 ≤ buflen ≤ len buf → buflen < 2 ^ 31 →
  (40 + payload_len msg ≤ buflen →
   rpc_encode_call true buf buflen msg =
     Some (40 + payload_len msg, call_wire msg ++ drop (length (call_wire msg)) buf)) ∧
  (buflen < 40 + payload_len msg → ∃ buf',
   rpc_encode_call true buf buflen msg = Some (RPC_ERR_ENCODE, buf') ∧ len buf' = len buf).
Proof.
  intros Hv Hp Hl Hb H31. rewrite <- len_call_wire by lia. unfold rpc_encode_call.
  rewrite Hv, Z.eqb_refl. simpl negb. replace (RPC_PAYLOAD_MAX <? payload_len msg) with false by lia.
  cbv iota. apply encoder_run; [|done|done]. rewrite <- Hv.
  unfold call_wire. writes.
Qed.

Lemma encode_reply_run buf buflen x stat bs n :
  0 ≤ n ≤ RPC_PAYLOAD_MAX → n ≤ len bs → 0 ≤ buflen ≤ len buf → buflen < 2 ^ 31 →
  let w := reply_wire x stat bs n in
  (len w ≤ buflen →
   rpc_encode_reply true buf buflen x stat bs n = Some (len w, w ++ drop (length w) buf)) ∧
  (buflen < len w → ∃ buf',
   rpc_encode_reply true buf buflen x stat bs n = Some (RPC_ERR_ENCODE, buf') ∧ len buf' = len buf).
Proof.
  intros Hn Hl Hb H31 w. unfold rpc_encode_reply.
  replace (RPC_PAYLOAD_MAX <? n) with false by lia. cbv iota.
  apply encoder_run; [|done|done]. unfold w, reply_wire.
  destruct (stat =? SUCCESS); writes.
Qed.

(** ** Decoder lemmas *)

(** The decoder at position [p] of the datagram [d], which lies at the start of
    a buffer that goes on with [rest]. *)
Abbreviation at_pos d rest p o := (Dst (strm XDR_DECODE (d ++ rest) p (len d)) o).

Section Decoder.
Context (d rest : list Z) (Hd : is_bytes d).

Lemma get_word p o : 0 ≤ p →
  get_u_int (at_pos d rest p o) =
    match word d p with
    | Some v => Some (Some v, at_pos d rest (p + 4) o)
    | None => Some (None, at_pos d rest p o)
    end.
Proof.
  intros Hp. unfold get_u_int, word, on_stream, zoom, bind. cbn [strm_of].
  destruct (Z.leb_spec (p + 4) (len d)).
  - pose proof (len_nonneg rest). unfold xdr_u_int.
    rewrite via_long_decode by (rewrite ?len_app; lia). rewrite be32_at_app_l by lia.
    rewrite u32_id by (by apply be32_at_range). done.
  - unfold xdr_u_int. by rewrite via_long_decode_short by lia.
Qed.

(** Reading a field, as a step of the decoder. *)
Lemma try_word {A} p o (k : Z → D A) : 0 ≤ p →
  try get_u_int k (at_pos d rest p o) =
    match word d p with
    | Some v => k v (at_pos d rest (p + 4) o)
    | None => Some (None, at_pos d rest p o)
    end.
Proof. intros Hp. unfold try, bind. rewrite get_word by done. by destruct (word d p). Qed.

Lemma try_assign {A} p o f (k : unit → D A) :
  try (assign f) k (at_pos d rest p o) = k tt (at_pos d rest p (f o)).
Proof. done. Qed.

Lemma word_some p v : word d p = Some v → v = be32_at d p ∧ p + 4 ≤ len d ∧ 0 ≤ v < 2 ^ 32.
Proof.
  unfold word. case_bool; [|done]. intros [= <-]. split_and!; try done; by apply be32_at_range.
Qed.
(** Reads the next word; constant positions are computed. *)
Ltac read_word :=
  rewrite try_word by lia;
  repeat match goal with
  | |- context [Z.add (Zpos ?a) 4] =>
      let v := eval compute in (Zpos a + 4) in change (Zpos a + 4) with v
  end.

(** The outcome of a decoding step that starts at [p] with the message [o]. *)
Definition decodes {A} (m : D unit) (p : Z) (o : rpc_msg_t) (spec : parsed A)
    (Q : A → Z → rpc_msg_t → Prop) : Prop :=
  match spec with
  | Overrun => m (at_pos d rest p o) = None
  | Malformed => ∃ p' o', m (at_pos d rest p o) = Some (None, at_pos d rest p' o') ∧ msg_ok o'
  | Parsed a => ∃ q o', m (at_pos d rest p o) = Some (Some tt, at_pos d rest q o') ∧ msg_ok o' ∧ Q a q o'
  end.

Lemma auth_decodes auth upd p o :
  0 ≤ p → auth_ok auth → msg_ok o →
  (∀ a o, auth_ok a → msg_ok o → msg_ok (upd a o)) →
  (∀ a b o, upd a (upd b o) = upd a o) →
  decodes (xdr_decode_opaque_auth auth upd) p o (parse_auth d p)
    (λ r q o', q = r ∧ p < r ≤ len d ∧ ∃ a, o' = upd a o).
Proof.
  intros Hp Ha Ho Hok Hupd. unfold decodes, parse_auth, xdr_decode_opaque_auth.
  rewrite try_word by done. destruct (word d p) as [f|]; [|eauto].
  rewrite try_word by lia. destruct (word d (p + 4)) as [n|] eqn:Wn; [|eauto].
  apply word_some in Wn as (_ & Ln & _). rewrite try_assign.
  assert (Ha' : msg_ok (upd (OpaqueAuth f n (body auth)) o)) by (apply Hok; done).
  destruct (OPAQUE_AUTH_BODY_MAX <? n); [eexists _, _; split; [done|done]|].
  destruct (0 <? n).
  2: { eexists _, _. split; [done|]. split_and!; eauto with lia. }
  rewrite try_word by lia. replace (p + 4 + 4) with (p + 8) by lia.
  destruct (word d (p + 8)) as [n'|] eqn:W'; [|eauto].
  apply word_some in W' as (_ & L' & R'). unfold bind, on_stream, zoom. cbn [strm_of].
  destruct (Z.ltb_spec (len d) (p + 12 + n')).
  { rewrite getbytes_strm_short by lia. eauto. }
  pose proof (len_nonneg rest). rewrite getbytes_strm by (rewrite ?len_app; lia).
  cbn [out]. rewrite slice_app_l, len_slice by lia.
  destruct (Z.ltb_spec OPAQUE_AUTH_BODY_MAX n'); [done|].
  unfold assign. cbn [out strm_of]. rewrite Hupd.
  eexists _, _. split; [done|]. split_and!; [|lia|lia|lia|eauto].
  apply Hok; [|done]. unfold auth_ok in *. cbn [body].
  rewrite len_splice; [done|lia|]. rewrite len_slice; lia.
Qed.

(** Two steps in sequence. *)
Lemma decodes_seq {A B} m1 m2 p o (s1 : parsed A) (s2 : A → parsed B) Q1 Q2 :
  decodes m1 p o s1 Q1 →
  (∀ a q o', s1 = Parsed a → msg_ok o' → Q1 a q o' → decodes m2 q o' (s2 a) Q2) →
  decodes (m1 ;;? m2) p o
    (match s1 with Parsed a => s2 a | Overrun => Overrun | Malformed => Malformed end) Q2.
Proof.
  intros H1 H2. unfold decodes in H1. destruct s1 as [| |a].
  - simpl. unfold try, bind. by rewrite H1.
  - destruct H1 as (p' & o' & E & Hok). exists p', o'. split; [by apply try_fail|done].
  - destruct H1 as (q & o' & E & Hok & HQ). specialize (H2 a q o' eq_refl Hok HQ).
    unfold decodes in *. by rewrite (try_next _ _ _ _ _ E).
Qed.

Lemma decodes_gets {A} (k : rpc_msg_t → D unit) p o (s : parsed A) Q :
  decodes (k o) p o s Q → decodes (let* m := gets out in k m) p o s Q.
Proof. done. Qed.

Lemma word_case p : (∃ v, word d p = Some v ∧ p + 4 ≤ len d) ∨ (word d p = None ∧ len d < p + 4).
Proof. unfold word. case_bool; eauto. Qed.

Lemma call_body_decodes o :
  msg_ok o → mtype o = MSG_CALL →
  decodes decode_call_body 8 o (parse_call d)
    (λ r q o', q = snd r ∧ 0 ≤ q ≤ len d ∧ view_of o' = fst r ∧
       xid o' = xid o ∧ mtype o' = MSG_CALL ∧ rpcvers (call o') = RPC_VERSION).
Proof.
  intros Ho Ht. unfold parse_call, decode_call_body.
  unfold decodes. read_word. destruct (word d 8) as [rv|]; [|eauto].
  read_word. destruct (word d 12) as [pg|]; [|eauto].
  read_word. destruct (word d 16) as [vs|]; [|eauto].
  read_word. destruct (word d 20) as [pc|]; [|eauto].
  destruct (Z.eqb_spec rv RPC_VERSION) as [->|]; cbn [negb]; [|eauto].
  unfold bind, gets. cbv beta zeta. cbn [out cred verf]. rewrite try_assign.
  set (c := CallBody _ _ _ _ _ _).
  assert (Hc : msg_ok (set_call c o)) by (unfold msg_ok in *; simpl; tauto).
  destruct Ho as (? & ? & Hcr & Hvf & ?).
  eapply (decodes_seq _ _ 24 _ (parse_auth d 24)
    (λ q, match parse_auth d q with Parsed r => Parsed (VCall pg vs pc, r)
          | Overrun => Overrun | Malformed => Malformed end)).
  { apply auth_decodes; [lia|done|done| |done].
    intros a o' Ha (? & ? & ? & ? & ?). unfold msg_ok. simpl. tauto. }
  intros q q' o' _ Hok' (-> & Hq & a & ->).
  unshelve epose proof (auth_decodes (verf (call o)) (λ a m, set_call (set_verf a (call m)) m) q
    (set_call (set_cred a (call (set_call c o))) (set_call c o)) _ _ _ _ _) as H2;
    [lia|done|done| |done|].
  { intros b o' Hb (? & ? & ? & ? & ?). unfold msg_ok. simpl. tauto. }
  unfold decodes in *. destruct (parse_auth d q) as [| |r]; [done|done|].
  destruct H2 as (q2 & o2 & E & Hok2 & -> & Hr & b & ->).
  eexists _, _. split; [exact E|]. split; [done|].
  unfold view_of. simpl. rewrite Ht. simpl. split_and!; try done; lia.
Qed.

(** What a step that fills the reply fields leaves alone. *)
Definition same_head (o o' : rpc_msg_t) : Prop :=
  xid o' = xid o ∧ mtype o' = mtype o ∧ reply_stat o' = reply_stat o.

Lemma accepted_decodes o :
  msg_ok o →
  decodes decode_accepted 12 o (parse_accepted d)
    (λ r q o', q = snd r ∧ 0 ≤ q ≤ len d ∧ VAccepted (acc_stat (accepted o')) = fst r ∧
       same_head o o').
Proof.
  intros Ho. unfold decode_accepted, parse_accepted.
  apply decodes_gets.
  eapply (decodes_seq _ _ 12 o (parse_auth d 12)
    (λ q, match word d q with
          | Some st => if st =? PROG_MISMATCH then
              if len d <? q + 12 then Malformed else Parsed (VAccepted st, q + 12)
            else Parsed (VAccepted st, q + 4)
          | None => Malformed end)).
  { apply auth_decodes; [lia|apply Ho|done| |done].
    intros a o' Ha (? & ? & ? & ? & ?). unfold msg_ok. simpl. tauto. }
  intros q q' o' _ Hok' (-> & Hq & a & ->). unfold decodes.
  read_word. destruct (word d q) as [st|] eqn:W; [|eauto]. apply word_some in W as (_ & ? & _).
  rewrite try_assign. destruct (Z.eqb_spec st PROG_MISMATCH) as [->|].
  2: { eexists _, _. split; [done|]. unfold same_head. simpl. split_and!; try done; try lia; apply Ho. }
  read_word. destruct (word_case (q + 4)) as [(l & -> & ?)|(-> & ?)].
  2: { if_true. eexists _, _. split; [done|]. apply Hok'. }
  rewrite try_assign. read_word. replace (q + 4 + 4) with (q + 8) by lia.
  destruct (word_case (q + 8)) as [(h & -> & ?)|(-> & ?)].
  2: { if_true. eexists _, _. split; [done|]. apply Hok'. }
  if_false. eexists _, _. split; [done|]. unfold same_head. simpl.
  split_and!; try done; try lia; apply Ho.
Qed.

Lemma rejected_decodes o :
  msg_ok o →
  decodes decode_rejected 12 o (parse_denied d)
    (λ r q o', q = snd r ∧ 0 ≤ q ≤ len d ∧ VDenied (rej_stat (rejected o')) = fst r ∧
       same_head o o').
Proof.
  intros Ho. unfold decode_rejected, parse_denied, decodes.
  read_word. destruct (word d 12) as [st|] eqn:W; [|eauto].
  rewrite try_assign. destruct (Z.eqb_spec st RPC_MISMATCH) as [->|]; cbv zeta.
  all: read_word; destruct (word_case 16) as [(l & -> & ?)|(-> & ?)];
    [|if_true; eexists _, _; split; [done|apply Ho]].
  2: { if_false. eexists _, _. split; [done|]. unfold same_head. simpl.
       split_and!; try done; try lia; apply Ho. }
  rewrite try_assign. read_word. destruct (word_case 20) as [(h & -> & ?)|(-> & ?)];
    [|if_true; eexists _, _; split; [done|apply Ho]].
  if_false. eexists _, _. split; [done|]. unfold same_head. simpl.
  split_and!; try done; try lia; apply Ho.
Qed.

Lemma reply_body_decodes o :
  msg_ok o → mtype o = MSG_REPLY →
  decodes decode_reply_body 8 o
    (match word d 8 with
     | Some rs => if rs =? MSG_ACCEPTED then parse_accepted d else parse_denied d
     | None => Malformed
     end)
    (λ r q o', q = snd r ∧ 0 ≤ q ≤ len d ∧ view_of o' = fst r ∧
       xid o' = xid o ∧ mtype o' = MSG_REPLY).
Proof.
  intros Ho Ht. unfold decode_reply_body, decodes. read_word.
  destruct (word d 8) as [rs|]; [|eauto]. rewrite try_assign.
  assert (Hs : msg_ok (set_reply_stat rs o)) by apply Ho.
  destruct (Z.eqb_spec rs MSG_ACCEPTED) as [->|Hrs].
  - pose proof (accepted_decodes _ Hs) as H. unfold decodes in H.
    destruct (parse_accepted d) as [| |r]; [done|done|].
    destruct H as (q & o' & E & Hok & -> & Hq & Hv & Hx & Hm & Hr).
    eexists _, _. split; [exact E|]. unfold view_of. rewrite Hm, Hr, Hx. simpl. rewrite Ht.
    simpl. split_and!; try done; lia.
  - pose proof (rejected_decodes _ Hs) as H. unfold decodes in H.
    destruct (parse_denied d) as [| |r]; [done|done|].
    destruct H as (q & o' & E & Hok & -> & Hq & Hv & Hx & Hm & Hr).
    eexists _, _. split; [exact E|]. unfold view_of. rewrite Hm, Hr, Hx. simpl. rewrite Ht.
    simpl. rewrite (proj2 (Z.eqb_neq _ _) Hrs). split_and!; try done; lia.
Qed.

Lemma drop_bytes n : is_bytes (drop n d).
Proof. by apply Forall_drop. Qed.

Lemma payload_decodes pos o :
  msg_ok o → 0 ≤ pos ≤ len d → len d < 2 ^ 31 →
  decodes (decode_payload (len d)) pos o
    (if RPC_PAYLOAD_MAX <? len d - pos then Malformed else Parsed (drop (Z.to_nat pos) d))
    (λ r q o', args_of o' = r ∧ payload_len o' = len r ∧
       xid o' = xid o ∧ mtype o' = mtype o ∧ view_of o' = view_of o ∧ call o' = call o).
Proof.
  intros Ho Hp H31. unfold decode_payload, decodes, bind, on_stream, zoom. cbn [strm_of].
  rewrite getpos_strm. cbn [out]. rewrite (u32_id pos) by (unfold is_u32; lia).
  rewrite u32_id by (unfold is_u32; lia).
  destruct (Z.ltb_spec RPC_PAYLOAD_MAX (len d - pos)); [eauto|].
  rewrite try_assign. assert (HL : len (drop (Z.to_nat pos) d) = len d - pos) by (unfold len in *; rewrite length_drop; lia).
  destruct (Z.ltb_spec 0 (len d - pos)) as [Hpos|Hpos].
  2: { eexists _, _. split; [done|]. unfold args_of. simpl. split_and!; try done; try apply Ho; try lia.
       replace (len d - pos) with 0 in * by lia. symmetry. apply nil_length_inv. unfold len in HL. lia. }
  pose proof (len_nonneg rest). cbn [strm_of]. rewrite getbytes_strm by (rewrite ?len_app; lia).
  rewrite slice_app_l by lia. eexists _, _. split; [done|].
  unfold args_of, msg_ok. simpl.
  assert (HS : slice pos (len d - pos) d = drop (Z.to_nat pos) d).
  { unfold slice. apply take_ge. rewrite length_drop. unfold len. lia. }
  rewrite HS. destruct Ho as (HL4 & HB & ? & ? & ?).
  assert (E : splice 0 (drop (Z.to_nat pos) d) (payload o) =
    drop (Z.to_nat pos) d ++ drop (length (drop (Z.to_nat pos) d)) (payload o)) by done.
  split_and!; try done; try lia; [rewrite len_splice; lia|..].
  - rewrite E. apply Forall_app. split; [apply drop_bytes|by apply Forall_drop].
  - rewrite E, <- HL, to_nat_len. apply take_app_length.
Qed.
End Decoder.

Lemma decodes_mono {A} d rest m p o (s : parsed A) (Q Q' : A → Z → rpc_msg_t → Prop) :
  (∀ a q o', Q a q o' → Q' a q o') → decodes d rest m p o s Q → decodes d rest m p o s Q'.
Proof.
  intros HQ. unfold decodes. destruct s as [| |a]; [done|done|].
  intros (q & o' & E & Hok & H). exists q, o'. auto.
Qed.

Lemma body_decodes d rest x t m :
  is_bytes d → msg_ok m →
  decodes d rest (if t =? MSG_CALL then decode_call_body
             else if t =? MSG_REPLY then decode_reply_body else goto_fail)
    8 (set_head x t m) (parse_body d t)
    (λ r q o', q = snd r ∧ 0 ≤ q ≤ len d ∧ view_of o' = fst r ∧ xid o' = x ∧ mtype o' = t ∧
       (t = MSG_CALL ∨ t = MSG_REPLY)).
Proof.
  intros Hd Hm. assert (Hm' : msg_ok (set_head x t m)) by apply Hm. unfold parse_body.
  destruct (Z.eqb_spec t MSG_CALL) as [->|]; [|destruct (Z.eqb_spec t MSG_REPLY) as [->|]].
  - eapply decodes_mono; [|by apply call_body_decodes]. simpl. tauto.
  - eapply decodes_mono; [|by apply reply_body_decodes]. simpl. tauto.
  - eexists _, _. split; [done|]. done.
Qed.

(** The decoder reads what the datagram says. *)
Lemma decode_parse d rest m :
  is_bytes d → len d < 2 ^ 31 → msg_ok m →
  match rpc_parse d with
  | Overrun => rpc_decode_msg true (d ++ rest) (len d) m = None
  | Malformed => ∃ m', rpc_decode_msg true (d ++ rest) (len d) m = Some (RPC_ERR_DECODE, m') ∧ msg_ok m'
  | Parsed (x, v, args) => ∃ m', rpc_decode_msg true (d ++ rest) (len d) m = Some (RPC_OK, m') ∧
      msg_ok m' ∧ xid m' = x ∧ view_of m' = v ∧ args_of m' = args ∧ payload_len m' = len args ∧
      mtype m' = be32_at d 4 ∧ (mtype m' = MSG_CALL ∨ mtype m' = MSG_REPLY)
  end.
Proof.
  intros Hd H31 Hm.
  assert (H : decodes d rest (decode_body (len d)) 0 m (rpc_parse d)
    (λ r _ m', xid m' = fst (fst r) ∧ view_of m' = snd (fst r) ∧ args_of m' = snd r ∧
       payload_len m' = len (snd r) ∧ mtype m' = be32_at d 4 ∧
       (mtype m' = MSG_CALL ∨ mtype m' = MSG_REPLY))).
  2: { revert H. unfold decodes, rpc_decode_msg.
       set (s := Dst (Xst (d ++ rest) xdr_uninit) m).
       assert (C : on_stream (xdrmem_create true 0 (len d) XDR_DECODE) s = Some (tt, at_pos d rest 0 m)) by done.
       rewrite (bind_run _ _ _ _ _ C).
       destruct (rpc_parse d) as [| |[[x v] args]].
       - intros E. unfold bind. by rewrite E.
       - intros (p & o & E & Ho). rewrite (bind_run _ _ _ _ _ E). eauto.
       - intros (p & o & E & Ho & H). rewrite (bind_run _ _ _ _ _ E). exists o. simpl in H.
         split; [done|]. tauto. }
  unfold rpc_parse, decode_body, decodes. rewrite try_word by (done || lia).
  destruct (word d 0) as [x|]; [|eauto]. rewrite try_word by (done || lia).
  change (0 + 4) with 4. destruct (word d 4) as [t|] eqn:Wt; [|eauto].
  apply word_some in Wt as (Et & _); [|done]. rewrite try_assign.
  eapply (decodes_seq d rest _ _ 8 (set_head x t m) (parse_body d t)
    (λ r, if RPC_PAYLOAD_MAX <? len d - snd r then Malformed
          else Parsed (x, fst r, drop (Z.to_nat (snd r)) d))); [by apply body_decodes|].
  intros r q o' _ Hok (-> & Hq & Hv & Hx & Ht & Hcr).
  pose proof (payload_decodes d rest Hd (snd r) o' Hok Hq H31) as HP.
  unfold decodes in *. destruct (RPC_PAYLOAD_MAX <? len d - snd r); [done|].
  destruct HP as (q' & o'' & E & Hok'' & H). eexists _, _. split; [exact E|]. split; [done|].
  simpl. destruct H as (? & ? & -> & -> & -> & _). rewrite Ht, <- Et. tauto.
Qed.

(** ** The decoder's reading and the standard's *)

Section Standard.
Context (d : list Z).

Lemma next_word_at {A} p (k : Z → list Z → wire A) : 0 ≤ p →
  next_word (drop (Z.to_nat p) d) k = match word d p with Some v => k v (drop (Z.to_nat (p + 4)) d) | None => WBad end.
Proof.
  intros Hp. unfold next_word, word. destruct (Z.leb_spec (p + 4) (len d)) as [Hl|Hl].
  - rewrite (proj2 (Z.ltb_ge _ _)) by (unfold len in *; rewrite length_drop; lia). rewrite drop_drop.
    replace (Z.to_nat p + 4)%nat with (Z.to_nat (p + 4)) by lia. f_equal. unfold be32_at, byte_at.
    rewrite !nth_lookup, !lookup_drop. f_equal; do 2 f_equal; lia.
  - rewrite (proj2 (Z.ltb_lt _ _)) by (unfold len in *; rewrite length_drop; lia). done.
Qed.

(** [w] says nothing else than [r]. *)
Definition agrees {A B} (R : B → A → Prop) (w : wire A) (r : parsed B) : Prop :=
  match w with WBad => r = Malformed | WOther => True | WMsg a => ∃ b, r = Parsed b ∧ R b a end.

Definition rest_at (r : rpc_view * Z) (w : rpc_view * list Z) : Prop := 0 ≤ snd r ∧ w = (fst r, drop (Z.to_nat (snd r)) d).

Lemma rfc_auth_at {A B} (R : B → A → Prop) p k K : 0 ≤ p → (∀ q, 0 ≤ q → agrees R (k (drop (Z.to_nat q) d)) (K q)) →
  agrees R (rfc_auth (drop (Z.to_nat p) d) k)
    (match parse_auth d p with Parsed q => K q | Overrun => Overrun | Malformed => Malformed end).
Proof.
  intros Hp Hk. unfold rfc_auth, parse_auth. rewrite next_word_at by done. destruct (word d p) as [fl|]; [|done].
  rewrite next_word_at by lia. destruct (word d (p + 4)) as [n|] eqn:Wn; [|done]. unfold OPAQUE_AUTH_BODY_MAX.
  destruct (400 <? n); [done|]. destruct (Z.eqb_spec n 0) as [->|]; [|done]. cbn [Z.ltb Z.compare].
  replace (p + 4 + 4) with (p + 8) by lia. apply Hk. lia.
Qed.

Ltac next_at := rewrite next_word_at by lia; match goal with |- context [match word d ?p with _ => _ end] =>
  let q := eval compute in p in change p with q; destruct (word d q); [|done] end.

Lemma rfc_call_at : agrees rest_at (rfc_call (drop (Z.to_nat 8) d)) (parse_call d).
Proof.
  unfold rfc_call, parse_call. rewrite next_word_at by lia. cbn [Z.add Pos.add Pos.succ]. destruct (word d 8) as [rv|]; [|done].
  next_at. next_at. next_at. unfold RPC_VERSION. destruct (negb _); [done|]. apply rfc_auth_at; [lia|]. intros q Hq.
  apply rfc_auth_at; [done|]. intros r Hr. eexists. split; [done|]. by split; [cbn; lia|].
Qed.

Lemma rfc_accepted_at : agrees rest_at (rfc_accepted (drop (Z.to_nat 12) d)) (parse_accepted d).
Proof.
  unfold rfc_accepted, parse_accepted. apply rfc_auth_at; [lia|]. intros q Hq. rewrite next_word_at by done. destruct (word d q) as [st|] eqn:W; [|done].
  destruct (5 <? st); [done|]. change PROG_MISMATCH with 2. destruct (st =? 2).
  - rewrite next_word_at by lia. unfold word at 1. destruct (Z.leb_spec (q + 4 + 4) (len d)); [|by rewrite (proj2 (Z.ltb_lt _ _)) by lia].
    rewrite next_word_at by lia. unfold word. destruct (Z.leb_spec (q + 4 + 4 + 4) (len d)); [|by rewrite (proj2 (Z.ltb_lt _ _)) by lia].
    rewrite (proj2 (Z.ltb_ge _ _)) by lia. eexists. split; [done|]. split; [cbn; lia|]. cbn [fst snd]. do 2 f_equal. lia.
  - eexists. split; [done|]. by split; [cbn; lia|].
Qed.

Lemma rfc_denied_at : agrees rest_at (rfc_denied (drop (Z.to_nat 12) d)) (parse_denied d).
Proof.
  unfold rfc_denied, parse_denied. rewrite next_word_at by lia. destruct (word d 12) as [st|] eqn:W; [|done].
  destruct (1 <? st); [done|]. change RPC_MISMATCH with 0. destruct (st =? 0); rewrite next_word_at by lia; unfold word at 1;
    (destruct (Z.leb_spec (12 + 4 + 4) (len d)); [|by rewrite (proj2 (Z.ltb_lt _ _)) by lia]).
  - rewrite next_word_at by lia. unfold word. destruct (Z.leb_spec (12 + 4 + 4 + 4) (len d)); [|by rewrite (proj2 (Z.ltb_lt _ _)) by lia].
    rewrite (proj2 (Z.ltb_ge _ _)) by lia. eexists. split; [done|]. by split; [cbn; lia|].
  - rewrite (proj2 (Z.ltb_ge _ _)) by lia. eexists. split; [done|]. by split; [cbn; lia|].
Qed.

Lemma rfc_body_at t : agrees rest_at (rfc_body t (drop (Z.to_nat 8) d)) (parse_body d t).
Proof.
  unfold rfc_body, parse_body. change MSG_CALL with 0. change MSG_REPLY with 1. destruct (t =? 0); [apply rfc_call_at|]. destruct (t =? 1); [|done].
  rewrite next_word_at by lia. destruct (word d 8) as [st|]; [|done]. change MSG_ACCEPTED with 0. destruct (st =? 0); [apply rfc_accepted_at|].
  destruct (st =? 1); [apply rfc_denied_at|done].
Qed.

Lemma rfc_parse_agrees : agrees eq (rfc_parse d) (rpc_parse d).
Proof.
  unfold rfc_parse, rpc_parse. rewrite <- (drop_0 d) at 1. change 0%nat with (Z.to_nat 0). rewrite next_word_at by done. destruct (word d 0) as [x|]; [|done].
  rewrite next_word_at by lia. change (0 + 4) with 4. destruct (word d 4) as [t|]; [|done]. change (4 + 4) with 8. pose proof (rfc_body_at t) as Hb.
  destruct (rfc_body t _) as [| |[v args]]; cbn [agrees] in Hb; [by rewrite Hb|done|]. destruct Hb as ([v' q] & -> & Hq & Ea). cbn [fst snd] in Hq, Ea |- *.
  injection Ea as -> ->. unfold RPC_PAYLOAD_MAX. assert (El : (4096 <? len (drop (Z.to_nat q) d)) = (4096 <? len d - q)).
  { unfold len. rewrite length_drop. apply eq_true_iff_eq. rewrite !Z.ltb_lt. lia. }
  rewrite El. destruct (4096 <? len d - q); [done|]. eexists. by split.
Qed.
End Standard.

(** ** What the encoders write, the decoder reads *)

Lemma word_words ws r i v :
  ws !! i = Some v → is_u32 v → word (be_words ws ++ r) (4 * Z.of_nat i) = Some v.
Proof.
  intros Hi Hv. unfold word. rewrite (be32_at_words _ _ _ _ Hi), u32_id by done.
  rewrite len_app, len_be_words. pose proof (len_nonneg r). apply lookup_lt_Some in Hi.
  by if_true.
Qed.

(** Evaluates [word] at a constant position of a sequence of words. *)
Ltac eval_word :=
  match goal with
  | |- context [word (be_words ?ws ++ ?r) ?p] =>
      let i := eval compute in (Z.to_nat (p / 4)) in
      change (word (be_words ws ++ r) p) with (word (be_words ws ++ r) (4 * Z.of_nat i)); erewrite (word_words _ _ i); [|reflexivity|]
  end.

Definition call_u32 (msg : rpc_msg_t) : Prop :=
  is_u32 (xid msg) ∧ is_u32 (prog (call msg)) ∧ is_u32 (vers (call msg)) ∧ is_u32 (proc (call msg)).

Lemma parse_auth_none ws r i :
  ws !! i = Some 0 → ws !! (S i) = Some 0 →
  parse_auth (be_words ws ++ r) (4 * Z.of_nat i) = Parsed (4 * Z.of_nat (S (S i))).
Proof.
  intros H1 H2. unfold parse_auth. rewrite (word_words ws r i 0) by done.
  replace (4 * Z.of_nat i + 4) with (4 * Z.of_nat (S i)) by lia.
  rewrite (word_words ws r (S i) 0) by done. simpl. f_equal. lia.
Qed.

Lemma parse_call_wire msg :
  call_u32 msg → rpcvers (call msg) = RPC_VERSION → 0 ≤ payload_len msg ≤ RPC_PAYLOAD_MAX →
  len (payload msg) = RPC_PAYLOAD_MAX →
  rpc_parse (call_wire msg) =
    Parsed (xid msg, VCall (prog (call msg)) (vers (call msg)) (proc (call msg)), args_of msg).
Proof.
  intros (Hx & Hp & Hv & Hc) Hr Hl Hpl. pose proof (len_call_wire msg) as HL.
  set (ws := [xid msg; MSG_CALL; rpcvers (call msg); prog (call msg); vers (call msg);
              proc (call msg); 0; 0; 0; 0]).
  assert (E : call_wire msg = be_words ws ++ args_of msg) by done.
  rewrite E in *. clear E. unfold rpc_parse, parse_body, parse_call.
  do 2 (eval_word; [|done]). simpl (_ =? _). cbv iota.
  eval_word; [|by rewrite Hr]. do 3 (eval_word; [|done]).
  rewrite Hr. simpl negb. cbv iota.
  rewrite (parse_auth_none ws _ 6), (parse_auth_none ws _ 8) by done. cbn [fst snd].
  rewrite HL by lia. change (4 * Z.of_nat 10) with 40. if_false. done.
Qed.

Lemma len_reply_wire x stat bs n :
  0 ≤ n ≤ len bs → len (reply_wire x stat bs n) = 24 + (if stat =? SUCCESS then n else 0).
Proof.
  intros Hn. unfold reply_wire. rewrite !len_app, !len_put_be32, !len_auth_none.
  destruct (stat =? SUCCESS); [|done]. unfold len in *. rewrite length_take. lia.
Qed.

Lemma parse_reply_wire x stat bs n :
  is_u32 x → is_u32 stat → stat ≠ PROG_MISMATCH → 0 ≤ n ≤ RPC_PAYLOAD_MAX → n ≤ len bs →
  rpc_parse (reply_wire x stat bs n) =
    Parsed (x, VAccepted stat, if stat =? SUCCESS then take (Z.to_nat n) bs else []).
Proof.
  intros Hx Hs Hm Hn Hb. pose proof (len_reply_wire x stat bs n) as HL.
  set (args := if stat =? SUCCESS then take (Z.to_nat n) bs else []).
  set (ws := [x; MSG_REPLY; MSG_ACCEPTED; 0; 0; stat]).
  assert (E : reply_wire x stat bs n = be_words ws ++ args) by done.
  rewrite E in *. clear E. unfold rpc_parse, parse_body, parse_accepted.
  do 2 (eval_word; [|done]). simpl (_ =? MSG_CALL). simpl (_ =? MSG_REPLY). cbv iota.
  eval_word; [|done]. simpl (_ =? MSG_ACCEPTED). cbv iota.
  change 12 with (4 * Z.of_nat 3). rewrite (parse_auth_none ws _ 3) by done.
  rewrite (word_words ws _ 5 stat) by done.
  rewrite (proj2 (Z.eqb_neq _ _) Hm). cbn [fst snd]. rewrite HL by lia.
  change (4 * Z.of_nat 5 + 4) with 24.
  replace (RPC_PAYLOAD_MAX <? _) with false; [done|].
  unfold RPC_PAYLOAD_MAX in *. destruct (stat =? SUCCESS); lia.
Qed.

(** A [PROG_MISMATCH] reply lacks the two version words the decoder expects. *)
Lemma parse_mismatch_wire x bs n : is_u32 x → rpc_parse (reply_wire x PROG_MISMATCH bs n) = Malformed.
Proof.
  intros Hx. set (ws := [x; MSG_REPLY; MSG_ACCEPTED; 0; 0; PROG_MISMATCH]).
  change (reply_wire x PROG_MISMATCH bs n) with (be_words ws ++ []).
  unfold rpc_parse, parse_body, parse_accepted.
  do 2 (eval_word; [|done]). simpl (_ =? MSG_CALL). simpl (_ =? MSG_REPLY). cbv iota.
  eval_word; [|done]. simpl (_ =? MSG_ACCEPTED). cbv iota.
  change 12 with (4 * Z.of_nat 3). rewrite (parse_auth_none ws _ 3) by done.
  by rewrite (word_words ws _ 5 PROG_MISMATCH) by done.
Qed.

(** ** Properties *)

(** C34: The decoder implements the message format of RFC 5531 for the messages this
    program exchanges, those whose credential and verifier are empty.  A datagram
    the standard does not allow gives [RPC_ERR_DECODE]; a message gives [RPC_OK] and
    the structure holds the transaction id, the kind of message with its fields, and
    the remaining bytes as payload, whatever the structure held before and whatever
    follows the datagram in the receive buffer; the arrays of the structure keep
    their sizes.  On a datagram with a credential or verifier that is not empty, or
    with an unknown discriminant, the decoder returns one of the two codes, unless
    it is one that makes it write behind [auth->body]: [Overrun]. *)
Theorem rpc_decode_refines_parse d rest m :
  is_bytes d → len d < 2 ^ 31 → msg_ok m →
  match rfc_parse d with
  | WBad => ∃ m', rpc_decode_msg true (d ++ rest) (len d) m = Some (RPC_ERR_DECODE, m') ∧ msg_ok m'
  | WMsg (x, v, args) => ∃ m', rpc_decode_msg true (d ++ rest) (len d) m = Some (RPC_OK, m') ∧
      msg_ok m' ∧ xid m' = x ∧ view_of m' = v ∧ args_of m' = args ∧ payload_len m' = len args ∧
      mtype m' = be32_at d 4 ∧ (mtype m' = MSG_CALL ∨ mtype m' = MSG_REPLY)
  | WOther =>
      rpc_parse d = Overrun ∧ rpc_decode_msg true (d ++ rest) (len d) m = None ∨
      ∃ c m', rpc_decode_msg true (d ++ rest) (len d) m = Some (c, m') ∧ msg_ok m' ∧ (c = RPC_OK ∨ c = RPC_ERR_DECODE)
  end.
Proof.
  intros Hd Hl Hm. pose proof (decode_parse d rest m Hd Hl Hm) as H. pose proof (rfc_parse_agrees d) as Ha.
  destruct (rfc_parse d) as [| |[[x v] args]]; cbn [agrees] in Ha.
  - by rewrite Ha in H.
  - destruct (rpc_parse d) as [| |[[x v] args]]; [by left|right..].
    + destruct H as (m' & E & Hok). eauto 6.
    + destruct H as (m' & E & Hok & _). eauto 6.
  - destruct Ha as (b & Eb & ->). by rewrite Eb in H.
Qed.

Lemma msg_sample_ok : msg_ok msg_sample.
Proof.
  unfold msg_ok, auth_ok. split_and!; [reflexivity| |reflexivity..].
  apply Forall_app. split; [repeat constructor; unfold is_byte; lia|].
  apply Forall_replicate. unfold is_byte. lia.
Qed.

Lemma msg_zero_ok : msg_ok msg_zero.
Proof.
  unfold msg_ok, auth_ok. split_and!; [reflexivity| |reflexivity..].
  apply Forall_replicate. unfold is_byte. lia.
Qed.

Lemma rpc_decode_refines_parse_witness :
  ∃ m', rpc_decode_msg true (be_words [7; 1; 0; 0; 0; 0; 42] ++ [255; 255]) 28 msg_zero = Some (RPC_OK, m') ∧
    xid m' = 7 ∧ view_of m' = VAccepted SUCCESS ∧ args_of m' = put_be32 42.
Proof.
  destruct (rpc_decode_refines_parse (be_words [7; 1; 0; 0; 0; 0; 42]) [255; 255] msg_zero
    (be_words_bytes _)) as (m' & E & _ & Hx & Hv & Ha & _); [done|apply msg_zero_ok|].
  exists m'. split_and!; [exact E|exact Hx|exact Hv|exact Ha].
Defined.

(** A call survives the wire: a message with version 2 and a payload of at
    most 4096 bytes is encoded into the 4352-byte transmit buffer, the return
    value is the length of the datagram, and the receiver that decodes those
    bytes gets the same transaction id, program, version, procedure and
    payload. *)
Theorem rpc_call_roundtrip msg buf rest m0 :
  call_u32 msg → rpcvers (call msg) = RPC_VERSION → 0 ≤ payload_len msg ≤ RPC_PAYLOAD_MAX →
  msg_ok msg → msg_ok m0 → len buf = RPC_PAYLOAD_MAX + 256 →
  ∃ n buf', rpc_encode_call true buf (len buf) msg = Some (n, buf') ∧ 0 ≤ n ≤ len buf ∧
    ∃ m', rpc_decode_msg true (slice 0 n buf' ++ rest) n m0 = Some (RPC_OK, m') ∧
      msg_ok m' ∧ xid m' = xid msg ∧ mtype m' = MSG_CALL ∧ view_of m' = VCall (prog (call msg))
        (vers (call msg)) (proc (call msg)) ∧ args_of m' = args_of msg.
Proof.
  intros Hu Hv Hp Hm H0 Hb. destruct (encode_call_run buf (len buf) msg) as [E _];
    [done|done|apply Hm|unfold RPC_PAYLOAD_MAX in *; lia|unfold RPC_PAYLOAD_MAX in *; lia|].
  eexists _, _. split; [apply E; lia|]. split; [lia|].
  rewrite <- len_call_wire by (destruct Hm; lia). rewrite slice_app_0.
  pose proof (decode_parse (call_wire msg) rest m0 (call_wire_bytes msg (proj1 (proj2 Hm)))) as H.
  rewrite parse_call_wire in H; [|done|done|done|apply Hm].
  destruct H as (m' & D & ? & ? & ? & ? & ? & Ht & ?);
    [rewrite len_call_wire by (destruct Hm; lia); unfold RPC_PAYLOAD_MAX in *; lia|done|].
  exists m'. split; [exact D|]. by split_and!.
Qed.

Lemma rpc_call_roundtrip_witness :
  ∃ n buf', rpc_encode_call true (replicate 4352 0) 4352 msg_sample = Some (n, buf') ∧
    ∃ m', rpc_decode_msg true (slice 0 n buf' ++ [17]) n msg_zero = Some (RPC_OK, m') ∧
      xid m' = 9 ∧ args_of m' = [1; 2; 3].
Proof.
  destruct (rpc_call_roundtrip msg_sample (replicate 4352 0) [17] msg_zero)
    as (n & buf' & E & _ & m' & D & _ & Hx & _ & _ & Ha);
    [repeat split; done|done|done|apply msg_sample_ok|apply msg_zero_ok|done|].
  exists n, buf'. split; [exact E|]. exists m'. split_and!; [exact D|exact Hx|exact Ha].
Defined.

(** A reply survives the wire: every accepted reply but [PROG_MISMATCH] is
    encoded and decoded to the same transaction id, status and (for [SUCCESS])
    results; the results of any other status are dropped.  A [PROG_MISMATCH]
    reply is encoded without the two version words RFC 5531 requires, and the
    library's own decoder rejects it. *)
Theorem rpc_reply_roundtrip x stat bs n buf rest m0 :
  is_u32 x → is_u32 stat → is_bytes bs → 0 ≤ n ≤ RPC_PAYLOAD_MAX → n ≤ len bs → msg_ok m0 →
  len buf = RPC_PAYLOAD_MAX + 256 →
  ∃ k buf', rpc_encode_reply true buf (len buf) x stat bs n = Some (k, buf') ∧ 0 ≤ k ≤ len buf ∧
    ∃ r m', rpc_decode_msg true (slice 0 k buf' ++ rest) k m0 = Some (r, m') ∧ msg_ok m' ∧
      if stat =? PROG_MISMATCH then r = RPC_ERR_DECODE
      else r = RPC_OK ∧ xid m' = x ∧ mtype m' = MSG_REPLY ∧ view_of m' = VAccepted stat ∧
           args_of m' = if stat =? SUCCESS then take (Z.to_nat n) bs else [].
Proof.
  intros Hx Hs Hbs Hn Hl H0 Hb. pose proof (len_reply_wire x stat bs n ltac:(lia)) as HL.
  assert (Hw : 0 ≤ len (reply_wire x stat bs n) ≤ len buf).
  { rewrite HL, Hb. destruct (stat =? SUCCESS); unfold RPC_PAYLOAD_MAX in *; lia. }
  destruct (encode_reply_run buf (len buf) x stat bs n) as [E _];
    [done|done|lia|unfold RPC_PAYLOAD_MAX in *; lia|].
  eexists _, _. split; [apply E; lia|]. split; [done|]. rewrite slice_app_0.
  pose proof (decode_parse (reply_wire x stat bs n) rest m0 (reply_wire_bytes x stat bs n Hbs)) as H.
  destruct (Z.eqb_spec stat PROG_MISMATCH) as [->|Hne].
  - rewrite parse_mismatch_wire in H by done.
    destruct H as (m' & D & ?); [unfold RPC_PAYLOAD_MAX in *; lia|done|]. eauto.
  - rewrite parse_reply_wire in H by done.
    destruct H as (m' & D & ? & ? & ? & ? & ? & Ht & ?); [unfold RPC_PAYLOAD_MAX in *; lia|done|].
    exists RPC_OK, m'. split_and!; try done.
Qed.

Lemma rpc_reply_roundtrip_witness :
  ∃ k buf', rpc_encode_reply true (replicate 4352 0) 4352 5 SUCCESS [8; 9] 2 = Some (k, buf').
Proof.
  destruct (rpc_reply_roundtrip 5 SUCCESS [8; 9] 2 (replicate 4352 0) [] msg_zero)
    as (k & buf' & E & _); [done|done|repeat constructor; unfold is_byte; lia|done|done
      |apply msg_zero_ok|done|].
  exists k, buf'. exact E.
Defined.

(** The encoders reject what the protocol does not allow, on every input:
    a call with another RPC version or a payload above 4096 bytes is refused
    before the buffer is touched, and a message that does not fit the buffer
    is refused without a byte written outside it. *)
Theorem rpc_encode_call_refuses buf buflen msg :
  0 ≤ payload_len msg → len (payload msg) = RPC_PAYLOAD_MAX → 0 ≤ buflen ≤ len buf → buflen < 2 ^ 31 →
  (rpcvers (call msg) ≠ RPC_VERSION ∨ RPC_PAYLOAD_MAX < payload_len msg →
   ∀ ok, rpc_encode_call ok buf buflen msg = Some (RPC_ERR_ENCODE, buf)) ∧
  (buflen < 40 + payload_len msg →
   ∃ buf', rpc_encode_call true buf buflen msg = Some (RPC_ERR_ENCODE, buf') ∧ len buf' = len buf).
Proof.
  intros Hp Hl Hb H31.
  assert (R : rpcvers (call msg) ≠ RPC_VERSION ∨ RPC_PAYLOAD_MAX < payload_len msg →
    ∀ ok, rpc_encode_call ok buf buflen msg = Some (RPC_ERR_ENCODE, buf)).
  { intros Hbad ok. unfold rpc_encode_call.
    destruct (Z.eqb_spec (rpcvers (call msg)) RPC_VERSION) as [Hv|]; cbn [negb]; [|done].
    destruct Hbad as [?|?]; [done|]. by if_true. }
  split; [exact R|]. intros Hfit.
  destruct (decide (rpcvers (call msg) ≠ RPC_VERSION ∨ RPC_PAYLOAD_MAX < payload_len msg)) as [Hbad|Hok].
  - exists buf. split; [by apply R|done].
  - apply (encode_call_run buf buflen msg); [|lia|done|done|done|done].
    destruct (Z.eq_dec (rpcvers (call msg)) RPC_VERSION); [done|]. exfalso. auto.
Qed.

Lemma rpc_encode_call_refuses_witness :
  ∃ buf', rpc_encode_call true (replicate 16 0) 16 msg_sample = Some (RPC_ERR_ENCODE, buf') ∧
    len buf' = 16.
Proof.
  apply (rpc_encode_call_refuses (replicate 16 0) 16 msg_sample); try done.
Defined.

(** The credentials of the datagram below announce a body of [n0] bytes, which
    passes the check, and then one of [n] bytes, which is not checked. *)
Definition overrun_datagram (x pg vs pc fl n0 n : Z) (tail : list Z) : list Z :=
  be_words [x; MSG_CALL; RPC_VERSION; pg; vs; pc; fl; n0; n] ++ tail.

(** A datagram can overrun the credentials of the message it is decoded
    into.  [xdr_decode_opaque_auth] compares the first length word with the 400
    bytes of [auth->body], but then reads a second one and copies that many
    bytes unchecked: whenever the first is between 1 and 400, the second above
    400 and the datagram that long, decoding writes outside the array. *)
Theorem rpc_decode_auth_overrun x pg vs pc fl n0 n tail rest m :
  Forall is_u32 [x; pg; vs; pc; fl] → 0 < n0 ≤ OPAQUE_AUTH_BODY_MAX →
  OPAQUE_AUTH_BODY_MAX < n ≤ len tail → len tail < 2 ^ 30 → is_bytes tail → msg_ok m →
  let d := overrun_datagram x pg vs pc fl n0 n tail in
  rpc_decode_msg true (d ++ rest) (len d) m = None.
Proof.
  intros Hu H0 Hn Ht Hb Hm d. rewrite !Forall_cons in Hu. destruct Hu as (Hx & Hpg & Hvs & Hpc & Hfl & _).
  set (ws := [x; MSG_CALL; RPC_VERSION; pg; vs; pc; fl; n0; n]).
  assert (Hd : is_bytes d) by (apply Forall_app; split; [apply be_words_bytes|done]).
  assert (HL : len d = 36 + len tail) by (unfold d, overrun_datagram; by rewrite len_app).
  unfold OPAQUE_AUTH_BODY_MAX in *.
  pose proof (decode_parse d rest m Hd) as H. assert (HP : rpc_parse d = Overrun); [|rewrite HP in H; apply H; [lia|done]].
  clear H. assert (HA : parse_auth d 24 = Overrun).
  { unfold parse_auth. rewrite HL. unfold d, overrun_datagram. fold ws.
    do 3 (eval_word; [|done || (unfold is_u32; lia)]).
    unfold OPAQUE_AUTH_BODY_MAX. if_false. if_true. if_false. by if_true. }
  unfold rpc_parse, parse_body, parse_call. rewrite HA. unfold d, overrun_datagram. fold ws.
  do 6 (eval_word; [|done]). done.
Qed.

Lemma rpc_decode_auth_overrun_witness :
  rpc_decode_msg true (overrun_datagram 1 0 0 0 0 4 401 (replicate 401 0) ++ replicate 60 0) 437
    msg_zero = None.
Proof.
  apply (rpc_decode_auth_overrun 1 0 0 0 0 4 401 (replicate 401 0) (replicate 60 0) msg_zero);
    [repeat constructor; done|done|done|done|apply Forall_replicate; done|apply msg_zero_ok].
Defined.
