(* ===== verification/Kernel.v ===== *)
(** The system interface (prototypes of user/user.h).

    The kernel is not part of the sources: its calls are operations of a type
    class over an abstract kernel state, and what the user programs rely on is
    the class [KernelLaws].  [scripted] is an executable instance that plays a
    list of prepared answers, with which concrete runs are evaluated. *)
From S2P Require Import Prelude.

(** The result of [recvtimeo]: the return value, the source address and the
    bytes written to the buffer. *)
Record recv_t := Recv { rc : Z; from_ip : Z; from_port : Z; data : list Z }.

(** A datagram handed to the network: source port, destination address and
    port, contents. *)
Record packet := Packet { src_port : Z; dst_ip : Z; dst_port : Z; contents : list Z }.

#[export] Instance packet_eq_dec : EqDecision packet.
Proof. solve_decision. Defined.

Class Kernel (K : Type) := {
  (** Whether an allocation of that many bytes succeeds. *)
  sys_malloc : Z → K → bool * K;
  sys_bind : Z → K → Z * K;
  sys_unbind : Z → K → Z * K;
  sys_send : packet → K → Z * K;
  (** Port, size of the buffer, timeout in ticks. *)
  sys_recvtimeo : Z → Z → Z → K → recv_t * K;
  (** The bytes filled in, or [None] for the return value -1. *)
  sys_getentropy : Z → K → option (list Z) * K;
  sys_uptime : K → Z * K;
  sys_ip : K → Z * K;
  (** The datagrams sent so far (an observation, not a call). *)
  sent : K → list packet;
}.

Class KernelLaws (K : Type) `{Kernel K} := {
  (** A received datagram fits the buffer, and its length is returned. *)
  recv_data port n t k : 0 ≤ n →
    let r := fst (sys_recvtimeo port n t k) in
    0 ≤ rc r → rc r = len (data r) ∧ rc r ≤ n ∧ is_bytes (data r);
  (** A call that fails writes nothing. *)
  recv_fail port n t k :
    let r := fst (sys_recvtimeo port n t k) in rc r < 0 → data r = [];
  recv_source port n t k :
    let r := fst (sys_recvtimeo port n t k) in is_u32 (from_ip r) ∧ is_u16 (from_port r);
  recv_sent port n t k : sent (snd (sys_recvtimeo port n t k)) = sent k;
  (** [send] hands over the datagram exactly when it reports success. *)
  send_sent p k :
    sent (snd (sys_send p k)) = if fst (sys_send p k) <? 0 then sent k else sent k ++ [p];
  entropy_bytes n k bs : 0 ≤ n → fst (sys_getentropy n k) = Some bs → len bs = n ∧ is_bytes bs;
  entropy_sent n k : sent (snd (sys_getentropy n k)) = sent k;
  malloc_sent n k : sent (snd (sys_malloc n k)) = sent k;
  bind_sent p k : sent (snd (sys_bind p k)) = sent k;
  unbind_sent p k : sent (snd (sys_unbind p k)) = sent k;
  uptime_sent k : sent (snd (sys_uptime k)) = sent k;
  ip_sent k : sent (snd (sys_ip k)) = sent k;
  ip_u32 k : is_u32 (fst (sys_ip k));
}.

(** ** A scripted kernel

    The answers of the blocking calls, consumed in order; an exhausted script
    answers with a timeout, an entropy failure, or the same clock. *)
Record scripted := Script {
  inbox : list (Z * Z * list Z);       (* source address, source port, datagram *)
  entropy : list (option Z);           (* the 32-bit word handed out, or a failure *)
  clock : list Z;
  own_ip : Z;
  heap_ok : bool;
  outbox : list packet;
}.

Definition script_recv (maxlen : Z) (k : scripted) : recv_t * scripted :=
  match inbox k with
  | (a, p, d) :: rest =>
      (Recv (len (take (Z.to_nat maxlen) (map u8 d))) (u32 a) (u16 p) (take (Z.to_nat maxlen) (map u8 d)),
       Script rest (entropy k) (clock k) (own_ip k) (heap_ok k) (outbox k))
  | [] => (Recv (-2) 0 0 [], k)
  end.

Definition entropy_word (n w : Z) : list Z :=
  take (Z.to_nat n) (put_le32 w ++ replicate (Z.to_nat n) 0).

Definition script_entropy (n : Z) (k : scripted) : option (list Z) * scripted :=
  match entropy k with
  | e :: rest =>
      (match e with
       | Some w => Some (entropy_word n w)
       | None => None
       end,
       Script (inbox k) rest (clock k) (own_ip k) (heap_ok k) (outbox k))
  | [] => (None, k)
  end.

Definition script_uptime (k : scripted) : Z * scripted :=
  match clock k with
  | t :: [] => (t, k)
  | t :: rest => (t, Script (inbox k) (entropy k) rest (own_ip k) (heap_ok k) (outbox k))
  | [] => (0, k)
  end.

Definition script_send (p : packet) (k : scripted) : Z * scripted :=
  (len (contents p),
   Script (inbox k) (entropy k) (clock k) (own_ip k) (heap_ok k) (outbox k ++ [p])).

#[export] Instance scripted_kernel : Kernel scripted := {
  sys_malloc _ k := (heap_ok k, k);
  sys_bind _ k := (0, k);
  sys_unbind _ k := (0, k);
  sys_send := script_send;
  sys_recvtimeo _ n _ k := script_recv n k;
  sys_getentropy := script_entropy;
  sys_uptime := script_uptime;
  sys_ip k := (u32 (own_ip k), k);
  sent := outbox;
}.

Lemma u8_bytes (l : list Z) : is_bytes (map u8 l).
Proof. apply Forall_fmap, Forall_true. intros x. apply u8_byte. Qed.

Lemma entropy_word_ok n w : 0 ≤ n → len (entropy_word n w) = n ∧ is_bytes (entropy_word n w).
Proof.
  intros Hn. unfold entropy_word. split.
  - unfold len. rewrite length_take, length_app, length_replicate. lia.
  - apply Forall_take, Forall_app. split; [repeat constructor; apply u8_byte|].
    apply Forall_replicate. unfold is_byte. lia.
Qed.

#[export] Instance scripted_laws : KernelLaws scripted.
Proof.
  split; simpl.
  - intros _ n _ k Hn. unfold script_recv. destruct (inbox k) as [|[[a p] d] rest]; simpl; [intros; lia|].
    intros _. split_and!; [done| |apply Forall_take, u8_bytes].
    unfold len. rewrite length_take. lia.
  - intros _ n _ k. unfold script_recv. destruct (inbox k) as [|[[a p] d] rest]; simpl; [done|].
    intros; unfold len in *; lia.
  - intros _ n _ k. unfold script_recv. destruct (inbox k) as [|[[a p] d] rest]; simpl.
    + done.
    + split; apply Z.mod_pos_bound; lia.
  - intros _ n _ k. unfold script_recv. by destruct (inbox k) as [|[[a p] d] rest].
  - intros p k. pose proof (len_nonneg (contents p)). destruct (Z.ltb_spec (len (contents p)) 0); [lia|done].
  - intros n k bs Hn. unfold script_entropy. destruct (entropy k) as [|[w|] rest]; cbn [fst]; try done.
    intros [= <-]. by apply entropy_word_ok.
  - intros n k. unfold script_entropy. by destruct (entropy k).
  - done.
  - done.
  - done.
  - intros k. unfold script_uptime. by destruct (clock k) as [|t [|]].
  - done.
  - intros k. apply Z.mod_pos_bound. lia.
Qed.
