(* ===== verification/Mutex.v ===== *)
(** The mutex (user/mutex.c).

    [mutex_init], [mutex_lock] and [mutex_unlock] on the lock word, as one thread
    runs them; and the lock under preemption: any number of threads run
    lock/unlock cycles and every atomic access of the lock word is a step of its
    own. *)
From stdpp Require Import relations.
From S2P Require Import Prelude.

(** ** One thread *)

Definition mutex_init : M Z Z := λ _, Some (0, 0).

(** The atomic exchange of [__sync_lock_test_and_set]: the old value, and the
    lock word afterwards. *)
Definition test_and_set (v : Z) : M Z Z := λ m, Some (m, v).

(** With the lock taken, the loop has no exit until another thread releases it:
    a thread running alone does not return ([None]). *)
Definition mutex_lock : M Z unit :=
  let* old := test_and_set 1 in
  if old =? 0 then ret tt else fault.

Definition mutex_unlock : M Z unit := put 0.

(** ** Threads *)

(** Where a thread is: outside, in the loop of [mutex_lock] before its next
    exchange, or past it. *)
Inductive pc := Outside | Spinning | Holding.

#[export] Instance pc_eq_dec : EqDecision pc.
Proof. solve_decision. Defined.

Record threads := Threads { lock : Z; pcs : list pc }.

Inductive step : threads → threads → Prop :=
  | step_enter m ps i :
      ps !! i = Some Outside →
      step (Threads m ps) (Threads m (<[i := Spinning]> ps))
  | step_acquire ps i m m' :
      ps !! i = Some Spinning → test_and_set 1 m = Some (0, m') →
      step (Threads m ps) (Threads m' (<[i := Holding]> ps))
  | step_spin ps i m m' old :
      ps !! i = Some Spinning → test_and_set 1 m = Some (old, m') → old ≠ 0 →
      step (Threads m ps) (Threads m' ps)
  | step_release ps i m m' :
      ps !! i = Some Holding → mutex_unlock m = Some (tt, m') →
      step (Threads m ps) (Threads m' (<[i := Outside]> ps)).

(** [mutex_init] before the threads start. *)
Definition started (n : nat) : threads :=
  Threads (match mutex_init 0 with Some (_, m) => m | None => 0 end) (replicate n Outside).

(** The word says whether somebody holds the lock, and at most one thread does. *)
Definition lock_inv (t : threads) : Prop :=
  (lock t = 0 ∧ ∀ i, pcs t !! i ≠ Some Holding) ∨
  (lock t = 1 ∧ ∃ i, pcs t !! i = Some Holding ∧ ∀ j, pcs t !! j = Some Holding → j = i).

(** Decides which entry an update of the list of threads leaves at an index. *)
Ltac insert_case H :=
  apply list_lookup_insert_Some in H as [(<- & ? & ?)|(? & H)]; [try done|].

Lemma lock_inv_step t t' : lock_inv t → step t t' → lock_inv t'.
Proof.
  intros Hinv Hs. destruct Hs as [m ps i Hi|ps i m m' Hi Ht|ps i m m' old Hi Ht Hn|ps i m m' Hi Ht];
    unfold lock_inv, test_and_set, mutex_unlock, put in *; simpl in *; simplify_eq.
  - destruct Hinv as [(Hm & Hno)|(Hm & h & Hh & Hu)].
    + left. split; [done|]. intros j Hj. insert_case Hj. by apply (Hno j).
    + right. split; [done|]. exists h. split.
      * rewrite list_lookup_insert_ne; [done|]. intros ->. congruence.
      * intros j Hj. insert_case Hj. auto.
  - destruct Hinv as [(_ & Hno)|(? & _)]; [|done]. right. split; [done|]. exists i. split.
    + apply list_lookup_insert_eq. by eapply lookup_lt_Some.
    + intros j Hj. insert_case Hj. by destruct (Hno j).
  - destruct Hinv as [(? & _)|(Hm & H)]; [done|]. by right.
  - destruct Hinv as [(_ & Hno)|(Hm & h & Hh & Hu)]; [by destruct (Hno i)|].
    left. split; [done|]. intros j Hj. insert_case Hj.
    assert (j = h) by auto. assert (i = h) by auto. congruence.
Qed.

Lemma lock_inv_reachable n t : rtc step (started n) t → lock_inv t.
Proof.
  intros H. assert (Hi : lock_inv (started n)).
  { left. split; [done|]. intros i Hi. by apply lookup_replicate in Hi as [? _]. }
  revert Hi. induction H as [t|t t1 t2 Hs _ IH]; [done|]. eauto using lock_inv_step.
Qed.

(** ** Properties *)

(** C37: Mutual exclusion and progress for any number of threads and any
    interleaving of their atomic accesses: no two threads are past [mutex_lock]
    at once, the lock word is 0 exactly when no thread is, and then every thread
    in the loop acquires the lock with its next exchange. *)
Theorem mutex_exclusion n t :
  rtc step (started n) t →
  (∀ i j, pcs t !! i = Some Holding → pcs t !! j = Some Holding → i = j) ∧
  (lock t = 0 ↔ ∀ i, pcs t !! i ≠ Some Holding) ∧
  ((∀ i, pcs t !! i ≠ Some Holding) → ∀ i, pcs t !! i = Some Spinning →
     step t (Threads 1 (<[i := Holding]> (pcs t)))).
Proof.
  intros H. destruct (lock_inv_reachable n t H) as [(Hm & Hno)|(Hm & h & Hh & Hu)].
  - split_and!; [|done|].
    + intros i j Hi. by destruct (Hno i).
    + intros _ i Hi. destruct t as [m ps]. simpl in *. subst m. by apply step_acquire.
  - split_and!.
    + intros i j Hi Hj. rewrite (Hu i), (Hu j); done.
    + split; [congruence|]. intros Hno. by destruct (Hno h).
    + intros Hno. by destruct (Hno h).
Qed.

Lemma mutex_exclusion_witness :
  rtc step (started 2) (Threads 1 [Holding; Spinning]) ∧
  ∀ i j, [Holding; Spinning] !! i = Some Holding → [Holding; Spinning] !! j = Some Holding → i = j.
Proof.
  assert (H : rtc step (started 2) (Threads 1 [Holding; Spinning])).
  { eapply rtc_l; [apply (step_enter 0 [Outside; Outside] 0); reflexivity|].
    eapply rtc_l; [apply (step_enter 0 [Spinning; Outside] 1); reflexivity|].
    eapply rtc_l; [apply (step_acquire [Spinning; Spinning] 0 0 1); reflexivity|].
    eapply rtc_l; [apply (step_spin [Holding; Spinning] 1 1 1 1); [reflexivity..|discriminate]|].
    apply rtc_refl. }
  split; [exact H|]. apply (mutex_exclusion 2 (Threads 1 [Holding; Spinning]) H).
Defined.
