(* ===== verification/Rpc.v ===== *)
(** The RPC transport (user/rpc.c): the UDP shim, the transmit and receive
    paths, and [rpc_call] with its retransmissions.

    The state is the file's static variables and the kernel.  The wire buffers
    are fixed arrays of 4352 bytes; every thread that sends does so between
    [mutex_lock] and [mutex_unlock] on [g_tx_lock]. *)
From S2P Require Import Prelude Xdr RpcMsg Kernel Mutex.

(** ** State *)

Definition WIRE_MAX : Z := RPC_PAYLOAD_MAX + 256.

Record rpc_t (K : Type) := Rpc {
  kern : K;
  g_port : Z;
  g_rx_wire : list Z;
  g_tx_wire : list Z;
  g_tx_lock : Z;
  g_xid : Z;
}.
Arguments Rpc {K}.
Arguments kern {K}.
Arguments g_port {K}.
Arguments g_rx_wire {K}.
Arguments g_tx_wire {K}.
Arguments g_tx_lock {K}.
Arguments g_xid {K}.

(** The static initialisers. *)
Definition rpc_start {K} (k : K) : rpc_t K :=
  Rpc k (-1) (replicate (Z.to_nat WIRE_MAX) 0) (replicate (Z.to_nat WIRE_MAX) 0) 0 1.

Section Rpc.
Context {K : Type} `{Kernel K}.

Abbreviation R := (M (rpc_t K)).

Definition set_kern (k : K) (s : rpc_t K) : rpc_t K :=
  Rpc k (g_port s) (g_rx_wire s) (g_tx_wire s) (g_tx_lock s) (g_xid s).
Definition set_port (p : Z) (s : rpc_t K) : rpc_t K :=
  Rpc (kern s) p (g_rx_wire s) (g_tx_wire s) (g_tx_lock s) (g_xid s).
Definition set_rx (b : list Z) (s : rpc_t K) : rpc_t K :=
  Rpc (kern s) (g_port s) b (g_tx_wire s) (g_tx_lock s) (g_xid s).
Definition set_tx (b : list Z) (s : rpc_t K) : rpc_t K :=
  Rpc (kern s) (g_port s) (g_rx_wire s) b (g_tx_lock s) (g_xid s).
Definition set_lock (l : Z) (s : rpc_t K) : rpc_t K :=
  Rpc (kern s) (g_port s) (g_rx_wire s) (g_tx_wire s) l (g_xid s).
Definition set_xid (x : Z) (s : rpc_t K) : rpc_t K :=
  Rpc (kern s) (g_port s) (g_rx_wire s) (g_tx_wire s) (g_tx_lock s) x.

Definition sys {A} (f : K → A * K) : R A :=
  λ s, let '(a, k) := f (kern s) in Some (a, set_kern k s).

Definition with_lock {A} (m : M Z A) : R A := zoom g_tx_lock set_lock m.

(** ** The UDP shim *)

Definition udp_bind (port : Z) : R Z :=
  let* old := gets g_port in
  (if 0 <=? old then sys (sys_unbind (u16 old)) ;;* ret tt else ret tt) ;;*
  let* r := sys (sys_bind port) in
  if r <? 0 then ret (-1)
  else modify (set_port port) ;;* ret 0.

Definition udp_send (dst_ip dst_port : Z) (buf : list Z) (n : Z) : R Z :=
  let* p := gets g_port in
  sys (sys_send (Packet (u16 p) dst_ip dst_port (slice 0 n buf))).

(** [buf] is [g_rx_wire]; the result comes with the source address. *)
Definition udp_recv (maxlen timeout_ms : Z) : R (Z * Z * Z) :=
  let timeout_ticks := Z.quot (s32 (timeout_ms * TICK_HZ)) 1000 in
  let* p := gets g_port in
  let* r := sys (sys_recvtimeo p maxlen timeout_ticks) in
  modify (λ s, set_rx (splice 0 (data r) (g_rx_wire s)) s) ;;*
  if rc r =? -2 then ret (RPC_ERR_TIMEOUT, 0, 0)
  else if rc r <? 0 then ret (RPC_ERR_NET, 0, 0)
  else ret (rc r, from_ip r, from_port r).

(** ** Calls *)

Definition rpc_next_xid : R Z :=
  let* x := gets g_xid in
  modify (set_xid (u32 (x + 1))) ;;*
  ret x.

Definition rpc_fill_call (msg : rpc_msg_t) (proc : Z) : R rpc_msg_t :=
  let* x := rpc_next_xid in
  ret (set_head x MSG_CALL
        (set_call (CallBody RPC_VERSION INFERENCE_PROG INFERENCE_VERS proc
                     (OpaqueAuth AUTH_NONE 0 (body (cred (call msg))))
                     (OpaqueAuth AUTH_NONE 0 (body (verf (call msg))))) msg)).

Definition rpc_local_port : R Z :=
  let* p := gets g_port in
  ret (if p <? 0 then 0 else u16 p).

Definition rpc_init (local_port : Z) : R Z :=
  with_lock mutex_init ;;*
  let* fd := udp_bind local_port in
  if fd <? 0 then ret RPC_ERR_NET else ret RPC_OK.

(** Runs an encoder on the transmit buffer; the private record of the stream
    comes from [malloc]. *)
Definition encode_tx (enc : bool → list Z → Z → option (Z * list Z)) : R Z :=
  let* ok := sys (sys_malloc 32) in
  let* w := gets g_tx_wire in
  match enc ok w WIRE_MAX with
  | Some (n, w') => modify (set_tx w') ;;* ret n
  | None => fault
  end.

Definition send_tx (enc : bool → list Z → Z → option (Z * list Z)) (dst : rpc_addr_t) : R Z :=
  with_lock mutex_lock ;;*
  let* n := encode_tx enc in
  if n <? 0 then with_lock mutex_unlock ;;* ret n
  else
    let* w := gets g_tx_wire in
    let* sent := udp_send (ip dst) (port dst) w n in
    with_lock mutex_unlock ;;*
    if sent <? 0 then ret RPC_ERR_NET else ret RPC_OK.

Definition rpc_send_call (dst : rpc_addr_t) (msg : rpc_msg_t) : R Z :=
  send_tx (λ ok buf buflen, rpc_encode_call ok buf buflen msg) dst.

Definition rpc_send_reply (dst : rpc_addr_t) (xid stat : Z) (payload : list Z) (payload_len : Z)
    : R Z :=
  send_tx (λ ok buf buflen, rpc_encode_reply ok buf buflen xid stat payload payload_len) dst.

(** The return value, [*out_msg] and [*out_src]. *)
Definition rpc_recv (out_msg : rpc_msg_t) (out_src : rpc_addr_t) (timeout_ms : Z)
    : R (Z * rpc_msg_t * rpc_addr_t) :=
  let* (n, src_ip, src_port) := udp_recv WIRE_MAX timeout_ms in
  if n =? RPC_ERR_TIMEOUT then ret (RPC_ERR_TIMEOUT, out_msg, out_src)
  else if n <? 0 then ret (RPC_ERR_NET, out_msg, out_src)
  else
    let* ok := sys (sys_malloc 32) in
    let* w := gets g_rx_wire in
    match rpc_decode_msg ok w n out_msg with
    | None => fault
    | Some (r, m) =>
        if negb (r =? RPC_OK) then ret (r, m, out_src)
        else ret (RPC_OK, m, RpcAddr src_ip src_port)
    end.

(** What [rpc_call] returns on a matched reply: the code, and whether
    [*out_reply] is written. *)
Definition reply_code (reply : rpc_msg_t) : Z :=
  if reply_stat reply =? MSG_ACCEPTED then
    let st := acc_stat (accepted reply) in
    if st =? SUCCESS then RPC_OK
    else if st =? PROG_UNAVAIL then RPC_ERR_PROG
    else if st =? PROG_MISMATCH then RPC_ERR_PROG
    else if st =? PROC_UNAVAIL then RPC_ERR_PROC
    else if st =? GARBAGE_ARGS then RPC_ERR_GARBAGE
    else if st =? SYSTEM_ERR then RPC_ERR_NET
    else RPC_ERR_DECODE
  else RPC_ERR_DENIED.

(** The receive loop of one attempt: [None] when it ends without a matching
    reply, otherwise what [rpc_call] returns.  [fuel] bounds the iterations:
    every one that does not leave the loop takes 10 off [remaining_ms]. *)
Fixpoint drain (fuel : nat) (call_xid : Z) (reply : rpc_msg_t) (src : rpc_addr_t)
    (remaining_ms : Z) : R (option (Z * option rpc_msg_t)) :=
  match fuel with
  | O => fault
  | S fuel =>
      if negb (0 <? remaining_ms) then ret None
      else
        let* (r, reply, src) := rpc_recv reply src remaining_ms in
        if r =? RPC_ERR_TIMEOUT then ret None
        else if negb (r =? RPC_OK) then ret (Some (r, None))
        else if negb (mtype reply =? MSG_REPLY) then drain fuel call_xid reply src (remaining_ms - 10)
        else if negb (xid reply =? call_xid) then drain fuel call_xid reply src (remaining_ms - 10)
        else
          let c := reply_code reply in
          ret (Some (c, if c =? RPC_OK then Some reply else None))
  end.

Definition DRAIN_FUEL : nat := 51.

(** [reply0] and [src0] are the uninitialised locals. *)
Fixpoint attempts (n : nat) (dst : rpc_addr_t) (call : rpc_msg_t) (reply0 : rpc_msg_t)
    (src0 : rpc_addr_t) : R (Z * option rpc_msg_t) :=
  match n with
  | O => ret (RPC_ERR_TIMEOUT, None)
  | S n =>
      let* r := rpc_send_call dst call in
      if negb (r =? RPC_OK) then ret (r, None)
      else
        let* res := drain DRAIN_FUEL (xid call) reply0 src0 RPC_TIMEOUT_MS in
        match res with
        | Some r => ret r
        | None => attempts n dst call reply0 src0
        end
  end.

(** The return value, and [*out_reply] when it is written. *)
Definition rpc_call (dst : rpc_addr_t) (req : rpc_msg_t) : R (Z * option rpc_msg_t) :=
  let* call := rpc_fill_call req (proc (call req)) in
  attempts RPC_MAX_RETRIES dst call msg_zero (RpcAddr 0 0).


(** ** Invariant *)

(** Between calls: the buffers have their sizes and the lock is free. *)
Definition rpc_ok (s : rpc_t K) : Prop :=
  len (g_rx_wire s) = WIRE_MAX ∧ len (g_tx_wire s) = WIRE_MAX ∧ g_tx_lock s = 0 ∧
  is_u32 (g_xid s).

(** A request a caller may pass: the structure's shape and a payload length
    within the array. *)
Definition request_ok (m : rpc_msg_t) : Prop :=
  msg_ok m ∧ 0 ≤ payload_len m ≤ RPC_PAYLOAD_MAX.

(** What a call that only transmits leaves alone. *)
Definition tx_only (s s' : rpc_t K) : Prop :=
  g_port s' = g_port s ∧ g_xid s' = g_xid s ∧ g_rx_wire s' = g_rx_wire s.

End Rpc.

(** *** Assumptions on the environment *)

(** The allocation of a stream's private record, of 32 bytes, succeeds: [xdrmem_create]
    has no way to report that it did not.  Nothing is assumed of larger requests. *)
Definition heap_available (K : Type) `{Kernel K} : Prop := ∀ k, fst (sys_malloc 32 k) = true.

(** The network stack takes every datagram. *)
Definition sends_succeed (K : Type) `{Kernel K} : Prop := ∀ p k, 0 ≤ fst (sys_send p k).

(** The kernel was called to send [pk], and took it or refused it; its state is the one
    behind that call. *)
Definition handed {K : Type} `{Kernel K} (pk : packet) (k k' : K) : Prop :=
  ∃ k0, sent k0 = sent k ∧ k' = snd (sys_send pk k0).

(** No peer sends the datagrams that overrun the decoder's credentials. *)
Definition no_overrun (K : Type) `{Kernel K} : Prop := ∀ port n t k,
  rpc_parse (data (fst (sys_recvtimeo port n t k))) ≠ Overrun.

Section Transport.
Context {K : Type} `{KernelLaws K}.

Lemma wp_sys {A} (f : K → A * K) Q s :
  Q (fst (f (kern s))) (set_kern (snd (f (kern s))) s) → wp (sys f) Q s.
Proof. intros HQ. unfold wp, sys. destruct (f (kern s)) as [a k]. eauto. Qed.

(** The transmit path, for an encoder that writes the datagram [d]. *)
Lemma send_tx_runs enc dst d (s : rpc_t K) :
  heap_available K → rpc_ok s → len d ≤ WIRE_MAX →
  (∀ w, len w = WIRE_MAX → enc true w WIRE_MAX = Some (len d, d ++ drop (length d) w)) →
  wp (send_tx enc dst) (λ r s', rpc_ok s' ∧ tx_only s s' ∧ (r = RPC_OK ∨ r = RPC_ERR_NET ∧ ¬ sends_succeed K) ∧
    sent (kern s') = sent (kern s) ++
      (if r =? RPC_OK then [Packet (u16 (g_port s)) (ip dst) (port dst) d] else []) ∧
    handed (Packet (u16 (g_port s)) (ip dst) (port dst) d) (kern s) (kern s')) s.
Proof.
  intros Hh (Hr & Ht & Hl & Hx) Hd Henc. unfold send_tx.
  apply wp_bind. exists tt, (set_lock 1 s). split.
  { unfold with_lock, zoom, mutex_lock, test_and_set, bind. by rewrite Hl. }
  apply wp_bind. unfold encode_tx. apply wp_bind, wp_sys. rewrite Hh.
  apply wp_bind, wp_gets. simpl. rewrite Henc by done.
  apply wp_bind, wp_modify, wp_ret. rewrite (proj2 (Z.ltb_ge _ _)) by apply len_nonneg.
  apply wp_bind, wp_gets. simpl. apply wp_bind. unfold udp_send.
  apply wp_bind, wp_gets, wp_sys. simpl. rewrite slice_app_0.
  set (p := Packet _ _ _ _). set (k := snd (sys_malloc 32 (kern s))).
  pose proof (send_sent p k) as Hs. unfold k in Hs at 3 4. rewrite malloc_sent in Hs. fold k in Hs.
  assert (Hk : handed p (kern s) (snd (sys_send p k))) by (exists k; split; [apply malloc_sent|done]).
  apply wp_bind. exists tt. eexists. split; [done|].
  assert (Hlen : len (d ++ drop (length d) (g_tx_wire s)) = WIRE_MAX).
  { unfold len in *. rewrite length_app, length_drop. lia. }
  destruct (Z.ltb_spec (fst (sys_send p k)) 0); apply wp_ret; unfold rpc_ok, tx_only; simpl;
    rewrite Hs, ?app_nil_r; split_and!; auto.
  right. split; [done|]. intros Hn. specialize (Hn p k). lia.
Qed.

Lemma handed_sent pk (k k' : K) : handed pk k k' → sent k' = sent k ∨ sent k' = sent k ++ [pk].
Proof.
  intros (k0 & E & ->). pose proof (send_sent pk k0) as Hs. rewrite E in Hs. rewrite Hs.
  destruct (_ <? 0); [by left|by right].
Qed.

(** What the receive path leaves alone. *)
Definition rx_only (s s' : rpc_t K) : Prop :=
  g_port s' = g_port s ∧ g_xid s' = g_xid s ∧ sent (kern s') = sent (kern s).

Lemma rx_malloc n s s' : rx_only s s' → rx_only s (set_kern (snd (sys_malloc n (kern s'))) s').
Proof. intros (? & ? & E). split_and!; [done..|]. rewrite <- E. apply malloc_sent. Qed.

(** The message holds what some datagram says. *)
Definition received (m : rpc_msg_t) : Prop :=
  ∃ d x v, rpc_parse d = Parsed (x, v, args_of m) ∧ xid m = x ∧ view_of m = v ∧
    payload_len m = len (args_of m) ∧ (mtype m = MSG_CALL ∨ mtype m = MSG_REPLY).

Lemma udp_recv_runs maxlen t (s : rpc_t K) :
  maxlen = WIRE_MAX → rpc_ok s → no_overrun K →
  wp (udp_recv maxlen t) (λ r s', rpc_ok s' ∧ rx_only s s' ∧
    is_u32 (snd (fst r)) ∧ is_u16 (snd r) ∧
    (fst (fst r) = RPC_ERR_TIMEOUT ∨ fst (fst r) = RPC_ERR_NET ∨
     ∃ d rest, g_rx_wire s' = d ++ rest ∧ fst (fst r) = len d ∧ is_bytes d ∧
       len d ≤ WIRE_MAX ∧ rpc_parse d ≠ Overrun)) s.
Proof.
  intros -> (Hr & Ht & Hl & Hx) Hno. unfold udp_recv. apply wp_bind, wp_gets, wp_bind, wp_sys.
  set (tk := Z.quot _ _). set (res := sys_recvtimeo _ _ _ _).
  pose proof (recv_data (g_port s) WIRE_MAX tk (kern s)) as Hd. cbv zeta in Hd. fold res in Hd.
  pose proof (recv_fail (g_port s) WIRE_MAX tk (kern s)) as Hf. cbv zeta in Hf. fold res in Hf.
  destruct (recv_source (g_port s) WIRE_MAX tk (kern s)) as [Hip Hport]. fold res in Hip, Hport.
  pose proof (recv_sent (g_port s) WIRE_MAX tk (kern s)) as Hs. fold res in Hs.
  pose proof (Hno (g_port s) WIRE_MAX tk (kern s)) as Hov. fold res in Hov.
  apply wp_bind, wp_modify. cbn [g_rx_wire set_kern].
  assert (Hlen : len (data (fst res)) ≤ WIRE_MAX).
  { destruct (Z.lt_ge_cases (rc (fst res)) 0); [by rewrite Hf by done|]. destruct Hd; [done|done|lia]. }
  assert (Hok : rpc_ok (set_rx (splice 0 (data (fst res)) (g_rx_wire s)) (set_kern (snd res) s))).
  { split_and!; simpl; try done. rewrite len_splice; lia. }
  destruct (Z.eqb_spec (rc (fst res)) (-2));
    [apply wp_ret; simpl; split_and!; auto; by split_and!|].
  destruct (Z.ltb_spec (rc (fst res)) 0);
    [apply wp_ret; simpl; split_and!; auto; by split_and!|].
  apply wp_ret. simpl. split_and!; auto; [by split_and!|]. right. right.
  destruct Hd as (E & Hle & Hb); [done|done|].
  exists (data (fst res)), (drop (length (data (fst res))) (g_rx_wire s)). split_and!; auto.
Qed.

Lemma rpc_recv_runs msg src t (s : rpc_t K) :
  heap_available K → no_overrun K → rpc_ok s → msg_ok msg → is_u32 (ip src) ∧ is_u16 (port src) →
  wp (rpc_recv msg src t) (λ r s', rpc_ok s' ∧ rx_only s s' ∧ msg_ok (snd (fst r)) ∧
    (is_u32 (ip (snd r)) ∧ is_u16 (port (snd r))) ∧
    (fst (fst r) = RPC_OK → received (snd (fst r))) ∧
    fst (fst r) ∈ [RPC_OK; RPC_ERR_TIMEOUT; RPC_ERR_NET; RPC_ERR_DECODE]) s.
Proof.
  intros Hh Hno Hok Hm Hsrc. unfold rpc_recv. apply wp_bind.
  eapply wp_mono; [by apply udp_recv_runs|].
  intros [[n a] p] s1 (Hok1 & Hrx & Ha & Hp & Hn). simpl in *.
  destruct Hn as [->|[->|(d & rest & Hw & -> & Hb & Hle & Hov)]].
  - simpl. apply wp_ret. simpl. split_and!; try done; try apply Hsrc; in_list.
  - simpl. apply wp_ret. simpl. split_and!; try done; try apply Hsrc; in_list.
  - pose proof (len_nonneg d). rewrite (proj2 (Z.eqb_neq _ _)) by (unfold RPC_ERR_TIMEOUT; lia).
    rewrite (proj2 (Z.ltb_ge _ _)) by lia. apply wp_bind, wp_sys. rewrite Hh.
    apply wp_bind, wp_gets. simpl. rewrite Hw.
    pose proof (decode_parse d rest msg Hb) as HD.
    destruct (rpc_parse d) as [| |[[x v] args]] eqn:Hpar; [done| |].
    + destruct HD as (m' & -> & Hm'); [unfold WIRE_MAX, RPC_PAYLOAD_MAX in *; lia|done|].
      simpl. apply wp_ret. simpl. split_and!; try done; try apply Hsrc; try in_list.
      by apply rx_malloc.
    + destruct HD as (m' & -> & Hm' & Hx & Hv & Hargs & Hpl & _ & Ht);
        [unfold WIRE_MAX, RPC_PAYLOAD_MAX in *; lia|done|].
      simpl. apply wp_ret. simpl. split_and!; try done; try apply Hsrc; try in_list.
      * by apply rx_malloc.
      * intros _. exists d, x, v. subst args. split_and!; auto.
Qed.

(** What [rpc_call] may return: the reply to the call [x], or an error. *)
Definition outcome (x : Z) (r : Z * option rpc_msg_t) : Prop :=
  match snd r with
  | Some m => fst r = RPC_OK ∧ msg_ok m ∧ received m ∧ mtype m = MSG_REPLY ∧ xid m = x ∧
              view_of m = VAccepted SUCCESS
  | None => fst r ∈ [RPC_ERR_TIMEOUT; RPC_ERR_NET; RPC_ERR_DECODE; RPC_ERR_DENIED; RPC_ERR_PROG;
                     RPC_ERR_PROC; RPC_ERR_GARBAGE]
  end.

Lemma reply_outcome m :
  msg_ok m → received m → mtype m = MSG_REPLY →
  outcome (xid m) (reply_code m, if reply_code m =? RPC_OK then Some m else None).
Proof.
  intros Hm Hr Ht. unfold reply_code, outcome.
  destruct (Z.eqb_spec (reply_stat m) MSG_ACCEPTED) as [Ea|]; [|simpl; in_list].
  destruct (Z.eqb_spec (acc_stat (accepted m)) SUCCESS) as [Es|].
  - simpl. split_and!; try done. unfold view_of. by rewrite Ht, Ea, Es.
  - repeat (match goal with |- context [acc_stat ?a =? ?c] => destruct (acc_stat a =? c) end;
      [simpl; in_list|]). simpl. in_list.
Qed.

Lemma rx_only_trans s1 s2 s3 : rx_only s1 s2 → rx_only s2 s3 → rx_only s1 s3.
Proof. intros (? & ? & ?) (? & ? & ?). split_and!; congruence. Qed.

(** The receive loop ends within its fuel. *)
Lemma drain_runs fuel x reply src rem (s : rpc_t K) :
  heap_available K → no_overrun K → rpc_ok s → msg_ok reply →
  is_u32 (ip src) ∧ is_u16 (port src) → (0 < fuel)%nat → rem ≤ 10 * (Z.of_nat fuel - 1) →
  wp (drain fuel x reply src rem) (λ res s', rpc_ok s' ∧ rx_only s s' ∧
    match res with Some r => outcome x r | None => True end) s.
Proof.
  intros Hh Hno. revert reply src rem s.
  induction fuel as [|fuel IH]; intros reply src rem s Hok Hm Hsrc Hf Hrem; [lia|]. simpl.
  destruct (Z.ltb_spec 0 rem); simpl; [|apply wp_ret; by split_and!].
  apply wp_bind. eapply wp_mono; [by apply rpc_recv_runs|].
  intros [[r m] a] s1 (Hok1 & Hrx & Hm1 & Ha & Hrec & Hr). simpl in *.
  destruct (Z.eqb_spec r RPC_ERR_TIMEOUT) as [|Hnt]; [by apply wp_ret|].
  destruct (Z.eqb_spec r RPC_OK) as [->|Hne]; simpl.
  2: { apply wp_ret. split_and!; try done. unfold outcome. simpl.
       apply list_elem_of_In in Hr. destruct Hr as [<-|[<-|[<-|[<-|[]]]]]; done || in_list. }
  assert (Hagain : wp (drain fuel x m a (rem - 10)) (λ res s', rpc_ok s' ∧ rx_only s s' ∧
    match res with Some r => outcome x r | None => True end) s1).
  { eapply wp_mono; [apply IH; try done; lia|]. intros res s2 (? & ? & ?).
    split_and!; try done; by eapply rx_only_trans. }
  destruct (Z.eqb_spec (mtype m) MSG_REPLY); simpl; [|done].
  destruct (Z.eqb_spec (xid m) x) as [<-|]; simpl; [|done].
  apply wp_ret. split_and!; try done. apply reply_outcome; auto.
Qed.

Lemma drain_once fuel x reply src rem r m a (s s1 : rpc_t K) :
  0 < rem → rpc_recv reply src rem s = Some ((r, m, a), s1) → r ≠ RPC_ERR_TIMEOUT →
  drain (S fuel) x reply src rem s =
    if negb (r =? RPC_OK) then Some (Some (r, None), s1)
    else if negb (mtype m =? MSG_REPLY) || negb (xid m =? x)
    then drain fuel x m a (rem - 10) s1
    else Some (Some (reply_code m, if reply_code m =? RPC_OK then Some m else None), s1).
Proof.
  intros Hrem E Hr. cbn [drain]. rewrite (proj2 (Z.ltb_lt _ _) Hrem). cbn [negb].
  mstep by exact E. rewrite (proj2 (Z.eqb_neq _ _) Hr).
  destruct (r =? RPC_OK), (mtype m =? MSG_REPLY), (xid m =? x); done.
Qed.

#[local] Opaque drain msg_zero.

Lemma send_call_runs dst m (s : rpc_t K) :
  heap_available K → rpc_ok s → request_ok m → rpcvers (call m) = RPC_VERSION →
  wp (rpc_send_call dst m) (λ r s', rpc_ok s' ∧ tx_only s s' ∧ (r = RPC_OK ∨ r = RPC_ERR_NET ∧ ¬ sends_succeed K) ∧
    sent (kern s') = sent (kern s) ++
      (if r =? RPC_OK then [Packet (u16 (g_port s)) (ip dst) (port dst) (call_wire m)] else []) ∧
    handed (Packet (u16 (g_port s)) (ip dst) (port dst) (call_wire m)) (kern s) (kern s')) s.
Proof.
  intros Hh Hok [Hm Hp] Hv.
  assert (HL : len (call_wire m) = 40 + payload_len m) by (apply len_call_wire; destruct Hm; lia).
  apply (send_tx_runs _ dst (call_wire m)); try done; [rewrite HL; unfold WIRE_MAX; lia|].
  intros w Hw. rewrite HL. apply encode_call_run; try done; try apply Hm;
    rewrite ?Hw; unfold WIRE_MAX, RPC_PAYLOAD_MAX in *; lia.
Qed.

Lemma attempts_runs n dst call (s : rpc_t K) :
  heap_available K → no_overrun K → rpc_ok s → request_ok call →
  rpcvers (RpcMsg.call call) = RPC_VERSION →
  wp (attempts n dst call msg_zero (RpcAddr 0 0)) (λ r s', rpc_ok s' ∧ outcome (xid call) r ∧
    g_port s' = g_port s ∧ g_xid s' = g_xid s ∧
    ∃ j, (j ≤ n)%nat ∧ (fst r = RPC_OK → 0 < j)%nat ∧ sent (kern s') = sent (kern s) ++
      replicate j (Packet (u16 (g_port s)) (ip dst) (port dst) (call_wire call))) s.
Proof.
  intros Hh Hno. revert s. induction n as [|n IH]; intros s Hok Hreq Hv; simpl.
  { apply wp_ret. split_and!; try done; [simpl; in_list|]. exists 0%nat. by rewrite app_nil_r. }
  apply wp_bind. eapply wp_mono; [by apply send_call_runs|].
  intros r s1 (Hok1 & (Hp1 & Hx1 & _) & Hr & Hs1 & _).
  destruct Hr as [-> | [-> _]]; simpl in *.
  2: { apply wp_ret. split_and!; try done; [simpl; in_list|]. exists 0%nat. split_and!; [lia|done|done]. }
  apply wp_bind. eapply wp_mono.
  { apply drain_runs; try done; [apply msg_zero_ok|unfold DRAIN_FUEL, RPC_TIMEOUT_MS; lia..]. }
  intros [res|] s2 (Hok2 & (Hp2 & Hx2 & Hs2) & Hout).
  - apply wp_ret. split_and!; try done; [congruence..|]. exists 1%nat. split_and!; [lia..|].
    rewrite Hs2, Hs1. done.
  - eapply wp_mono; [by apply IH|].
    intros r s3 (Hok3 & Ho3 & Hp3 & Hx3 & j & Hj & _ & Hs3). split_and!; try done; [congruence..|].
    exists (S j). split_and!; [lia..|]. rewrite Hs3, Hs2, Hs1, Hp2, Hp1, <- app_assoc. done.
Qed.

(** The call [rpc_call] transmits for a request. *)
Definition call_for (x : Z) (req : rpc_msg_t) : rpc_msg_t :=
  set_head x MSG_CALL
    (set_call (CallBody RPC_VERSION INFERENCE_PROG INFERENCE_VERS (proc (call req))
                 (OpaqueAuth AUTH_NONE 0 (body (cred (call req))))
                 (OpaqueAuth AUTH_NONE 0 (body (verf (call req))))) req).

Lemma fill_call_run req p (s : rpc_t K) :
  proc (call req) = p →
  rpc_fill_call req p s = Some (call_for (g_xid s) req, set_xid (u32 (g_xid s + 1)) s).
Proof. by intros <-. Qed.

Lemma call_for_ok x req : request_ok req → request_ok (call_for x req).
Proof. intros [(? & ? & ? & ? & ?) ?]. by split; [split_and!|]. Qed.

Lemma set_xid_ok x (s : rpc_t K) : rpc_ok s → rpc_ok (set_xid (u32 x) s).
Proof. intros (? & ? & ? & ?). split_and!; try done; apply Z.mod_pos_bound; lia. Qed.

Lemma call_runs dst req (s : rpc_t K) :
  heap_available K → no_overrun K → rpc_ok s → request_ok req →
  wp (rpc_call dst req) (λ r s', rpc_ok s' ∧ outcome (g_xid s) r ∧
    g_port s' = g_port s ∧ g_xid s' = u32 (g_xid s + 1) ∧
    ∃ j, (j ≤ RPC_MAX_RETRIES)%nat ∧ (fst r = RPC_OK → 0 < j)%nat ∧ sent (kern s') = sent (kern s) ++
      replicate j (Packet (u16 (g_port s)) (ip dst) (port dst) (call_wire (call_for (g_xid s) req)))) s.
Proof.
  intros Hh Hno Hok Hreq. unfold rpc_call. apply wp_bind. eexists _, _.
  split; [by apply fill_call_run|].
  eapply wp_mono; [apply attempts_runs; auto using set_xid_ok, call_for_ok|].
  simpl. auto.
Qed.

(** The first datagram that arrives decides the attempt unless it is drained. *)
Lemma recv_run d msg src t (s : rpc_t K) :
  heap_available K → rpc_ok s → msg_ok msg → is_bytes d → len d ≤ WIRE_MAX →
  let tk := Z.quot (s32 (t * TICK_HZ)) 1000 in
  let r := sys_recvtimeo (g_port s) WIRE_MAX tk (kern s) in
  rc (fst r) = len d → data (fst r) = d → rpc_parse d ≠ Overrun →
  ∃ m s', rpc_recv msg src t s =
    Some (match rpc_parse d with
          | Parsed _ => (RPC_OK, m, RpcAddr (from_ip (fst r)) (from_port (fst r)))
          | _ => (RPC_ERR_DECODE, m, src)
          end, s') ∧
    rpc_ok s' ∧ rx_only s s' ∧ msg_ok m ∧
    (∀ x v args, rpc_parse d = Parsed (x, v, args) →
       xid m = x ∧ view_of m = v ∧ args_of m = args ∧ mtype m = be32_at d 4 ∧ received m).
Proof.
  intros Hh (Hr & Ht & Hl & Hx) Hm Hb Hle tk r Hrc Hdata Hov.
  pose proof (len_nonneg d). pose proof (recv_sent (g_port s) WIRE_MAX tk (kern s)) as Hs. fold r in Hs.
  unfold rpc_recv, udp_recv, bind, gets, sys, modify. fold tk. fold r.
  destruct r as [[n a p d'] k] eqn:Er. simpl in Hrc, Hdata, Hs. subst n d'. simpl.
  rewrite !(proj2 (Z.eqb_neq (len d) _)), (proj2 (Z.ltb_ge (len d) 0)) by (unfold RPC_ERR_TIMEOUT; lia).
  simpl. rewrite (proj2 (Z.eqb_neq (len d) _)), (proj2 (Z.ltb_ge (len d) 0)) by (unfold RPC_ERR_TIMEOUT; lia).
  pose proof (Hh k) as Hmk. pose proof (malloc_sent 32 k) as Hms.
  cbn [kern set_rx set_kern]. destruct (sys_malloc 32 k) as [ok k']. simpl in Hmk, Hms. subst ok. simpl.
  set (rest := drop (length d) (g_rx_wire s)).
  change (splice 0 d (g_rx_wire s)) with (d ++ rest).
  assert (Hok' : len (d ++ rest) = WIRE_MAX).
  { unfold rest, len in *. rewrite length_app, length_drop. lia. }
  pose proof (decode_parse d rest msg Hb) as HD.
  destruct (rpc_parse d) as [| |[[x v] args]] eqn:Hpar; [done| |].
  - destruct HD as (m' & -> & Hm'); [unfold WIRE_MAX, RPC_PAYLOAD_MAX in *; lia|done|]. simpl.
    eexists m', _. split; [done|]. unfold rpc_ok, rx_only. simpl. rewrite Hms, Hs. by split_and!.
  - destruct HD as (m' & -> & Hm' & ? & ? & Hargs & ? & ? & ?);
      [unfold WIRE_MAX, RPC_PAYLOAD_MAX in *; lia|done|]. simpl.
    eexists m', _. split; [done|]. unfold rpc_ok, rx_only. simpl. rewrite Hms, Hs. split_and!; try done.
    intros x' v' args' [= <- <- <-]. split_and!; try done.
    exists d, x, v. subst args. by split_and!.
Qed.

Lemma accepted_code m :
  received m → view_of m = VAccepted SUCCESS → mtype m = MSG_REPLY ∧ reply_code m = RPC_OK.
Proof.
  intros (_ & _ & _ & _ & _ & _ & _ & Ht) Hv. unfold view_of, reply_code in *.
  destruct (Z.eqb_spec (mtype m) MSG_CALL); [done|]. destruct Ht as [?|Ht]; [done|].
  destruct (reply_stat m =? MSG_ACCEPTED); [|done]. injection Hv as ->. done.
Qed.

(** The first attempt of [rpc_call] up to its first datagram. *)
Lemma call_first_datagram dst req (s s1 : rpc_t K) d :
  heap_available K → rpc_ok s → request_ok req →
  rpc_send_call dst (call_for (g_xid s) req) (set_xid (u32 (g_xid s + 1)) s) = Some (RPC_OK, s1) →
  rpc_ok s1 → is_bytes d → len d ≤ WIRE_MAX →
  let r := fst (sys_recvtimeo (g_port s1) WIRE_MAX 5 (kern s1)) in
  rc r = len d → data r = d →
  (∀ args, rpc_parse d = Parsed (g_xid s, VAccepted SUCCESS, args) →
     ∃ m s', rpc_call dst req s = Some ((RPC_OK, Some m), s') ∧ args_of m = args) ∧
  (rpc_parse d = Malformed →
     ∃ s', rpc_call dst req s = Some ((RPC_ERR_DECODE, None), s') ∧
           sent (kern s') = sent (kern s1)).
Proof.
  intros Hh Hok Hreq Hsend Hok1 Hb Hle r Hrc Hdata.
  assert (Hrec : rpc_parse d ≠ Overrun → ∃ m s2,
    rpc_recv msg_zero (RpcAddr 0 0) RPC_TIMEOUT_MS s1 = Some (match rpc_parse d with
      | Parsed _ => (RPC_OK, m, RpcAddr (from_ip r) (from_port r))
      | _ => (RPC_ERR_DECODE, m, RpcAddr 0 0) end, s2) ∧
    rpc_ok s2 ∧ rx_only s1 s2 ∧ msg_ok m ∧ (∀ x v args, rpc_parse d = Parsed (x, v, args) →
       xid m = x ∧ view_of m = v ∧ args_of m = args ∧ mtype m = be32_at d 4 ∧ received m)).
  { intros Hov. apply (recv_run d); auto using msg_zero_ok. }
  assert (E : ∀ res s2, drain DRAIN_FUEL (g_xid s) msg_zero (RpcAddr 0 0) RPC_TIMEOUT_MS s1 =
    Some (Some res, s2) → rpc_call dst req s = Some (res, s2)).
  { intros res s2 E. unfold rpc_call. rewrite (bind_run _ _ _ _ _ (fill_call_run req _ s eq_refl)).
    unfold RPC_MAX_RETRIES. cbn [attempts]. mstep by exact Hsend.
    change (negb (RPC_OK =? RPC_OK)) with false. cbv iota. mstep by exact E. done. }
  split.
  - intros args Hp. rewrite Hp in Hrec. destruct Hrec as (m & s2 & Er & _ & _ & _ & Hm); [done|].
    destruct (Hm _ _ _ eq_refl) as (Hx & Hv & Ha & _ & Hrcv).
    destruct (accepted_code m Hrcv Hv) as [Ht Hc]. exists m, s2. split; [|done]. apply E.
    unfold DRAIN_FUEL. rewrite (drain_once 50 _ _ _ RPC_TIMEOUT_MS _ _ _ _ _ eq_refl Er) by done.
    by rewrite Ht, Hx, Hc, !Z.eqb_refl.
  - intros Hp. rewrite Hp in Hrec. destruct Hrec as (m & s2 & Er & _ & (_ & _ & Hs) & _); [done|].
    exists s2. split; [|done]. apply E.
    unfold DRAIN_FUEL. by rewrite (drain_once 50 _ _ _ RPC_TIMEOUT_MS _ _ _ _ _ eq_refl Er) by done.
Qed.

(** ** Properties *)

(** C33: [rpc_call] returns, and what it returns is right.  Whatever the
    network delivers, anything but an overrunning datagram ([no_overrun]: one that makes
    the decoder write behind [auth->body], rpc.c:184), and while the stream records
    can be allocated, in at most three
    transmissions of the same datagram it ends, with the transmit lock free and
    the transaction counter advanced by one.  A result of [RPC_OK] comes with a
    reply whose transaction id is the call's and whose status is [SUCCESS];
    every other result is one of the documented error codes and leaves
    [*out_reply] alone. *)
Theorem rpc_call_correct dst req (s : rpc_t K) :
  heap_available K → no_overrun K → rpc_ok s → request_ok req →
  ∃ r s', rpc_call dst req s = Some (r, s') ∧ rpc_ok s' ∧ outcome (g_xid s) r ∧
    g_port s' = g_port s ∧ g_xid s' = u32 (g_xid s + 1) ∧
    ∃ j, (j ≤ RPC_MAX_RETRIES)%nat ∧ (fst r = RPC_OK → 0 < j)%nat ∧ sent (kern s') = sent (kern s) ++
      replicate j (Packet (u16 (g_port s)) (ip dst) (port dst) (call_wire (call_for (g_xid s) req))).
Proof. apply call_runs. Qed.

(** The first datagram after the transmission decides a call.  A successful
    reply to it is returned with its results, from whatever address it was sent:
    the source is never compared with the callee.  A malformed datagram, also
    from anyone, ends the call at once with [RPC_ERR_DECODE], without a
    retransmission. *)
Theorem rpc_call_first_datagram dst req (s s1 : rpc_t K) d :
  heap_available K → rpc_ok s → request_ok req →
  rpc_send_call dst (call_for (g_xid s) req) (set_xid (u32 (g_xid s + 1)) s) = Some (RPC_OK, s1) →
  rpc_ok s1 → is_bytes d → len d ≤ WIRE_MAX →
  let r := fst (sys_recvtimeo (g_port s1) WIRE_MAX 5 (kern s1)) in
  rc r = len d → data r = d →
  (∀ args, rpc_parse d = Parsed (g_xid s, VAccepted SUCCESS, args) →
     ∃ m s', rpc_call dst req s = Some ((RPC_OK, Some m), s') ∧ args_of m = args) ∧
  (rpc_parse d = Malformed →
     ∃ s', rpc_call dst req s = Some ((RPC_ERR_DECODE, None), s') ∧
           sent (kern s') = sent (kern s1)).
Proof. apply call_first_datagram. Qed.
End Transport.

(** ** A well-behaved kernel, for concrete runs

    The scripted kernel with a heap that does not run out, and whose peers do
    not send overrunning datagrams (they are dropped). *)
Record calm := Calm { script : scripted }.

Definition calm_recv (maxlen : Z) (k : calm) : recv_t * calm :=
  let '(r, k') := script_recv maxlen (script k) in
  match rpc_parse (data r) with
  | Overrun => (Recv (-2) 0 0 [], Calm k')
  | _ => (r, Calm k')
  end.

Definition lift_calm {A} (f : scripted → A * scripted) (k : calm) : A * calm :=
  let '(a, k') := f (script k) in (a, Calm k').

#[export] Instance calm_kernel : Kernel calm := {
  sys_malloc _ k := (true, k);
  sys_bind _ k := (0, k);
  sys_unbind _ k := (0, k);
  sys_send p := lift_calm (script_send p);
  sys_recvtimeo _ n _ k := calm_recv n k;
  sys_getentropy n := lift_calm (script_entropy n);
  sys_uptime := lift_calm script_uptime;
  sys_ip k := (u32 (own_ip (script k)), k);
  sent k := outbox (script k);
}.

Lemma lift_calm_fst {A} (f : scripted → A * scripted) k : fst (lift_calm f k) = fst (f (script k)).
Proof. unfold lift_calm. by destruct (f (script k)). Qed.
Lemma lift_calm_sent {A} (f : scripted → A * scripted) k :
  sent (snd (lift_calm f k)) = outbox (snd (f (script k))).
Proof. unfold lift_calm. by destruct (f (script k)). Qed.

Lemma calm_recv_cases n k :
  let r := calm_recv n k in
  (fst r = Recv (-2) 0 0 [] ∨ fst r = fst (script_recv n (script k))) ∧
  sent (snd r) = outbox (snd (script_recv n (script k))).
Proof.
  unfold calm_recv. destruct (script_recv n (script k)) as [r k'].
  destruct (rpc_parse (data r)); simpl; auto.
Qed.

#[export] Instance calm_laws : KernelLaws calm.
Proof.
  split; intros; try subst r; simpl in *.
  - pose proof (recv_data (K := scripted) 0 n 0 (script k)) as L. simpl in L.
    destruct (calm_recv_cases n k) as [[E|E] _]; rewrite E in *; simpl in *; [lia|auto].
  - pose proof (recv_fail (K := scripted) 0 n 0 (script k)) as L. simpl in L.
    destruct (calm_recv_cases n k) as [[E|E] _]; rewrite E in *; simpl in *; auto.
  - pose proof (recv_source (K := scripted) 0 n 0 (script k)) as L. simpl in L.
    destruct (calm_recv_cases n k) as [[E|E] _]; rewrite E; [by split|done].
  - destruct (calm_recv_cases n k) as [_ E]. simpl in E. rewrite E.
    exact (recv_sent (K := scripted) 0 n 0 (script k)).
  - exact (send_sent (K := scripted) p (script k)).
  - rewrite lift_calm_fst in *. pose proof (entropy_bytes (K := scripted) n (script k) bs) as L. auto.
  - pose proof (lift_calm_sent (script_entropy n) k) as L. simpl in L. rewrite L.
    exact (entropy_sent (K := scripted) n (script k)).
  - done.
  - done.
  - done.
  - pose proof (lift_calm_sent script_uptime k) as L. simpl in L. rewrite L.
    exact (uptime_sent (K := scripted) (script k)).
  - done.
  - apply Z.mod_pos_bound. lia.
Qed.

Lemma calm_heap : heap_available calm.
Proof. done. Qed.

Lemma calm_no_overrun : no_overrun calm.
Proof.
  intros p n t k. simpl. unfold calm_recv. destruct (script_recv n (script k)) as [r k'].
  destruct (rpc_parse (data r)) eqn:E; simpl; [done|congruence..].
Qed.

Lemma rpc_start_ok {K} (k : K) : rpc_ok (rpc_start k).
Proof. split_and!; done. Qed.

Lemma msg_sample_request : request_ok msg_sample.
Proof. split; [apply msg_sample_ok|done]. Qed.

(** A node whose inbox holds one datagram. *)
Definition sample_node (d : list Z) : rpc_t calm :=
  rpc_start (Calm (Script [(0x06060606, 6, d)] [] [] 0 true [])).

Lemma rpc_call_correct_witness :
  ∃ r s', rpc_call (RpcAddr 0x0a000002 7000) msg_sample (sample_node (reply_wire 9 SUCCESS [42] 1)) =
    Some (r, s') ∧ outcome 1 r ∧ g_xid s' = 2.
Proof.
  destruct (rpc_call_correct (RpcAddr 0x0a000002 7000) msg_sample
    (sample_node (reply_wire 9 SUCCESS [42] 1)) calm_heap calm_no_overrun (rpc_start_ok _)
    msg_sample_request) as (r & s' & E & _ & Ho & _ & Hx & _).
  exists r, s'. split_and!; [exact E|exact Ho|exact Hx].
Defined.

(** The node after its first transmission. *)
Definition sample_sent (d : list Z) : rpc_t calm :=
  match rpc_send_call (RpcAddr 0x0a000002 7000) (call_for 1 msg_sample)
          (set_xid 2 (sample_node d)) with
  | Some (_, s) => s
  | None => sample_node d
  end.

Lemma rpc_call_first_datagram_witness :
  ∃ m s', rpc_call (RpcAddr 0x0a000002 7000) msg_sample (sample_node (reply_wire 1 SUCCESS [42] 1)) =
    Some ((RPC_OK, Some m), s') ∧ args_of m = [42].
Proof.
  set (d := reply_wire 1 SUCCESS [42] 1).
  assert (Hb : is_bytes d) by (apply reply_wire_bytes; repeat constructor; unfold is_byte; lia).
  apply (rpc_call_first_datagram (RpcAddr 0x0a000002 7000) msg_sample (sample_node d) (sample_sent d) d
    calm_heap (rpc_start_ok _) msg_sample_request).
  - vm_compute. reflexivity.
  - split_and!; try split; vm_compute; try reflexivity; discriminate.
  - exact Hb.
  - vm_compute. discriminate.
  - vm_compute. reflexivity.
  - vm_compute. reflexivity.
  - vm_compute. reflexivity.
Defined.
