(* ===== verification/Registry.v ===== *)
(** The worker registry of the master (user/discovery.h, and the helpers of
    user/discovery.c that only touch its tables).

    The records as the C structures, with the byte layout they have on the wire
    (discovery sends its structures as raw memory: little-endian, with the
    padding of the RISC-V ABI); the look-ups; the capability probe; the per-peer
    token bucket; ring order, ring stitching and the split of the layers. *)
From Stdlib Require Import Sorting.Sorted.
From S2P Require Import Prelude Sha256 Auth.

(** ** Constants *)

Definition MAX_WORKERS : nat := 16.
Definition WORKER_PENDING : Z := 0.
Definition WORKER_ACTIVE : Z := 1.
Definition WORKER_SUSPECTED : Z := 2.
Definition WORKER_EXPIRED : Z := 3.
Definition HEARTBEAT_INTERVAL_TICKS : Z := 200.
Definition SUSPECTED_TIMEOUT : Z := HEARTBEAT_INTERVAL_TICKS * 2.
Definition EXPIRED_TIMEOUT : Z := HEARTBEAT_INTERVAL_TICKS * 4.
Definition CAP_PROBE_CEILING_BYTES : Z := 32 * 1024 * 1024.
Definition CAP_PROBE_PGSIZE : Z := 4096.

(** ** Records and their layouts *)

Record worker_info_t := WorkerInfo {
  worker_id : Z;
  info_ip : Z;
  info_port : Z;
  RAM : Z;
  psk_hash : list Z;        (* 32 bytes *)
  info_next_ip : Z;
  info_prev_ip : Z;
}.

Record cap_ack_t := CapAck {
  probe_nonce : Z;
  checksum : Z;
  identity : list Z;        (* 32 bytes *)
}.

Record set_neighbor_t := SetNeighbor {
  nb_prev_ip : Z;
  nb_prev_port : Z;
  nb_next_ip : Z;
  nb_next_port : Z;
}.

Record auth_hello_reply_t := AuthHelloReply {
  status : Z;
  probe_data : Z;
  rep_probe_seed : Z;
  rep_probe_pages : Z;
}.

Record worker_entry_t := WorkerEntry {
  info : worker_info_t;
  last_seen_ms : Z;
  state : Z;
  cap_ack_expected : cap_ack_t;
  probe_seed : Z;
  probe_pages : Z;
  next_ip : Z;
  next_port : Z;
  prev_ip : Z;
  prev_port : Z;
}.

Definition SIZEOF_WORKER_INFO : Z := 56.
Definition SIZEOF_CAP_ACK : Z := 40.
Definition SIZEOF_SET_NEIGHBOR : Z := 16.
Definition SIZEOF_AUTH_HELLO_REPLY : Z := 16.

Definition write_worker_info (w : worker_info_t) : list Z :=
  put_le32 (worker_id w) ++ put_le32 (info_ip w) ++ put_le16 (info_port w) ++ [0; 0] ++
  put_le32 (RAM w) ++ psk_hash w ++ put_le32 (info_next_ip w) ++ put_le32 (info_prev_ip w).
Definition read_worker_info (b : list Z) : worker_info_t :=
  WorkerInfo (le32_at b 0) (le32_at b 4) (le16_at b 8) (le32_at b 12) (slice 16 32 b)
    (le32_at b 48) (le32_at b 52).

Definition write_cap_ack (a : cap_ack_t) : list Z :=
  put_le32 (probe_nonce a) ++ put_le32 (checksum a) ++ identity a.
Definition read_cap_ack (b : list Z) : cap_ack_t :=
  CapAck (le32_at b 0) (le32_at b 4) (slice 8 32 b).

Definition write_set_neighbor (n : set_neighbor_t) : list Z :=
  put_le32 (nb_prev_ip n) ++ put_le16 (nb_prev_port n) ++ [0; 0] ++
  put_le32 (nb_next_ip n) ++ put_le16 (nb_next_port n) ++ [0; 0].
Definition read_set_neighbor (b : list Z) : set_neighbor_t :=
  SetNeighbor (le32_at b 0) (le16_at b 4) (le32_at b 8) (le16_at b 12).

Definition write_auth_hello_reply (r : auth_hello_reply_t) : list Z :=
  put_le32 (status r) ++ put_le32 (probe_data r) ++ put_le32 (rep_probe_seed r) ++
  put_le32 (rep_probe_pages r).
Definition read_auth_hello_reply (b : list Z) : auth_hello_reply_t :=
  AuthHelloReply (le32_at b 0) (le32_at b 4) (le32_at b 8) (le32_at b 12).

(** The zero-initialised [registry]. *)
Definition info_zero : worker_info_t := WorkerInfo 0 0 0 0 (replicate 32 0) 0 0.
Definition entry_zero : worker_entry_t :=
  WorkerEntry info_zero 0 0 (CapAck 0 0 (replicate 32 0)) 0 0 0 0 0 0.
#[export] Instance entry_inhabited : Inhabited worker_entry_t := populate entry_zero.

Abbreviation registry_t := (list worker_entry_t).
Definition registry_zero : registry_t := replicate MAX_WORKERS entry_zero.

(** Assignments to fields of an entry. *)
Definition set_registered (i : worker_info_t) (now : Z) (e : worker_entry_t) : worker_entry_t :=
  WorkerEntry i now WORKER_PENDING (cap_ack_expected e) (probe_seed e) (probe_pages e)
    (next_ip e) (next_port e) (prev_ip e) (prev_port e).
Definition set_probe (seed pages : Z) (a : cap_ack_t) (e : worker_entry_t) : worker_entry_t :=
  WorkerEntry (info e) (last_seen_ms e) (state e) a seed pages
    (next_ip e) (next_port e) (prev_ip e) (prev_port e).
Definition set_state (s : Z) (e : worker_entry_t) : worker_entry_t :=
  WorkerEntry (info e) (last_seen_ms e) s (cap_ack_expected e) (probe_seed e) (probe_pages e)
    (next_ip e) (next_port e) (prev_ip e) (prev_port e).
Definition set_seen (now : Z) (e : worker_entry_t) : worker_entry_t :=
  WorkerEntry (info e) now (state e) (cap_ack_expected e) (probe_seed e) (probe_pages e)
    (next_ip e) (next_port e) (prev_ip e) (prev_port e).
Definition set_next (a p : Z) (e : worker_entry_t) : worker_entry_t :=
  WorkerEntry (info e) (last_seen_ms e) (state e) (cap_ack_expected e) (probe_seed e)
    (probe_pages e) a p (prev_ip e) (prev_port e).
Definition set_prev (a p : Z) (e : worker_entry_t) : worker_entry_t :=
  WorkerEntry (info e) (last_seen_ms e) (state e) (cap_ack_expected e) (probe_seed e)
    (probe_pages e) (next_ip e) (next_port e) a p.

(** An assignment to [registry[i]]. *)
Definition update (i : nat) (f : worker_entry_t → worker_entry_t) (reg : registry_t) : registry_t :=
  <[i := f (reg !!! i)]> reg.

(** ** Look-ups *)

(** The first index below [MAX_WORKERS] that satisfies [p], or [None] for -1. *)
Definition first_slot (p : worker_entry_t → bool) (reg : registry_t) : option nat :=
  find (λ i, p (reg !!! i)) (seq 0 MAX_WORKERS).

Definition registry_find (reg : registry_t) (id : Z) : option nat :=
  first_slot (λ e, worker_id (info e) =? id) reg.

Definition registry_find_ip_port (reg : registry_t) (a p : Z) : option nat :=
  first_slot (λ e, (info_ip (info e) =? a) && (info_port (info e) =? p)) reg.

Definition registry_free_slot (reg : registry_t) : option nat :=
  first_slot (λ e, (state e =? WORKER_EXPIRED) || (worker_id (info e) =? 0)) reg.

Definition is_active (e : worker_entry_t) : bool :=
  negb (worker_id (info e) =? 0) && (state e =? WORKER_ACTIVE).

(** Backwards from [current_slot - 1], wrapping around. *)
Definition find_prev_active_worker (reg : registry_t) (current_slot : nat) : option nat :=
  find (λ i, is_active (reg !!! i))
    (map (λ offset, ((current_slot + MAX_WORKERS - offset) mod MAX_WORKERS)%nat)
       (seq 1 (MAX_WORKERS - 1))).

(** ** The capability probe *)

Definition probe_next (x : Z) : Z := u32 (x * 1103515245 + 12345).

(** The loop of [cap_probe_checksum]; returns [sum]. *)
Fixpoint checksum_loop (pages : nat) (x sum : Z) : Z :=
  match pages with
  | O => sum
  | S n => let x := probe_next x in checksum_loop n x (u32 (sum + x))
  end.

Definition cap_probe_checksum (seed pages : Z) : Z := checksum_loop (Z.to_nat pages) seed 0.

(** The loop of [cap_probe_run]: [i] counts up, and the word of page [i] is
    stored at index [i * 1024] of [buf], an array of [size] words; [None] is a
    store outside it.  Returns [sum] and the stores made, the last one first. *)
Fixpoint probe_loop (n : nat) (size i x sum : Z) (buf : list (Z * Z)) : option (Z * list (Z * Z)) :=
  match n with
  | O => Some (sum, buf)
  | S n =>
      let x := probe_next x in
      let ix := u32 (i * (CAP_PROBE_PGSIZE / 4)) in
      if ix <? size then probe_loop n size (i + 1) x (u32 (sum + x)) ((ix, x) :: buf) else None
  end.

(** [malloc_ok] is the outcome of the eager allocation. *)
Definition cap_probe_run (malloc_ok : bool) (seed pages : Z) : option Z :=
  if (pages =? 0) || (CAP_PROBE_CEILING_BYTES / CAP_PROBE_PGSIZE <? pages) then Some (-1)
  else if negb malloc_ok then Some (-1)
  else match probe_loop (Z.to_nat pages) (pages * CAP_PROBE_PGSIZE / 4) 0 seed 0 [] with
       | Some (sum, _) => Some sum
       | None => None
       end.

(** The page count of the challenge for an advertised [RAM]. *)
Definition challenge_pages (ram : Z) : Z :=
  let probe_bytes := if ram <? CAP_PROBE_CEILING_BYTES then ram else CAP_PROBE_CEILING_BYTES in
  let pages := probe_bytes / CAP_PROBE_PGSIZE in
  if pages =? 0 then 1 else pages.

(** ** The token buckets *)

Definition DISCOVERY_RL_SLOTS : nat := 8.
Definition DISCOVERY_RL_BURST : Z := 32.
Definition DISCOVERY_RL_REFILL_TICKS : Z := 1.

Record disc_bucket := Bucket {
  b_ip : Z;
  b_port : Z;
  tokens : Z;
  last : Z;
  used : bool;
}.

Definition bucket_zero : disc_bucket := Bucket 0 0 0 0 false.
#[export] Instance bucket_inhabited : Inhabited disc_bucket := populate bucket_zero.
Definition buckets_zero : list disc_bucket := replicate DISCOVERY_RL_SLOTS bucket_zero.

Definition owns (a p : Z) (b : disc_bucket) : bool :=
  used b && (b_ip b =? a) && (b_port b =? p).

(** The scan from slot [i] on: the peer's bucket ([inl]), or the slot to claim
    ([inr]) with [lru] the candidate so far. *)
Fixpoint rl_scan (n i : nat) (rl : list disc_bucket) (a p : Z) (lru : nat) : nat + nat :=
  match n with
  | O => inr lru
  | S n =>
      let b := rl !!! i in
      if owns a p b then inl i
      else
        let lru := if negb (used b) || (tokens (rl !!! lru) <? tokens b) then i else lru in
        rl_scan n (S i) rl a p lru
  end.

(** Refill, then spend. *)
Definition spend (now : Z) (b : disc_bucket) : bool * disc_bucket :=
  let add := u32 (now - last b) / DISCOVERY_RL_REFILL_TICKS in
  let b := if negb (add =? 0)
           then let t := s32 (tokens b + s32 add) in
                Bucket (b_ip b) (b_port b)
                  (if DISCOVERY_RL_BURST <? t then DISCOVERY_RL_BURST else t) now (used b)
           else b in
  if tokens b <=? 0 then (false, b)
  else (true, Bucket (b_ip b) (b_port b) (tokens b - 1) (last b) (used b)).

Definition disc_rl_allow (a p now : Z) (rl : list disc_bucket) : bool * list disc_bucket :=
  let '(i, b) := match rl_scan DISCOVERY_RL_SLOTS 0 rl a p 0 with
                 | inl i => (i, rl !!! i)
                 | inr i => (i, Bucket a p DISCOVERY_RL_BURST now true)
                 end in
  let '(ok, b) := spend now b in
  (ok, <[i := b]> rl).

(** ** The ring *)

Definition discovery_ring_order (reg : registry_t) (max : nat) : list nat :=
  take max (filter (λ i, is_active (reg !!! i) = true) (seq 0 MAX_WORKERS)).

(** One iteration of [discovery_restitch_ring]; [mip] and [mport] are the
    master's address. *)
Definition restitch_one (mip mport : Z) (slots : list nat) (reg : registry_t) (k : nat) : registry_t :=
  let slot := slots !!! k in
  let reg := if decide (k = 0%nat) then update slot (set_prev mip mport) reg
             else let e := reg !!! (slots !!! (k - 1)%nat) in
                  update slot (set_prev (info_ip (info e)) (info_port (info e))) reg in
  if decide (k = (length slots - 1)%nat) then update slot (set_next mip mport) reg
  else let e := reg !!! (slots !!! (k + 1)%nat) in
       update slot (set_next (info_ip (info e)) (info_port (info e))) reg.

Definition discovery_restitch_ring (mip mport : Z) (reg : registry_t) : nat * registry_t :=
  let slots := discovery_ring_order reg MAX_WORKERS in
  let n := length slots in
  (n, foldl (restitch_one mip mport slots) reg (seq 0 n)).

(** ** The split of the layers *)

(** The ranges [discovery_assign_layers] hands out, in ring order. *)
Fixpoint split_loop (fuel : nat) (k next per rem : Z) : list (Z * Z) :=
  match fuel with
  | O => []
  | S fuel =>
      let count := per + (if k <? rem then 1 else 0) in
      (next, next + count) :: split_loop fuel (k + 1) (next + count) per rem
  end.

Definition layer_split (n_layers n : Z) : list (Z * Z) :=
  split_loop (Z.to_nat n) 0 0 (n_layers / n) (n_layers mod n).

(** The range [discovery_assign_one] computes for worker [k]. *)
Definition layer_range (n_layers n k : Z) : Z * Z :=
  let per := n_layers / n in
  let rem := n_layers mod n in
  let start := k * per + (if k <? rem then k else rem) in
  (start, start + (per + (if k <? rem then 1 else 0))).

(** ** Lemmas *)

(** *** Look-ups *)

Lemma find_seq_some (p : nat → bool) a n i :
  find p (seq a n) = Some i →
  (a ≤ i < a + n)%nat ∧ p i = true ∧ ∀ j, (a ≤ j < i)%nat → p j = false.
Proof.
  revert a. induction n as [|n IH]; intros a; simpl; [done|].
  destruct (p a) eqn:Ha.
  - intros [= <-]. split_and!; [lia|lia|done|]. lia.
  - intros (Hi & Hp & Hj)%IH. split_and!; [lia|lia|done|].
    intros j Hr. destruct (decide (j = a)) as [->|]; [done|]. apply Hj. lia.
Qed.

Lemma find_seq_none (p : nat → bool) a n :
  find p (seq a n) = None → ∀ i, (a ≤ i < a + n)%nat → p i = false.
Proof.
  intros H i Hi. apply (find_none _ _ H). apply in_seq. lia.
Qed.

Lemma first_slot_some p reg i :
  first_slot p reg = Some i →
  (i < MAX_WORKERS)%nat ∧ p (reg !!! i) = true ∧ ∀ j, (j < i)%nat → p (reg !!! j) = false.
Proof.
  intros (Hi & Hp & Hj)%find_seq_some. split_and!; [lia|done|]. intros j ?. apply Hj. lia.
Qed.

Lemma first_slot_none p reg i :
  first_slot p reg = None → (i < MAX_WORKERS)%nat → p (reg !!! i) = false.
Proof. intros H Hi. apply (find_seq_none _ _ _ H). lia. Qed.

Lemma find_prev_some reg c i :
  find_prev_active_worker reg c = Some i → (i < MAX_WORKERS)%nat ∧ is_active (reg !!! i) = true.
Proof.
  unfold find_prev_active_worker. intros [Hin Ha]%find_some. split; [|done].
  apply in_map_iff in Hin as (o & <- & _). apply Nat.mod_upper_bound. unfold MAX_WORKERS. lia.
Qed.

Lemma update_eq i f reg : (i < length reg)%nat → update i f reg !!! i = f (reg !!! i).
Proof. intros. unfold update. by apply list_lookup_total_insert_eq. Qed.

Lemma update_ne i j f reg : i ≠ j → update i f reg !!! j = reg !!! j.
Proof. intros. unfold update. by apply list_lookup_total_insert_ne. Qed.

Lemma update_update i f g reg :
  (i < length reg)%nat → update i g (update i f reg) = <[i := g (f (reg !!! i))]> reg.
Proof.
  intros Hi. unfold update at 1. rewrite update_eq by done.
  unfold update. by rewrite list_insert_insert_eq.
Qed.

Lemma update_info i f reg j :
  (∀ e, info (f e) = info e) → info (update i f reg !!! j) = info (reg !!! j).
Proof.
  intros Hf. destruct (decide (i = j)) as [<-|Hne]; [|by rewrite update_ne].
  destruct (decide (i < length reg)%nat) as [Hi|Hi]; [by rewrite update_eq|].
  unfold update. by rewrite list_insert_ge by lia.
Qed.

Lemma length_update i f reg : length (update i f reg) = length reg.
Proof. apply length_insert. Qed.

(** *** Layouts *)

Lemma read_write_cap_ack a r :
  is_u32 (probe_nonce a) → is_u32 (checksum a) → len (identity a) = 32 →
  read_cap_ack (write_cap_ack a ++ r) = a.
Proof.
  intros Hn Hc Hl. destruct a as [n c d]. unfold read_cap_ack, write_cap_ack. cbn [probe_nonce checksum identity] in *.
  rewrite <- !app_assoc. f_equal.
  - by apply le32_at_0.
  - by apply (le32_at_pos (put_le32 n)).
  - rewrite app_assoc. by apply (slice_app (put_le32 n ++ put_le32 c)).
Qed.

Lemma read_write_auth_hello_reply p r :
  is_u32 (status p) → is_u32 (probe_data p) → is_u32 (rep_probe_seed p) → is_u32 (rep_probe_pages p) →
  read_auth_hello_reply (write_auth_hello_reply p ++ r) = p.
Proof.
  intros H1 H2 H3 H4. destruct p as [a b c d]. unfold read_auth_hello_reply, write_auth_hello_reply.
  cbn [status probe_data rep_probe_seed rep_probe_pages] in *. rewrite <- !app_assoc. f_equal.
  - by apply le32_at_0.
  - by apply (le32_at_pos (put_le32 a)).
  - rewrite (app_assoc (put_le32 a)). by apply (le32_at_pos (put_le32 a ++ put_le32 b)).
  - rewrite (app_assoc (put_le32 a)), (app_assoc (put_le32 a ++ put_le32 b)).
    by apply (le32_at_pos ((put_le32 a ++ put_le32 b) ++ put_le32 c)).
Qed.

Lemma read_write_set_neighbor n r :
  is_u32 (nb_prev_ip n) → is_u16 (nb_prev_port n) → is_u32 (nb_next_ip n) → is_u16 (nb_next_port n) →
  read_set_neighbor (write_set_neighbor n ++ r) = n.
Proof.
  intros H1 H2 H3 H4. destruct n as [a b c d]. unfold read_set_neighbor, write_set_neighbor.
  cbn [nb_prev_ip nb_prev_port nb_next_ip nb_next_port] in *. rewrite <- !app_assoc. f_equal.
  - by apply le32_at_0.
  - by apply (le16_at_pos (put_le32 a)).
  - rewrite (app_assoc (put_le32 a)), (app_assoc (put_le32 a ++ _)).
    by apply (le32_at_pos ((put_le32 a ++ put_le16 b) ++ [0; 0])).
  - rewrite (app_assoc (put_le32 a)), (app_assoc (put_le32 a ++ _)), (app_assoc (_ ++ [0; 0])).
    by apply (le16_at_pos (((put_le32 a ++ put_le16 b) ++ [0; 0]) ++ put_le32 c)).
Qed.

Lemma put_le32_bytes v : is_bytes (put_le32 v).
Proof. repeat constructor; apply u8_byte. Qed.
Lemma put_le16_bytes v : is_bytes (put_le16 v).
Proof. repeat constructor; apply u8_byte. Qed.

Lemma write_worker_info_bytes w : is_bytes (psk_hash w) → is_bytes (write_worker_info w).
Proof.
  intros Hb. unfold write_worker_info.
  repeat (apply Forall_app; split); try apply put_le32_bytes; try apply put_le16_bytes; [|exact Hb].
  repeat constructor; lia.
Qed.

Lemma write_cap_ack_bytes a : is_bytes (identity a) → is_bytes (write_cap_ack a).
Proof.
  intros Hb. unfold write_cap_ack.
  repeat (apply Forall_app; split); try apply put_le32_bytes. exact Hb.
Qed.

Lemma read_write_worker_info w r :
  is_u32 (worker_id w) → is_u32 (info_ip w) → is_u16 (info_port w) → is_u32 (RAM w) →
  len (psk_hash w) = 32 → is_u32 (info_next_ip w) → is_u32 (info_prev_ip w) →
  read_worker_info (write_worker_info w ++ r) = w.
Proof.
  intros H1 H2 H3 H4 H5 H6 H7. destruct w as [i a p m h n v]. unfold read_worker_info, write_worker_info.
  cbn [worker_id info_ip info_port RAM psk_hash info_next_ip info_prev_ip] in *.
  rewrite <- !app_assoc. set (w2 := put_le32 i ++ put_le32 a).
  set (w4 := (w2 ++ put_le16 p) ++ [0; 0]). set (w5 := w4 ++ put_le32 m).
  assert (L6 : len (w5 ++ h) = 48) by (rewrite len_app, H5; done).
  f_equal.
  - by apply le32_at_0.
  - by apply (le32_at_pos (put_le32 i)).
  - rewrite (app_assoc (put_le32 i)). fold w2. by apply (le16_at_pos w2).
  - rewrite (app_assoc (put_le32 i)), (app_assoc w2), (app_assoc (w2 ++ _)). fold w4.
    by apply (le32_at_pos w4).
  - rewrite (app_assoc (put_le32 i)), (app_assoc w2), (app_assoc (w2 ++ _)), (app_assoc w4). fold w5.
    by apply (slice_app w5).
  - rewrite (app_assoc (put_le32 i)), (app_assoc w2), (app_assoc (w2 ++ _)), (app_assoc w4), (app_assoc w5).
    by apply (le32_at_pos (w5 ++ h)).
  - rewrite (app_assoc (put_le32 i)), (app_assoc w2), (app_assoc (w2 ++ _)), (app_assoc w4), (app_assoc w5),
      (app_assoc (w5 ++ h)).
    apply (le32_at_pos ((w5 ++ h) ++ put_le32 n)); [by rewrite len_app, L6|done].
Qed.

(** *** The probe *)

Lemma probe_loop_checksum n size i x sum buf :
  0 ≤ i → (i + Z.of_nat n) * 1024 ≤ size → (i + Z.of_nat n) * 1024 ≤ 2 ^ 32 →
  ∃ ws, length ws = n ∧
    probe_loop n size i x sum buf =
      Some (checksum_loop n x sum,
            rev (zip (map (λ k, (i + Z.of_nat k) * 1024) (seq 0 n)) ws) ++ buf).
Proof.
  revert i x sum buf. induction n as [|n IH]; intros i x sum buf Hi Hs H32.
  { exists []. done. }
  cbn [probe_loop checksum_loop]. change (CAP_PROBE_PGSIZE / 4) with 1024.
  rewrite u32_id by (unfold is_u32; lia). rewrite (proj2 (Z.ltb_lt _ _)) by lia.
  destruct (IH (i + 1) (probe_next x) (u32 (sum + probe_next x)) ((i * 1024, probe_next x) :: buf))
    as (ws & Hl & ->); [lia..|].
  exists (probe_next x :: ws). split; [simpl; lia|]. do 2 f_equal.
  cbn [seq map zip zip_with rev]. rewrite <- app_assoc. simpl.
  replace (i + Z.of_nat 0) with i by lia. do 2 f_equal.
  rewrite <- seq_shift, map_map. f_equal. apply map_ext. intros k. lia.
Qed.

Lemma challenge_pages_range ram : 0 ≤ ram → 1 ≤ challenge_pages ram ≤ 8192.
Proof.
  intros Hr. unfold challenge_pages, CAP_PROBE_PGSIZE, CAP_PROBE_CEILING_BYTES.
  destruct (Z.ltb_spec ram (32 * 1024 * 1024)); case_bool; zdivmod.
Qed.

Lemma checksum_loop_range n x sum : is_u32 sum → is_u32 (checksum_loop n x sum).
Proof.
  revert x sum. induction n as [|n IH]; intros x sum Hs; [done|].
  cbn [checksum_loop]. apply IH, u32_range.
Qed.

Lemma probe_agrees seed pages :
  1 ≤ pages ≤ 8192 → cap_probe_run true seed pages = Some (cap_probe_checksum seed pages).
Proof.
  intros Hp. unfold cap_probe_run, cap_probe_checksum.
  replace ((pages =? 0) || _) with false.
  2: { change (CAP_PROBE_CEILING_BYTES / CAP_PROBE_PGSIZE) with 8192. lia. }
  cbn [negb]. cbv iota. replace (pages * CAP_PROBE_PGSIZE / 4) with (pages * 1024).
  2: { unfold CAP_PROBE_PGSIZE. zdivmod. }
  destruct (probe_loop_checksum (Z.to_nat pages) (pages * 1024) 0 seed 0 []) as (ws & _ & ->); [lia..|].
  done.
Qed.

(** *** The split *)

Lemma split_loop_range fuel k n_layers n :
  0 < n → 0 ≤ n_layers → 0 ≤ k →
  split_loop fuel k (fst (layer_range n_layers n k)) (n_layers / n) (n_layers mod n) =
    map (λ j, layer_range n_layers n (k + Z.of_nat j)) (seq 0 fuel).
Proof.
  intros Hn Hl. revert k. induction fuel as [|fuel IH]; intros k Hk; [done|].
  cbn [split_loop seq map]. rewrite Z.add_0_r. f_equal.
  replace (fst (layer_range n_layers n k) + _) with (fst (layer_range n_layers n (k + 1))).
  - rewrite IH by lia. rewrite <- seq_shift, map_map. apply map_ext. intros j. f_equal. lia.
  - unfold layer_range. cbn [fst]. destruct (Z.ltb_spec (k + 1) (n_layers mod n)),
      (Z.ltb_spec k (n_layers mod n)); lia.
Qed.

Lemma layer_split_ranges n_layers n :
  0 < n → 0 ≤ n_layers →
  layer_split n_layers n = map (λ j, layer_range n_layers n (Z.of_nat j)) (seq 0 (Z.to_nat n)).
Proof.
  intros Hn Hl. unfold layer_split. rewrite <- (split_loop_range _ 0) by lia. f_equal.
  unfold layer_range. cbn [fst]. pose proof (Z.mod_pos_bound n_layers n Hn).
  destruct (Z.ltb_spec 0 (n_layers mod n)); lia.
Qed.

Lemma layer_range_next n_layers n k :
  0 < n → 0 ≤ k → snd (layer_range n_layers n k) = fst (layer_range n_layers n (k + 1)).
Proof.
  intros Hn Hk. unfold layer_range. cbn [fst snd].
  destruct (Z.ltb_spec (k + 1) (n_layers mod n)), (Z.ltb_spec k (n_layers mod n)); lia.
Qed.

Lemma layer_range_end n_layers n : 0 < n → fst (layer_range n_layers n n) = n_layers.
Proof.
  intros Hn. unfold layer_range. cbn [fst]. pose proof (Z.mod_pos_bound n_layers n Hn).
  rewrite (proj2 (Z.ltb_ge _ _)) by lia. pose proof (Z.div_mod n_layers n). lia.
Qed.

(** *** The ring *)

Definition addr_of (e : worker_entry_t) : Z * Z := (info_ip (info e), info_port (info e)).

(** The neighbours of the [k]-th worker of the ring: workers of the ordered list,
    or the master [m] at the ends. *)
Definition ring_prev (m : Z * Z) (slots : list nat) (reg : registry_t) (k : nat) : Z * Z :=
  if decide (k = 0%nat) then m else addr_of (reg !!! (slots !!! (k - 1)%nat)).
Definition ring_next (m : Z * Z) (slots : list nat) (reg : registry_t) (k : nat) : Z * Z :=
  if decide (k = (length slots - 1)%nat) then m else addr_of (reg !!! (slots !!! (k + 1)%nat)).

Definition linked (m : Z * Z) (slots : list nat) (reg : registry_t) (k : nat) (e : worker_entry_t)
    : worker_entry_t :=
  set_next (fst (ring_next m slots reg k)) (snd (ring_next m slots reg k))
    (set_prev (fst (ring_prev m slots reg k)) (snd (ring_prev m slots reg k)) e).

Lemma ring_order_filter reg :
  discovery_ring_order reg MAX_WORKERS = filter (λ i, is_active (reg !!! i) = true) (seq 0 MAX_WORKERS).
Proof.
  unfold discovery_ring_order. apply take_ge.
  etransitivity; [apply length_filter|]. by rewrite length_seq.
Qed.

Lemma ring_order_spec reg i :
  i ∈ discovery_ring_order reg MAX_WORKERS ↔ (i < MAX_WORKERS)%nat ∧ is_active (reg !!! i) = true.
Proof. rewrite ring_order_filter, list_elem_of_filter, elem_of_seq. intuition lia. Qed.

Lemma ring_order_nodup reg : NoDup (discovery_ring_order reg MAX_WORKERS).
Proof. rewrite ring_order_filter. apply NoDup_filter, NoDup_seq. Qed.

(** The registry after [k] iterations of the loop. *)
Definition stitched (m : Z * Z) (slots : list nat) (reg reg' : registry_t) (k : nat) : Prop :=
  length reg' = length reg ∧
  (∀ j s, slots !! j = Some s →
     reg' !!! s = if decide (j < k)%nat then linked m slots reg j (reg !!! s) else reg !!! s) ∧
  (∀ s, s ∉ slots → reg' !!! s = reg !!! s).

Lemma stitched_info m slots reg reg' k s :
  stitched m slots reg reg' k → info (reg' !!! s) = info (reg !!! s).
Proof.
  intros (_ & Hin & Hout). destruct (decide (s ∈ slots)) as [Hs|Hs]; [|by rewrite Hout].
  apply list_elem_of_lookup in Hs as [j Hj]. rewrite (Hin j s Hj). by case_decide.
Qed.

Lemma stitched_step m slots reg reg' k :
  NoDup slots → (∀ s, s ∈ slots → (s < length reg)%nat) → (k < length slots)%nat →
  stitched m slots reg reg' k →
  stitched m slots reg (restitch_one (fst m) (snd m) slots reg' k) (S k).
Proof.
  intros Hnd Hlt Hk Hst. destruct (lookup_lt_is_Some_2 slots k Hk) as [s Hs].
  assert (Hsl : (s < length reg')%nat).
  { rewrite (proj1 Hst). apply Hlt. by eapply list_elem_of_lookup_2. }
  assert (E : restitch_one (fst m) (snd m) slots reg' k = <[s := linked m slots reg k (reg' !!! s)]> reg').
  { unfold restitch_one, linked, ring_prev, ring_next, addr_of. cbv zeta.
    rewrite (list_lookup_total_correct _ _ _ Hs).
    pose proof (λ j, stitched_info _ _ _ _ _ j Hst) as Hi.
    destruct (decide (k = 0%nat)), (decide (k = (length slots - 1)%nat));
      rewrite ?update_info by done; rewrite update_update by done; by rewrite ?Hi. }
  rewrite E. destruct Hst as (Hl & Hin & Hout). split_and!.
  - by rewrite length_insert.
  - intros j s' Hj. destruct (decide (j = k)) as [->|Hjk].
    + simplify_eq. rewrite list_lookup_total_insert_eq by done. rewrite (Hin k s Hs).
      rewrite decide_False, decide_True by lia. done.
    + assert (s ≠ s'). { intros <-. apply Hjk. by eapply NoDup_lookup. }
      rewrite list_lookup_total_insert_ne by done. rewrite (Hin j s' Hj).
      repeat case_decide; try done; lia.
  - intros s' Hs'. rewrite list_lookup_total_insert_ne; [auto|].
    intros <-. apply Hs'. by eapply list_elem_of_lookup_2.
Qed.

Lemma restitch_stitched m reg :
  length reg = MAX_WORKERS →
  let slots := discovery_ring_order reg MAX_WORKERS in
  stitched m slots reg (snd (discovery_restitch_ring (fst m) (snd m) reg)) (length slots).
Proof.
  intros Hl slots. unfold discovery_restitch_ring. fold slots. cbn [snd].
  assert (H : ∀ n, (n ≤ length slots)%nat →
    stitched m slots reg (foldl (restitch_one (fst m) (snd m) slots) reg (seq 0 n)) n); [|by apply H].
  induction n as [|n IH]; intros Hn.
  - simpl. split_and!; try done.
  - rewrite seq_S, foldl_app. simpl. apply stitched_step; [apply ring_order_nodup| |lia|apply IH; lia].
    intros s Hs. rewrite Hl. by apply ring_order_spec in Hs as [? _].
Qed.

(** The worker a hop addressed to [a] reaches, and the workers it passes when
    every one forwards to its [next]. *)
Definition hop_target (reg : registry_t) (a : Z * Z) : option nat :=
  first_slot (λ e, is_active e && bool_decide (addr_of e = a)) reg.

Fixpoint walk (fuel : nat) (reg : registry_t) (a : Z * Z) : list nat :=
  match fuel with
  | O => []
  | S fuel =>
      match hop_target reg a with
      | Some i => i :: walk fuel reg (next_ip (reg !!! i), next_port (reg !!! i))
      | None => []
      end
  end.

(** ACTIVE workers have distinct addresses, none of them the master's. *)
Definition distinct_addresses (m : Z * Z) (reg : registry_t) : Prop :=
  ∀ i j, (i < MAX_WORKERS)%nat → (j < MAX_WORKERS)%nat →
    is_active (reg !!! i) = true → is_active (reg !!! j) = true →
    (addr_of (reg !!! i) = addr_of (reg !!! j) → i = j) ∧ addr_of (reg !!! i) ≠ m.

Lemma linked_active m slots reg k e : is_active (linked m slots reg k e) = is_active e.
Proof. done. Qed.
Lemma linked_addr m slots reg k e : addr_of (linked m slots reg k e) = addr_of e.
Proof. done. Qed.
Lemma linked_next m slots reg k e :
  (next_ip (linked m slots reg k e), next_port (linked m slots reg k e)) = ring_next m slots reg k.
Proof. unfold linked. simpl. by destruct (ring_next m slots reg k). Qed.

Section Walk.
Context (m : Z * Z) (reg : registry_t) (Hreg : length reg = MAX_WORKERS).
Context (Hdis : distinct_addresses m reg).

Let slots := discovery_ring_order reg MAX_WORKERS.
Let reg' := snd (discovery_restitch_ring (fst m) (snd m) reg).

Lemma restitched_active i : is_active (reg' !!! i) = is_active (reg !!! i) ∧
  addr_of (reg' !!! i) = addr_of (reg !!! i).
Proof.
  destruct (restitch_stitched m reg Hreg) as (_ & Hin & Hout). fold slots reg' in Hin, Hout.
  destruct (decide (i ∈ slots)) as [Hi|Hi]; [|by rewrite Hout].
  apply list_elem_of_lookup in Hi as [j Hj]. rewrite (Hin j i Hj).
  rewrite decide_True by (by eapply lookup_lt_Some). done.
Qed.

Lemma target_of_slot k s : slots !! k = Some s → hop_target reg' (addr_of (reg !!! s)) = Some s.
Proof.
  intros Hk. assert (Hs : (s < MAX_WORKERS)%nat ∧ is_active (reg !!! s) = true).
  { apply ring_order_spec. by eapply list_elem_of_lookup_2. }
  destruct Hs as [Hs Ha]. unfold hop_target. destruct (first_slot _ reg') as [i|] eqn:E.
  - apply first_slot_some in E as (Hi & Hp & _). apply andb_true_iff in Hp as [Hp1 Hp2].
    apply bool_decide_eq_true in Hp2. destruct (restitched_active i) as [A B].
    rewrite A in Hp1. rewrite B in Hp2. f_equal. by apply (Hdis i s).
  - exfalso. apply (first_slot_none _ _ s) in E; [|done].
    destruct (restitched_active s) as [A B]. cbv beta in E. rewrite A, B, Ha in E. simpl in E.
    by apply bool_decide_eq_false in E.
Qed.

Lemma master_no_target : hop_target reg' m = None.
Proof.
  unfold hop_target. destruct (first_slot _ reg') as [i|] eqn:E; [|done]. exfalso.
  apply first_slot_some in E as (Hi & Hp & _). apply andb_true_iff in Hp as [Hp1 Hp2].
  apply bool_decide_eq_true in Hp2. destruct (restitched_active i) as [A B].
  rewrite A in Hp1. rewrite B in Hp2. by apply (Hdis i i Hi Hi Hp1 Hp1).
Qed.

Lemma walk_from fuel k s :
  slots !! k = Some s → (length slots < fuel + k)%nat →
  walk fuel reg' (addr_of (reg !!! s)) = drop k slots.
Proof.
  revert k s. induction fuel as [|fuel IH]; intros k s Hk Hf.
  { apply lookup_lt_Some in Hk. lia. }
  cbn [walk]. rewrite (target_of_slot k s Hk), (drop_S _ _ _ Hk). f_equal.
  pose proof (lookup_lt_Some _ _ _ Hk) as Hlt.
  destruct (restitch_stitched m reg Hreg) as (_ & Hin & _). fold slots reg' in Hin.
  rewrite (Hin k s Hk), decide_True by done. rewrite linked_next. unfold ring_next.
  destruct (decide (k = (length slots - 1)%nat)) as [Hlast|Hmid].
  - rewrite drop_ge by lia. destruct fuel as [|fuel]; [done|]. cbn [walk]. by rewrite master_no_target.
  - destruct (lookup_lt_is_Some_2 slots (k + 1)) as [s' Hs']; [lia|].
    rewrite (list_lookup_total_correct _ _ _ Hs'), (IH (k + 1)%nat s' Hs') by lia. f_equal. lia.
Qed.
End Walk.

(** *** The token buckets *)

(** A sequence of calls [(ip, port, now)] against the limiter: which were
    admitted. *)
Fixpoint rl_run (calls : list (Z * Z * Z)) (rl : list disc_bucket) : list bool :=
  match calls with
  | [] => []
  | (a, p, now) :: calls =>
      let '(ok, rl) := disc_rl_allow a p now rl in ok :: rl_run calls rl
  end.

Definition admitted (l : list bool) : Z := Z.of_nat (length (filter (λ b, b = true) l)).

(** The table in which only the last slot was ever claimed. *)
Definition last_only (b : disc_bucket) : list disc_bucket := replicate 7 bucket_zero ++ [b].

Lemma scan_own b a p : owns a p b = true → rl_scan DISCOVERY_RL_SLOTS 0 (last_only b) a p 0 = inl 7%nat.
Proof. intros Hb. unfold DISCOVERY_RL_SLOTS, last_only. cbn. by rewrite Hb. Qed.

Lemma scan_other b a p :
  used b = true → owns a p b = false → 0 < tokens b →
  rl_scan DISCOVERY_RL_SLOTS 0 (last_only b) a p 0 = inr 7%nat.
Proof.
  intros Hu Hb Ht. unfold DISCOVERY_RL_SLOTS, last_only. cbn. rewrite Hb, Hu. cbn.
  by rewrite (proj2 (Z.ltb_lt _ _) Ht).
Qed.

Lemma allow_own b a p now :
  owns a p b = true →
  disc_rl_allow a p now (last_only b) = (fst (spend now b), last_only (snd (spend now b))).
Proof.
  intros Hb. unfold disc_rl_allow. rewrite scan_own by done.
  change (last_only b !!! 7%nat) with b. by destruct (spend now b).
Qed.

Lemma spend_fresh a p now :
  spend now (Bucket a p DISCOVERY_RL_BURST now true) = (true, Bucket a p 31 now true).
Proof. unfold spend. cbn [last]. by rewrite Z.sub_diag. Qed.

Lemma allow_other b a p now :
  used b = true → owns a p b = false → 0 < tokens b →
  disc_rl_allow a p now (last_only b) = (true, last_only (Bucket a p 31 now true)).
Proof.
  intros Hu Hb Ht. unfold disc_rl_allow. rewrite scan_other by done. by rewrite spend_fresh.
Qed.

Lemma allow_first a p now :
  disc_rl_allow a p now buckets_zero = (true, last_only (Bucket a p 31 now true)).
Proof.
  unfold disc_rl_allow. replace (rl_scan _ _ _ _ _ _) with (@inr nat nat 7%nat) by done.
  by rewrite spend_fresh.
Qed.

(** Spending never creates tokens beyond one per elapsed tick. *)
Lemma spend_bound now b :
  0 ≤ tokens b ≤ DISCOVERY_RL_BURST → last b ≤ now < last b + 2 ^ 30 →
  let '(ok, b') := spend now b in
  tokens b' + (if ok : bool then 1 else 0) ≤ tokens b + (now - last b) ∧
  0 ≤ tokens b' ≤ DISCOVERY_RL_BURST ∧ last b' = now ∧
  b_ip b' = b_ip b ∧ b_port b' = b_port b ∧ used b' = used b.
Proof.
  intros Ht Hn. unfold spend, DISCOVERY_RL_BURST, DISCOVERY_RL_REFILL_TICKS in *.
  rewrite Z.div_1_r, u32_id by (unfold is_u32; lia).
  destruct (Z.eqb_spec (now - last b) 0) as [H0|H0]; cbn [negb].
  - destruct (Z.leb_spec (tokens b) 0); cbn; split_and!; try done; lia.
  - rewrite (s32_id (now - last b)), s32_id by lia. cbn [tokens b_ip b_port last used].
    set (t := if 32 <? tokens b + (now - last b) then 32 else tokens b + (now - last b)).
    assert (Hb : 0 ≤ t ≤ 32 ∧ t ≤ tokens b + (now - last b)).
    { unfold t. destruct (Z.ltb_spec 32 (tokens b + (now - last b))); lia. }
    destruct (Z.leb_spec t 0); cbn; split_and!; try done; lia.
Qed.

Lemma last_cons_default (t : Z) ts d : List.last (t :: ts) d = List.last ts t.
Proof.
  revert t d. induction ts as [|x ts IH]; intros t d; [done|].
  change (List.last (t :: x :: ts) d) with (List.last (x :: ts) d). by rewrite !IH.
Qed.

Lemma owned_run_bound a p ts b :
  owns a p b = true → 0 ≤ tokens b ≤ DISCOVERY_RL_BURST →
  Sorted Z.le (last b :: ts) → Forall (λ t, t < last b + 2 ^ 30) ts →
  admitted (rl_run (map (λ t, (a, p, t)) ts) (last_only b)) ≤
    tokens b + (List.last ts (last b) - last b).
Proof.
  revert b. induction ts as [|t ts IH]; intros b Ho Ht Hs Hf.
  { unfold admitted. simpl. lia. }
  apply Sorted_StronglySorted in Hs; [|intros x y z; lia].
  apply StronglySorted_inv in Hs as [Hs Hle].
  pose proof (Forall_inv Hle) as Hle1. pose proof (Forall_inv Hf) as Hf1. simpl in Hle1, Hf1.
  cbn [map rl_run]. rewrite allow_own by done.
  pose proof (spend_bound t b Ht ltac:(lia)) as Hb. destruct (spend t b) as [ok b'].
  destruct Hb as (Hb1 & Hb2 & Hlast & Hi & Hp & Hu). cbn [fst snd].
  assert (Ho' : owns a p b' = true) by (unfold owns in *; by rewrite Hi, Hp, Hu).
  assert (IH' := IH b' Ho' Hb2). rewrite Hlast in IH'.
  rewrite last_cons_default.
  assert (HI : admitted (rl_run (map (λ t, (a, p, t)) ts) (last_only b')) ≤ tokens b' + (List.last ts t - t)).
  { apply IH'; [by apply StronglySorted_Sorted|].
    eapply Forall_impl; [exact (Forall_inv_tail Hf)|]. simpl. intros x Hx. lia. }
  unfold admitted in *. rewrite filter_cons. destruct ok; simpl; lia.
Qed.

(** Consecutive calls come from different peers. *)
Fixpoint changing (a p : Z) (calls : list (Z * Z * Z)) : Prop :=
  match calls with
  | [] => True
  | (a', p', _) :: calls => (a' ≠ a ∨ p' ≠ p) ∧ changing a' p' calls
  end.

Lemma changing_admitted calls a p t :
  changing a p calls →
  rl_run calls (last_only (Bucket a p 31 t true)) = replicate (length calls) true.
Proof.
  revert a p t. induction calls as [|[[a' p'] t'] calls IH]; intros a p t Hc; [done|].
  destruct Hc as [Hne Hc]. cbn [rl_run length replicate]. rewrite allow_other.
  - by rewrite IH.
  - done.
  - unfold owns. cbn. destruct (Z.eqb_spec a a'), (Z.eqb_spec p p'); try done. destruct Hne; congruence.
  - done.
Qed.

(** ** Properties *)

(** After a restitch the ring is a ring.  With distinct worker addresses, a
    hop sent to the first ACTIVE worker and forwarded along the [next] pointers
    passes every ACTIVE worker exactly once, in registry order, then leaves for
    the master; no suspected, expired or pending worker is on the way; and the
    restitch changes nothing but the neighbour pointers. *)
Theorem restitch_forms_ring m reg :
  length reg = MAX_WORKERS → distinct_addresses m reg →
  let slots := discovery_ring_order reg MAX_WORKERS in
  let '(n, reg') := discovery_restitch_ring (fst m) (snd m) reg in
  n = length slots ∧
  (∀ s0, slots !! 0%nat = Some s0 → walk (S MAX_WORKERS) reg' (addr_of (reg !!! s0)) = slots) ∧
  (∀ i, i ∈ slots ↔ (i < MAX_WORKERS)%nat ∧ is_active (reg !!! i) = true) ∧
  (∀ i, info (reg' !!! i) = info (reg !!! i) ∧ is_active (reg' !!! i) = is_active (reg !!! i)).
Proof.
  intros Hl Hd slots. destruct (discovery_restitch_ring _ _ _) as [n reg'] eqn:E.
  assert (En : n = length slots) by (unfold discovery_restitch_ring in E; by injection E).
  assert (Er : reg' = snd (discovery_restitch_ring (fst m) (snd m) reg)) by (by rewrite E).
  pose proof (restitch_stitched m reg Hl) as Hst. rewrite <- Er in Hst.
  split_and!; [done| |intros i; apply ring_order_spec|].
  - intros s0 H0. rewrite Er. apply (walk_from m reg Hl Hd _ 0%nat); [done|].
    enough (length slots ≤ MAX_WORKERS)%nat by (fold slots; lia).
    unfold slots, discovery_ring_order. rewrite length_take. apply Nat.le_min_l.
  - intros i. split; [by eapply stitched_info|]. rewrite Er. by apply restitched_active.
Qed.

(** A registered ACTIVE worker, and a registry with two of them around a
    suspected one. *)
Definition sample_entry (id a p st : Z) : worker_entry_t :=
  WorkerEntry (WorkerInfo id a p 0 [] 0 0) 0 st (CapAck 0 0 []) 0 0 0 0 0 0.
Definition sample_registry : registry_t :=
  [sample_entry 1 10 5001 WORKER_ACTIVE; sample_entry 2 11 5002 WORKER_SUSPECTED;
   sample_entry 3 12 5003 WORKER_ACTIVE] ++ replicate 13 entry_zero.

Lemma sample_distinct : distinct_addresses (9, 5499) sample_registry.
Proof.
  intros i j Hi Hj. unfold MAX_WORKERS in *.
  assert (Hact : ∀ k, (k < 16)%nat → is_active (sample_registry !!! k) = true → k = 0%nat ∨ k = 2%nat).
  { intros k Hk. do 16 (destruct k as [|k]; [vm_compute; auto; discriminate|]). lia. }
  intros Hai Haj. destruct (Hact i Hi Hai) as [-> | ->], (Hact j Hj Haj) as [-> | ->];
    split; vm_compute; congruence.
Qed.

Lemma restitch_forms_ring_witness :
  let '(n, reg') := discovery_restitch_ring 9 5499 sample_registry in
  n = 2%nat ∧ walk (S MAX_WORKERS) reg' (10, 5001) = [0%nat; 2%nat].
Proof.
  pose proof (restitch_forms_ring (9, 5499) sample_registry eq_refl sample_distinct) as H.
  cbn [fst snd] in H. cbv zeta in H.
  destruct (discovery_restitch_ring 9 5499 sample_registry) as [n reg'].
  destruct H as (Hn & Hw & _). split; [exact Hn|]. exact (Hw 0%nat eq_refl).
Defined.

(** The split of the layers is exact: for at least one worker and at least
    as many layers as workers, the ranges handed out in ring order start at 0,
    each continues where the one before ended, none is empty, the last ends at
    the number of layers, and their sizes differ by at most one.  The formula
    with which [discovery_assign_one] recomputes the range of worker [k] gives
    the [k]-th of them. *)
Theorem layer_split_exact n_layers n :
  0 < n → n ≤ n_layers →
  length (layer_split n_layers n) = Z.to_nat n ∧
  (∀ k, 0 ≤ k < n → layer_split n_layers n !! Z.to_nat k = Some (layer_range n_layers n k)) ∧
  fst (layer_range n_layers n 0) = 0 ∧
  snd (layer_range n_layers n (n - 1)) = n_layers ∧
  (∀ k, 0 ≤ k < n - 1 → snd (layer_range n_layers n k) = fst (layer_range n_layers n (k + 1))) ∧
  (∀ k, 0 ≤ k < n → let '(a, b) := layer_range n_layers n k in
     0 ≤ a ∧ a < b ∧ b ≤ n_layers ∧ n_layers / n ≤ b - a ≤ n_layers / n + 1).
Proof.
  intros Hn Hl. pose proof (Z.mod_pos_bound n_layers n Hn) as Hm.
  pose proof (Z.div_mod n_layers n ltac:(lia)) as Hdm.
  assert (Hq : 1 ≤ n_layers / n) by (apply Z.div_le_lower_bound; lia).
  split_and!.
  - rewrite layer_split_ranges, length_map, length_seq by lia. done.
  - intros k Hk. rewrite layer_split_ranges by lia.
    rewrite list_lookup_fmap, lookup_seq_lt by lia. simpl. f_equal. f_equal. lia.
  - unfold layer_range. cbn [fst]. destruct (Z.ltb_spec 0 (n_layers mod n)); lia.
  - rewrite layer_range_next by lia. replace (n - 1 + 1) with n by lia. by apply layer_range_end.
  - intros k Hk. by apply layer_range_next; lia.
  - intros k Hk. unfold layer_range. destruct (Z.ltb_spec k (n_layers mod n)); split_and!; nia.
Qed.

Lemma layer_split_exact_witness :
  layer_split 12 5 !! 1%nat = Some (layer_range 12 5 1) ∧ layer_range 12 5 1 = (3, 6).
Proof.
  destruct (layer_split_exact 12 5) as (_ & H & _); [lia|lia|].
  split; [exact (H 1 ltac:(lia))|reflexivity].
Defined.

(** An honest worker passes the RAM probe: for every seed and every page
    count the master can ask for, the worker's run over its allocation computes
    the checksum the master expects, having written one word in each of the
    pages, at the start of each. *)
Theorem cap_probe_honest seed ram :
  0 ≤ ram →
  let pages := challenge_pages ram in
  cap_probe_run true seed pages = Some (cap_probe_checksum seed pages) ∧
  ∃ ws, length ws = Z.to_nat pages ∧
    probe_loop (Z.to_nat pages) (pages * CAP_PROBE_PGSIZE / 4) 0 seed 0 [] =
      Some (cap_probe_checksum seed pages,
            rev (zip (map (λ k, Z.of_nat k * 1024) (seq 0 (Z.to_nat pages))) ws)).
Proof.
  intros Hr pages. pose proof (challenge_pages_range ram Hr) as Hp. fold pages in Hp.
  split; [by apply probe_agrees|].
  replace (pages * CAP_PROBE_PGSIZE / 4) with (pages * 1024) by (unfold CAP_PROBE_PGSIZE; zdivmod).
  destruct (probe_loop_checksum (Z.to_nat pages) (pages * 1024) 0 seed 0 []) as (ws & Hl & E); [lia..|].
  exists ws. split; [done|]. rewrite E, app_nil_r. done.
Qed.

Lemma cap_probe_honest_witness :
  cap_probe_run true 7 2 = Some (cap_probe_checksum 7 2).
Proof. apply (cap_probe_honest 7 10000). lia. Defined.

(** One peer is limited: in any sequence of calls from a single peer against
    an empty table, over times that do not decrease, at most 32 plus the number
    of ticks between the first and the last call are admitted. *)
Theorem rate_limit_bound a p t0 ts :
  Sorted Z.le (t0 :: ts) → Forall (λ t, t < t0 + 2 ^ 30) ts →
  admitted (rl_run (map (λ t, (a, p, t)) (t0 :: ts)) buckets_zero) ≤
    DISCOVERY_RL_BURST + (List.last ts t0 - t0).
Proof.
  intros Hs Hf. cbn [map rl_run]. rewrite allow_first.
  pose proof (owned_run_bound a p ts (Bucket a p 31 t0 true)) as H. cbn [tokens last] in H.
  assert (H' : admitted (rl_run (map (λ t, (a, p, t)) ts) (last_only (Bucket a p 31 t0 true))) ≤
    31 + (List.last ts t0 - t0)).
  { apply H; try done. unfold owns. cbn. by rewrite !Z.eqb_refl. }
  unfold admitted in *. rewrite filter_cons. simpl. unfold DISCOVERY_RL_BURST. lia.
Qed.

Lemma rate_limit_bound_witness :
  admitted (rl_run (map (λ t, (1, 2, t)) (0 :: replicate 40 0)) buckets_zero) ≤ 32.
Proof.
  apply (rate_limit_bound 1 2 0 (replicate 40 0)).
  - repeat constructor; lia.
  - apply Forall_replicate. lia.
Defined.

(** Two peers that take turns are not limited at all.  The scan prefers a
    used slot with more tokens than the last free one to a free slot, so the
    second peer evicts the first although seven slots are free, and gets a full
    bucket; then the first evicts the second.  Every call of a sequence in which
    consecutive calls come from different peers is admitted, whatever the times.
    (The comment says a bucket is evicted only when all slots are in use.) *)
Theorem rate_limit_alternating a p t calls :
  changing a p calls →
  rl_run ((a, p, t) :: calls) buckets_zero = replicate (S (length calls)) true.
Proof. intros Hc. cbn [rl_run]. rewrite allow_first. by rewrite changing_admitted. Qed.

Lemma rate_limit_alternating_witness :
  rl_run [(1, 1, 0); (2, 1, 0); (1, 1, 0); (2, 1, 0)] buckets_zero = [true; true; true; true].
Proof.
  apply (rate_limit_alternating 1 1 0 [(2, 1, 0); (1, 1, 0); (2, 1, 0)]).
  simpl. split_and!; try done; by left.
Defined.
