(* ===== verification/Wire.v ===== *)
(** The payloads of the inference pipeline (user/distinf.h).

    Records of 32-bit words, written and read with the big-endian helpers of the
    header.  A [float] is its IEEE 754 bit pattern, a 32-bit word: the pipeline
    moves activations and never computes on them outside the layers. *)
From S2P Require Import Prelude.

Definition INFER_HOP_HDR_WORDS : Z := 7.
Definition INFER_MAX_FLOATS : Z := 1024.
Definition INFER_TOKEN_TIMEOUT_MS : Z := 15000.
Definition INFER_MAX_RETRIES : Z := 2.
Definition SHARD_LOAD_TIMEOUT_TICKS : Z := 12000.
Definition INFER_FLAG_FINAL : Z := 1.
Definition ASSIGN_LAYERS_WORDS : nat := 14.
Definition SHARD_READY_WORDS : nat := 5.

Record assign_layers_t := AssignLayers {
  al_session_id : Z;
  al_model_id : Z;
  al_layer_start : Z;
  al_layer_end : Z;
  al_n_layers_total : Z;
  al_dim : Z;
  al_hidden_dim : Z;
  al_n_heads : Z;
  al_n_kv_heads : Z;
  al_seq_len : Z;
  al_vocab_size : Z;
  al_max_seq : Z;
  al_weights_ip : Z;
  al_weights_port : Z;
}.

Record shard_ready_t := ShardReady {
  sr_session_id : Z;
  sr_worker_id : Z;
  sr_layer_start : Z;
  sr_layer_end : Z;
  sr_status : Z;
}.

Record infer_hop_t := InferHop {
  ih_session_id : Z;
  ih_seq : Z;
  ih_pos : Z;
  ih_hop : Z;
  ih_n_floats : Z;
  ih_flags : Z;
  ih_compute_us : Z;
}.

Definition xdr_put_u32 (p : Z) (v : Z) (b : list Z) : list Z := splice p (put_be32 v) b.
Definition xdr_get_u32 (b : list Z) (p : Z) : Z := be32_at b p.
Definition xdr_put_float (p : Z) (f : Z) (b : list Z) : list Z := xdr_put_u32 p f b.
Definition xdr_get_float (b : list Z) (p : Z) : Z := xdr_get_u32 b p.

(** The words of a record in memory order ([memcpy] to and from an array). *)
Definition assign_words (a : assign_layers_t) : list Z :=
  [al_session_id a; al_model_id a; al_layer_start a; al_layer_end a; al_n_layers_total a; al_dim a;
   al_hidden_dim a; al_n_heads a; al_n_kv_heads a; al_seq_len a; al_vocab_size a; al_max_seq a;
   al_weights_ip a; al_weights_port a].
Definition words_assign (w : list Z) : assign_layers_t :=
  AssignLayers (w !!! 0%nat) (w !!! 1%nat) (w !!! 2%nat) (w !!! 3%nat) (w !!! 4%nat) (w !!! 5%nat)
    (w !!! 6%nat) (w !!! 7%nat) (w !!! 8%nat) (w !!! 9%nat) (w !!! 10%nat) (w !!! 11%nat)
    (w !!! 12%nat) (w !!! 13%nat).
Definition ready_words (r : shard_ready_t) : list Z :=
  [sr_session_id r; sr_worker_id r; sr_layer_start r; sr_layer_end r; sr_status r].
Definition words_ready (w : list Z) : shard_ready_t :=
  ShardReady (w !!! 0%nat) (w !!! 1%nat) (w !!! 2%nat) (w !!! 3%nat) (w !!! 4%nat).
Definition hop_words (h : infer_hop_t) : list Z :=
  [ih_session_id h; ih_seq h; ih_pos h; ih_hop h; ih_n_floats h; ih_flags h; ih_compute_us h].
Definition words_hop (w : list Z) : infer_hop_t :=
  InferHop (w !!! 0%nat) (w !!! 1%nat) (w !!! 2%nat) (w !!! 3%nat) (w !!! 4%nat) (w !!! 5%nat)
    (w !!! 6%nat).

(** The loops [for (i ...) xdr_put_u32(p + i * 4, words[i])] and back. *)
Fixpoint put_words (p : Z) (ws : list Z) (b : list Z) : list Z :=
  match ws with
  | [] => b
  | w :: ws => put_words (p + 4) ws (xdr_put_u32 p w b)
  end.
Definition get_words (b : list Z) (p : Z) (n : nat) : list Z :=
  map (λ i, xdr_get_u32 b (p + 4 * Z.of_nat i)) (seq 0 n).

(** ** Lemmas *)

(** Writing words in place is writing their concatenation. *)
Lemma put_words_app ws w r :
  4 * Z.of_nat (length ws) ≤ len r →
  put_words (len w) ws (w ++ r) = w ++ be_words ws ++ drop (4 * length ws) r.
Proof.
  revert w r. induction ws as [|v ws IH]; intros w r Hl; [done|].
  cbn [put_words]. simpl length in Hl. unfold xdr_put_u32. rewrite splice_app, app_assoc.
  replace (len w + 4) with (len (w ++ put_be32 v)) by (rewrite len_app; done).
  rewrite IH by (unfold len in *; rewrite length_drop; change (length (put_be32 v)) with 4%nat; lia).
  rewrite be_words_cons, <- !app_assoc, drop_drop. do 3 f_equal.
  change (length (put_be32 v)) with 4%nat. f_equal. simpl length. lia.
Qed.

Lemma get_words_put ws r :
  Forall is_u32 ws → get_words (be_words ws ++ r) 0 (length ws) = ws.
Proof.
  intros Hw. unfold get_words. etransitivity; [|apply map_lookup_seq]. apply map_ext_in.
  intros i Hi%in_seq. destruct (lookup_lt_is_Some_2 ws i) as [v Hv]; [lia|].
  unfold xdr_get_u32. rewrite Z.add_0_l, (be32_at_words _ _ _ _ Hv), (list_lookup_total_correct _ _ _ Hv).
  apply u32_id. by eapply Forall_lookup_1.
Qed.

Lemma words_assign_words a : words_assign (assign_words a) = a.
Proof. by destruct a. Qed.
Lemma words_ready_words r : words_ready (ready_words r) = r.
Proof. by destruct r. Qed.
Lemma words_hop_words h : words_hop (hop_words h) = h.
Proof. by destruct h. Qed.

(** The other direction: bytes are the words read from them. *)
Lemma put_get_be32 b0 b1 b2 b3 :
  is_byte b0 → is_byte b1 → is_byte b2 → is_byte b3 →
  put_be32 (get_be32 b0 b1 b2 b3) = [b0; b1; b2; b3].
Proof.
  intros. rewrite get_be32_sum by done. unfold is_byte in *. unfold put_be32, u8.
  rewrite !Z.shiftr_div_pow2 by lia. repeat f_equal; zdivmod; lia.
Qed.

Lemma get_words_shift w b p n :
  0 ≤ p → get_words (w ++ b) (len w + p) n = get_words b p n.
Proof.
  intros Hp. unfold get_words. apply map_ext. intros i. unfold xdr_get_u32, be32_at.
  rewrite <- !Z.add_assoc. rewrite !byte_at_app_r by lia. do 3 f_equal; lia.
Qed.

Lemma get_words_split b p m n :
  get_words b p (m + n) = get_words b p m ++ get_words b (p + 4 * Z.of_nat m) n.
Proof.
  unfold get_words. rewrite seq_app, map_app. f_equal.
  replace (0 + m)%nat with (m + 0)%nat by lia. rewrite <- (fmap_add_seq m 0 n), <- list_fmap_compose.
  apply map_ext. intros i. unfold compose. f_equal. lia.
Qed.

Lemma length_get_words b p n : length (get_words b p n) = n.
Proof. unfold get_words. by rewrite length_map, length_seq. Qed.

Lemma be_words_get l n :
  is_bytes l → length l = (4 * n)%nat → be_words (get_words l 0 n) = l.
Proof.
  revert l. induction n as [|n IH]; intros l Hb Hl; [by destruct l|].
  destruct l as [|b0 [|b1 [|b2 [|b3 l]]]]; simpl in Hl; try lia.
  do 4 (apply Forall_cons in Hb as [? Hb]).
  change (S n) with (1 + n)%nat. rewrite get_words_split, be_words_app.
  change (b0 :: b1 :: b2 :: b3 :: l) with ([b0; b1; b2; b3] ++ l). f_equal.
  - change (put_be32 (get_be32 b0 b1 b2 b3) ++ [] = [b0; b1; b2; b3]).
    rewrite app_nil_r. by apply put_get_be32.
  - etransitivity; [|exact (IH l Hb ltac:(lia))]. f_equal.
    exact (get_words_shift [b0; b1; b2; b3] l 0 n ltac:(lia)).
Qed.

Lemma get_words_app_l w r p n :
  0 ≤ p → p + 4 * Z.of_nat n ≤ len w → get_words (w ++ r) p n = get_words w p n.
Proof.
  intros Hp Hl. unfold get_words. apply map_ext_in. intros i Hi%in_seq.
  unfold xdr_get_u32. apply be32_at_app_l; lia.
Qed.

Lemma get_words_u32 b p n : is_bytes b → Forall is_u32 (get_words b p n).
Proof.
  intros Hb. apply Forall_fmap, Forall_true. intros i.
  exact (be32_at_range b (p + 4 * Z.of_nat i) Hb).
Qed.
