(* ===== verification/Master.v ===== *)
(** The master's side of discovery (user/discovery.c): the handlers for
    registration, capability acknowledgement and heartbeats, the dispatcher with
    its admission control, expiry, and the assignment of layers.

    The state is the file's static tables and the RPC transport.  A handler
    returns what [rpc_send_reply] returned.  The static request structures are
    cleared with [memset] before each use, so they are not part of the state. *)
From S2P Require Import Prelude Sha256 Auth RpcMsg Kernel Rpc Registry Wire.

(** ** State *)

Record drops_t := Drops { malformed : Z; rate : Z; badprog : Z; unknownproc : Z }.

Record master_t (K : Type) := Master {
  rpc : rpc_t K;
  registry : registry_t;
  disc_rl : list disc_bucket;
  disc_drops : drops_t;
}.
Arguments Master {K}.
Arguments rpc {K}.
Arguments registry {K}.
Arguments disc_rl {K}.
Arguments disc_drops {K}.

Definition master_start {K} (r : rpc_t K) : master_t K :=
  Master r registry_zero buckets_zero (Drops 0 0 0 0).

Section Master.
Context {K : Type} `{Kernel K}.

Abbreviation MM := (M (master_t K)).

Definition set_rpc (r : rpc_t K) (s : master_t K) : master_t K :=
  Master r (registry s) (disc_rl s) (disc_drops s).
Definition set_registry (g : registry_t) (s : master_t K) : master_t K :=
  Master (rpc s) g (disc_rl s) (disc_drops s).
Definition set_rl (l : list disc_bucket) (s : master_t K) : master_t K :=
  Master (rpc s) (registry s) l (disc_drops s).
Definition set_drops (d : drops_t) (s : master_t K) : master_t K :=
  Master (rpc s) (registry s) (disc_rl s) d.

Definition on_rpc {A} (m : M (rpc_t K) A) : MM A := zoom rpc set_rpc m.

Definition write (i : nat) (f : worker_entry_t → worker_entry_t) : MM unit :=
  modify (λ s, set_registry (update i f (registry s)) s).

Definition count (f : drops_t → drops_t) : MM unit := modify (λ s, set_drops (f (disc_drops s)) s).
Definition inc_malformed (d : drops_t) : drops_t :=
  Drops (u32 (malformed d + 1)) (rate d) (badprog d) (unknownproc d).
Definition inc_rate (d : drops_t) : drops_t :=
  Drops (malformed d) (u32 (rate d + 1)) (badprog d) (unknownproc d).
Definition inc_badprog (d : drops_t) : drops_t :=
  Drops (malformed d) (rate d) (u32 (badprog d + 1)) (unknownproc d).
Definition inc_unknownproc (d : drops_t) : drops_t :=
  Drops (malformed d) (rate d) (badprog d) (u32 (unknownproc d + 1)).

(** A reply without and with results. *)
Definition reply (src : rpc_addr_t) (x stat : Z) : MM Z := on_rpc (rpc_send_reply src x stat [] 0).
Definition reply_with (src : rpc_addr_t) (x : Z) (bs : list Z) : MM Z :=
  on_rpc (rpc_send_reply src x SUCCESS bs (len bs)).

(** A cleared request with a procedure and a payload. *)
Definition make_request (proc : Z) (bs : list Z) : M (rpc_t K) rpc_msg_t :=
  let* m := rpc_fill_call msg_zero proc in
  ret (set_payload (splice 0 bs (payload m)) (len bs) m).

(** ** Probes *)

Fixpoint probe_attempts (n : nat) : M (rpc_t K) Z :=
  match n with
  | O => ret 0
  | S n =>
      let* e := sys (sys_getentropy 4) in
      match e with
      | None => ret 0
      | Some bs => let nonce := le32_at bs 0 in
                   if negb (nonce =? 0) then ret nonce else probe_attempts n
      end
  end.

Definition create_probe_data : M (rpc_t K) Z := probe_attempts 2.

(** ** Handlers *)

Definition expect_hash : list Z := sha256_hash DISTINF_PSK DISTINF_PSK_LEN.

Lemma expect_hash_ok : is_bytes expect_hash ∧ len expect_hash = 32.
Proof.
  unfold expect_hash. rewrite hash_fips.
  - split; [apply fips_bytes|]. unfold len. by rewrite fips_length.
  - repeat constructor; unfold is_byte; lia.
  - unfold len, DISTINF_PSK_LEN. simpl. lia.
  - unfold DISTINF_PSK_LEN. lia.
Qed.

#[local] Opaque expect_hash cap_identity.

(** The part of [handle_auth_hello] once the slot is chosen. *)
Definition register_slot (slot : nat) (i : worker_info_t) (src : rpc_addr_t) (x now : Z) : MM Z :=
  write slot (set_registered i now) ;;*
  let* nonce := on_rpc create_probe_data in
  let* seed := on_rpc create_probe_data in
  if (nonce =? 0) || (seed =? 0) then reply src x SYSTEM_ERR
  else
    let pages := challenge_pages (RAM i) in
    write slot (set_probe seed pages
                  (CapAck nonce (cap_probe_checksum seed pages) (replicate 32 0))) ;;*
    reply_with src x (write_auth_hello_reply (AuthHelloReply WORKER_PENDING nonce seed pages)).

Definition handle_auth_hello (msg : rpc_msg_t) (src : rpc_addr_t) (now : Z) : MM Z :=
  if payload_len msg <? SIZEOF_WORKER_INFO then
    count inc_malformed ;;* reply src (xid msg) GARBAGE_ARGS
  else
    let i := read_worker_info (payload msg) in
    if negb (bool_decide (psk_hash i = expect_hash)) then reply src (xid msg) GARBAGE_ARGS
    else
      let* reg := gets registry in
      match registry_find reg (worker_id i) with
      | Some e =>
          if negb (state (reg !!! e) =? WORKER_EXPIRED) then
            let w := reg !!! e in
            reply_with src (xid msg) (write_auth_hello_reply
              (AuthHelloReply WORKER_PENDING (probe_nonce (cap_ack_expected w)) (probe_seed w)
                 (probe_pages w)))
          else register_slot e i src (xid msg) now
      | None =>
          match registry_free_slot reg with
          | None => reply src (xid msg) SYSTEM_ERR
          | Some slot => register_slot slot i src (xid msg) now
          end
      end.

Definition discovery_notify_neighbor (dst : rpc_addr_t) (nb : set_neighbor_t) : MM Z :=
  on_rpc (let* req := make_request PROC_SET_NEIGHBOR (write_set_neighbor nb) in
          let* (r, _) := rpc_call dst req in
          ret r).

(** The neighbours of the worker that just became ACTIVE in [slot]; links the old
    tail to it and notifies it. *)
Definition stitch_new (slot : nat) : MM set_neighbor_t :=
  let* reg := gets registry in
  let new_ip := info_ip (info (reg !!! slot)) in
  let new_port := info_port (info (reg !!! slot)) in
  match find_prev_active_worker reg slot with
  | None =>
      let* a := on_rpc (sys sys_ip) in
      let* p := on_rpc rpc_local_port in
      let* a' := on_rpc (sys sys_ip) in
      let* p' := on_rpc rpc_local_port in
      ret (SetNeighbor a p a' p')
  | Some prev_slot =>
      let e := reg !!! prev_slot in
      write prev_slot (set_next new_ip new_port) ;;*
      discovery_notify_neighbor (RpcAddr (info_ip (info e)) (info_port (info e)))
        (SetNeighbor (prev_ip e) (prev_port e) new_ip new_port) ;;*
      ret (SetNeighbor (info_ip (info e)) (info_port (info e)) (next_ip e) (next_port e))
  end.

Definition handle_cap_ack (msg : rpc_msg_t) (src : rpc_addr_t) (now : Z) : MM Z :=
  if payload_len msg <? SIZEOF_CAP_ACK then
    count inc_malformed ;;* reply src (xid msg) GARBAGE_ARGS
  else
    let* reg := gets registry in
    match registry_find_ip_port reg (ip src) (port src) with
    | None => reply src (xid msg) SYSTEM_ERR
    | Some slot =>
        let e := reg !!! slot in
        if negb (state e =? WORKER_PENDING) then reply src (xid msg) SYSTEM_ERR
        else
          let ack := read_cap_ack (payload msg) in
          if negb (probe_nonce ack =? probe_nonce (cap_ack_expected e)) then
            reply src (xid msg) GARBAGE_ARGS
          else if negb (checksum ack =? checksum (cap_ack_expected e)) then
            reply src (xid msg) GARBAGE_ARGS
          else if negb (bool_decide (identity ack = cap_identity (probe_nonce (cap_ack_expected e)))) then
            reply src (xid msg) GARBAGE_ARGS
          else
            write slot (set_seen now) ;;*
            write slot (set_state WORKER_ACTIVE) ;;*
            let* nb := stitch_new slot in
            write slot (set_prev (nb_prev_ip nb) (nb_prev_port nb)) ;;*
            write slot (set_next (nb_next_ip nb) (nb_next_port nb)) ;;*
            reply_with src (xid msg) (write_set_neighbor nb)
    end.

Definition handle_heartbeat (msg : rpc_msg_t) (src : rpc_addr_t) (now : Z) : MM Z :=
  if payload_len msg <? 4 then
    count inc_malformed ;;* reply src (xid msg) GARBAGE_ARGS
  else
    let id := le32_at (payload msg) 0 in
    let* reg := gets registry in
    match registry_find reg id with
    | None => reply src (xid msg) SYSTEM_ERR
    | Some slot =>
        write slot (set_seen now) ;;*
        if state (reg !!! slot) =? WORKER_SUSPECTED then
          write slot (set_state WORKER_ACTIVE) ;;* reply src (xid msg) SUCCESS
        else if state (reg !!! slot) =? WORKER_EXPIRED then reply src (xid msg) SYSTEM_ERR
        else reply src (xid msg) SUCCESS
    end.

Definition discovery_handle_call (msg : rpc_msg_t) (src : rpc_addr_t) (now : Z) : MM Z :=
  if negb (mtype msg =? MSG_CALL) then ret (-1)
  else
    let* rl := gets disc_rl in
    let '(ok, rl) := disc_rl_allow (ip src) (port src) now rl in
    modify (set_rl rl) ;;*
    if negb ok then count inc_rate ;;* ret (-1)
    else if negb (prog (call msg) =? INFERENCE_PROG) || negb (vers (call msg) =? INFERENCE_VERS) then
      count inc_badprog ;;* reply src (xid msg) PROG_UNAVAIL
    else
      let p := proc (call msg) in
      if p =? PROC_AUTH_HELLO then handle_auth_hello msg src now
      else if p =? PROC_HEARTBEAT then handle_heartbeat msg src now
      else if p =? PROC_CAP_ACK then handle_cap_ack msg src now
      else count inc_unknownproc ;;* reply src (xid msg) PROC_UNAVAIL.

(** ** Expiry *)

Definition master_send_evict (a p id : Z) : MM unit :=
  on_rpc (let* req := make_request PROC_EVICT (put_le32 id) in
          rpc_send_call (RpcAddr a p) req ;;*
          ret tt).

(** One iteration of the loop. *)
Definition expire_one (now : Z) (i : nat) : MM unit :=
  let* reg := gets registry in
  let e := reg !!! i in
  if worker_id (info e) =? 0 then ret tt
  else if state e =? WORKER_EXPIRED then ret tt
  else
    let age := u32 (now - last_seen_ms e) in
    if EXPIRED_TIMEOUT <? age then
      write i (set_state WORKER_EXPIRED) ;;*
      master_send_evict (info_ip (info e)) (info_port (info e)) (worker_id (info e))
    else if (SUSPECTED_TIMEOUT <? age) && negb (state e =? WORKER_SUSPECTED) then
      write i (set_state WORKER_SUSPECTED)
    else ret tt.

Fixpoint expire_loop (now : Z) (l : list nat) : MM unit :=
  match l with
  | [] => ret tt
  | i :: l => expire_one now i ;;* expire_loop now l
  end.

Definition discovery_expire_workers (now : Z) : MM unit := expire_loop now (seq 0 MAX_WORKERS).

Definition restitch : MM nat :=
  let* mip := on_rpc (sys sys_ip) in
  let* mport := on_rpc rpc_local_port in
  let* reg := gets registry in
  let '(n, reg) := discovery_restitch_ring mip mport reg in
  modify (set_registry reg) ;;*
  ret n.

(** ** Assignment of layers *)

Definition with_range (tmpl : assign_layers_t) (r : Z * Z) : assign_layers_t :=
  AssignLayers (al_session_id tmpl) (al_model_id tmpl) (u32 (fst r)) (u32 (snd r))
    (al_n_layers_total tmpl) (al_dim tmpl) (al_hidden_dim tmpl) (al_n_heads tmpl)
    (al_n_kv_heads tmpl) (al_seq_len tmpl) (al_vocab_size tmpl) (al_max_seq tmpl)
    (al_weights_ip tmpl) (al_weights_port tmpl).

(** The call to one worker; returns what [rpc_call] returned. *)
Definition send_assignment (e : worker_entry_t) (a : assign_layers_t) : MM Z :=
  on_rpc (
    let* m := rpc_fill_call msg_zero PROC_ASSIGN_LAYERS in
    let req := set_payload (put_words 0 (assign_words a) (payload m))
                 (Z.of_nat ASSIGN_LAYERS_WORDS * 4) m in
    let* (r, _) := rpc_call (RpcAddr (info_ip (info e)) (info_port (info e))) req in
    ret r).

(** The loop over the ring; [ids] collects [out_ring_ids], [None] is the return
    value -1. *)
Fixpoint assign_loop (tmpl : assign_layers_t) (slots : list nat) (k next per rem : Z)
    (max_ids : Z) (ids : list Z) : MM (option (list Z)) :=
  match slots with
  | [] => ret (Some ids)
  | slot :: slots =>
      let count := per + (if k <? rem then 1 else 0) in
      let* reg := gets registry in
      let* r := send_assignment (reg !!! slot) (with_range tmpl (next, next + count)) in
      if negb (r =? RPC_OK) then ret None
      else
        let* reg := gets registry in
        let ids := if k <? max_ids then ids ++ [worker_id (info (reg !!! slot))] else ids in
        assign_loop tmpl slots (k + 1) (next + count) per rem max_ids ids
  end.

(** The return value and [out_ring_ids]. *)
Definition discovery_assign_layers (tmpl : assign_layers_t) (max_ids : Z) : MM (Z * list Z) :=
  let* reg := gets registry in
  let slots := discovery_ring_order reg MAX_WORKERS in
  let n := Z.of_nat (length slots) in
  if n <=? 0 then ret (-1, [])
  else if s32 (al_n_layers_total tmpl) <? n then ret (-1, [])
  else
    let* r := assign_loop tmpl slots 0 0 (al_n_layers_total tmpl / n) (al_n_layers_total tmpl mod n)
                max_ids [] in
    match r with
    | Some ids => ret (n, ids)
    | None => ret (-1, [])
    end.

Definition discovery_assign_one (tmpl : assign_layers_t) (k : Z) : MM Z :=
  let* reg := gets registry in
  let slots := discovery_ring_order reg MAX_WORKERS in
  let n := Z.of_nat (length slots) in
  if (k <? 0) || (n <=? k) then ret (-1)
  else if s32 (al_n_layers_total tmpl) <? n then ret (-1)
  else
    let* r := send_assignment (reg !!! (slots !!! Z.to_nat k))
                (with_range tmpl (layer_range (al_n_layers_total tmpl) n k)) in
    if negb (r =? RPC_OK) then ret r else ret RPC_OK.

End Master.

(** ** Lemmas *)

Section Lifecycle.
Context {K : Type} `{Kernel K}.

Abbreviation MM := (M (master_t K)).

(** A transport operation leaves the master's tables alone. *)
Lemma wlp_on_rpc {A} (m : M (rpc_t K) A) Q s :
  (∀ a r, m (rpc s) = Some (a, r) → Q a (set_rpc r s)) → wlp (on_rpc m) Q s.
Proof.
  intros HQ a s' E. unfold on_rpc, zoom in E.
  destruct (m (rpc s)) as [[a' r]|] eqn:Em; [|done]. injection E as <- <-. by apply HQ.
Qed.

(** A computation that ends with the registry [reg]. *)
Definition ends {A} (m : MM A) (s : master_t K) (P : registry_t → Prop) : Prop :=
  wlp m (λ _ s', P (registry s')) s.

Lemma ends_on_rpc {A} (m : M (rpc_t K) A) (s : master_t K) (P : registry_t → Prop) :
  P (registry s) → ends (on_rpc m) s P.
Proof. intros HP. apply wlp_on_rpc. intros a r _. done. Qed.

Lemma ends_bind_rpc {A B} (m : M (rpc_t K) A) (k : A → MM B) s P :
  (∀ a r, ends (k a) (set_rpc r s) P) → ends (let* x := on_rpc m in k x) s P.
Proof. intros Hk. apply wlp_bind, wlp_on_rpc. intros a r _. apply Hk. Qed.

Lemma ends_bind_write {B} i f (k : unit → MM B) s P :
  ends (k tt) (set_registry (update i f (registry s)) s) P → ends (bind (write i f) k) s P.
Proof. intros Hk. apply wlp_bind, wlp_modify, Hk. Qed.

Lemma ends_bind_modify {B} f (k : unit → MM B) s P : ends (k tt) (f s) P → ends (bind (modify f) k) s P.
Proof. intros Hk. apply wlp_bind, wlp_modify, Hk. Qed.

Lemma ends_bind_gets {A B} (f : master_t K → A) (k : A → MM B) s P :
  ends (k (f s)) s P → ends (bind (gets f) k) s P.
Proof. intros Hk. apply wlp_bind, wlp_gets, Hk. Qed.

Lemma ends_bind_count {B} f (k : unit → MM B) s P :
  ends (k tt) (set_drops (f (disc_drops s)) s) P → ends (bind (count f) k) s P.
Proof. intros Hk. apply wlp_bind, wlp_modify, Hk. Qed.

Lemma ends_ret {A} (a : A) s (P : registry_t → Prop) : P (registry s) → ends (ret a) s P.
Proof. intros HP. by apply wlp_ret. Qed.

Lemma ends_mono {A} (m : MM A) s (P Q : registry_t → Prop) :
  ends m s P → (∀ reg, P reg → Q reg) → ends m s Q.
Proof. intros Hm HPQ a s' E. eauto. Qed.

(** *** What a step does to one entry *)

(** The entries differ in their neighbour pointers at most. *)
Definition same_core (e e' : worker_entry_t) : Prop :=
  info e' = info e ∧ last_seen_ms e' = last_seen_ms e ∧ state e' = state e ∧
  cap_ack_expected e' = cap_ack_expected e ∧ probe_seed e' = probe_seed e ∧
  probe_pages e' = probe_pages e.

(** A change of the list by one index, seen at another. *)
Lemma update_cases i f reg j :
  (update i f reg !!! j = reg !!! j ∧ (i ≠ j ∨ (length reg ≤ i)%nat)) ∨
  (i = j ∧ (i < length reg)%nat ∧ update i f reg !!! j = f (reg !!! i)).
Proof.
  destruct (decide (i = j)) as [<-|Hne]; [|left; split; [by apply update_ne|by left]].
  destruct (decide (i < length reg)%nat) as [Hi|Hi].
  - right. split_and!; try done. by apply update_eq.
  - left. split; [|right; lia]. unfold update. by rewrite list_insert_ge by lia.
Qed.

Lemma update_same_core i f reg j :
  (∀ e, same_core e (f e)) → same_core (reg !!! j) (update i f reg !!! j).
Proof.
  intros Hf. destruct (update_cases i f reg j) as [[-> _]|(<- & _ & ->)]; [|apply Hf].
  by repeat split.
Qed.

Lemma same_core_refl e : same_core e e.
Proof. by repeat split. Qed.
Lemma same_core_trans e1 e2 e3 : same_core e1 e2 → same_core e2 e3 → same_core e1 e3.
Proof. unfold same_core. intuition congruence. Qed.

(** Linking in a new worker changes neighbour pointers only. *)
Lemma stitch_new_ends slot s :
  ends (stitch_new slot) s (λ reg, length reg = length (registry s) ∧
    ∀ j, same_core (registry s !!! j) (reg !!! j)).
Proof.
  unfold stitch_new. apply ends_bind_gets.
  destruct (find_prev_active_worker (registry s) slot) as [p|].
  - apply ends_bind_write. unfold discovery_notify_neighbor.
    apply ends_bind_rpc. intros a r. apply ends_ret. simpl. split; [apply length_update|]. intros j.
    apply update_same_core. intros e. by repeat split.
  - do 4 (apply ends_bind_rpc; intros). apply ends_ret. simpl. split; [done|].
    intros j. apply same_core_refl.
Qed.

Lemma update_compose i f g reg : update i g (update i f reg) = update i (λ e, g (f e)) reg.
Proof.
  destruct (decide (i < length reg)%nat) as [Hi|Hi].
  - rewrite update_update by done. done.
  - unfold update. by rewrite !list_insert_ge by (rewrite ?list_insert_ge by lia; lia).
Qed.

(** *** The effect of each handler on the registry *)

(** What an accepted [AUTH_HELLO] writes to the slot it takes: the identity, and a
    new challenge unless the entropy source failed. *)
Definition hello_write (i : worker_info_t) (now : Z) (f : worker_entry_t → worker_entry_t) : Prop :=
  f = set_registered i now ∨
  ∃ seed nonce, seed ≠ 0 ∧ nonce ≠ 0 ∧
    let pages := challenge_pages (RAM i) in
    f = λ e, set_probe seed pages (CapAck nonce (cap_probe_checksum seed pages) (replicate 32 0)) (set_registered i now e).

Lemma hello_write_fields i now f e : hello_write i now f →
  info (f e) = i ∧ state (f e) = WORKER_PENDING ∧ last_seen_ms (f e) = now ∧
  (probe_pages (f e) = probe_pages e ∨ probe_pages (f e) = challenge_pages (RAM i)).
Proof. intros [-> |(seed & nonce & _ & _ & ->)]; split_and!; try done; auto. Qed.

Lemma register_slot_ends slot i src x now s :
  ends (register_slot slot i src x now) s
    (λ reg, ∃ f, hello_write i now f ∧ reg = update slot f (registry s)).
Proof.
  unfold register_slot. apply ends_bind_write. apply ends_bind_rpc. intros nonce r1.
  apply ends_bind_rpc. intros seed r2.
  destruct (Z.eqb_spec nonce 0) as [H0|Hn]; simpl; [|destruct (Z.eqb_spec seed 0) as [H0|Hs]; simpl].
  1-2: apply ends_on_rpc; simpl; exists (set_registered i now); split; [by left|done].
  apply ends_bind_write, ends_on_rpc. simpl. rewrite update_compose. eexists. split; [|done].
  right. by exists seed, nonce.
Qed.

(** The slot an [AUTH_HELLO] for [id] takes. *)
Definition hello_slot (reg : registry_t) (id : Z) (slot : nat) : Prop :=
  (registry_find reg id = Some slot ∧ state (reg !!! slot) = WORKER_EXPIRED) ∨
  (registry_find reg id = None ∧ registry_free_slot reg = Some slot).

Definition hello_target (reg : registry_t) (id : Z) : option nat :=
  match registry_find reg id with
  | Some e => if state (reg !!! e) =? WORKER_EXPIRED then Some e else None
  | None => registry_free_slot reg
  end.

Lemma hello_target_slot reg id slot : hello_target reg id = Some slot ↔ hello_slot reg id slot.
Proof.
  unfold hello_target, hello_slot. destruct (registry_find reg id) as [e|]; [|by split; [right|intros [[??]|[??]]]].
  destruct (Z.eqb_spec (state (reg !!! e)) WORKER_EXPIRED) as [Hx|Hx].
  - split; [by intros [= <-]; left|]. by intros [[[= <-] _]|[? _]].
  - split; [done|]. by intros [[[= <-] ?]|[? _]].
Qed.

(** What an [AUTH_HELLO] does to the registry. *)
Definition hello_result (msg : rpc_msg_t) (now : Z) (reg reg' : registry_t) : Prop :=
  let i := read_worker_info (payload msg) in
  if decide (SIZEOF_WORKER_INFO ≤ payload_len msg ∧ psk_hash i = expect_hash) then
    match hello_target reg (worker_id i) with
    | Some slot => ∃ f, hello_write i now f ∧ reg' = update slot f reg
    | None => reg' = reg
    end
  else reg' = reg.

Lemma hello_ends msg src now s :
  ends (handle_auth_hello msg src now) s (hello_result msg now (registry s)).
Proof.
  unfold handle_auth_hello, hello_result. cbv zeta. set (i := read_worker_info (payload msg)).
  destruct (decide (SIZEOF_WORKER_INFO ≤ payload_len msg ∧ psk_hash i = expect_hash)) as [[Hl Hpsk]|Hno].
  2: { destruct (Z.ltb_spec (payload_len msg) SIZEOF_WORKER_INFO); [by apply ends_bind_count, ends_on_rpc|].
       case_bool_decide; cbn [negb]; [by destruct Hno|by apply ends_on_rpc]. }
  rewrite (proj2 (Z.ltb_ge _ _)), bool_decide_eq_true_2 by done. cbn [negb]. unfold hello_target. apply ends_bind_gets.
  destruct (registry_find (registry s) (worker_id i)) as [e|].
  - destruct (Z.eqb_spec (state (registry s !!! e)) WORKER_EXPIRED) as [Hx|]; cbn [negb]; [apply register_slot_ends|by apply ends_on_rpc].
  - destruct (registry_free_slot (registry s)) as [slot|]; [apply register_slot_ends|by apply ends_on_rpc].
Qed.

Lemma hello_slot_free reg id slot :
  hello_slot reg id slot →
  (slot < MAX_WORKERS)%nat ∧ (state (reg !!! slot) = WORKER_EXPIRED ∨ worker_id (info (reg !!! slot)) = 0).
Proof.
  intros [[Hf Hx]|[_ Hf]].
  - apply first_slot_some in Hf as (? & _). auto.
  - apply first_slot_some in Hf as (? & [Hx|Hx]%orb_true_iff & _); split; try done; [left|right]; lia.
Qed.

(** What a heartbeat makes of an entry, and of the registry. *)
Definition beat (now : Z) (e : worker_entry_t) : worker_entry_t :=
  if state e =? WORKER_SUSPECTED then set_state WORKER_ACTIVE (set_seen now e) else set_seen now e.
Definition beat_result (msg : rpc_msg_t) (now : Z) (reg reg' : registry_t) : Prop :=
  if decide (4 ≤ payload_len msg) then
    match registry_find reg (le32_at (payload msg) 0) with
    | Some slot => reg' = update slot (beat now) reg
    | None => reg' = reg
    end
  else reg' = reg.

Lemma heartbeat_ends msg src now s :
  ends (handle_heartbeat msg src now) s (beat_result msg now (registry s)).
Proof.
  unfold handle_heartbeat, beat_result. destruct (decide (4 ≤ payload_len msg)).
  2: { rewrite (proj2 (Z.ltb_lt _ _)) by lia. by apply ends_bind_count, ends_on_rpc. }
  rewrite (proj2 (Z.ltb_ge _ _)) by lia. apply ends_bind_gets.
  destruct (registry_find (registry s) (le32_at (payload msg) 0)) as [slot|]; [|by apply ends_on_rpc].
  apply ends_bind_write. assert (Hu : update slot (beat now) (registry s) =
    update slot (if state (registry s !!! slot) =? WORKER_SUSPECTED then λ e, set_state WORKER_ACTIVE (set_seen now e) else set_seen now) (registry s)).
  { unfold update, beat. by destruct (_ =? _). }
  rewrite Hu. destruct (state (registry s !!! slot) =? WORKER_SUSPECTED).
  - apply ends_bind_write, ends_on_rpc. cbn [registry set_registry set_rpc]. apply update_compose.
  - destruct (state (registry s !!! slot) =? WORKER_EXPIRED); by apply ends_on_rpc.
Qed.

(** The checks of [handle_cap_ack]. *)
Definition ack_proves (msg : rpc_msg_t) (src : rpc_addr_t) (e : worker_entry_t) : Prop :=
  SIZEOF_CAP_ACK ≤ payload_len msg ∧ addr_of e = (ip src, port src) ∧ state e = WORKER_PENDING ∧
  probe_nonce (read_cap_ack (payload msg)) = probe_nonce (cap_ack_expected e) ∧
  checksum (read_cap_ack (payload msg)) = checksum (cap_ack_expected e) ∧
  identity (read_cap_ack (payload msg)) = cap_identity (probe_nonce (cap_ack_expected e)).

(** The entry of the worker that became ACTIVE. *)
Definition activated (now : Z) (e e' : worker_entry_t) : Prop :=
  same_core (set_state WORKER_ACTIVE (set_seen now e)) e'.

(** Activation writes the slot, stitches, and writes the slot's pointers. *)
Lemma activate_ends slot now s (k : set_neighbor_t → MM Z) :
  (slot < length (registry s))%nat →
  (∀ nb s', ends (k nb) s' (λ reg, reg = registry s')) →
  ends (write slot (set_seen now) ;;*
        write slot (set_state WORKER_ACTIVE) ;;*
        let* nb := stitch_new slot in
        write slot (set_prev (nb_prev_ip nb) (nb_prev_port nb)) ;;*
        write slot (set_next (nb_next_ip nb) (nb_next_port nb)) ;;*
        k nb) s
    (λ reg, length reg = length (registry s) ∧ activated now (registry s !!! slot) (reg !!! slot) ∧
            ∀ j, j ≠ slot → same_core (registry s !!! j) (reg !!! j)).
Proof.
  intros Hlt Hk. do 2 apply ends_bind_write. cbn [registry set_registry]. rewrite update_compose.
  set (reg1 := update slot _ (registry s)).
  assert (H1 : ∀ j, j ≠ slot → reg1 !!! j = registry s !!! j).
  { intros j Hj. unfold reg1. by rewrite update_ne. }
  assert (H1s : reg1 !!! slot = set_state WORKER_ACTIVE (set_seen now (registry s !!! slot))).
  { unfold reg1. by rewrite update_eq. }
  intros a s2 E. apply bind_inv in E as (nb & s1 & Est & E).
  destruct (stitch_new_ends slot _ nb s1 Est) as [Hlen Hst]. cbn [registry set_registry] in Hst, Hlen.
  revert a s2 E. change (ends (write slot (set_prev (nb_prev_ip nb) (nb_prev_port nb)) ;;*
    write slot (set_next (nb_next_ip nb) (nb_next_port nb)) ;;* k nb) s1
    (λ reg, length reg = length (registry s) ∧ activated now (registry s !!! slot) (reg !!! slot) ∧
            ∀ j, j ≠ slot → same_core (registry s !!! j) (reg !!! j))).
  do 2 apply ends_bind_write. cbn [registry set_registry]. rewrite update_compose.
  eapply ends_mono; [apply Hk|]. intros reg ->. cbn [registry set_registry].
  assert (Hsc : ∀ j, same_core (reg1 !!! j) (update slot (λ e, set_next (nb_next_ip nb)
    (nb_next_port nb) (set_prev (nb_prev_ip nb) (nb_prev_port nb) e)) (registry s1) !!! j)).
  { intros j. eapply same_core_trans; [apply Hst|]. apply update_same_core. intros e. by repeat split. }
  split_and!.
  - rewrite length_update, Hlen. unfold reg1. by rewrite length_update.
  - unfold activated. rewrite <- H1s. apply Hsc.
  - intros j Hj. rewrite <- H1 by done. apply Hsc.
Qed.

(** What a [CAP_ACK] does to the registry: the first slot with the sender's address
    is looked at. *)
Definition ack_result (msg : rpc_msg_t) (src : rpc_addr_t) (now : Z) (reg reg' : registry_t) : Prop :=
  match registry_find_ip_port reg (ip src) (port src) with
  | Some slot =>
      (ack_proves msg src (reg !!! slot) → length reg' = length reg ∧ activated now (reg !!! slot) (reg' !!! slot) ∧
         ∀ j, j ≠ slot → same_core (reg !!! j) (reg' !!! j)) ∧
      (¬ ack_proves msg src (reg !!! slot) → reg' = reg)
  | None => reg' = reg
  end.

Lemma cap_ack_ends msg src now s :
  length (registry s) = MAX_WORKERS →
  ends (handle_cap_ack msg src now) s (ack_result msg src now (registry s)).
Proof.
  intros Hlen. unfold handle_cap_ack, ack_result.
  assert (No : ∀ slot, ¬ ack_proves msg src (registry s !!! slot) → ∀ (m : M (rpc_t K) Z), ends (on_rpc m) s (λ reg,
    (ack_proves msg src (registry s !!! slot) → length reg = length (registry s) ∧ activated now (registry s !!! slot) (reg !!! slot) ∧
       ∀ j, j ≠ slot → same_core (registry s !!! j) (reg !!! j)) ∧ (¬ ack_proves msg src (registry s !!! slot) → reg = registry s))).
  { intros slot Hno m. by apply ends_on_rpc. }
  destruct (Z.ltb_spec (payload_len msg) SIZEOF_CAP_ACK).
  { apply ends_bind_count, ends_on_rpc. destruct (registry_find_ip_port _ _ _) as [slot|]; [|done].
    split; [|done]. intros (Hl & _). lia. }
  apply ends_bind_gets.
  destruct (registry_find_ip_port (registry s) (ip src) (port src)) as [slot|] eqn:Hf; [|by apply ends_on_rpc].
  apply first_slot_some in Hf as (Hslot & [Ha%Z.eqb_eq Hp%Z.eqb_eq]%andb_true_iff & _). cbv zeta.
  set (e := registry s !!! slot) in *. set (ack := read_cap_ack (payload msg)).
  destruct (Z.eqb_spec (state e) WORKER_PENDING) as [E1|E1]; cbn [negb]; [|apply No; by intros (_ & _ & ? & _)].
  destruct (Z.eqb_spec (probe_nonce ack) (probe_nonce (cap_ack_expected e))) as [E2|E2]; cbn [negb]; [|apply No; by intros (_ & _ & _ & ? & _)].
  destruct (Z.eqb_spec (checksum ack) (checksum (cap_ack_expected e))) as [E3|E3]; cbn [negb]; [|apply No; by intros (_ & _ & _ & _ & ? & _)].
  case_bool_decide as E4; cbn [negb]; [|apply No; by intros (_ & _ & _ & _ & _ & ?)].
  eapply ends_mono; [apply activate_ends; [by rewrite Hlen|intros nb s'; by apply ends_on_rpc]|].
  intros reg Hreg. split; [by intros _|]. intros Hno. destruct Hno. unfold ack_proves, addr_of. fold e. rewrite Ha, Hp. by split_and!.
Qed.

(** *** The life cycle of an entry under one call *)

Inductive lifecycle (msg : rpc_msg_t) (src : rpc_addr_t) (now : Z) (e e' : worker_entry_t) : Prop :=
  | L_keep : same_core e e' → lifecycle msg src now e e'
  | L_hello f :
      proc (call msg) = PROC_AUTH_HELLO → SIZEOF_WORKER_INFO ≤ payload_len msg →
      state e = WORKER_EXPIRED ∨ worker_id (info e) = 0 →
      psk_hash (read_worker_info (payload msg)) = expect_hash →
      hello_write (read_worker_info (payload msg)) now f → e' = f e → lifecycle msg src now e e'
  | L_ack :
      proc (call msg) = PROC_CAP_ACK → ack_proves msg src e → activated now e e' → lifecycle msg src now e e'
  | L_beat :
      proc (call msg) = PROC_HEARTBEAT → 4 ≤ payload_len msg →
      worker_id (info e) = le32_at (payload msg) 0 → e' = beat now e → lifecycle msg src now e e'.

Lemma L_refl msg src now e : lifecycle msg src now e e.
Proof. apply L_keep, same_core_refl. Qed.

(** Calls that reach a handler: those the rate limiter admits, of this program and
    version. *)
Definition admitted (msg : rpc_msg_t) (src : rpc_addr_t) (now : Z) (s : master_t K) : bool :=
  (mtype msg =? MSG_CALL) && fst (disc_rl_allow (ip src) (port src) now (disc_rl s)) &&
  (prog (call msg) =? INFERENCE_PROG) && (vers (call msg) =? INFERENCE_VERS).

(** What a call does to the registry. *)
Definition call_result (msg : rpc_msg_t) (src : rpc_addr_t) (now : Z) (s : master_t K) (reg' : registry_t) : Prop :=
  let p := proc (call msg) in
  if negb (admitted msg src now s) then reg' = registry s
  else if p =? PROC_AUTH_HELLO then hello_result msg now (registry s) reg'
  else if p =? PROC_HEARTBEAT then beat_result msg now (registry s) reg'
  else if p =? PROC_CAP_ACK then ack_result msg src now (registry s) reg'
  else reg' = registry s.

Lemma handle_call_ends msg src now s :
  length (registry s) = MAX_WORKERS → ends (discovery_handle_call msg src now) s (call_result msg src now s).
Proof.
  intros Hlen. unfold discovery_handle_call, call_result, admitted.
  destruct (mtype msg =? MSG_CALL); simpl; [|by apply ends_ret].
  apply ends_bind_gets. destruct (disc_rl_allow _ _ _ _) as [ok rl]. cbn [fst].
  apply ends_bind_modify. destruct ok; simpl; [|by apply ends_bind_count, ends_ret].
  destruct (prog (call msg) =? INFERENCE_PROG); simpl; [|by apply ends_bind_count, ends_on_rpc].
  destruct (vers (call msg) =? INFERENCE_VERS); simpl; [|by apply ends_bind_count, ends_on_rpc].
  destruct (proc (call msg) =? PROC_AUTH_HELLO); [apply (hello_ends _ _ _ (set_rl rl s))|].
  destruct (proc (call msg) =? PROC_HEARTBEAT); [apply (heartbeat_ends _ _ _ (set_rl rl s))|].
  destruct (proc (call msg) =? PROC_CAP_ACK); [by apply (cap_ack_ends _ _ _ (set_rl rl s))|].
  by apply ends_bind_count, ends_on_rpc.
Qed.

(** *** The registry invariant *)

(** Sixteen slots; every state is one of the four; every registered worker
    presented the commitment SHA-256(PSK); no two slots hold the same worker; and
    no challenge is above the ceiling. *)
Definition registry_inv (reg : registry_t) : Prop :=
  length reg = MAX_WORKERS ∧
  (∀ i, 0 ≤ state (reg !!! i) ≤ 3) ∧
  (∀ i, worker_id (info (reg !!! i)) ≠ 0 → psk_hash (info (reg !!! i)) = expect_hash) ∧
  (∀ i j, (i < MAX_WORKERS)%nat → (j < MAX_WORKERS)%nat →
     worker_id (info (reg !!! i)) = worker_id (info (reg !!! j)) →
     worker_id (info (reg !!! i)) ≠ 0 → i = j) ∧
  (∀ i, 0 ≤ probe_pages (reg !!! i) ≤ 8192).

Lemma lookup_total_zero i : registry_zero !!! i = entry_zero.
Proof.
  destruct (decide (i < MAX_WORKERS)%nat) as [Hi|Hi].
  - unfold registry_zero. by rewrite lookup_total_replicate_2.
  - unfold registry_zero. rewrite list_lookup_total_alt, lookup_ge_None_2; [done|].
    rewrite length_replicate. lia.
Qed.

Lemma registry_inv_zero : registry_inv registry_zero.
Proof.
  split_and!; [done|intros i; rewrite lookup_total_zero; simpl; lia|..].
  - intros i Hi. rewrite lookup_total_zero in Hi. by destruct Hi.
  - intros i j _ _ _. by rewrite lookup_total_zero.
  - intros i. rewrite lookup_total_zero. simpl. lia.
Qed.

(** A step that changes no identity keeps the invariant. *)
Lemma registry_inv_keep reg reg' :
  registry_inv reg → length reg' = length reg →
  (∀ j, info (reg' !!! j) = info (reg !!! j) ∧ 0 ≤ state (reg' !!! j) ≤ 3 ∧
        probe_pages (reg' !!! j) = probe_pages (reg !!! j)) →
  registry_inv reg'.
Proof.
  intros (Hl & Hs & Hp & Hu & Hc) Hlen Hj. split_and!.
  - congruence.
  - intros i. apply Hj.
  - intros i. destruct (Hj i) as (-> & _). apply Hp.
  - intros i j. destruct (Hj i) as (-> & _), (Hj j) as (-> & _). apply Hu.
  - intros i. destruct (Hj i) as (_ & _ & ->). apply Hc.
Qed.

Lemma registry_inv_hello reg i now f slot :
  registry_inv reg → hello_slot reg (worker_id i) slot → hello_write i now f →
  psk_hash i = expect_hash → 0 ≤ RAM i → registry_inv (update slot f reg).
Proof.
  intros (Hl & Hs & Hp & Hu & Hc) Hslot Hf Hpsk Hram.
  destruct (hello_slot_free _ _ _ Hslot) as [Hlt _].
  assert (Heq : update slot f reg !!! slot = f (reg !!! slot)) by (apply update_eq; lia).
  assert (Hother : ∀ j, (j < MAX_WORKERS)%nat → j ≠ slot → worker_id i ≠ 0 →
    worker_id (info (reg !!! j)) ≠ worker_id i).
  { intros j Hj Hne H0 Hid. destruct Hslot as [[Hfind _]|[Hfind _]].
    - apply first_slot_some in Hfind as (_ & Hid'%Z.eqb_eq & _).
      apply Hne, Hu; try done; congruence.
    - pose proof (first_slot_none _ _ j Hfind Hj) as Hn. simpl in Hn. lia. }
  assert (Hcase : ∀ j, j = slot ∨ (j ≠ slot ∧ update slot f reg !!! j = reg !!! j)).
  { intros j. destruct (decide (j = slot)) as [|Hne]; [by left|right]. split; [done|]. by apply update_ne. }
  destruct (hello_write_fields i now f (reg !!! slot) Hf) as (Hi & Hst & _ & Hpg). split_and!.
  - by rewrite length_update.
  - intros j. destruct (Hcase j) as [->|[_ ->]]; [rewrite Heq, Hst; unfold WORKER_PENDING; lia|done].
  - intros j. destruct (Hcase j) as [->|[_ ->]]; [by rewrite Heq, Hi|apply Hp].
  - intros j k Hj Hk. destruct (Hcase j) as [->|[Hjn ->]], (Hcase k) as [->|[Hkn ->]]; try done;
      rewrite ?Heq, ?Hi; intros Hid H0; [| |by apply Hu].
    + exfalso. by apply (Hother k Hk Hkn H0).
    + exfalso. apply (Hother j Hj Hjn); congruence.
  - intros j. destruct (Hcase j) as [->|[_ ->]]; [|done]. rewrite Heq.
    destruct Hpg as [-> | ->]; [done|]. pose proof (challenge_pages_range (RAM i) Hram). lia.
Qed.

(** The invariant stays, and every entry moves along its life cycle. *)
Definition call_effect (msg : rpc_msg_t) (src : rpc_addr_t) (now : Z) (reg reg' : registry_t) : Prop :=
  registry_inv reg' ∧ ∀ j, lifecycle msg src now (reg !!! j) (reg' !!! j).

Lemma call_effect_refl msg src now reg : registry_inv reg → call_effect msg src now reg reg.
Proof. intros Hinv. split; [done|]. intros j. apply L_refl. Qed.

Lemma hello_effect msg src now reg reg' :
  registry_inv reg → msg_ok msg → proc (call msg) = PROC_AUTH_HELLO →
  hello_result msg now reg reg' → call_effect msg src now reg reg'.
Proof.
  intros Hinv Hmsg Hproc. unfold hello_result. case_decide as Hacc; [|by intros ->; apply call_effect_refl].
  destruct Hacc as [Hlen Hpsk]. destruct (hello_target reg _) as [slot|] eqn:Hslot; [|by intros ->; apply call_effect_refl].
  intros (f & Hw & ->). apply hello_target_slot in Hslot.
  assert (Hram : 0 ≤ RAM (read_worker_info (payload msg))) by (apply le32_at_range, Hmsg).
  split; [by eapply registry_inv_hello|]. intros j.
  destruct (update_cases slot f reg j) as [[-> _]|(<- & _ & ->)]; [apply L_refl|].
  destruct (hello_slot_free _ _ _ Hslot) as [_ Hfree]. by apply (L_hello _ _ _ _ _ f).
Qed.

Lemma heartbeat_effect msg src now reg reg' :
  registry_inv reg → proc (call msg) = PROC_HEARTBEAT → beat_result msg now reg reg' → call_effect msg src now reg reg'.
Proof.
  intros Hinv Hproc. unfold beat_result. case_decide as Hlen; [|by intros ->; apply call_effect_refl].
  destruct (registry_find reg _) as [slot|] eqn:Hfind; [|by intros ->; apply call_effect_refl]. intros ->.
  apply first_slot_some in Hfind as (Hlt & Hid%Z.eqb_eq & _). pose proof Hinv as (_ & Hst & _).
  assert (Hj : ∀ j, update slot (beat now) reg !!! j = reg !!! j ∨
    (j = slot ∧ update slot (beat now) reg !!! j = beat now (reg !!! slot))).
  { intros j. destruct (update_cases slot (beat now) reg j) as [[-> _]|(<- & _ & ->)]; auto. }
  split.
  - eapply registry_inv_keep; [done|apply length_update|]. intros j.
    destruct (Hj j) as [->|[-> ->]]; [done|]. unfold beat. specialize (Hst slot).
    destruct (state (reg !!! slot) =? WORKER_SUSPECTED); simpl; unfold WORKER_ACTIVE; auto with lia.
  - intros j. destruct (Hj j) as [->|[-> ->]]; [apply L_refl|by apply L_beat].
Qed.

Lemma cap_ack_effect msg src now reg reg' :
  registry_inv reg → proc (call msg) = PROC_CAP_ACK → ack_result msg src now reg reg' →
  call_effect msg src now reg reg'.
Proof.
  intros Hinv Hproc. unfold ack_result. destruct (registry_find_ip_port reg _ _) as [slot|]; [|by intros ->; apply call_effect_refl].
  intros [Hyes Hno]. assert (Hdec : Decision (ack_proves msg src (reg !!! slot))) by (unfold ack_proves; apply _).
  destruct (decide (ack_proves msg src (reg !!! slot))) as [Hp|Hp]; [|rewrite (Hno Hp); by apply call_effect_refl].
  destruct (Hyes Hp) as (Hlen & Hact & Hoth). pose proof Hinv as (_ & Hst & _). split.
  - eapply registry_inv_keep; [done|done|]. intros j. destruct (decide (j = slot)) as [->|Hj].
    + destruct Hact as (-> & _ & -> & _ & _ & ->). cbn. unfold WORKER_ACTIVE. split_and!; try done; lia.
    + destruct (Hoth j Hj) as (-> & _ & -> & _ & _ & ->). auto.
  - intros j. destruct (decide (j = slot)) as [->|Hj]; [by apply L_ack|by apply L_keep, Hoth].
Qed.

Lemma call_result_effect msg src now s reg' :
  registry_inv (registry s) → msg_ok msg → call_result msg src now s reg' → call_effect msg src now (registry s) reg'.
Proof.
  intros Hinv Hmsg. unfold call_result. destruct (negb _); [intros ->; by apply call_effect_refl|].
  destruct (Z.eqb_spec (proc (call msg)) PROC_AUTH_HELLO); [by apply hello_effect|].
  destruct (Z.eqb_spec (proc (call msg)) PROC_HEARTBEAT); [by apply heartbeat_effect|].
  destruct (Z.eqb_spec (proc (call msg)) PROC_CAP_ACK); [by apply cap_ack_effect|].
  intros ->. by apply call_effect_refl.
Qed.

(** *** The other operations of the master *)

Lemma evict_ends a p id s (P : registry_t → Prop) : P (registry s) → ends (master_send_evict a p id) s P.
Proof. apply ends_on_rpc. Qed.

(** What the clock makes of an entry. *)
Definition aged (now : Z) (e : worker_entry_t) : worker_entry_t :=
  if (worker_id (info e) =? 0) || (state e =? WORKER_EXPIRED) then e
  else
    let age := u32 (now - last_seen_ms e) in
    if EXPIRED_TIMEOUT <? age then set_state WORKER_EXPIRED e
    else if SUSPECTED_TIMEOUT <? age then set_state WORKER_SUSPECTED e
    else e.

Lemma update_id i reg : update i (λ e, e) reg = reg.
Proof.
  unfold update. destruct (decide (i < length reg)%nat).
  - apply list_insert_id. by apply list_lookup_lookup_total_lt.
  - apply list_insert_ge. lia.
Qed.

Lemma set_state_id st e : state e = st → set_state st e = e.
Proof. intros <-. by destruct e. Qed.

Lemma expire_one_ends now i s :
  ends (expire_one now i) s (λ reg, reg = update i (aged now) (registry s)).
Proof.
  unfold expire_one. apply ends_bind_gets. cbv beta zeta. unfold update, aged.
  assert (Hid : <[i := registry s !!! i]> (registry s) = registry s) by apply (update_id i).
  destruct (worker_id _ =? 0); [apply ends_ret; cbn [orb]; by rewrite Hid|].
  destruct (state _ =? WORKER_EXPIRED); [apply ends_ret; cbn [orb]; by rewrite Hid|]. cbn [orb].
  destruct (EXPIRED_TIMEOUT <? _); [apply ends_bind_write, evict_ends; done|].
  destruct (SUSPECTED_TIMEOUT <? _); cbn [andb]; [|apply ends_ret; by rewrite Hid].
  destruct (Z.eqb_spec (state (registry s !!! i)) WORKER_SUSPECTED) as [Hs|]; cbn [negb].
  - apply ends_ret. by rewrite set_state_id, Hid.
  - by apply wlp_modify.
Qed.

Lemma expire_loop_ends now l s :
  NoDup l →
  ends (expire_loop now l) s (λ reg, length reg = length (registry s) ∧
    ∀ j, reg !!! j = if decide (j ∈ l ∧ (j < length (registry s))%nat) then aged now (registry s !!! j)
                     else registry s !!! j).
Proof.
  revert s. induction l as [|i l IH]; intros s Hnd.
  - apply ends_ret. split; [done|]. intros j. rewrite decide_False; [done|].
    intros [Hx _]. by apply not_elem_of_nil in Hx.
  - apply NoDup_cons in Hnd as [Hi Hnd]. cbn [expire_loop]. intros [] s2 E.
    apply bind_inv in E as ([] & s1 & E1 & E2). pose proof (expire_one_ends now i s tt s1 E1) as R1.
    destruct (IH s1 Hnd tt s2 E2) as [Hl Hj]. rewrite R1 in Hl, Hj. rewrite length_update in Hl, Hj.
    split; [done|]. intros j. rewrite Hj.
    destruct (update_cases i (aged now) (registry s) j) as [[-> Hne]|(<- & Hlt & ->)].
    + destruct (decide (j ∈ l ∧ _)) as [[Hin Hlt]|Hno], (decide (j ∈ i :: l ∧ _)) as [[Hin' Hlt']|Hno'];
        try done; exfalso; [apply Hno'; split; [by right|done]|].
      apply elem_of_cons in Hin' as [->|]; [destruct Hne; [done|lia]|by apply Hno].
    + rewrite decide_False by tauto. rewrite decide_True; [done|]. split; [by left|done].
Qed.

Lemma expire_ends now s :
  length (registry s) = MAX_WORKERS →
  ends (discovery_expire_workers now) s (λ reg, length reg = MAX_WORKERS ∧
    ∀ j, (j < MAX_WORKERS)%nat → reg !!! j = aged now (registry s !!! j)).
Proof.
  intros Hl. eapply ends_mono; [apply expire_loop_ends, NoDup_seq|].
  intros reg [Hlen Hj]. split; [congruence|]. intros j Hlt. rewrite Hj, decide_True; [done|].
  rewrite elem_of_seq, Hl. lia.
Qed.

Lemma aged_keeps now e :
  0 ≤ state e ≤ 3 →
  info (aged now e) = info e ∧ 0 ≤ state (aged now e) ≤ 3 ∧ probe_pages (aged now e) = probe_pages e.
Proof.
  intros Hs. unfold aged, WORKER_EXPIRED, WORKER_SUSPECTED.
  destruct (_ || _); [done|]. destruct (EXPIRED_TIMEOUT <? _); [simpl; split_and!; done || lia|].
  destruct (SUSPECTED_TIMEOUT <? _); simpl; split_and!; done || lia.
Qed.

Lemma lookup_total_beyond (reg : registry_t) j : (length reg ≤ j)%nat → reg !!! j = entry_zero.
Proof. intros Hj. by rewrite list_lookup_total_alt, lookup_ge_None_2. Qed.

Lemma expire_inv now s :
  registry_inv (registry s) → ends (discovery_expire_workers now) s registry_inv.
Proof.
  intros Hinv. eapply ends_mono; [by apply expire_ends, (proj1 Hinv)|]. intros reg [Hlen Hj].
  eapply registry_inv_keep; [done|by rewrite Hlen, (proj1 Hinv)|]. intros j.
  destruct (decide (j < MAX_WORKERS)%nat) as [Hlt|Hlt]; [rewrite Hj by done; apply aged_keeps, Hinv|].
  pose proof (proj1 Hinv). rewrite !lookup_total_beyond by lia. simpl. split_and!; done || lia.
Qed.

Lemma restitch_inv s : registry_inv (registry s) → ends restitch s registry_inv.
Proof.
  intros Hinv. unfold restitch. apply ends_bind_rpc. intros mip r1. apply ends_bind_rpc. intros mport r2.
  apply ends_bind_gets. cbn [registry set_rpc].
  pose proof (restitch_stitched (mip, mport) (registry s) (proj1 Hinv)) as Hst. cbn [fst snd] in Hst.
  destruct (discovery_restitch_ring mip mport (registry s)) as [n reg]. cbn [snd] in Hst.
  apply wlp_bind, wlp_modify, wlp_ret. cbn [registry set_registry].
  eapply registry_inv_keep; [done|apply Hst|]. intros j.
  destruct Hst as (_ & Hin & Hout). pose proof Hinv as (_ & Hs & _).
  destruct (decide (j ∈ discovery_ring_order (registry s) MAX_WORKERS)) as [Hj|Hj].
  - apply list_elem_of_lookup in Hj as [k Hk]. rewrite (Hin k j Hk).
    case_decide; split_and!; try done; apply (Hs j).
  - rewrite Hout by done. auto.
Qed.

Lemma assign_ends {A} (m : MM A) s :
  (∀ s, ends m s (λ reg, reg = registry s)) → registry_inv (registry s) → ends m s registry_inv.
Proof. intros Hm Hinv. eapply ends_mono; [apply Hm|]. by intros reg ->. Qed.

Lemma assign_loop_ends tmpl slots k next per rem mx ids s :
  ends (assign_loop tmpl slots k next per rem mx ids) s (λ reg, reg = registry s).
Proof.
  revert k next ids s. induction slots as [|slot slots IH]; intros k next ids s; [by apply ends_ret|].
  cbn [assign_loop]. apply ends_bind_gets. apply ends_bind_rpc. intros r t.
  destruct (negb _); [by apply ends_ret|]. apply ends_bind_gets.
  eapply ends_mono; [apply IH|]. by intros reg ->.
Qed.

Lemma assign_layers_ends tmpl mx s : ends (discovery_assign_layers tmpl mx) s (λ reg, reg = registry s).
Proof.
  unfold discovery_assign_layers. apply ends_bind_gets. destruct (_ <=? 0); [by apply ends_ret|].
  destruct (_ <? _); [by apply ends_ret|]. intros a s' E. apply bind_inv in E as (o & s1 & E1 & E2).
  pose proof (assign_loop_ends _ _ _ _ _ _ _ _ _ _ _ E1) as R. cbn beta in R.
  destruct o; unfold ret in E2; injection E2 as _ <-; done.
Qed.

Lemma assign_one_ends tmpl k s : ends (discovery_assign_one tmpl k) s (λ reg, reg = registry s).
Proof.
  unfold discovery_assign_one. apply ends_bind_gets. destruct (_ || _); [by apply ends_ret|].
  destruct (_ <? _); [by apply ends_ret|]. apply ends_bind_rpc. intros r t.
  destruct (negb _); by apply ends_ret.
Qed.
End Lifecycle.

(** ** Termination

    Under the assumptions on the environment of [Rpc], every operation of the
    master returns and leaves the transport ready. *)
Section Total.
Context {K : Type} `{KernelLaws K}.
Context (Hheap : heap_available K) (Hnet : no_overrun K).

Abbreviation MM := (M (master_t K)).

(** The transport is ready again, and nothing sent is forgotten. *)
Definition reaches (s s' : rpc_t K) : Prop := rpc_ok s' ∧ sent (kern s) `prefix_of` sent (kern s').

Lemma reaches_refl s : rpc_ok s → reaches s s.
Proof. by split. Qed.
Lemma reaches_trans s1 s2 s3 : reaches s1 s2 → reaches s2 s3 → reaches s1 s3.
Proof. intros [_ P] [Hok P']. split; [done|by etrans]. Qed.
Lemma reaches_sent s s' ps : rpc_ok s' → sent (kern s') = sent (kern s) ++ ps → reaches s s'.
Proof. intros Hok Hs. split; [exact Hok|by exists ps]. Qed.
Lemma reaches_xid x s : rpc_ok s → reaches s (set_xid (u32 x) s).
Proof. intros Hok. apply (reaches_sent _ _ []); [by apply set_xid_ok|by rewrite app_nil_r]. Qed.

Definition total {A} (m : MM A) : Prop :=
  ∀ s, rpc_ok (rpc s) → wp m (λ _ s', reaches (rpc s) (rpc s')) s.

(** The same for a transport operation. *)
Definition rtotal {A} (m : M (rpc_t K) A) : Prop :=
  ∀ s, rpc_ok s → wp m (λ _ s', reaches s s') s.

(** A call that sends nothing. *)
Definition silent {A} (f : K → A * K) : Prop := ∀ k, sent (snd (f k)) = sent k.

Lemma total_ret {A} (a : A) : total (ret a).
Proof. intros s Hs. by apply wp_ret, reaches_refl. Qed.
Lemma total_gets {A} (f : master_t K → A) : total (gets f).
Proof. intros s Hs. by apply wp_gets, reaches_refl. Qed.
Lemma total_modify f : (∀ s : master_t K, rpc (f s) = rpc s) → total (modify f).
Proof. intros Hf s Hs. apply wp_modify. rewrite Hf. by apply reaches_refl. Qed.
Lemma total_bind {A B} (m : MM A) (k : A → MM B) : total m → (∀ a, total (k a)) → total (bind m k).
Proof.
  intros Hm Hk s Hs. apply wp_bind. eapply wp_mono; [by apply Hm|]. intros a s' Hs'.
  eapply wp_mono; [apply Hk, Hs'|]. intros b s''. by apply reaches_trans.
Qed.
Lemma total_on_rpc {A} (m : M (rpc_t K) A) : rtotal m → total (on_rpc m).
Proof.
  intros Hm s Hs. destruct (Hm (rpc s) Hs) as (a & r & E & Hr). exists a, (set_rpc r s).
  split; [|done]. unfold on_rpc, zoom. by rewrite E.
Qed.
Lemma total_write i f : total (write i f).
Proof. by apply total_modify. Qed.
Lemma total_count f : total (count f).
Proof. by apply total_modify. Qed.

Lemma rtotal_ret {A} (a : A) : rtotal (ret a).
Proof. intros s Hs. by apply wp_ret, reaches_refl. Qed.
Lemma rtotal_bind {A B} (m : M (rpc_t K) A) (k : A → M (rpc_t K) B) :
  rtotal m → (∀ a, rtotal (k a)) → rtotal (bind m k).
Proof.
  intros Hm Hk s Hs. apply wp_bind. eapply wp_mono; [by apply Hm|]. intros a s' Hs'.
  eapply wp_mono; [apply Hk, Hs'|]. intros b s''. by apply reaches_trans.
Qed.
Lemma rtotal_sys {A} (f : K → A * K) : silent f → rtotal (sys f).
Proof. intros Hf s Hs. apply wp_sys. split; [done|]. cbn. by rewrite Hf. Qed.
Lemma rtotal_gets {A} (f : rpc_t K → A) : rtotal (gets f).
Proof. intros s Hs. by apply wp_gets, reaches_refl. Qed.
Lemma rtotal_local_port : rtotal rpc_local_port.
Proof. apply rtotal_bind; [apply rtotal_gets|]. intros p. apply rtotal_ret. Qed.

Lemma rtotal_reply src x st bs n :
  0 ≤ n ≤ RPC_PAYLOAD_MAX → n ≤ len bs → rtotal (rpc_send_reply src x st bs n).
Proof.
  intros Hn Hl s Hs. assert (HL : len (reply_wire x st bs n) ≤ WIRE_MAX).
  { rewrite len_reply_wire by lia. unfold WIRE_MAX, RPC_PAYLOAD_MAX in *. destruct (st =? SUCCESS); lia. }
  eapply wp_mono; [apply (send_tx_runs _ src (reply_wire x st bs n)); try done|intros r s' (Hok & _ & _ & Hsent & _)].
  2: by eapply reaches_sent.
  intros w Hw. apply encode_reply_run; try done; rewrite ?Hw; unfold WIRE_MAX, RPC_PAYLOAD_MAX in *; lia.
Qed.

Lemma total_reply src x st : total (reply src x st).
Proof. apply total_on_rpc, rtotal_reply; [unfold RPC_PAYLOAD_MAX; lia|done]. Qed.
Lemma total_reply_with src x bs : len bs ≤ RPC_PAYLOAD_MAX → total (reply_with src x bs).
Proof. intros Hb. apply total_on_rpc, rtotal_reply; [pose proof (len_nonneg bs); lia|done]. Qed.

(** A request is well-formed. *)
Lemma rtotal_request {A} p bs (k : rpc_msg_t → M (rpc_t K) A) :
  is_bytes bs → len bs ≤ RPC_PAYLOAD_MAX →
  (∀ m, request_ok m → rpcvers (call m) = RPC_VERSION → rtotal (k m)) →
  rtotal (let* m := make_request p bs in k m).
Proof.
  intros Hb Hl Hk s Hs. unfold make_request. apply wp_bind, wp_bind.
  unfold rpc_fill_call. apply wp_bind. unfold rpc_next_xid.
  apply wp_bind, wp_gets, wp_bind, wp_modify, wp_ret, wp_ret, wp_ret.
  destruct msg_zero_ok as (Hz & Hzb & Hc & Hv & Ha).
  eapply wp_mono; [|intros a s'; by apply reaches_trans, (reaches_xid (g_xid s + 1))].
  apply Hk; [|done|by apply set_xid_ok]. split.
  - split_and!; try done; cbn [payload set_payload set_head set_call].
    + rewrite len_splice; [done|lia|]. rewrite Hz. done.
    + apply Forall_app. split; [constructor|]. apply Forall_app. split; [done|by apply Forall_drop].
  - cbn [payload_len set_payload]. pose proof (len_nonneg bs). lia.
Qed.

Lemma rtotal_call dst m : request_ok m → rtotal (rpc_call dst m).
Proof.
  intros Hm s Hs. eapply wp_mono; [by apply call_runs|]. intros r s' (Hok & _ & _ & _ & j & _ & _ & Hsent).
  by eapply reaches_sent.
Qed.

Lemma rtotal_send_call dst m :
  request_ok m → rpcvers (call m) = RPC_VERSION → rtotal (rpc_send_call dst m).
Proof.
  intros Hm Hv s Hs. eapply wp_mono; [by apply send_call_runs|]. intros r s' (Hok & _ & _ & Hsent & _).
  by eapply reaches_sent.
Qed.

Lemma rtotal_probe n : rtotal (probe_attempts n).
Proof.
  induction n as [|n IH]; [apply rtotal_ret|]. cbn [probe_attempts].
  apply rtotal_bind; [apply rtotal_sys; intros k; apply entropy_sent|]. intros [bs|]; [|apply rtotal_ret].
  destruct (negb _); [apply rtotal_ret|done].
Qed.

Lemma write_set_neighbor_ok nb : is_bytes (write_set_neighbor nb) ∧ len (write_set_neighbor nb) = 16.
Proof.
  split; [|done]. unfold write_set_neighbor, put_le32, put_le16.
  repeat constructor; try apply u8_byte; unfold is_byte; lia.
Qed.

Lemma total_notify dst nb : total (discovery_notify_neighbor dst nb).
Proof.
  destruct (write_set_neighbor_ok nb) as [Hb Hl]. apply total_on_rpc, rtotal_request; [done|by rewrite Hl|].
  intros m Hm _. apply rtotal_bind; [by apply rtotal_call|]. intros [r o]. apply rtotal_ret.
Qed.

Lemma silent_ip : silent sys_ip.
Proof. exact ip_sent. Qed.
Lemma silent_uptime : silent sys_uptime.
Proof. exact uptime_sent. Qed.
Lemma silent_entropy n : silent (sys_getentropy n).
Proof. exact (entropy_sent n). Qed.
Lemma silent_malloc n : silent (sys_malloc n).
Proof. exact (malloc_sent n). Qed.

Create HintDb total.
Hint Resolve silent_ip silent_uptime silent_entropy silent_malloc total_ret total_gets total_write total_count total_on_rpc total_reply
  total_notify rtotal_ret rtotal_sys rtotal_local_port rtotal_probe rtotal_reply : total.

(** Splits a handler into its steps and branches. *)
Ltac total_tac :=
  repeat (intros;
    match goal with
    | |- total (bind _ _) => apply total_bind
    | |- total (match ?x with _ => _ end) => destruct x
    | |- total (if ?x then _ else _) => destruct x
    | |- total (let '(_, _) := ?x in _) => destruct x
    | |- total (let _ := _ in _) => cbv zeta
    | _ => solve [auto with total]
    end); intros.

Lemma total_register slot i src x now : total (register_slot slot i src x now).
Proof.
  unfold register_slot, create_probe_data. total_tac.
  apply total_reply_with. unfold RPC_PAYLOAD_MAX. change (len _) with 16. lia.
Qed.

Lemma total_hello msg src now : total (handle_auth_hello msg src now).
Proof.
  unfold handle_auth_hello. total_tac; try apply total_register.
  apply total_reply_with. unfold RPC_PAYLOAD_MAX. change (len _) with 16. lia.
Qed.

Lemma total_stitch slot : total (stitch_new slot).
Proof. unfold stitch_new. total_tac. Qed.

Lemma total_cap_ack msg src now : total (handle_cap_ack msg src now).
Proof.
  unfold handle_cap_ack. total_tac; try apply total_stitch.
  apply total_reply_with. unfold RPC_PAYLOAD_MAX. change (len _) with 16. lia.
Qed.

Lemma total_heartbeat msg src now : total (handle_heartbeat msg src now).
Proof. unfold handle_heartbeat. total_tac. Qed.

Lemma total_handle_call msg src now : total (discovery_handle_call msg src now).
Proof.
  unfold discovery_handle_call. total_tac; auto using total_hello, total_heartbeat, total_cap_ack.
  by apply total_modify.
Qed.

Lemma total_evict a p id : total (master_send_evict a p id).
Proof.
  apply total_on_rpc, rtotal_request.
  - unfold put_le32. repeat constructor; apply u8_byte.
  - unfold RPC_PAYLOAD_MAX. change (len _) with 4. lia.
  - intros m Hm Hv. apply rtotal_bind; [by apply rtotal_send_call|]. intros _. apply rtotal_ret.
Qed.

Lemma total_expire now : total (discovery_expire_workers now).
Proof.
  unfold discovery_expire_workers. generalize (seq 0 MAX_WORKERS).
  induction l as [|i l IH]; cbn [expire_loop]; [apply total_ret|].
  apply total_bind; [|done]. unfold expire_one. total_tac; apply total_evict.
Qed.
End Total.

(** ** Properties *)

Section Properties.
Context {K : Type} `{KernelLaws K}.

(** What the master can do, one step at a time: answer a call, age the registry,
    restitch the ring, hand out layers, or use the transport for anything else
    (receiving, say).  Calls carry any message a decoder can produce, from any
    address, at any time. *)
Inductive master_step : master_t K → master_t K → Prop :=
  | step_call msg src now r s s' :
      msg_ok msg → discovery_handle_call msg src now s = Some (r, s') → master_step s s'
  | step_expire now s s' :
      discovery_expire_workers now s = Some (tt, s') → master_step s s'
  | step_restitch n s s' :
      restitch s = Some (n, s') → master_step s s'
  | step_assign tmpl mx r s s' :
      discovery_assign_layers tmpl mx s = Some (r, s') → master_step s s'
  | step_assign_one tmpl k r s s' :
      discovery_assign_one tmpl k s = Some (r, s') → master_step s s'
  | step_transport A (m : M (rpc_t K) A) a s s' :
      on_rpc m s = Some (a, s') → master_step s s'.

Lemma master_step_inv s s' : master_step s s' → registry_inv (registry s) → registry_inv (registry s').
Proof.
  intros Hs Hinv. destruct Hs as [msg src now r s s' Hm E|now s s' E|n s s' E|tmpl mx r s s' E
    |tmpl k r s s' E|A m a s s' E].
  - apply (call_result_effect msg src now s); [done|done|exact (handle_call_ends msg src now s (proj1 Hinv) r s' E)].
  - by apply (expire_inv now s Hinv tt s' E).
  - by apply (restitch_inv s Hinv n s' E).
  - by rewrite (assign_layers_ends tmpl mx s r s' E).
  - by rewrite (assign_one_ends tmpl k s r s' E).
  - by apply (ends_on_rpc m s registry_inv Hinv a s' E).
Qed.

(** C2: The registry invariant holds in every reachable state of the master,
    whatever calls arrive and however its operations interleave: sixteen slots,
    each in one of the four states; a slot with a worker holds the PSK
    commitment; no worker has two slots; no probe is above the 32 MB ceiling. *)
Theorem master_registry_invariant (r : rpc_t K) s :
  rtc master_step (master_start r) s → registry_inv (registry s).
Proof.
  intros Hr. assert (H0' : registry_inv (registry (master_start r))) by apply registry_inv_zero.
  revert H0'. induction Hr as [s|s1 s2 s3 Hs _ IH]; [done|]. eauto using master_step_inv.
Qed.

(** C3: What a call does to the registry, exactly.  A call that the rate limiter
    refuses, or of another program, version or procedure, leaves every entry alone.
    An AUTH_HELLO with the PSK commitment takes the worker's expired slot, or a free
    one if it has none: its entry becomes PENDING with the new identity, the time and,
    if there is entropy, a new challenge.  A heartbeat with a known id refreshes the
    time of that worker's entry and makes it ACTIVE if it was SUSPECTED.  A CAP_ACK
    that carries the issued nonce, the expected checksum and HMAC(PSK, nonce) for
    the first slot with the sender's address, if that is PENDING, makes it ACTIVE and
    refreshes its time.  Every other entry changes in its ring pointers at most.  The
    dispatcher returns with the transport ready and the invariant intact, provided
    that no datagram received meanwhile is an [Overrun] and the stream records can
    be allocated. *)
Theorem handle_call_lifecycle msg src now (s : master_t K) :
  heap_available K → no_overrun K → rpc_ok (rpc s) → registry_inv (registry s) → msg_ok msg →
  ∃ r s', discovery_handle_call msg src now s = Some (r, s') ∧ rpc_ok (rpc s') ∧
    registry_inv (registry s') ∧ call_result msg src now s (registry s') ∧
    ∀ j, lifecycle msg src now (registry s !!! j) (registry s' !!! j).
Proof.
  intros Hh Hn Hok Hinv Hmsg.
  destruct (wp_wlp _ _ _ _ (total_handle_call Hh Hn msg src now s Hok)
              (handle_call_ends msg src now s (proj1 Hinv))) as (r & s' & E & (Hok' & _) & Hres).
  destruct (call_result_effect msg src now s _ Hinv Hmsg Hres) as [Hinv' Hj]. eauto 10.
Qed.

(** Expiry is exact.  It returns, and every entry is as [aged] says: an empty
    or expired slot is left alone; otherwise the worker is EXPIRED when it was
    last seen more than 800 ticks ago (modulo 2^32), SUSPECTED when more than
    400, and untouched when not. *)
Theorem expire_workers_exact now (s : master_t K) :
  heap_available K → rpc_ok (rpc s) → length (registry s) = MAX_WORKERS →
  ∃ s', discovery_expire_workers now s = Some (tt, s') ∧ rpc_ok (rpc s') ∧
    ∀ j, (j < MAX_WORKERS)%nat → registry s' !!! j = aged now (registry s !!! j).
Proof.
  intros Hh Hok Hlen.
  destruct (wp_wlp _ _ _ _ (total_expire Hh now s Hok) (expire_ends now s Hlen))
    as ([] & s' & E & (Hok' & _) & _ & Hj).
  eauto.
Qed.

(** *** Registration without the proof *)

Lemma hello_select msg src now (s : master_t K) slot :
  SIZEOF_WORKER_INFO ≤ payload_len msg → psk_hash (read_worker_info (payload msg)) = expect_hash →
  hello_slot (registry s) (worker_id (read_worker_info (payload msg))) slot →
  handle_auth_hello msg src now s = register_slot slot (read_worker_info (payload msg)) src (xid msg) now s.
Proof.
  intros Hlen Hpsk Hslot. unfold handle_auth_hello. rewrite (proj2 (Z.ltb_ge _ _)) by done.
  rewrite bool_decide_eq_true_2 by done. cbn [negb]. rewrite (bind_run _ _ _ _ _ eq_refl).
  destruct Hslot as [[-> Hx]|[-> ->]]; [|done]. by rewrite Hx.
Qed.

Lemma hello_run msg src now (s : master_t K) slot :
  heap_available K → no_overrun K → rpc_ok (rpc s) → registry_inv (registry s) → msg_ok msg →
  SIZEOF_WORKER_INFO ≤ payload_len msg →
  psk_hash (read_worker_info (payload msg)) = expect_hash →
  hello_slot (registry s) (worker_id (read_worker_info (payload msg))) slot →
  ∃ r s' f, handle_auth_hello msg src now s = Some (r, s') ∧ rpc_ok (rpc s') ∧
    registry_inv (registry s') ∧ hello_write (read_worker_info (payload msg)) now f ∧
    registry s' = update slot f (registry s).
Proof.
  intros Hh Hn Hok Hinv Hmsg Hlen Hpsk Hslot. set (i := read_worker_info (payload msg)) in *.
  pose proof (hello_select msg src now s slot Hlen Hpsk Hslot) as Hsel. fold i in Hsel.
  destruct (wp_wlp _ _ _ _ (total_register Hh slot i src (xid msg) now s Hok)
    (register_slot_ends slot i src (xid msg) now s)) as (r & s' & E & (Hok' & _) & f & Hf & Hr).
  exists r, s', f. rewrite Hsel, Hr. split_and!; try done.
  eapply registry_inv_hello; try done. apply le32_at_range, Hmsg.
Qed.

Lemma heartbeat_run msg src now (s : master_t K) slot :
  heap_available K → rpc_ok (rpc s) → 4 ≤ payload_len msg →
  registry_find (registry s) (le32_at (payload msg) 0) = Some slot →
  state (registry s !!! slot) = WORKER_SUSPECTED → (slot < length (registry s))%nat →
  ∃ r s', handle_heartbeat msg src now s = Some (r, s') ∧ rpc_ok (rpc s') ∧
    registry s' !!! slot = set_state WORKER_ACTIVE (set_seen now (registry s !!! slot)).
Proof.
  intros Hh Hok Hlen Hfind Hst Hlt.
  assert (Hr : ends (handle_heartbeat msg src now) s (λ reg,
    reg = update slot (λ e, set_state WORKER_ACTIVE (set_seen now e)) (registry s))).
  { unfold handle_heartbeat. rewrite (proj2 (Z.ltb_ge _ _)) by done. apply ends_bind_gets.
    rewrite Hfind. apply ends_bind_write. rewrite Hst. cbn [Z.eqb WORKER_SUSPECTED].
    apply ends_bind_write, ends_on_rpc. cbn [registry set_registry]. by rewrite update_compose. }
  destruct (wp_wlp _ _ _ _ (total_heartbeat Hh msg src now s Hok) Hr) as (r & s' & E & (Hok' & _) & HR).
  exists r, s'. split_and!; try done. rewrite HR. by rewrite update_eq.
Qed.

Lemma registry_find_unique reg slot :
  registry_inv reg → (slot < MAX_WORKERS)%nat → worker_id (info (reg !!! slot)) ≠ 0 →
  registry_find reg (worker_id (info (reg !!! slot))) = Some slot.
Proof.
  intros (_ & _ & _ & Hu & _) Hlt H0'. destruct (registry_find reg _) as [i|] eqn:E.
  - apply first_slot_some in E as (Hi & Hid%Z.eqb_eq & _). f_equal. apply Hu; try done. by rewrite Hid.
  - apply (first_slot_none _ _ slot) in E; [|done]. cbn beta in E. lia.
Qed.

(** A worker can become ACTIVE without ever passing the capability probe or
    proving that it holds the PSK.  An AUTH_HELLO that repeats the constant
    commitment SHA-256(PSK), silence for more than 400 and at most 800 ticks until
    the registry is aged, then one heartbeat with its id from any address: the
    PENDING slot was made SUSPECTED by the clock and is made ACTIVE by the
    heartbeat, with no CAP_ACK in between. *)
Theorem heartbeat_bypasses_probe hello beat src1 src2 t0 t1 t2 (s : master_t K) slot :
  heap_available K → no_overrun K → rpc_ok (rpc s) → registry_inv (registry s) →
  msg_ok hello → SIZEOF_WORKER_INFO ≤ payload_len hello →
  let i := read_worker_info (payload hello) in
  psk_hash i = expect_hash → worker_id i ≠ 0 →
  hello_slot (registry s) (worker_id i) slot →
  SUSPECTED_TIMEOUT < u32 (t1 - t0) ≤ EXPIRED_TIMEOUT →
  4 ≤ payload_len beat → le32_at (payload beat) 0 = worker_id i →
  ∃ r1 s1 s2 r3 s3,
    handle_auth_hello hello src1 t0 s = Some (r1, s1) ∧
    discovery_expire_workers t1 s1 = Some (tt, s2) ∧
    handle_heartbeat beat src2 t2 s2 = Some (r3, s3) ∧
    info (registry s3 !!! slot) = i ∧ is_active (registry s3 !!! slot) = true.
Proof.
  intros Hh Hn Hok Hinv Hm Hl i Hpsk Hid Hslot Ht Hb Hbid.
  destruct (hello_run hello src1 t0 s slot) as (r1 & s1 & f & E1 & Hok1 & Hinv1 & Hf & Hr1); try done.
  destruct (hello_slot_free _ _ _ Hslot) as [Hlt _].
  assert (He : registry s1 !!! slot = f (registry s !!! slot)).
  { rewrite Hr1. apply update_eq. by rewrite (proj1 Hinv). }
  destruct (hello_write_fields _ _ _ (registry s !!! slot) Hf) as (Hi & Hst & Hseen & _). fold i in Hi. rewrite <- He in Hi, Hst, Hseen.
  destruct (wp_wlp _ _ _ _ (total_expire Hh t1 s1 Hok1) (expire_ends t1 s1 (proj1 Hinv1)))
    as ([] & s2 & E2 & (Hok2 & _) & Hl2 & Hj).
  pose proof (expire_inv t1 s1 Hinv1 tt s2 E2) as Hinv2. cbn beta in Hinv2.
  assert (He2 : registry s2 !!! slot = set_state WORKER_SUSPECTED (registry s1 !!! slot)).
  { rewrite Hj by done. unfold aged. rewrite Hi, Hst, Hseen, (proj2 (Z.eqb_neq _ _) Hid). cbn [orb Z.eqb WORKER_PENDING WORKER_EXPIRED].
    rewrite (proj2 (Z.ltb_ge _ _)), (proj2 (Z.ltb_lt _ _)) by lia. done. }
  assert (Hi2 : info (registry s2 !!! slot) = i) by (by rewrite He2).
  destruct (heartbeat_run beat src2 t2 s2 slot) as (r3 & s3 & E3 & _ & He3); try done.
  - rewrite Hbid, <- Hi2. apply registry_find_unique; try done. by rewrite Hi2.
  - by rewrite He2.
  - by rewrite Hl2.
  - exists r1, s1, s2, r3, s3. split_and!; try done; rewrite He3; [done|].
    unfold is_active. cbn [info state set_state set_seen]. rewrite Hi2, (proj2 (Z.eqb_neq _ _) Hid). done.
Qed.

(** *** Acknowledgements *)

Lemma ack_run msg src now (s : master_t K) slot :
  heap_available K → no_overrun K → rpc_ok (rpc s) → length (registry s) = MAX_WORKERS →
  registry_find_ip_port (registry s) (ip src) (port src) = Some slot →
  ack_proves msg src (registry s !!! slot) →
  ∃ r s', handle_cap_ack msg src now s = Some (r, s') ∧ rpc_ok (rpc s') ∧
    activated now (registry s !!! slot) (registry s' !!! slot) ∧
    ∀ j, j ≠ slot → same_core (registry s !!! j) (registry s' !!! j).
Proof.
  intros Hh Hn Hok Hlen Hfind (Hl & _ & Hp & Hnon & Hchk & Hid).
  assert (Hr : ends (handle_cap_ack msg src now) s (λ reg, length reg = length (registry s) ∧
    activated now (registry s !!! slot) (reg !!! slot) ∧
    ∀ j, j ≠ slot → same_core (registry s !!! j) (reg !!! j))).
  { unfold handle_cap_ack. rewrite (proj2 (Z.ltb_ge _ _)) by done. apply ends_bind_gets.
    rewrite Hfind. cbv zeta. rewrite Hp, Hnon, Hchk, Hid, !Z.eqb_refl, bool_decide_eq_true_2 by done.
    cbn [negb]. apply activate_ends; [|intros nb s'; by apply ends_on_rpc].
    apply first_slot_some in Hfind as (? & _). lia. }
  destruct (wp_wlp _ _ _ _ (total_cap_ack Hh Hn msg src now s Hok) Hr) as (r & s' & E & (Hok' & _) & _ & Ha & Hj).
  eauto 10.
Qed.

(** C5: An honest worker is admitted.  For a PENDING slot that holds the
    challenge a successful AUTH_HELLO left there, a CAP_ACK from the registered
    address whose payload is the worker's answer to that challenge (the nonce,
    the checksum of its probe run, its HMAC) makes the worker ACTIVE, keeps its
    identity, and changes no other worker but for neighbour pointers; provided
    that no slot before it has the same address, no datagram received meanwhile
    is an [Overrun] and the stream records can be allocated. *)
Theorem honest_worker_admitted msg src now (s : master_t K) slot nonce seed :
  heap_available K → no_overrun K → rpc_ok (rpc s) → length (registry s) = MAX_WORKERS →
  registry_find_ip_port (registry s) (ip src) (port src) = Some slot →
  let e := registry s !!! slot in
  let pages := challenge_pages (RAM (info e)) in
  0 ≤ RAM (info e) → is_u32 nonce → state e = WORKER_PENDING →
  cap_ack_expected e = CapAck nonce (cap_probe_checksum seed pages) (replicate 32 0) →
  payload_len msg = SIZEOF_CAP_ACK →
  (∃ chk rest, cap_probe_run true seed pages = Some chk ∧
     payload msg = write_cap_ack (CapAck nonce chk (cap_identity nonce)) ++ rest) →
  ∃ r s', handle_cap_ack msg src now s = Some (r, s') ∧
    info (registry s' !!! slot) = info e ∧ state (registry s' !!! slot) = WORKER_ACTIVE ∧
    ∀ j, j ≠ slot → same_core (registry s !!! j) (registry s' !!! j).
Proof.
  intros Hh Hn Hok Hlen Hfind e pages Hram Hnon Hst Hexp Hpl (chk & rest & Hrun & Hpay).
  rewrite probe_agrees in Hrun by (by apply challenge_pages_range). injection Hrun as <-.
  assert (Hread : read_cap_ack (payload msg) =
    CapAck nonce (cap_probe_checksum seed pages) (cap_identity nonce)).
  { rewrite Hpay. apply read_write_cap_ack; [done| |].
    - apply checksum_loop_range. unfold is_u32. lia.
    - cbn [identity]. unfold len. by rewrite cap_identity_length. }
  destruct (ack_run msg src now s slot) as (r & s' & E & _ & (Hi & _ & Ha & _) & Hj); try done.
  { pose proof Hfind as Hf. apply first_slot_some in Hf as (_ & [Hip%Z.eqb_eq Hpt%Z.eqb_eq]%andb_true_iff & _).
    fold e. unfold ack_proves, addr_of. rewrite Hread, Hexp. cbn [probe_nonce checksum identity].
    split_and!; try done; [lia|]. unfold e. by rewrite Hip, Hpt. }
  eauto 10.
Qed.

Lemma find_ip_port_first (reg : registry_t) slot a p :
  (slot < MAX_WORKERS)%nat → addr_of (reg !!! slot) = (a, p) → (∀ j, (j < slot)%nat → addr_of (reg !!! j) ≠ (a, p)) →
  registry_find_ip_port reg a p = Some slot.
Proof.
  intros Hlt Ha Hfirst. destruct (registry_find_ip_port _ _ _) as [i|] eqn:E.
  - apply first_slot_some in E as (Hi & [Hip%Z.eqb_eq Hpt%Z.eqb_eq]%andb_true_iff & Hbefore).
    destruct (lt_eq_lt_dec i slot) as [[Hil| ->]|Hil]; [|done|].
    + exfalso. apply (Hfirst i Hil). unfold addr_of. by rewrite Hip, Hpt.
    + specialize (Hbefore slot Hil). injection Ha as Ha1 Ha2. cbn beta in Hbefore. lia.
  - apply (first_slot_none _ _ slot) in E; [|lia]. injection Ha as Ha1 Ha2. cbn beta in E. lia.
Qed.

(** A worker that comes back under a new id from its old address is never
    admitted while its old slot lies before the new one.  The acknowledgement is
    matched to the first slot with the sender's address, whatever its state; if
    that slot is not PENDING, every CAP_ACK from the address is refused with
    SYSTEM_ERR and changes nothing, also with the right nonce, checksum and HMAC
    of the new, PENDING slot. *)
Theorem stale_slot_shadows_registration msg src now (s : master_t K) old new :
  heap_available K → no_overrun K → rpc_ok (rpc s) → (old < new < MAX_WORKERS)%nat →
  addr_of (registry s !!! old) = (ip src, port src) →
  (∀ j, (j < old)%nat → addr_of (registry s !!! j) ≠ (ip src, port src)) →
  state (registry s !!! old) ≠ WORKER_PENDING →
  ack_proves msg src (registry s !!! new) →
  ∃ r s', handle_cap_ack msg src now s = Some (r, s') ∧ registry s' = registry s.
Proof.
  intros Hh Hn Hok Hlt Ha Hfirst Hst (Hl & _).
  assert (Hfind : registry_find_ip_port (registry s) (ip src) (port src) = Some old) by (apply find_ip_port_first; [lia|done..]).
  assert (Hr : ends (handle_cap_ack msg src now) s (λ reg, reg = registry s)).
  { unfold handle_cap_ack. rewrite (proj2 (Z.ltb_ge _ _)) by done. apply ends_bind_gets.
    rewrite Hfind. cbv zeta. rewrite (proj2 (Z.eqb_neq _ _) Hst). by apply ends_on_rpc. }
  destruct (wp_wlp _ _ _ _ (total_cap_ack Hh Hn msg src now s Hok) Hr) as (r & s' & E & _ & HR).
  eauto.
Qed.

(** *** With entropy *)

Lemma probe_attempts_kern n (s s' : rpc_t K) a :
  probe_attempts n s = Some (a, s') → is_u32 a ∧ ∃ k, s' = set_kern k s ∧ sent k = sent (kern s).
Proof.
  revert s. induction n as [|n IH]; intros s; cbn [probe_attempts].
  - intros [= <- <-]. split; [unfold is_u32; lia|]. exists (kern s). by destruct s.
  - intros E. apply bind_inv in E as (o & s1 & E1 & E). unfold sys in E1.
    pose proof (entropy_bytes 4 (kern s)) as Hb. pose proof (entropy_sent 4 (kern s)) as Hs.
    destruct (sys_getentropy 4 (kern s)) as [o' k]. injection E1 as <- <-. cbn [fst snd] in Hb, Hs.
    destruct o' as [bs|]; [|injection E as <- <-; split; [unfold is_u32; lia|by exists k]].
    destruct (Hb bs ltac:(lia) eq_refl) as [_ Hbs].
    destruct (negb _); [injection E as <- <-; split; [by apply le32_at_range|by exists k]|].
    destruct (IH _ E) as (Ha & k' & -> & Hk'). split; [done|]. exists k'. split; [done|]. cbn in Hk'. congruence.
Qed.

(** The reply is handed to the kernel. *)
Lemma reply_hands src x st bs (s : rpc_t K) :
  heap_available K → rpc_ok s → len bs ≤ RPC_PAYLOAD_MAX →
  wp (rpc_send_reply src x st bs (len bs)) (λ _ s', rpc_ok s' ∧
    handed (Packet (u16 (g_port s)) (ip src) (port src) (reply_wire x st bs (len bs))) (kern s) (kern s')) s.
Proof.
  intros Hh Hs Hb. pose proof (len_nonneg bs). assert (HL : len (reply_wire x st bs (len bs)) ≤ WIRE_MAX).
  { rewrite len_reply_wire by lia. unfold WIRE_MAX, RPC_PAYLOAD_MAX in *. destruct (st =? SUCCESS); lia. }
  eapply wp_mono; [apply (send_tx_runs _ src (reply_wire x st bs (len bs))); try done|].
  - intros w Hw. apply encode_reply_run; try done; rewrite ?Hw; unfold WIRE_MAX, RPC_PAYLOAD_MAX in *; lia.
  - intros r s' (Hok & _ & _ & _ & Hk). done.
Qed.

(** A registration whose challenge is drawn: the slot holds it, and it is what the
    reply says. *)
Lemma register_with_entropy slot i src x now (s : master_t K) nonce seed r1 r2 :
  heap_available K → rpc_ok (rpc s) → create_probe_data (rpc s) = Some (nonce, r1) → create_probe_data r1 = Some (seed, r2) →
  nonce ≠ 0 → seed ≠ 0 →
  let pages := challenge_pages (RAM i) in
  let bs := write_auth_hello_reply (AuthHelloReply WORKER_PENDING nonce seed pages) in
  is_u32 nonce ∧ is_u32 seed ∧
  ∃ c s', register_slot slot i src x now s = Some (c, s') ∧ rpc_ok (rpc s') ∧
    registry s' = update slot (λ e, set_probe seed pages (CapAck nonce (cap_probe_checksum seed pages) (replicate 32 0))
      (set_registered i now e)) (registry s) ∧
    handed (Packet (u16 (g_port (rpc s))) (ip src) (port src) (reply_wire x SUCCESS bs 16)) (kern (rpc s)) (kern (rpc s')).
Proof.
  intros Hh Hok E1 E2 Hn Hs pages bs. destruct (probe_attempts_kern _ _ _ _ E1) as (Hnu & k1 & -> & Hk1).
  destruct (probe_attempts_kern _ _ _ _ E2) as (Hsu & k2 & -> & Hk2). split; [done|]. split; [done|].
  assert (Hok2 : rpc_ok (set_kern k2 (set_kern k1 (rpc s)))) by (by destruct Hok as (? & ? & ? & ?)).
  destruct (reply_hands src x SUCCESS bs _ Hh Hok2) as (c & r3 & E3 & Hok3 & Hk3); [vm_compute; discriminate|].
  unfold register_slot, write. rewrite (bind_run (modify _) _ s tt _ eq_refl). set (s0 := set_registry _ s).
  rewrite (bind_run (on_rpc create_probe_data) _ s0 nonce (set_rpc (set_kern k1 (rpc s)) s0)) by (unfold on_rpc, zoom; cbn [rpc s0 set_registry]; by rewrite E1).
  rewrite (bind_run (on_rpc create_probe_data) _ _ seed (set_rpc (set_kern k2 (set_kern k1 (rpc s))) s0)) by (unfold on_rpc, zoom; cbn [rpc set_rpc]; by rewrite E2).
  rewrite (proj2 (Z.eqb_neq nonce 0)), (proj2 (Z.eqb_neq seed 0)) by done. cbn [orb]. cbv zeta. fold pages.
  rewrite (bind_run (modify _) _ _ tt _ eq_refl). unfold reply_with, on_rpc, zoom. cbn [rpc set_registry set_rpc]. fold bs. rewrite E3.
  eexists _, _. split; [done|]. split; [done|]. cbn [rpc registry set_rpc set_registry s0]. split; [apply update_compose|].
  destruct Hk3 as (k0 & Hk0 & ->). exists k0. split; [|done]. cbn in Hk0, Hk1, Hk2. congruence.
Qed.

(** *** Without entropy *)

Definition entropy_fails : Prop := ∀ n (k : K), fst (sys_getentropy n k) = None.

Lemma probe_fails : entropy_fails → ∀ s : rpc_t K, rpc_ok s →
  wp create_probe_data (λ n s', n = 0 ∧ rpc_ok s') s.
Proof.
  intros Hf s Hs. unfold create_probe_data. cbn [probe_attempts]. apply wp_bind, wp_sys.
  rewrite Hf. by apply wp_ret.
Qed.

Lemma register_without_entropy slot i src x now (s : master_t K) :
  heap_available K → entropy_fails → rpc_ok (rpc s) →
  ∃ r s', register_slot slot i src x now s = Some (r, s') ∧ rpc_ok (rpc s') ∧
    registry s' = update slot (set_registered i now) (registry s).
Proof.
  intros Hh Hf Hok.
  assert (Hr : ends (register_slot slot i src x now) s
    (λ reg, reg = update slot (set_registered i now) (registry s))).
  { unfold register_slot. apply ends_bind_write. set (s0 := set_registry _ s).
    apply wlp_bind, wlp_on_rpc. intros n r1 E1.
    destruct (probe_fails Hf (rpc s0) Hok) as (n' & r1' & E1' & -> & _).
    rewrite E1 in E1'. injection E1' as -> ->.
    apply wlp_bind, wlp_on_rpc. intros m r2 _. cbn [Z.eqb orb].
    apply wlp_on_rpc. by intros. }
  destruct (wp_wlp _ _ _ _ (total_register Hh slot i src x now s Hok) Hr) as (r & s' & E & (Hok' & _) & HR).
  eauto.
Qed.

Lemma find_ip_port_update (reg : registry_t) slot e a p :
  (slot < MAX_WORKERS)%nat → length reg = MAX_WORKERS → addr_of e = (a, p) →
  (∀ j, addr_of (reg !!! j) ≠ (a, p)) →
  registry_find_ip_port (update slot (λ _, e) reg) a p = Some slot.
Proof.
  intros Hlt Hl He Hno. destruct (registry_find_ip_port _ _ _) as [i|] eqn:E.
  - apply first_slot_some in E as (Hi & [Hip%Z.eqb_eq Hpt%Z.eqb_eq]%andb_true_iff & _).
    destruct (update_cases slot (λ _, e) reg i) as [[Hu _]|(<- & _)]; [|done].
    rewrite Hu in Hip, Hpt. exfalso. apply (Hno i). unfold addr_of. by rewrite Hip, Hpt.
  - apply (first_slot_none _ _ slot) in E; [|done]. cbn beta in E. rewrite update_eq in E by lia.
    injection He as He1 He2. lia.
Qed.

(** Registration does not fail closed without entropy.  On a master whose
    entropy source fails, an AUTH_HELLO is answered SYSTEM_ERR but its slot stays
    PENDING with the challenge that was there before: on a fresh master nonce 0
    and checksum 0.  The constant acknowledgement (0, 0, HMAC(PSK, 0)), which
    never changes and can be replayed, then makes the worker ACTIVE. *)
Theorem no_entropy_constant_ack hello ack src now1 now2 (s : master_t K) :
  heap_available K → no_overrun K → entropy_fails → rpc_ok (rpc s) →
  registry s = registry_zero → msg_ok hello → SIZEOF_WORKER_INFO ≤ payload_len hello →
  let i := read_worker_info (payload hello) in
  psk_hash i = expect_hash → worker_id i ≠ 0 →
  (info_ip i, info_port i) = (ip src, port src) → (ip src, port src) ≠ (0, 0) →
  payload_len ack = SIZEOF_CAP_ACK →
  (∃ rest, payload ack = write_cap_ack (CapAck 0 0 (cap_identity 0)) ++ rest) →
  ∃ r1 s1 r2 s2, handle_auth_hello hello src now1 s = Some (r1, s1) ∧
    handle_cap_ack ack src now2 s1 = Some (r2, s2) ∧
    info (registry s2 !!! 0%nat) = i ∧ is_active (registry s2 !!! 0%nat) = true.
Proof.
  intros Hh Hn Hf Hok Hreg Hm Hl i Hpsk Hid Haddr Hne Hpl [rest Hpay].
  assert (Hfree : registry_find registry_zero (worker_id i) = None).
  { destruct (registry_find _ _) as [j|] eqn:E; [|done].
    apply first_slot_some in E as (_ & Hj%Z.eqb_eq & _). by rewrite lookup_total_zero in Hj. }
  assert (Hsel : handle_auth_hello hello src now1 s = register_slot 0 i src (xid hello) now1 s).
  { unfold handle_auth_hello. rewrite (proj2 (Z.ltb_ge _ _)) by done. fold i.
    rewrite bool_decide_eq_true_2 by done. cbn [negb]. rewrite (bind_run _ _ _ _ _ eq_refl).
    by rewrite Hreg, Hfree. }
  destruct (register_without_entropy 0 i src (xid hello) now1 s) as (r1 & s1 & E1 & Hok1 & Hr1); try done.
  set (e := set_registered i now1 entry_zero).
  assert (He : registry s1 = update 0 (λ _, e) registry_zero) by (by rewrite Hr1, Hreg).
  assert (He0 : registry s1 !!! 0%nat = e) by (rewrite He, update_eq; [done|simpl; lia]).
  assert (Hread : read_cap_ack (payload ack) = CapAck 0 0 (cap_identity 0)).
  { rewrite Hpay. apply read_write_cap_ack; [done|done|]. cbn [identity]. unfold len. by rewrite cap_identity_length. }
  destruct (ack_run ack src now2 s1 0) as (r2 & s2 & E2 & _ & (Hi & _ & Ha & _) & _);
    [exact Hh|exact Hn|exact Hok1|..].
  - by rewrite He, length_update.
  - rewrite He. apply find_ip_port_update; try done; [unfold MAX_WORKERS; lia|].
    intros j. rewrite lookup_total_zero. unfold addr_of. cbn. congruence.
  - rewrite He0. unfold ack_proves. rewrite Hread, Hpl.
    cbn [identity checksum probe_nonce cap_ack_expected e set_registered entry_zero].
    split_and!; [lia|exact Haddr|reflexivity..].
  - cbn [info state set_state set_seen] in Hi, Ha. exists r1, s1, r2, s2. rewrite Hsel. split_and!; try done; [by rewrite Hi, He0|].
    unfold is_active. rewrite Hi, Ha, He0. cbn [info e set_registered].
    by rewrite (proj2 (Z.eqb_neq _ _) Hid).
Qed.
End Properties.

(** ** Concrete runs *)

(** A call with a procedure and a payload. *)
Definition msg_with (p : Z) (bs : list Z) : rpc_msg_t :=
  set_payload (bs ++ replicate (4096 - length bs) 0) (len bs)
    (set_call (CallBody RPC_VERSION INFERENCE_PROG INFERENCE_VERS p auth_zero auth_zero) msg_zero).

Lemma msg_with_ok p bs : is_bytes bs → (length bs ≤ 4096)%nat → msg_ok (msg_with p bs).
Proof.
  intros Hb Hl. unfold msg_ok, auth_ok. split_and!; [| |reflexivity..].
  - unfold len, msg_with. cbn [payload set_payload]. rewrite length_app, length_replicate.
    unfold RPC_PAYLOAD_MAX. lia.
  - apply Forall_app. split; [done|]. apply Forall_replicate. unfold is_byte. lia.
Qed.

Definition calm_master (reg : registry_t) : master_t calm :=
  Master (rpc_start (Calm (Script [] [Some 5; Some 6] [] 9 true []))) reg buckets_zero (Drops 0 0 0 0).

(** An honest worker, its AUTH_HELLO and its heartbeat. *)
Definition sample_info : worker_info_t := WorkerInfo 7 10 5001 10000 expect_hash 0 0.
Definition sample_hello : rpc_msg_t := msg_with PROC_AUTH_HELLO (write_worker_info sample_info).
Definition sample_beat : rpc_msg_t := msg_with PROC_HEARTBEAT (put_le32 7).

Lemma sample_hello_ok : msg_ok sample_hello.
Proof.
  destruct expect_hash_ok as [Hb Hl]. apply msg_with_ok.
  - by apply write_worker_info_bytes.
  - unfold write_worker_info. rewrite !length_app. cbn [psk_hash sample_info].
    unfold len in Hl. simpl. lia.
Qed.

Lemma sample_hello_len : payload_len sample_hello = SIZEOF_WORKER_INFO.
Proof.
  destruct expect_hash_ok as [_ Hl].
  change (len (write_worker_info sample_info) = 56). unfold write_worker_info, len in *.
  rewrite !length_app. cbn [psk_hash sample_info]. simpl. lia.
Qed.

Lemma sample_read : read_worker_info (payload sample_hello) = sample_info.
Proof.
  destruct expect_hash_ok as [_ Hl]. apply (read_write_worker_info sample_info); try done.
Qed.

Lemma master_registry_invariant_witness :
  ∃ s, rtc (master_step (K := calm)) (master_start (rpc_start (Calm (Script [] [] [] 9 true [])))) s ∧
       registry_inv (registry s).
Proof.
  set (s0 := master_start (rpc_start (Calm (Script [] [] [] 9 true [])))).
  destruct (total_expire (K := calm) calm_heap 5 s0 (rpc_start_ok _)) as ([] & s1 & E & _).
  exists s1. assert (Hr : rtc (master_step (K := calm)) s0 s1).
  { eapply rtc_l; [exact (step_expire 5 s0 s1 E)|apply rtc_refl]. }
  split; [exact Hr|]. exact (master_registry_invariant _ s1 Hr).
Defined.

Lemma handle_call_lifecycle_witness :
  ∃ r s', discovery_handle_call sample_hello (RpcAddr 10 5001) 3 (calm_master registry_zero) =
    Some (r, s') ∧ call_result sample_hello (RpcAddr 10 5001) 3 (calm_master registry_zero) (registry s') ∧
    ∀ j, lifecycle sample_hello (RpcAddr 10 5001) 3 (registry_zero !!! j) (registry s' !!! j).
Proof.
  destruct (handle_call_lifecycle sample_hello (RpcAddr 10 5001) 3 (calm_master registry_zero)
    calm_heap calm_no_overrun (rpc_start_ok _) registry_inv_zero sample_hello_ok)
    as (r & s' & E & _ & _ & Hr & Hj).
  exists r, s'. split; [exact E|split; [exact Hr|exact Hj]].
Defined.

Lemma expire_workers_exact_witness :
  ∃ s', discovery_expire_workers 401 (calm_master sample_registry) = Some (tt, s') ∧
    state (registry s' !!! 0%nat) = WORKER_SUSPECTED.
Proof.
  destruct (expire_workers_exact 401 (calm_master sample_registry) calm_heap (rpc_start_ok _) eq_refl)
    as (s' & E & _ & Hj).
  exists s'. split; [exact E|]. rewrite (Hj 0%nat) by (unfold MAX_WORKERS; lia). reflexivity.
Defined.

Lemma heartbeat_bypasses_probe_witness :
  ∃ r1 s1 s2 r3 s3,
    handle_auth_hello sample_hello (RpcAddr 10 5001) 0 (calm_master registry_zero) = Some (r1, s1) ∧
    discovery_expire_workers 500 s1 = Some (tt, s2) ∧
    handle_heartbeat sample_beat (RpcAddr 99 1) 501 s2 = Some (r3, s3) ∧
    info (registry s3 !!! 0%nat) = read_worker_info (payload sample_hello) ∧
    is_active (registry s3 !!! 0%nat) = true.
Proof.
  apply (heartbeat_bypasses_probe sample_hello sample_beat (RpcAddr 10 5001) (RpcAddr 99 1) 0 500 501
    (calm_master registry_zero) 0 calm_heap calm_no_overrun (rpc_start_ok _) registry_inv_zero
    sample_hello_ok); rewrite ?sample_read; try done.
  right. split; reflexivity.
Defined.

(** The master once the sample worker has been challenged: nonce 5, seed 6. *)
Definition sample_pages : Z := challenge_pages (RAM sample_info).
Definition challenged (st : Z) : worker_entry_t :=
  WorkerEntry sample_info 0 st (CapAck 5 (cap_probe_checksum 6 sample_pages) (replicate 32 0))
    6 sample_pages 0 0 0 0.
Definition answer (a : cap_ack_t) : rpc_msg_t := msg_with PROC_CAP_ACK (write_cap_ack a).

Lemma answer_len n c h : len h = 32 → payload_len (answer (CapAck n c h)) = SIZEOF_CAP_ACK.
Proof.
  intros Hl. change (len (write_cap_ack (CapAck n c h)) = 40). unfold write_cap_ack, len in *.
  rewrite !length_app. cbn [identity]. simpl. lia.
Qed.

Lemma answer_payload a : ∃ rest, payload (answer a) = write_cap_ack a ++ rest.
Proof. by eexists. Qed.

Lemma cap_identity_len n : len (cap_identity n) = 32.
Proof. unfold len. by rewrite cap_identity_length. Qed.

Lemma honest_worker_admitted_witness :
  ∃ r s', handle_cap_ack (answer (CapAck 5 (cap_probe_checksum 6 sample_pages) (cap_identity 5)))
      (RpcAddr 10 5001) 3 (calm_master (challenged WORKER_PENDING :: replicate 15 entry_zero)) = Some (r, s') ∧
    state (registry s' !!! 0%nat) = WORKER_ACTIVE.
Proof.
  set (c := cap_probe_checksum 6 sample_pages).
  destruct (honest_worker_admitted (answer (CapAck 5 c (cap_identity 5))) (RpcAddr 10 5001) 3
    (calm_master (challenged WORKER_PENDING :: replicate 15 entry_zero)) 0 5 6
    calm_heap calm_no_overrun (rpc_start_ok _) eq_refl eq_refl) as (r & s' & E & _ & Hst & _).
  - change (0 ≤ 10000). lia.
  - unfold is_u32. lia.
  - reflexivity.
  - reflexivity.
  - apply answer_len, cap_identity_len.
  - destruct (answer_payload (CapAck 5 c (cap_identity 5))) as [rest E].
    exists c, rest. split; [|exact E]. apply probe_agrees, challenge_pages_range.
    change (0 ≤ 10000). lia.
  - exists r, s'. split; [exact E|exact Hst].
Defined.

Lemma stale_slot_shadows_registration_witness :
  let reg := challenged WORKER_EXPIRED :: challenged WORKER_PENDING :: replicate 14 entry_zero in
  ∃ r s', handle_cap_ack (answer (CapAck 5 (cap_probe_checksum 6 sample_pages) (cap_identity 5)))
      (RpcAddr 10 5001) 3 (calm_master reg) = Some (r, s') ∧ registry s' = reg.
Proof.
  intros reg. set (a := CapAck 5 (cap_probe_checksum 6 sample_pages) (cap_identity 5)).
  apply (stale_slot_shadows_registration (answer a) (RpcAddr 10 5001) 3 (calm_master reg) 0 1
    calm_heap calm_no_overrun (rpc_start_ok _)).
  - unfold MAX_WORKERS. lia.
  - reflexivity.
  - intros j Hj. lia.
  - discriminate.
  - assert (Hr : read_cap_ack (payload (answer a)) = a).
    { apply (read_write_cap_ack a); [unfold is_u32; simpl; lia| |apply cap_identity_len].
      apply checksum_loop_range. unfold is_u32. lia. }
    change (ack_proves (answer a) (RpcAddr 10 5001) (challenged WORKER_PENDING)).
    unfold ack_proves. rewrite Hr. unfold a. rewrite answer_len by apply cap_identity_len.
    cbn [identity checksum probe_nonce cap_ack_expected challenged].
    split_and!; [lia|reflexivity..].
Defined.

(** A kernel with a silent network and no entropy. *)
Record barren := Barren { barren_sent : list packet }.

#[export] Instance barren_kernel : Kernel barren := {
  sys_malloc _ k := (true, k);
  sys_bind _ k := (0, k);
  sys_unbind _ k := (0, k);
  sys_send p k := (len (contents p), Barren (barren_sent k ++ [p]));
  sys_recvtimeo _ _ _ k := (Recv (-2) 0 0 [], k);
  sys_getentropy _ k := (None, k);
  sys_uptime k := (0, k);
  sys_ip k := (9, k);
  sent := barren_sent;
}.

#[export] Instance barren_laws : KernelLaws barren.
Proof.
  split; simpl; intros; try done; try lia.
  pose proof (len_nonneg (contents p)). destruct (Z.ltb_spec (len (contents p)) 0); [lia|done].
Qed.

Lemma no_entropy_constant_ack_witness :
  let s := Master (rpc_start (Barren [])) registry_zero buckets_zero (Drops 0 0 0 0) in
  let a := CapAck 0 0 (cap_identity 0) in
  ∃ r1 s1 r2 s2, handle_auth_hello sample_hello (RpcAddr 10 5001) 0 s = Some (r1, s1) ∧
    handle_cap_ack (answer a) (RpcAddr 10 5001) 1 s1 = Some (r2, s2) ∧
    info (registry s2 !!! 0%nat) = read_worker_info (payload sample_hello) ∧
    is_active (registry s2 !!! 0%nat) = true.
Proof.
  intros s a.
  assert (Hh : heap_available barren) by (intros k; reflexivity).
  assert (Hn : no_overrun barren) by (intros p n t k; discriminate).
  assert (Hf : entropy_fails (K := barren)) by (intros n k; reflexivity).
  apply (no_entropy_constant_ack sample_hello (answer a) (RpcAddr 10 5001) 0 1 s
    Hh Hn Hf (rpc_start_ok _) eq_refl sample_hello_ok);
    rewrite ?sample_read, ?sample_hello_len; try reflexivity; try discriminate.
  apply answer_payload.
Defined.

(** Two workers: slot 0 has been challenged, slot 1 is already in the ring. *)
Definition two_workers : registry_t :=
  WorkerEntry sample_info 0 WORKER_PENDING (CapAck 5 1 (replicate 32 0)) 6 sample_pages 0 0 0 0 ::
  WorkerEntry (WorkerInfo 8 11 5002 10000 [] 0 0) 0 WORKER_ACTIVE (CapAck 0 0 []) 0 0 9 5499 9 5499 ::
  replicate 14 entry_zero.

(** The incremental stitch of handle_cap_ack and the full restitch do not
    agree on the order of the ring.  When the worker that becomes ACTIVE has a
    lower slot than the one already in the ring, its predecessor search wraps
    past the master: the chain of next pointers from the first worker returns to
    the master at once and skips the other worker, while the restitch of the same
    registry visits both, in slot order. *)
Theorem incremental_stitch_skips_worker :
  ∃ r s', handle_cap_ack (answer (CapAck 5 1 (cap_identity 5))) (RpcAddr 10 5001) 3
      (calm_master two_workers) = Some (r, s') ∧
    discovery_ring_order (registry s') 16 = [0; 1]%nat ∧
    walk 17 (registry s') (10, 5001) = [0%nat] ∧
    walk 17 (snd (discovery_restitch_ring 9 5499 (registry s'))) (10, 5001) = [0; 1]%nat.
Proof. do 2 eexists. split; [vm_compute; reflexivity|]. vm_compute. auto. Qed.
