(* ===== verification/Assign.v ===== *)
(** What the assignment of layers puts on the network (user/discovery.c,
    [discovery_assign_layers] and [discovery_assign_one], defined in Master.v):
    a refinement of the two operations to "every worker of the ring is sent its
    range of an exact split". *)
From S2P Require Import Prelude RpcMsg Kernel Rpc Registry Wire Master.

(** ** Specification *)

(** [p] is a call of PROC_ASSIGN_LAYERS to the worker of [e] whose arguments, in
    network order, are the words of [a]. *)
Definition carries (e : worker_entry_t) (a : assign_layers_t) (p : packet) : Prop :=
  (dst_ip p, dst_port p) = addr_of e ∧
  ∃ x args, rpc_parse (contents p) =
      Parsed (x, VCall INFERENCE_PROG INFERENCE_VERS PROC_ASSIGN_LAYERS, args) ∧
    len args = 4 * Z.of_nat ASSIGN_LAYERS_WORDS ∧
    words_assign (get_words args 0 ASSIGN_LAYERS_WORDS) = a.

(** The packets deliver the assignments in order, each at least once and at most
    as often as a call is transmitted. *)
Inductive delivered : list (worker_entry_t * assign_layers_t) → list packet → Prop :=
  | delivered_nil : delivered [] []
  | delivered_cons e a p j l ps :
      carries e a p → (0 < j ≤ RPC_MAX_RETRIES)%nat → delivered l ps →
      delivered ((e, a) :: l) (replicate j p ++ ps).

Definition assign_ok (a : assign_layers_t) : Prop := Forall is_u32 (assign_words a).

(** The split of the layers over a ring. *)
Definition shares (tmpl : assign_layers_t) (ring : list worker_entry_t) : list (worker_entry_t * assign_layers_t) :=
  zip ring (map (with_range tmpl) (layer_split (al_n_layers_total tmpl) (Z.of_nat (length ring)))).

Definition ring_entries (reg : registry_t) : list worker_entry_t :=
  map (λ i, reg !!! i) (discovery_ring_order reg MAX_WORKERS).

(** ** Lemmas *)

Section Assign.
Context {K : Type} `{KernelLaws K}.
Context (Hheap : heap_available K) (Hnet : no_overrun K).

#[local] Opaque msg_zero.

Lemma word_request_ok ws m :
  msg_ok m → 4 * Z.of_nat (length ws) ≤ RPC_PAYLOAD_MAX →
  let req := set_payload (put_words 0 ws (payload m)) (4 * Z.of_nat (length ws)) m in
  request_ok req ∧ args_of req = be_words ws.
Proof.
  intros (Hl & Hb & Hc & Hv & Ha) Hw req.
  assert (E : payload req = be_words ws ++ drop (4 * length ws) (payload m)).
  { unfold req. cbn [payload set_payload]. apply (put_words_app ws [] (payload m)). rewrite Hl. lia. }
  assert (Hlen : length (be_words ws) = (4 * length ws)%nat).
  { pose proof (len_be_words ws) as L. unfold len in L. lia. }
  split.
  - split; [|unfold req; cbn [payload_len set_payload]; lia].
    split_and!; try done; rewrite E.
    + rewrite len_app, len_be_words. unfold len in *. rewrite length_drop. lia.
    + apply Forall_app. split; [apply be_words_bytes|by apply Forall_drop].
  - unfold args_of. rewrite E. unfold req. cbn [payload_len set_payload].
    apply take_app_length'. lia.
Qed.

(** A call whose arguments are words: it ends, and what it transmits parses to
    the procedure and the words. *)
Lemma call_words_runs dst p ws n (s : rpc_t K) :
  rpc_ok s → is_u32 p → n = 4 * Z.of_nat (length ws) → n ≤ RPC_PAYLOAD_MAX →
  wp (let* m := rpc_fill_call msg_zero p in
      let* (r, _) := rpc_call dst (set_payload (put_words 0 ws (payload m)) n m) in
      ret r)
    (λ r s', rpc_ok s' ∧ ∃ j pk, (j ≤ RPC_MAX_RETRIES)%nat ∧ (r = RPC_OK → 0 < j)%nat ∧
      sent (kern s') = sent (kern s) ++ replicate j pk ∧
      (dst_ip pk, dst_port pk) = (ip dst, port dst) ∧
      ∃ x, rpc_parse (contents pk) = Parsed (x, VCall INFERENCE_PROG INFERENCE_VERS p, be_words ws)) s.
Proof.
  intros Hok Hp -> Hw. apply wp_bind. unfold rpc_fill_call, rpc_next_xid.
  apply wp_bind, wp_bind, wp_gets, wp_bind, wp_modify, wp_ret, wp_ret. cbn beta.
  set (m := set_head _ _ _). assert (Hm : msg_ok m).
  { destruct msg_zero_ok as (Hz & Hzb & Hc & Hv & Ha). by split_and!. }
  destruct (word_request_ok ws m Hm Hw) as [Hreq Hargs]. set (req := set_payload _ _ _) in *.
  apply wp_bind. set (s0 := set_xid _ s). assert (Hok0 : rpc_ok s0) by (by apply set_xid_ok).
  eapply wp_mono; [by apply call_runs|].
  intros [r o] s' (Hok' & _ & _ & _ & j & Hj & Hpos & Hs). apply wp_ret. split; [done|].
  exists j. eexists. split_and!; [done|done|exact Hs|done|]. cbn [contents]. exists (g_xid s0).
  destruct (call_for_ok (g_xid s0) req Hreq) as [Hm' Hl'].
  rewrite parse_call_wire; [|split_and!; try done; apply Hok0|done|done|apply Hm'].
  change (args_of (call_for (g_xid s0) req)) with (args_of req). by rewrite Hargs.
Qed.

Lemma send_assignment_runs e a (s : master_t K) :
  rpc_ok (rpc s) → assign_ok a →
  wp (send_assignment e a) (λ r s', rpc_ok (rpc s') ∧ registry s' = registry s ∧
    ∃ j p, (j ≤ RPC_MAX_RETRIES)%nat ∧ (r = RPC_OK → 0 < j)%nat ∧ carries e a p ∧
      sent (kern (rpc s')) = sent (kern (rpc s)) ++ replicate j p) s.
Proof.
  intros Hok Ha. unfold send_assignment, on_rpc.
  destruct (call_words_runs (RpcAddr (info_ip (info e)) (info_port (info e))) PROC_ASSIGN_LAYERS
    (assign_words a) (Z.of_nat ASSIGN_LAYERS_WORDS * 4) (rpc s)) as (r & s' & E & Hok' & j & p & Hj & Hr & Hs & Hd & x & Hp);
    [done|done|done|done|].
  exists r, (set_rpc s' s). split.
  { unfold zoom. by rewrite E. }
  split; [done|]. split; [done|]. exists j, p. split_and!; try done. split; [exact Hd|]. exists x, (be_words (assign_words a)).
  split_and!; [exact Hp|by rewrite len_be_words|].
  pose proof (get_words_put (assign_words a) [] Ha) as G. rewrite app_nil_r in G.
  change ASSIGN_LAYERS_WORDS with (length (assign_words a)). rewrite G. apply words_assign_words.
Qed.

Lemma with_range_ok tmpl r : assign_ok tmpl → assign_ok (with_range tmpl r).
Proof.
  unfold assign_ok, assign_words. intros Ht. repeat (apply Forall_cons in Ht as [? Ht]).
  repeat (apply Forall_cons; split); try done; apply Z.mod_pos_bound; lia.
Qed.

(** The loop of [discovery_assign_layers] sends the rest of the split. *)
Lemma assign_loop_runs tmpl slots k next per rem mx ids (s : master_t K) :
  rpc_ok (rpc s) → assign_ok tmpl → 0 ≤ k →
  wp (assign_loop tmpl slots k next per rem mx ids) (λ o s', rpc_ok (rpc s') ∧ registry s' = registry s ∧
    match o with
    | None => True
    | Some out => ∃ ps, sent (kern (rpc s')) = sent (kern (rpc s)) ++ ps ∧
        out = ids ++ take (Z.to_nat (mx - k)) (map (λ i, worker_id (info (registry s !!! i))) slots) ∧
        delivered (zip (map (λ i, registry s !!! i) slots)
          (map (with_range tmpl) (split_loop (length slots) k next per rem))) ps
    end) s.
Proof.
  intros Hok Ht Hk. revert k next ids s Hok Hk. induction slots as [|slot slots IH]; intros k next ids s Hok Hk.
  { apply wp_ret. split_and!; try done. exists []. rewrite app_nil_r. split_and!; [done| |constructor].
    by cbn [map]; rewrite take_nil, app_nil_r. }
  cbn [assign_loop]. apply wp_bind, wp_gets, wp_bind.
  set (count := per + _). set (a := with_range tmpl (next, next + count)).
  eapply wp_mono; [apply (send_assignment_runs (registry s !!! slot) a); [done|by apply with_range_ok]|].
  intros r s1 (Hok1 & Hreg1 & j & p & Hj & Hpos & Hc & Hs1).
  destruct (Z.eqb_spec r RPC_OK) as [Hr|]; cbn [negb]; [|by apply wp_ret].
  apply wp_bind, wp_gets. eapply wp_mono; [apply (IH (k + 1)); [done|lia]|].
  intros o s2 (Hok2 & Hreg2 & Ho). split_and!; [done|congruence|]. destruct o as [out|]; [|done].
  destruct Ho as (ps & Hs2 & Hout & Hd). exists (replicate j p ++ ps). split_and!.
  - by rewrite Hs2, Hs1, app_assoc.
  - rewrite Hout, Hreg1. destruct (Z.ltb_spec k mx).
    + replace (Z.to_nat (mx - k)) with (S (Z.to_nat (mx - (k + 1)))) by lia.
      cbn [map take]. by rewrite <- app_assoc.
    + replace (Z.to_nat (mx - (k + 1))) with 0%nat by lia. by replace (Z.to_nat (mx - k)) with 0%nat by lia.
  - cbn [map length split_loop]. fold count. cbn [map zip zip_with]. rewrite Hreg1 in Hd.
    constructor; [done|auto|exact Hd].
Qed.

Lemma layers_range tmpl : assign_ok tmpl → 0 ≤ al_n_layers_total tmpl.
Proof.
  intros Ht. unfold assign_ok, assign_words in Ht. do 4 (apply Forall_cons in Ht as [_ Ht]).
  by apply Forall_cons in Ht as [[] _].
Qed.

Lemma assign_layers_runs tmpl mx (s : master_t K) :
  rpc_ok (rpc s) → assign_ok tmpl → al_n_layers_total tmpl < 2 ^ 31 →
  let ring := ring_entries (registry s) in
  wp (discovery_assign_layers tmpl mx) (λ res s', registry s' = registry s ∧ rpc_ok (rpc s') ∧
    (fst res = -1 ∨
     fst res = Z.of_nat (length ring) ∧ 0 < fst res ≤ al_n_layers_total tmpl ∧
     snd res = take (Z.to_nat mx) (map (λ e, worker_id (info e)) ring) ∧
     ∃ ps, sent (kern (rpc s')) = sent (kern (rpc s)) ++ ps ∧ delivered (shares tmpl ring) ps)) s.
Proof.
  intros Hok Ht Hmax ring. pose proof (layers_range tmpl Ht).
  unfold discovery_assign_layers. apply wp_bind, wp_gets. cbv zeta.
  set (slots := discovery_ring_order (registry s) MAX_WORKERS).
  assert (Hlen : length ring = length slots) by apply length_map.
  destruct (Z.leb_spec (Z.of_nat (length slots)) 0); [apply wp_ret; auto|].
  rewrite s32_id by lia. destruct (Z.ltb_spec (al_n_layers_total tmpl) (Z.of_nat (length slots)));
    [apply wp_ret; auto|].
  apply wp_bind. eapply wp_mono; [by apply assign_loop_runs|].
  intros [out|] s' (Hok' & Hreg & Ho); apply wp_ret; [|by auto].
  destruct Ho as (ps & Hs & -> & Hd). split_and!; try done. right. cbn [fst snd].
  split_and!; try lia.
  - rewrite Z.sub_0_r. unfold ring, ring_entries. by rewrite map_map.
  - exists ps. split; [done|]. unfold shares, layer_split. rewrite Hlen, Nat2Z.id. exact Hd.
Qed.

Lemma assign_one_runs tmpl k (s : master_t K) :
  rpc_ok (rpc s) → assign_ok tmpl → al_n_layers_total tmpl < 2 ^ 31 →
  wp (discovery_assign_one tmpl k) (λ r s', registry s' = registry s ∧ rpc_ok (rpc s') ∧
    (r = RPC_OK → ∃ x ps, shares tmpl (ring_entries (registry s)) !! Z.to_nat k = Some x ∧ 0 ≤ k ∧
       sent (kern (rpc s')) = sent (kern (rpc s)) ++ ps ∧ delivered [x] ps)) s.
Proof.
  intros Hok Ht Hmax. pose proof (layers_range tmpl Ht).
  unfold discovery_assign_one. apply wp_bind, wp_gets. cbv zeta.
  set (slots := discovery_ring_order (registry s) MAX_WORKERS).
  destruct (Z.ltb_spec k 0); [by apply wp_ret|]. cbn [orb].
  destruct (Z.leb_spec (Z.of_nat (length slots)) k); [by apply wp_ret|].
  rewrite s32_id by lia. destruct (Z.ltb_spec (al_n_layers_total tmpl) (Z.of_nat (length slots)));
    [by apply wp_ret|].
  apply wp_bind. set (e := registry s !!! (slots !!! Z.to_nat k)). set (a := with_range tmpl _).
  eapply wp_mono; [apply (send_assignment_runs e a); [done|by apply with_range_ok]|].
  intros r s' (Hok' & Hreg & j & p & Hj & Hpos & Hc & Hs).
  destruct (Z.eqb_spec r RPC_OK) as [->|]; cbn [negb]; apply wp_ret; split_and!; try done.
  intros _. exists (e, a), (replicate j p). split_and!; try done.
  - unfold shares, ring_entries. fold slots. rewrite length_map, layer_split_ranges by lia.
    apply lookup_zip_with_Some. exists e, a. split; [done|].
    rewrite !list_lookup_fmap, lookup_seq_lt by lia. cbn [fmap option_fmap option_map].
    destruct (lookup_lt_is_Some_2 slots (Z.to_nat k)) as [i Hi]; [lia|]. rewrite Hi. split.
    + unfold e. by rewrite (list_lookup_total_correct _ _ _ Hi).
    + unfold a. simpl. by rewrite Z2Nat.id by lia.
  - rewrite <- (app_nil_r (replicate j p)). constructor; [done|auto|constructor].
Qed.

(** ** Properties *)

(** C32: The assignment of layers delivers an exact split.
    [discovery_assign_layers] always returns, and leaves the registry alone.  If
    it returns the number of workers, every ACTIVE worker in slot order was sent
    its share of [layer_split] over the whole model, with nothing else on the
    network, and [out_ring_ids] holds the ids in that order; otherwise it
    returns -1.  [discovery_assign_one] for worker [k] returns success only after
    sending the same share to the same worker, so the two paths agree. *)
Theorem assignment_delivers_split tmpl mx (s : master_t K) :
  rpc_ok (rpc s) → assign_ok tmpl → al_n_layers_total tmpl < 2 ^ 31 →
  let ring := ring_entries (registry s) in
  (∃ r ids s', discovery_assign_layers tmpl mx s = Some ((r, ids), s') ∧
     registry s' = registry s ∧ rpc_ok (rpc s') ∧
     (r = -1 ∨
      r = Z.of_nat (length ring) ∧ 0 < r ≤ al_n_layers_total tmpl ∧
      ids = take (Z.to_nat mx) (map (λ e, worker_id (info e)) ring) ∧
      ∃ ps, sent (kern (rpc s')) = sent (kern (rpc s)) ++ ps ∧ delivered (shares tmpl ring) ps)) ∧
  (∀ k, ∃ r s', discovery_assign_one tmpl k s = Some (r, s') ∧
     registry s' = registry s ∧ rpc_ok (rpc s') ∧
     (r = RPC_OK → ∃ x ps, shares tmpl ring !! Z.to_nat k = Some x ∧ 0 ≤ k ∧
        sent (kern (rpc s')) = sent (kern (rpc s)) ++ ps ∧ delivered [x] ps)).
Proof.
  intros Hok Ht Hmax ring. split.
  - destruct (assign_layers_runs tmpl mx s Hok Ht Hmax) as ([r ids] & s' & E & Hr & Hok' & HP).
    by exists r, ids, s'.
  - intros k. apply (assign_one_runs tmpl k s Hok Ht Hmax).
Qed.
End Assign.

(** ** A concrete run *)

Definition sample_assign : assign_layers_t := AssignLayers 1 1 0 0 12 768 2048 12 12 1024 32000 256 9 9000.

(** A ring of one worker that accepts its assignment. *)
Definition one_worker : master_t calm :=
  Master (rpc_start (Calm (Script [(10, 5001, reply_wire 2 SUCCESS [] 0)] [] [] 9 true [])))
    (sample_entry 1 10 5001 WORKER_ACTIVE :: replicate 15 entry_zero) buckets_zero (Drops 0 0 0 0).

Lemma assignment_delivers_split_witness :
  ∃ s' ps, discovery_assign_layers sample_assign 16 one_worker = Some ((1, [1]), s') ∧
    sent (kern (rpc s')) = ps ∧ delivered (shares sample_assign (ring_entries (registry one_worker))) ps.
Proof.
  destruct (proj1 (assignment_delivers_split calm_heap calm_no_overrun sample_assign 16
    one_worker (rpc_start_ok _) ltac:(repeat constructor; unfold is_u32; simpl; lia)
    ltac:(simpl; lia))) as (r & ids & s' & E & _ & _ & HP).
  assert (Er : fst <$> discovery_assign_layers sample_assign 16 one_worker = Some (1, [1])) by (vm_compute; reflexivity).
  rewrite E in Er. injection Er as -> ->.
  destruct HP as [HP|(_ & _ & _ & ps & Hs & Hd)]; [discriminate HP|].
  exists s', ps. split; [exact E|]. split; [exact Hs|exact Hd].
Defined.
