(* ===== verification/Hop.v ===== *)
(** The activation hop (user/distinf.c, [infer_send_hop] and
    [infer_decode_hop]): a header of seven words and the activation, each float
    as its bit pattern. *)
From S2P Require Import Prelude RpcMsg Kernel Rpc Registry Wire Master Assign.

(** Bytes of a payload with [n] floats, as computed in 32 bits. *)
Definition hop_len (n : Z) : Z := u32 (INFER_HOP_HDR_WORDS * 4 + u32 (n * 4)).

(** [None] is the return value -1; [out] and [x] are used only after a
    success. *)
Definition infer_decode_hop (msg : rpc_msg_t) (dim session : Z) : option (infer_hop_t * list Z) :=
  if payload_len msg <? INFER_HOP_HDR_WORDS * 4 then None
  else
    let out := words_hop (get_words (payload msg) 0 (Z.to_nat INFER_HOP_HDR_WORDS)) in
    let n := ih_n_floats out in
    if (n =? 0) || (INFER_MAX_FLOATS <? n) then None
    else if negb (payload_len msg =? hop_len n) then None
    else if (0 <? dim) && negb (n =? u32 dim) then None
    else if negb (session =? 0) && negb (ih_session_id out =? session) then None
    else Some (out, get_words (payload msg) (INFER_HOP_HDR_WORDS * 4) (Z.to_nat n)).

Section Send.
Context {K : Type} `{Kernel K}.

(** The loop over the floats reads [x[0..n)] and writes behind the header; outside
    [x] or [req.payload] the access is a fault. *)
Definition infer_send_hop (dst : rpc_addr_t) (h : infer_hop_t) (x : list Z) : M (rpc_t K) Z :=
  let* m := rpc_fill_call msg_zero PROC_INFER_REQ in
  let n := ih_n_floats h in
  if (len x <? n) || (RPC_PAYLOAD_MAX <? INFER_HOP_HDR_WORDS * 4 + n * 4) then fault
  else
    let p := put_words 0 (hop_words h) (payload m) in
    let p := put_words (INFER_HOP_HDR_WORDS * 4) (take (Z.to_nat n) x) p in
    rpc_send_call dst (set_payload p (hop_len n) m).
End Send.

(** ** Lemmas *)

Definition hop_ok (h : infer_hop_t) : Prop := Forall is_u32 (hop_words h).

(** The bytes of a hop. *)
Definition hop_bytes (h : infer_hop_t) (x : list Z) : list Z := be_words (hop_words h ++ x).

(** The checks on the header. *)
Definition hop_accepts (h : infer_hop_t) (dim session : Z) : Prop :=
  0 < ih_n_floats h ≤ INFER_MAX_FLOATS ∧ (0 < dim → ih_n_floats h = u32 dim) ∧
  (session ≠ 0 → ih_session_id h = session).

Lemma len_hop_bytes h x : len (hop_bytes h x) = 28 + 4 * Z.of_nat (length x).
Proof. unfold hop_bytes. rewrite len_be_words, length_app. simpl length. lia. Qed.

Lemma hop_len_small n : 0 ≤ n ≤ INFER_MAX_FLOATS → hop_len n = 28 + 4 * n.
Proof.
  unfold INFER_MAX_FLOATS, hop_len, INFER_HOP_HDR_WORDS. intros.
  rewrite (u32_id (n * 4)) by (unfold is_u32; lia). rewrite u32_id by (unfold is_u32; lia). lia.
Qed.

(** What is read from a payload that starts with the bytes of a hop. *)
Lemma read_hop h x r :
  hop_ok h → Forall is_u32 x →
  words_hop (get_words (hop_bytes h x ++ r) 0 (Z.to_nat INFER_HOP_HDR_WORDS)) = h ∧
  get_words (hop_bytes h x ++ r) (INFER_HOP_HDR_WORDS * 4) (length x) = x.
Proof.
  intros Hh Hx. pose proof (get_words_put (hop_words h ++ x) r) as G.
  rewrite length_app in G. change (length (hop_words h)) with 7%nat in G.
  rewrite get_words_split in G. apply app_inj_1 in G as [G1 G2]; [|by rewrite length_get_words|by apply Forall_app].
  split; [|exact G2]. change (Z.to_nat INFER_HOP_HDR_WORDS) with 7%nat. unfold hop_bytes.
  rewrite G1. apply words_hop_words.
Qed.

Lemma payload_args msg : payload msg = args_of msg ++ drop (Z.to_nat (payload_len msg)) (payload msg).
Proof. unfold args_of. by rewrite take_drop. Qed.

Lemma words_hop_ok b : is_bytes b → hop_ok (words_hop (get_words b 0 7)).
Proof.
  intros Hb. pose proof (get_words_u32 b 0 7 Hb) as Hu.
  unfold hop_ok. replace (hop_words (words_hop (get_words b 0 7))) with (get_words b 0 7) by done. done.
Qed.

Lemma len_args_of msg : msg_ok msg → 0 ≤ payload_len msg ≤ RPC_PAYLOAD_MAX → len (args_of msg) = payload_len msg.
Proof.
  intros (Hl & _) Hp. unfold args_of, len in *. rewrite length_take. lia.
Qed.

(** The arguments of a message that holds [n] floats are the words read from it. *)
Lemma args_words msg (n : nat) :
  msg_ok msg → 0 ≤ payload_len msg ≤ RPC_PAYLOAD_MAX → payload_len msg = 28 + 4 * Z.of_nat n →
  args_of msg = hop_bytes (words_hop (get_words (payload msg) 0 7)) (get_words (payload msg) 28 n).
Proof.
  intros Hm Hp Hpl. pose proof (len_args_of msg Hm Hp) as Hl.
  assert (Hb : is_bytes (args_of msg)) by (apply Forall_take, Hm).
  rewrite (payload_args msg). rewrite !get_words_app_l by lia.
  unfold hop_bytes. change (hop_words (words_hop (get_words (args_of msg) 0 7))) with (get_words (args_of msg) 0 7).
  change 28 with (0 + 4 * Z.of_nat 7). rewrite <- get_words_split. symmetry.
  apply be_words_get; [done|]. unfold len in Hl. lia.
Qed.

Lemma decode_sound msg dim session h x :
  msg_ok msg → 0 ≤ payload_len msg ≤ RPC_PAYLOAD_MAX →
  infer_decode_hop msg dim session = Some (h, x) →
  args_of msg = hop_bytes h x ∧ hop_ok h ∧ Forall is_u32 x ∧
  ih_n_floats h = Z.of_nat (length x) ∧ hop_accepts h dim session.
Proof.
  intros Hm Hp. unfold infer_decode_hop. cbv zeta. change (Z.to_nat INFER_HOP_HDR_WORDS) with 7%nat.
  change (INFER_HOP_HDR_WORDS * 4) with 28. set (h0 := words_hop _).
  assert (Hh : hop_ok h0) by (apply words_hop_ok, Hm).
  destruct (Z.ltb_spec (payload_len msg) 28); [done|].
  destruct (Z.eqb_spec (ih_n_floats h0) 0); [done|]. cbn [orb].
  destruct (Z.ltb_spec INFER_MAX_FLOATS (ih_n_floats h0)); [done|].
  destruct (Z.eqb_spec (payload_len msg) (hop_len (ih_n_floats h0))) as [Hpl|]; [cbn [negb]|done].
  destruct (_ && negb (_ =? u32 dim)) eqn:Ed; [done|].
  destruct (_ && negb (_ =? session)) eqn:Es; [done|]. intros [= <- <-].
  assert (Hpos : 0 ≤ ih_n_floats h0).
  { unfold hop_ok, hop_words in Hh. do 4 (apply Forall_cons in Hh as [_ Hh]).
    by apply Forall_cons in Hh as [[] _]. }
  rewrite hop_len_small in Hpl by lia. split_and!; try lia.
  - exact (args_words msg (Z.to_nat (ih_n_floats h0)) Hm Hp ltac:(lia)).
  - done.
  - apply get_words_u32, Hm.
  - rewrite length_get_words. symmetry. apply Z2Nat.id, Hpos.
  - split; [lia|]. split; intros; case_bool; lia.
Qed.

Lemma decode_complete msg dim session h x :
  msg_ok msg → 0 ≤ payload_len msg ≤ RPC_PAYLOAD_MAX → args_of msg = hop_bytes h x → hop_ok h →
  Forall is_u32 x → ih_n_floats h = Z.of_nat (length x) → hop_accepts h dim session →
  infer_decode_hop msg dim session = Some (h, x).
Proof.
  intros Hm Hp Ha Hh Hx Hn (Hr & Hd & Hs). pose proof (len_args_of msg Hm Hp) as Hlen.
  assert (Hpl : payload_len msg = 28 + 4 * ih_n_floats h) by (rewrite <- Hlen, Ha, len_hop_bytes; lia).
  destruct (read_hop h x (drop (Z.to_nat (payload_len msg)) (payload msg)) Hh Hx) as [R1 R2].
  rewrite <- Ha, <- payload_args in R1, R2.
  unfold infer_decode_hop. cbv zeta. rewrite R1.
  rewrite (proj2 (Z.ltb_ge _ _)) by (unfold INFER_HOP_HDR_WORDS; lia).
  rewrite (proj2 (Z.eqb_neq _ _)), (proj2 (Z.ltb_ge _ _)) by lia. cbn [orb].
  rewrite hop_len_small, Hpl, Z.eqb_refl by lia. cbn [negb].
  replace (_ && negb (_ =? u32 dim)) with false
    by (destruct (Z.ltb_spec 0 dim); [rewrite Hd, Z.eqb_refl by done|]; done).
  replace (_ && negb (_ =? session)) with false
    by (destruct (Z.eqb_spec session 0); [|rewrite Hs, Z.eqb_refl by done]; done).
  by rewrite Hn, Nat2Z.id, R2.
Qed.

Section Transfer.
Context {K : Type} `{KernelLaws K}.
Context (Hheap : heap_available K).

#[local] Opaque msg_zero.

(** The payload the two loops build. *)
Lemma hop_request h x m n :
  msg_ok m → ih_n_floats h = n → n = Z.of_nat (length x) → n ≤ 1017 →
  let req := set_payload (put_words (INFER_HOP_HDR_WORDS * 4) x (put_words 0 (hop_words h) (payload m)))
               (hop_len n) m in
  request_ok req ∧ args_of req = hop_bytes h x.
Proof.
  intros Hm Hh Hn Hmax req.
  assert (E : put_words (INFER_HOP_HDR_WORDS * 4) x (put_words 0 (hop_words h) (payload m)) =
    put_words 0 (hop_words h ++ x) (payload m)).
  { reflexivity. }
  assert (El : hop_len n = 4 * Z.of_nat (length (hop_words h ++ x))).
  { rewrite length_app, hop_len_small by (unfold INFER_MAX_FLOATS; lia). simpl length. lia. }
  unfold req. rewrite E, El. apply word_request_ok; [done|].
  rewrite length_app. simpl length. unfold RPC_PAYLOAD_MAX. lia.
Qed.

Lemma send_hop_runs dst h x (s : rpc_t K) :
  rpc_ok s → 0 ≤ ih_n_floats h ≤ 1017 → ih_n_floats h ≤ len x →
  wp (infer_send_hop dst h x) (λ r s', rpc_ok s' ∧ g_port s' = g_port s ∧
    (r = RPC_OK ∨ r = RPC_ERR_NET ∧ ¬ sends_succeed K) ∧
    ∃ pk, sent (kern s') = sent (kern s) ++ (if r =? RPC_OK then [pk] else []) ∧
      (dst_ip pk, dst_port pk) = (ip dst, port dst) ∧
      handed pk (kern s) (kern s') ∧
      ∃ id, rpc_parse (contents pk) = Parsed (id, VCall INFERENCE_PROG INFERENCE_VERS PROC_INFER_REQ,
        hop_bytes h (take (Z.to_nat (ih_n_floats h)) x))) s.
Proof.
  intros Hok Hn Hx. unfold infer_send_hop. apply wp_bind. unfold rpc_fill_call, rpc_next_xid.
  apply wp_bind, wp_bind, wp_gets, wp_bind, wp_modify, wp_ret, wp_ret. cbv beta zeta.
  set (m := set_head _ _ _). set (s0 := set_xid _ s).
  rewrite (proj2 (Z.ltb_ge _ _) Hx), (proj2 (Z.ltb_ge _ _)) by (unfold RPC_PAYLOAD_MAX, INFER_HOP_HDR_WORDS; lia).
  cbn [orb]. assert (Hm : msg_ok m).
  { destruct msg_zero_ok as (Hz & Hzb & Hc & Hv & Ha). by split_and!. }
  destruct (hop_request h (take (Z.to_nat (ih_n_floats h)) x) m (ih_n_floats h) Hm eq_refl) as [[Hq Hl] Ha].
  { rewrite length_take. unfold len in Hx. lia. }
  { lia. }
  set (req := set_payload _ _ _) in *. assert (Hok0 : rpc_ok s0) by (by apply set_xid_ok).
  eapply wp_mono; [by apply send_call_runs|].
  intros r s' (Hok' & (Hp & _) & Hr & Hs & Hk). split_and!; try done. eexists. split_and!; [exact Hs|done|exact Hk|].
  cbn [contents]. exists (xid req).
  rewrite parse_call_wire; [|split_and!; try done; apply Hok|done|done|apply Hq]. by rewrite Ha.
Qed.
End Transfer.

(** ** Properties *)

(** A hop is accepted exactly when it is well formed.  On any received
    message [infer_decode_hop] returns a header and an activation if and only if
    the arguments are the bytes of that header followed by those floats and
    nothing else, the number of floats is the one the header declares, not zero
    and at most 1024, it is the dimension of the model if one is given, and the
    session is the live one if there is one. *)
Theorem infer_decode_exact msg dim session h x :
  msg_ok msg → 0 ≤ payload_len msg ≤ RPC_PAYLOAD_MAX →
  infer_decode_hop msg dim session = Some (h, x) ↔
  args_of msg = hop_bytes h x ∧ hop_ok h ∧ Forall is_u32 x ∧
  ih_n_floats h = Z.of_nat (length x) ∧ hop_accepts h dim session.
Proof.
  intros Hm Hp. split.
  - by apply decode_sound.
  - intros (Ha & Hh & Hx & Hn & Hr). by apply decode_complete.
Qed.

(** A message that carries a hop of 768 floats. *)
Definition sample_hop : infer_hop_t := InferHop 77 3 2 0 768 0 0.
Definition sample_x : list Z := replicate 768 0x3f800000.
Definition hop_msg (h : infer_hop_t) (x : list Z) : rpc_msg_t := msg_with PROC_INFER_REQ (hop_bytes h x).

Lemma infer_decode_exact_witness :
  infer_decode_hop (hop_msg sample_hop sample_x) 768 77 = Some (sample_hop, sample_x).
Proof.
  apply (infer_decode_exact (hop_msg sample_hop sample_x) 768 77 sample_hop sample_x).
  - apply msg_with_ok; [apply be_words_bytes|]. vm_compute. lia.
  - vm_compute. split; discriminate.
  - split; [vm_compute; reflexivity|]. split; [repeat constructor; unfold is_u32; simpl; lia|].
    split; [apply Forall_replicate; unfold is_u32; lia|]. split; [vm_compute; reflexivity|].
    unfold hop_accepts, INFER_MAX_FLOATS. simpl. split_and!; try lia; intros; reflexivity.
Defined.

(** A hop survives the network.  For a header that declares between 1 and
    1017 floats, [infer_send_hop] sends one datagram to the given node, or
    reports a network error and sends nothing; and any node that receives that
    datagram, with a model of that dimension and the same session, decodes the
    header and the floats that were sent.  A declared length above 1017, which
    INFER_MAX_FLOATS (1024) allows, makes [infer_send_hop] write past the end of
    the payload. *)
Theorem infer_hop_transfer {K} `{KernelLaws K} dst h x (s : rpc_t K) :
  heap_available K → rpc_ok s → hop_ok h → Forall is_u32 x → ih_n_floats h ≤ len x →
  (0 < ih_n_floats h ≤ 1017 →
   ∃ r s', infer_send_hop dst h x s = Some (r, s') ∧ rpc_ok s' ∧
     ((r = RPC_ERR_NET ∧ sent (kern s') = sent (kern s)) ∨
      r = RPC_OK ∧ ∃ pk, sent (kern s') = sent (kern s) ++ [pk] ∧
        (dst_ip pk, dst_port pk) = (ip dst, port dst) ∧
        ∀ m id v dim session, msg_ok m → 0 ≤ payload_len m ≤ RPC_PAYLOAD_MAX →
          rpc_parse (contents pk) = Parsed (id, v, args_of m) →
          (0 < dim → u32 dim = ih_n_floats h) → session = ih_session_id h →
          infer_decode_hop m dim session = Some (h, take (Z.to_nat (ih_n_floats h)) x))) ∧
  (1017 < ih_n_floats h → infer_send_hop dst h x s = None).
Proof.
  intros Hh Hok Hhop Hx Hlen. split.
  - intros Hn. destruct (send_hop_runs Hh dst h x s Hok) as (r & s' & E & Hok' & _ & Hr & pk & Hs & Hd & _ & id & Hp);
      [lia|done|]. exists r, s'. split; [done|]. split; [done|].
    destruct Hr as [-> | [-> _]]; [right|left]; cbn in Hs; [|by rewrite app_nil_r in Hs].
    split; [done|]. exists pk. split_and!; [done..|].
    intros m id' v dim session Hm Hpl Hm' Hdim ->. rewrite Hp in Hm'. injection Hm' as _ _ Ha.
    apply decode_complete; try done; [by apply Forall_take|rewrite length_take; unfold len in Hlen; lia|].
    split; [unfold INFER_MAX_FLOATS; lia|]. split; [intros; symmetry; auto|done].
  - intros Hn. unfold infer_send_hop. rewrite (bind_run _ _ _ _ _ eq_refl). cbv zeta.
    rewrite (proj2 (Z.ltb_lt RPC_PAYLOAD_MAX _)) by (unfold RPC_PAYLOAD_MAX, INFER_HOP_HDR_WORDS; lia).
    by rewrite orb_true_r.
Qed.

Lemma infer_hop_transfer_witness :
  ∃ r s', infer_send_hop (RpcAddr 10 5001) sample_hop sample_x (rpc_start (Calm (Script [] [] [] 9 true []))) =
    Some (r, s') ∧ rpc_ok s'.
Proof.
  destruct (proj1 (infer_hop_transfer (RpcAddr 10 5001) sample_hop sample_x
    (rpc_start (Calm (Script [] [] [] 9 true []))) calm_heap (rpc_start_ok _)
    ltac:(repeat constructor; unfold is_u32; simpl; lia)
    ltac:(apply Forall_replicate; unfold is_u32; lia) ltac:(vm_compute; discriminate))
    ltac:(simpl; lia)) as (r & s' & E & Hok & _).
  exists r, s'. split; [exact E|exact Hok].
Defined.
