(* ===== verification/Llama.v ===== *)
(** The transformer kernels (user/llama_core.c): matrix products and attention
    with their static partition over a thread pool, one layer, the head, and the
    whole forward pass of the single-node runtime.

    Arithmetic on floats is a parameter, [FloatOps]: the theorems hold for any
    meaning of the operations, so equal results here are equal bit patterns.  A
    buffer is a list of floats; offsets are natural numbers (the code computes
    them in [int], which is the same as long as a tensor has fewer than 2^31
    elements). *)
From S2P Require Import Prelude.

Class FloatOps (F : Type) := {
  f0 : F; f1 : F; f1em5 : F; f10000 : F;
  fadd : F → F → F; fsub : F → F → F; fmul : F → F → F; fdiv : F → F → F; fneg : F → F;
  fgt : F → F → bool;
  fsqrt : F → F; fexp : F → F; fcos : F → F; fsin : F → F; fpow : F → F → F;
  fint : Z → F;
}.

Record Config := MkConfig {
  dim : Z;
  hidden_dim : Z;
  n_layers : Z;
  n_heads : Z;
  n_kv_heads : Z;
  vocab_size : Z;
  seq_len : Z;
}.

#[export] Instance config_eq_dec : EqDecision Config.
Proof. solve_decision. Defined.

(** The sizes the kernels compute from a configuration. *)
Definition cdim (p : Config) : nat := Z.to_nat (dim p).
Definition chidden (p : Config) : nat := Z.to_nat (hidden_dim p).
Definition clayers (p : Config) : nat := Z.to_nat (n_layers p).
Definition cheads (p : Config) : nat := Z.to_nat (n_heads p).
Definition cseq (p : Config) : nat := Z.to_nat (seq_len p).
Definition head_size (p : Config) : nat := (cdim p / cheads p)%nat.
Definition kv_dim (p : Config) : nat := (cdim p * Z.to_nat (n_kv_heads p) / cheads p)%nat.
Definition kv_mul (p : Config) : nat := (cheads p / Z.to_nat (n_kv_heads p))%nat.

(** ** Static partition of [d] items *)

(** The ranges handed to the threads: [per] items each, at most [g] threads; the
    loop breaks at the first range that starts behind the end. *)
Fixpoint partition_loop (n : nat) (t per d : Z) : list (Z * Z) :=
  match n with
  | O => []
  | S n =>
      let start := t * per in
      let stop := start + per in
      let stop := if d <? stop then d else stop in
      if d <=? start then [] else (start, stop) :: partition_loop n (t + 1) per d
  end.

Definition active_threads (d per g : Z) : Z :=
  let n := (d + per - 1) / per in if g <? n then g else n.

(** [matmul]: rows per thread rounded up to a multiple of 16. *)
Definition matmul_items (d g : Z) : list (Z * Z) :=
  let per := (d + g - 1) / g in
  let per := (per + 15) / 16 * 16 in
  partition_loop (Z.to_nat (active_threads d per g)) 0 per d.

(** [multihead_attention]: heads per thread. *)
Definition attention_items (h g : Z) : list (Z * Z) :=
  let per := (h + g - 1) / g in
  partition_loop (Z.to_nat (active_threads h per g)) 0 per h.

Definition rows (r : Z * Z) : list nat := seq (Z.to_nat (fst r)) (Z.to_nat (snd r - fst r)).

Record pool := Pool { thread_pool_initialized : bool; g_num_threads : Z }.

Section Kernels.
Context {F : Type} `{FloatOps F}.

Definition rd (l : list F) (i : nat) : F := nth i l f0.

(** [memcpy]-like write of [vs] at [i]. *)
Definition overwrite (i : nat) (vs b : list F) : list F :=
  take i b ++ vs ++ drop (i + length vs) b.

(** ** Matrix product *)

Definition dot_step (w x : list F) (sums : list F) (j : nat) : list F :=
  imap (λ i s, fadd s (fmul (rd w (j + i)) (rd x (j + i)))) sums.

Definition dot_product_unrolled (w x : list F) (n : nat) : F :=
  let n8 := (n / 8 * 8)%nat in
  let sums := foldl (dot_step w x) (replicate 8 f0) (map (λ b, b * 8)%nat (seq 0 (n / 8))) in
  let tail := foldl (λ s j, fadd s (fmul (rd w j) (rd x j))) f0 (seq n8 (n - n8)) in
  let s i := rd sums i in
  fadd (fadd (fadd (fadd (fadd (s 0%nat) (s 1%nat)) (s 2%nat)) (s 3%nat))
    (fadd (fadd (fadd (s 4%nat) (s 5%nat)) (s 6%nat)) (s 7%nat))) tail.

Definition dot_plain (w x : list F) (n : nat) : F :=
  foldl (λ v j, fadd v (fmul (rd w j) (rd x j))) f0 (seq 0 n).

Definition w_row (w : list F) (n i : nat) : list F := drop (i * n) w.

(** One thread's work: [xout[i]] for the rows of its range. *)
Definition matmul_rows (f : nat → F) (l : list nat) (xout : list F) : list F :=
  foldl (λ out i, <[i := f i]> out) xout l.

Definition matmul (pl : pool) (xout x w : list F) (n d : nat) : list F :=
  if (Z.of_nat d <? 128) || negb (thread_pool_initialized pl) then
    matmul_rows (λ i, dot_plain (w_row w n i) x n) (seq 0 d) xout
  else
    foldl (λ out r, matmul_rows (λ i, dot_product_unrolled (w_row w n i) x n) (rows r) out)
      xout (matmul_items (Z.of_nat d) (g_num_threads pl)).

(** ** Normalisation and softmax *)

Definition rmsnorm (o x weight : list F) (size : nat) : list F :=
  let ss := foldl (λ s j, fadd s (fmul (rd x j) (rd x j))) f0 (seq 0 size) in
  let ss := fdiv ss (fint (Z.of_nat size)) in
  let ss := fadd ss f1em5 in
  let ss := fdiv f1 (fsqrt ss) in
  overwrite 0%nat (map (λ j, fmul (rd weight j) (fmul ss (rd x j))) (seq 0 size)) o.

(** Of the first [size] elements, as a list. *)
Definition softmax (x : list F) : list F :=
  let max_val := foldl (λ m v, if fgt v m then v else m) (rd x 0%nat) (drop 1 x) in
  let e := map (λ v, fexp (fsub v max_val)) x in
  let sum := foldl fadd f0 e in
  map (λ v, fdiv v sum) e.

(** ** Layers and buffers *)

Record llama_layer_t := LlamaLayer {
  rms_att : list F; wq : list F; wk : list F; wv : list F; wo : list F;
  rms_ffn : list F; w1 : list F; w2 : list F; w3 : list F;
}.

(** [k] and [v] of the C structure point into the caches. *)
Record RunState := MkRunState {
  rs_x : list F; xb : list F; xb2 : list F; hb : list F; hb2 : list F; q : list F;
  att : list F; logits : list F; key_cache : list F; value_cache : list F;
}.

Definition set_xb (b : list F) (s : RunState) : RunState :=
  MkRunState (rs_x s) b (xb2 s) (hb s) (hb2 s) (q s) (att s) (logits s) (key_cache s) (value_cache s).
Definition set_xb2 (b : list F) (s : RunState) : RunState :=
  MkRunState (rs_x s) (xb s) b (hb s) (hb2 s) (q s) (att s) (logits s) (key_cache s) (value_cache s).
Definition set_hb (b : list F) (s : RunState) : RunState :=
  MkRunState (rs_x s) (xb s) (xb2 s) b (hb2 s) (q s) (att s) (logits s) (key_cache s) (value_cache s).
Definition set_hb2 (b : list F) (s : RunState) : RunState :=
  MkRunState (rs_x s) (xb s) (xb2 s) (hb s) b (q s) (att s) (logits s) (key_cache s) (value_cache s).
Definition set_q (b : list F) (s : RunState) : RunState :=
  MkRunState (rs_x s) (xb s) (xb2 s) (hb s) (hb2 s) b (att s) (logits s) (key_cache s) (value_cache s).
Definition set_att (b : list F) (s : RunState) : RunState :=
  MkRunState (rs_x s) (xb s) (xb2 s) (hb s) (hb2 s) (q s) b (logits s) (key_cache s) (value_cache s).
Definition set_keys (b : list F) (s : RunState) : RunState :=
  MkRunState (rs_x s) (xb s) (xb2 s) (hb s) (hb2 s) (q s) (att s) (logits s) b (value_cache s).
Definition set_values (b : list F) (s : RunState) : RunState :=
  MkRunState (rs_x s) (xb s) (xb2 s) (hb s) (hb2 s) (q s) (att s) (logits s) (key_cache s) b.
Definition set_x (b : list F) (s : RunState) : RunState :=
  MkRunState b (xb s) (xb2 s) (hb s) (hb2 s) (q s) (att s) (logits s) (key_cache s) (value_cache s).
Definition set_logits (b : list F) (s : RunState) : RunState :=
  MkRunState (rs_x s) (xb s) (xb2 s) (hb s) (hb2 s) (q s) (att s) b (key_cache s) (value_cache s).

(** ** Attention *)

(** One head: the scores, their softmax, and the weighted sum of the values.
    [loff] is the offset of the layer in the caches. *)
Definition attention_scores (p : Config) (q keys : list F) (loff pos h : nat) : list F :=
  map (λ t,
    let k := drop (loff + t * kv_dim p + h / kv_mul p * head_size p) keys in
    fdiv (dot_product_unrolled (drop (h * head_size p) q) k (head_size p))
      (fsqrt (fint (Z.of_nat (head_size p)))))%nat (seq 0 (S pos)).

Definition attention_out (p : Config) (a values : list F) (loff pos h : nat) : list F :=
  foldl (λ o t,
    let v := drop (loff + t * kv_dim p + h / kv_mul p * head_size p) values in
    imap (λ i b, fadd b (fmul (rd a t) (rd v i))) o)%nat (replicate (head_size p) f0) (seq 0 (S pos)).

Definition attention_head (p : Config) (loff pos : nat) (s : RunState) (h : nat) : RunState :=
  let a := softmax (attention_scores p (q s) (key_cache s) loff pos h) in
  let s := set_att (overwrite (h * cseq p) a (att s)) s in
  set_xb (overwrite (h * head_size p) (attention_out p a (value_cache s) loff pos h) (xb s)) s.

(** One work item: the heads of a range. *)
Definition worker_do_attention (p : Config) (layer pos : nat) (l : list nat) (s : RunState) : RunState :=
  foldl (attention_head p (layer * cseq p * kv_dim p) pos) s l.

Definition multihead_attention (pl : pool) (p : Config) (layer pos : nat) (s : RunState) : RunState :=
  if (Z.of_nat pos <? 32) || negb (thread_pool_initialized pl) then
    worker_do_attention p layer pos (seq 0 (cheads p)) s
  else
    foldl (λ s r, worker_do_attention p layer pos (rows r) s) s
      (attention_items (n_heads p) (g_num_threads pl)).

(** ** One layer *)

(** The rotation of one pair of elements. *)
Definition rotate (fcr fci : F) (i : nat) (vec : list F) : list F :=
  let v0 := rd vec i in
  let v1 := rd vec (i + 1) in
  <[(i + 1)%nat := fadd (fmul v0 fci) (fmul v1 fcr)]> (<[i := fsub (fmul v0 fcr) (fmul v1 fci)]> vec).

(** One iteration of the RoPE loop; [base] is where [s->k] points. *)
Definition rope_step (p : Config) (base pos : nat) (qk : list F * list F) (i : nat) : list F * list F :=
  let head_dim := (i mod head_size p)%nat in
  let freq := fdiv f1 (fpow f10000 (fdiv (fint (Z.of_nat head_dim)) (fint (Z.of_nat (head_size p))))) in
  let val := fmul (fint (Z.of_nat pos)) freq in
  let fcr := fcos val in
  let fci := fsin val in
  (rotate fcr fci i (fst qk),
   if decide (i < kv_dim p)%nat then rotate fcr fci (base + i) (snd qk) else snd qk).

Definition rope (p : Config) (base pos : nat) (qk : list F * list F) : list F * list F :=
  foldl (rope_step p base pos) qk (map (λ j, 2 * j)%nat (seq 0 ((cdim p + 1) / 2))).

Definition residual (x d : list F) (n : nat) : list F :=
  overwrite 0 (map (λ i, fadd (rd x i) (rd d i)) (seq 0 n)) x.

Definition swiglu (hb hb2 : list F) (n : nat) : list F :=
  overwrite 0 (map (λ i,
    let val := rd hb i in
    let val := fmul val (fdiv f1 (fadd f1 (fexp (fneg val)))) in
    fmul val (rd hb2 i)) (seq 0 n)) hb.

(** [matmul] into the cache at [s->k] or [s->v]. *)
Definition matmul_at (pl : pool) (base : nat) (cache x w : list F) (n d : nat) : list F :=
  take base cache ++ matmul pl (drop base cache) x w n d.

(** Where [s->k] and [s->v] point in the caches. *)
Definition kv_base (p : Config) (l pos : nat) : nat := (l * cseq p * kv_dim p + pos * kv_dim p)%nat.

(** [llama_block] up to the attention: normalisation, the three products, RoPE. *)
Definition block_qkv (pl : pool) (p : Config) (layer : llama_layer_t) (s : RunState) (x : list F)
    (l pos : nat) : RunState :=
  let s := set_xb (rmsnorm (xb s) x (rms_att layer) (cdim p)) s in
  let s := set_q (matmul pl (q s) (xb s) (wq layer) (cdim p) (cdim p)) s in
  let s := set_keys (matmul_at pl (kv_base p l pos) (key_cache s) (xb s) (wk layer) (cdim p) (kv_dim p)) s in
  let s := set_values (matmul_at pl (kv_base p l pos) (value_cache s) (xb s) (wv layer) (cdim p) (kv_dim p)) s in
  let qk := rope p (kv_base p l pos) pos (q s, key_cache s) in
  set_keys (snd qk) (set_q (fst qk) s).

(** [llama_block] behind the attention: output product, residual, FFN. *)
Definition block_ffn (pl : pool) (p : Config) (layer : llama_layer_t) (s : RunState) (x : list F)
    : list F * RunState :=
  let d := cdim p in
  let s := set_xb2 (matmul pl (xb2 s) (xb s) (wo layer) d d) s in
  let x := residual x (xb2 s) d in
  let s := set_xb (rmsnorm (xb s) x (rms_ffn layer) d) s in
  let s := set_hb (matmul pl (hb s) (xb s) (w1 layer) d (chidden p)) s in
  let s := set_hb2 (matmul pl (hb2 s) (xb s) (w3 layer) d (chidden p)) s in
  let s := set_hb (swiglu (hb s) (hb2 s) (chidden p)) s in
  let s := set_xb (matmul pl (xb s) (hb s) (w2 layer) (chidden p) d) s in
  (residual x (xb s) d, s).

(** Returns the activation and the run state. *)
Definition llama_block (pl : pool) (layer : llama_layer_t) (p : Config) (s : RunState) (x : list F)
    (kv_layer pos : nat) : list F * RunState :=
  let s := block_qkv pl p layer s x kv_layer pos in
  let s := multihead_attention pl p kv_layer pos s in
  block_ffn pl p layer s x.

(** ** The whole model *)

(** [forward] and a shard run a list of layers; [l] is the index of the first
    in the caches. *)
Fixpoint run_layers (pl : pool) (p : Config) (layers : list llama_layer_t) (s : RunState) (x : list F)
    (l pos : nat) : list F * RunState :=
  match layers with
  | [] => (x, s)
  | layer :: layers =>
      let '(x, s) := llama_block pl layer p s x l pos in
      run_layers pl p layers s x (S l) pos
  end.

End Kernels.

Arguments llama_layer_t : clear implicits.
Arguments RunState : clear implicits.

(** ** Lemmas *)

(** *** The partition covers every item once *)

Lemma partition_rows n t per d :
  0 < per → 0 ≤ t → d ≤ (t + Z.of_nat n) * per →
  flat_map rows (partition_loop n t per d) = seq (Z.to_nat (t * per)) (Z.to_nat (d - t * per)).
Proof.
  intros Hper. revert t. induction n as [|n IH]; intros t Ht Hd.
  { simpl. replace (Z.to_nat (d - t * per)) with 0%nat by lia. done. }
  cbn [partition_loop]. destruct (Z.leb_spec d (t * per)).
  { simpl. replace (Z.to_nat (d - t * per)) with 0%nat by lia. done. }
  cbn [flat_map]. rewrite IH by lia. unfold rows. cbn [fst snd].
  destruct (Z.ltb_spec d (t * per + per)).
  - replace (Z.to_nat (d - (t + 1) * per)) with 0%nat by lia. simpl. by rewrite app_nil_r.
  - replace (t * per + per - t * per) with per by lia.
    replace (Z.to_nat ((t + 1) * per)) with (Z.to_nat (t * per) + Z.to_nat per)%nat by nia.
    rewrite <- seq_app. f_equal. nia.
Qed.

(** Enough threads: with [per] at least the ceiling of [d / g], [g] ranges reach
    the end, so capping the number of threads loses nothing. *)
Lemma active_enough d per g :
  0 < per → 0 < g → 0 ≤ d → d ≤ g * per → d ≤ Z.of_nat (Z.to_nat (active_threads d per g)) * per.
Proof.
  intros Hper Hg Hd Hle. unfold active_threads. destruct (Z.ltb_spec g ((d + per - 1) / per)); [lia|].
  assert (0 ≤ (d + per - 1) / per) by (apply Z.div_pos; lia). rewrite Z2Nat.id by done.
  Z.to_euclidean_division_equations. nia.
Qed.

Lemma ceil_per d g : 0 < g → 0 ≤ d → d ≤ g * ((d + g - 1) / g).
Proof. intros. Z.to_euclidean_division_equations. nia. Qed.

Lemma attention_items_cover h g :
  0 < h → 0 < g → flat_map rows (attention_items h g) = seq 0 (Z.to_nat h).
Proof.
  intros Hh Hg. unfold attention_items. pose proof (ceil_per h g Hg ltac:(lia)).
  assert (0 < (h + g - 1) / g) by nia.
  rewrite partition_rows; [by rewrite Z.sub_0_r|done|done|].
  rewrite Z.add_0_l. apply active_enough; lia.
Qed.

Lemma matmul_items_cover d g :
  0 < d → 0 < g → flat_map rows (matmul_items d g) = seq 0 (Z.to_nat d).
Proof.
  intros Hh Hg. unfold matmul_items. pose proof (ceil_per d g Hg ltac:(lia)).
  set (per := (d + g - 1) / g) in *. assert (per ≤ (per + 15) / 16 * 16) by zdivmod.
  rewrite partition_rows; [by rewrite Z.sub_0_r|nia|done|].
  rewrite Z.add_0_l. apply active_enough; nia.
Qed.

(** *** Buffers *)

Section Buffers.
Context {F : Type} `{FloatOps F}.

Lemma length_overwrite i (vs b : list F) : (i + length vs ≤ length b)%nat → length (overwrite i vs b) = length b.
Proof. intros. unfold overwrite. rewrite !length_app, length_take, length_drop. lia. Qed.

Lemma overwrite_all (vs b : list F) : length vs = length b → overwrite 0 vs b = vs.
Proof. intros Hl. unfold overwrite. simpl. rewrite Hl, drop_all. by rewrite app_nil_r. Qed.

Lemma rd_lookup (l : list F) i v : l !! i = Some v → rd l i = v.
Proof. intros Hl. unfold rd. by rewrite nth_lookup, Hl. Qed.

Lemma rd_drop (l : list F) n i : rd (drop n l) i = rd l (n + i).
Proof. unfold rd. by rewrite !nth_lookup, lookup_drop. Qed.

Lemma rd_take (l : list F) n i : (i < n)%nat → rd (take n l) i = rd l i.
Proof. intros. unfold rd. by rewrite !nth_lookup, lookup_take_lt. Qed.

(** Writing the rows in any order, each once, is writing the rows. *)
Lemma matmul_rows_length (f : nat → F) l out : length (matmul_rows f l out) = length out.
Proof.
  revert out. induction l as [|i l IH]; intros out; [done|]. simpl. by rewrite IH, length_insert.
Qed.

Lemma matmul_rows_lookup (f : nat → F) l out j :
  matmul_rows f l out !! j =
    if decide (j ∈ l ∧ (j < length out)%nat) then Some (f j) else out !! j.
Proof.
  revert out. induction l as [|i l IH]; intros out; cbn [matmul_rows foldl].
  { rewrite decide_False; [done|]. intros [Hj _]. by apply not_elem_of_nil in Hj. }
  unfold matmul_rows in IH. rewrite IH, length_insert.
  destruct (decide (j ∈ l ∧ (j < length out)%nat)) as [[Hj Hl]|Hn].
  { rewrite decide_True; [done|]. split; [by right|done]. }
  destruct (decide (j = i)) as [->|Hne].
  - destruct (decide (i < length out)%nat).
    + rewrite list_lookup_insert_eq by done. rewrite decide_True; [done|]. split; [by left|done].
    + rewrite list_insert_ge by lia. rewrite decide_False; [done|]. tauto.
  - rewrite list_lookup_insert_ne by done. rewrite decide_False; [done|].
    intros [[->|Hj]%elem_of_cons Hl]; tauto.
Qed.

Lemma matmul_rows_seq (f : nat → F) d out :
  (d ≤ length out)%nat → matmul_rows f (seq 0 d) out = map f (seq 0 d) ++ drop d out.
Proof.
  intros Hd. apply list_eq. intros j. rewrite matmul_rows_lookup.
  destruct (decide (j < d)%nat).
  - rewrite decide_True by (rewrite elem_of_seq; lia).
    rewrite lookup_app_l by (rewrite length_map, length_seq; lia).
    by rewrite list_lookup_fmap, lookup_seq_lt by lia.
  - rewrite decide_False by (rewrite elem_of_seq; lia).
    rewrite lookup_app_r by (rewrite length_map, length_seq; lia).
    rewrite length_map, length_seq, lookup_drop. f_equal. lia.
Qed.

Lemma matmul_rows_items (f : nat → F) items out :
  foldl (λ o r, matmul_rows f (rows r) o) out items = matmul_rows f (flat_map rows items) out.
Proof.
  revert out. induction items as [|r items IH]; intros out; [done|]. cbn [foldl flat_map].
  rewrite IH. unfold matmul_rows. by rewrite foldl_app.
Qed.

(** The values of a matrix product. *)
Definition threaded (pl : pool) (d : nat) : bool :=
  negb ((Z.of_nat d <? 128) || negb (thread_pool_initialized pl)).
Definition mm (pl : pool) (x w : list F) (n d : nat) : list F :=
  map (λ i, (if threaded pl d then dot_product_unrolled else dot_plain) (w_row w n i) x n) (seq 0 d).

Lemma length_mm pl x w n d : length (mm pl x w n d) = d.
Proof. unfold mm. by rewrite length_map, length_seq. Qed.

Lemma matmul_values pl xout x w n d :
  0 < g_num_threads pl → (d ≤ length xout)%nat →
  matmul pl xout x w n d = mm pl x w n d ++ drop d xout.
Proof.
  intros Hg Hd. unfold matmul, mm, threaded.
  destruct (Z.ltb_spec (Z.of_nat d) 128); cbn [orb negb]; [by apply matmul_rows_seq|].
  destruct (thread_pool_initialized pl); cbn [negb]; [|by apply matmul_rows_seq].
  rewrite matmul_rows_items, matmul_items_cover by lia. rewrite Nat2Z.id. by apply matmul_rows_seq.
Qed.

Lemma matmul_exact pl xout x w n d :
  0 < g_num_threads pl → length xout = d → matmul pl xout x w n d = mm pl x w n d.
Proof. intros Hg Hd. rewrite matmul_values by lia. by rewrite drop_ge, app_nil_r by lia. Qed.

Lemma matmul_at_values pl base cache x w n d :
  0 < g_num_threads pl → (base + d ≤ length cache)%nat →
  matmul_at pl base cache x w n d = overwrite base (mm pl x w n d) cache.
Proof.
  intros Hg Hd. unfold matmul_at, overwrite. rewrite matmul_values by (rewrite ?length_drop; lia).
  by rewrite drop_drop, length_mm.
Qed.
End Buffers.

(** *** Rows of a cache *)

Section Rows.
Context {F : Type} `{FloatOps F}.

Definition row (n : nat) (c : list F) (r : nat) : list F := take n (drop (r * n) c).

Lemma length_row n (c : list F) r : (r * n + n ≤ length c)%nat → length (row n c r) = n.
Proof. intros. unfold row. rewrite length_take, length_drop. lia. Qed.

Lemma rd_row n (c : list F) r i : (i < n)%nat → rd (row n c r) i = rd c (r * n + i).
Proof. intros. unfold row. by rewrite rd_take, rd_drop. Qed.

Lemma row_overwrite n vs (c : list F) r r' :
  length vs = n → (r * n + n ≤ length c)%nat →
  row n (overwrite (r * n) vs c) r' = if decide (r' = r) then vs else row n c r'.
Proof.
  intros Hv Hc. unfold row, overwrite.
  destruct (decide (r' = r)) as [->|Hne].
  - rewrite drop_app_length' by (rewrite length_take; lia). by rewrite take_app_length'.
  - apply list_eq. intros i. destruct (decide (i < n)%nat) as [Hi|]; [|by rewrite !lookup_take_ge by lia].
    rewrite !lookup_take_lt, !lookup_drop by lia.
    destruct (decide (r' < r)%nat).
    + rewrite lookup_app_l, lookup_take_lt by (rewrite ?length_take; nia). done.
    + rewrite lookup_app_r by (rewrite length_take; nia). rewrite length_take, Nat.min_l by nia.
      rewrite lookup_app_r by nia. rewrite lookup_drop. f_equal. nia.
Qed.

(** *** Dot products look at [n] elements *)

Lemma dot_step_ext (w w' x x' sums : list F) j n :
  length sums = 8%nat → (j + 8 ≤ n)%nat →
  (∀ i, (i < n)%nat → rd w i = rd w' i ∧ rd x i = rd x' i) →
  dot_step w x sums j = dot_step w' x' sums j.
Proof.
  intros Hs Hj Hn. unfold dot_step. apply imap_ext. intros i s Hi.
  apply lookup_lt_Some in Hi. destruct (Hn (j + i)%nat) as [-> ->]; [lia|done].
Qed.

Lemma dot_steps_ext (w w' x x' : list F) n l sums :
  length sums = 8%nat → (∀ j, j ∈ l → (j + 8 ≤ n)%nat) →
  (∀ i, (i < n)%nat → rd w i = rd w' i ∧ rd x i = rd x' i) →
  foldl (dot_step w x) sums l = foldl (dot_step w' x') sums l.
Proof.
  intros Hs Hl Hn. revert sums Hs Hl. induction l as [|j l IH]; intros sums Hs Hl; [done|].
  simpl. rewrite (dot_step_ext w w' x x' sums j n); [|done|apply Hl; by left|done].
  apply IH; [unfold dot_step; by rewrite length_imap|]. intros k Hk. apply Hl. by right.
Qed.

Lemma foldl_ext_in {A B} (f g : A → B → A) a l :
  (∀ a b, b ∈ l → f a b = g a b) → foldl f a l = foldl g a l.
Proof.
  revert a. induction l as [|b l IH]; intros a Hl; [done|]. simpl.
  rewrite Hl by (by left). apply IH. intros a' b' Hb. apply Hl. by right.
Qed.

Lemma dot_unrolled_ext (w w' x x' : list F) n :
  (∀ i, (i < n)%nat → rd w i = rd w' i ∧ rd x i = rd x' i) →
  dot_product_unrolled w x n = dot_product_unrolled w' x' n.
Proof.
  intros Hn. unfold dot_product_unrolled. pose proof (Nat.Div0.mul_div_le n 8).
  rewrite (dot_steps_ext w w' x x' n) by
    (done || (intros j (b & -> & Hb%elem_of_seq)%list_elem_of_fmap; nia)).
  f_equal. apply foldl_ext_in. intros a j Hj%elem_of_seq. destruct (Hn j) as [-> ->]; [lia|done].
Qed.

(** *** Rotation inside a row *)

Lemma rotate_app fcr fci i (A R B : list F) :
  (i + 1 < length R)%nat →
  rotate fcr fci (length A + i) (A ++ R ++ B) = A ++ rotate fcr fci i R ++ B.
Proof.
  intros Hi. unfold rotate.
  assert (Hrd : ∀ k, (k < length R)%nat → rd (A ++ R ++ B) (length A + k) = rd R k).
  { intros k Hk. unfold rd. rewrite app_nth2_plus. by apply app_nth1. }
  rewrite <- Nat.add_assoc, !Hrd by lia.
  rewrite !insert_app_r. rewrite !insert_app_l by (rewrite ?length_insert; lia). done.
Qed.

Lemma length_rotate fcr fci i (v : list F) : length (rotate fcr fci i v) = length v.
Proof. unfold rotate. by rewrite !length_insert. Qed.

(** The rotation of one vector, over the even indices below [n]. *)
Definition evens (p : Config) : list nat := map (λ j, 2 * j)%nat (seq 0 ((cdim p + 1) / 2)).
Definition rope_vec_step (p : Config) (pos n : nat) (vec : list F) (i : nat) : list F :=
  if decide (i < n)%nat then
    let head_dim := (i mod head_size p)%nat in
    let freq := fdiv f1 (fpow f10000 (fdiv (fint (Z.of_nat head_dim)) (fint (Z.of_nat (head_size p))))) in
    let val := fmul (fint (Z.of_nat pos)) freq in
    rotate (fcos val) (fsin val) i vec
  else vec.
Definition rope_vec (p : Config) (pos n : nat) (vec : list F) : list F :=
  foldl (rope_vec_step p pos n) vec (evens p).

Lemma length_rope_vec p pos n vec : length (rope_vec p pos n vec) = length vec.
Proof.
  unfold rope_vec. revert vec. induction (evens p) as [|i l IH]; intros vec; [done|]. simpl. rewrite IH.
  unfold rope_vec_step. case_decide; [apply length_rotate|done].
Qed.

Lemma rope_steps p pos l (qv A R B : list F) :
  length R = kv_dim p → Nat.Even (kv_dim p) →
  Forall (λ i, Nat.Even i ∧ (i < cdim p)%nat) l →
  foldl (rope_step p (length A) pos) (qv, A ++ R ++ B) l =
    (foldl (rope_vec_step p pos (cdim p)) qv l, A ++ foldl (rope_vec_step p pos (kv_dim p)) R l ++ B).
Proof.
  intros HR Hev. revert qv R HR. induction l as [|i l IH]; intros qv R HR Hl; [done|].
  apply Forall_cons in Hl as [[Hi Hd] Hl]. cbn [foldl]. unfold rope_step at 2. cbn [fst snd].
  unfold rope_vec_step at 2 4. rewrite (decide_True (P := (i < cdim p)%nat)) by done.
  case_decide.
  - rewrite rotate_app.
    + rewrite IH by (by rewrite ?length_rotate). done.
    + rewrite HR. destruct Hi as [a ->], Hev as [b Hb]. lia.
  - rewrite IH by done. done.
Qed.

Lemma evens_ok p : Forall (λ i, Nat.Even i ∧ (i < cdim p)%nat) (evens p).
Proof.
  apply Forall_forall. intros i (j & -> & Hj%elem_of_seq)%list_elem_of_fmap.
  split; [by exists j|]. pose proof (Nat.Div0.mul_div_le (cdim p + 1) 2). lia.
Qed.
End Rows.

(** ** Specification of a layer

    A function of the layer's weights, the activation, and the key and value rows
    of the earlier positions; it mentions neither the number of layers nor the
    capacity of the caches. *)
Section Spec.
Context {F : Type} `{FloatOps F}.

Definition norm (x weight : list F) (size : nat) : list F :=
  let ss := foldl (λ s j, fadd s (fmul (rd x j) (rd x j))) f0 (seq 0 size) in
  let ss := fdiv f1 (fsqrt (fadd (fdiv ss (fint (Z.of_nat size))) f1em5)) in
  map (λ j, fmul (rd weight j) (fmul ss (rd x j))) (seq 0 size).

Definition spec_scores (p : Config) (qv : list F) (ks : list (list F)) (pos h : nat) : list F :=
  map (λ t,
    fdiv (dot_product_unrolled (drop (h * head_size p) qv)
            (drop (h / kv_mul p * head_size p) (nth t ks [])) (head_size p))
      (fsqrt (fint (Z.of_nat (head_size p)))))%nat (seq 0 (S pos)).

Definition spec_head (p : Config) (qv : list F) (ks vs : list (list F)) (pos h : nat) : list F :=
  let a := softmax (spec_scores p qv ks pos h) in
  foldl (λ o t,
    imap (λ i b, fadd b (fmul (rd a t) (rd (drop (h / kv_mul p * head_size p) (nth t vs [])) i))) o)%nat
    (replicate (head_size p) f0) (seq 0 (S pos)).

(** The activation and the key and value rows of this position. *)
Definition block_spec (pl : pool) (p : Config) (layer : llama_layer_t F) (ks vs : list (list F))
    (x : list F) (pos : nat) : list F * list F * list F :=
  let d := cdim p in
  let n := norm x (rms_att layer) d in
  let qv := rope_vec p pos d (mm pl n (wq layer) d d) in
  let k := rope_vec p pos (kv_dim p) (mm pl n (wk layer) d (kv_dim p)) in
  let v := mm pl n (wv layer) d (kv_dim p) in
  let o := concat (map (spec_head p qv (ks ++ [k]) (vs ++ [v]) pos) (seq 0 (cheads p))) in
  let y := mm pl o (wo layer) d d in
  let x := map (λ i, fadd (rd x i) (rd y i)) (seq 0 d) in
  let n := norm x (rms_ffn layer) d in
  let a := mm pl n (w1 layer) d (chidden p) in
  let b := mm pl n (w3 layer) d (chidden p) in
  let g := map (λ i, let val := rd a i in
                     fmul (fmul val (fdiv f1 (fadd f1 (fexp (fneg val))))) (rd b i)) (seq 0 (chidden p)) in
  let y := mm pl g (w2 layer) (chidden p) d in
  (map (λ i, fadd (rd x i) (rd y i)) (seq 0 d), k, v).

(** ** Well-formed configurations and states *)

Definition config_ok (p : Config) : Prop :=
  0 < dim p ∧ 0 < hidden_dim p ∧ 0 < n_layers p ∧ 0 < n_heads p ∧ 0 < n_kv_heads p ∧ 0 < seq_len p ∧
  cdim p = (cheads p * head_size p)%nat ∧ cheads p = (kv_mul p * Z.to_nat (n_kv_heads p))%nat ∧
  Nat.Even (kv_dim p).

Definition run_ok (p : Config) (s : RunState F) : Prop :=
  length (xb s) = cdim p ∧ length (xb2 s) = cdim p ∧ length (hb s) = chidden p ∧
  length (hb2 s) = chidden p ∧ length (q s) = cdim p ∧ length (att s) = (cheads p * cseq p)%nat ∧
  length (key_cache s) = (clayers p * cseq p * kv_dim p)%nat ∧
  length (value_cache s) = (clayers p * cseq p * kv_dim p)%nat.

(** The row of position [t] of layer [l]. *)
Definition cache_row (p : Config) (c : list F) (l t : nat) : list F := row (kv_dim p) c (l * cseq p + t).
Definition cache_rows (p : Config) (c : list F) (l n : nat) : list (list F) :=
  map (cache_row p c l) (seq 0 n).

Lemma config_sizes p : config_ok p →
  (0 < head_size p)%nat ∧ (0 < kv_mul p)%nat ∧ kv_dim p = (head_size p * Z.to_nat (n_kv_heads p))%nat.
Proof.
  intros (Hd & _ & _ & Hh & Hk & _ & H1 & H2 & _).
  assert (0 < cdim p)%nat by (unfold cdim; lia). assert (0 < cheads p)%nat by (unfold cheads; lia).
  split_and!; [nia|nia|]. unfold kv_dim.
  replace (cdim p * Z.to_nat (n_kv_heads p))%nat with (head_size p * Z.to_nat (n_kv_heads p) * cheads p)%nat by nia.
  apply Nat.div_mul. lia.
Qed.

(** A query head reads inside the row. *)
Lemma head_in_row p h : config_ok p → (h < cheads p)%nat →
  (h / kv_mul p * head_size p + head_size p ≤ kv_dim p)%nat.
Proof.
  intros Hp Hh. destruct (config_sizes p Hp) as (Hs & Hm & ->).
  destruct Hp as (_ & _ & _ & _ & _ & _ & _ & H2 & _).
  assert (h / kv_mul p < Z.to_nat (n_kv_heads p))%nat by (apply Nat.Div0.div_lt_upper_bound; lia). nia.
Qed.
End Spec.

(** *** Attention *)

Section Attention.
Context {F : Type} `{FloatOps F}.
Context (p : Config) (Hp : config_ok p).

Lemma foldl_ext_inv {A B} (P : A → Prop) (f g : A → B → A) a l :
  P a → (∀ a b, b ∈ l → P a → f a b = g a b ∧ P (g a b)) → foldl f a l = foldl g a l.
Proof.
  revert a. induction l as [|b l IH]; intros a Ha Hl; [done|]. simpl.
  destruct (Hl a b) as [-> Hg]; [by left|done|]. apply IH; [done|]. intros a' b' Hb. apply Hl. by right.
Qed.

Lemma nth_cache_rows (c : list F) l n t : (t < n)%nat → nth t (cache_rows p c l n) [] = cache_row p c l t.
Proof.
  intros Ht. unfold cache_rows. rewrite nth_lookup, list_lookup_fmap, lookup_seq_lt by lia. done.
Qed.

(** An element of a head's slice, in the cache and in the row. *)
Lemma rd_head (c : list F) l n t h i : (t < n)%nat → (h < cheads p)%nat → (i < head_size p)%nat →
  rd (drop (l * cseq p * kv_dim p + t * kv_dim p + h / kv_mul p * head_size p) c) i =
  rd (drop (h / kv_mul p * head_size p) (nth t (cache_rows p c l n) [])) i.
Proof.
  intros Ht Hh Hi. pose proof (head_in_row p h Hp Hh). rewrite nth_cache_rows by done.
  unfold cache_row. rewrite !rd_drop, rd_row by lia. f_equal. nia.
Qed.

Lemma scores_spec (s : RunState F) l pos h : (h < cheads p)%nat →
  attention_scores p (q s) (key_cache s) (l * cseq p * kv_dim p) pos h =
  spec_scores p (q s) (cache_rows p (key_cache s) l (S pos)) pos h.
Proof.
  intros Hh. unfold attention_scores, spec_scores. apply map_ext_in. intros t Ht%in_seq. f_equal.
  apply dot_unrolled_ext. intros i Hi. split; [done|]. apply rd_head; lia.
Qed.

Lemma out_spec a (c : list F) l pos h : (h < cheads p)%nat →
  attention_out p a c (l * cseq p * kv_dim p) pos h =
  foldl (λ o t, imap (λ i b, fadd b (fmul (rd a t)
      (rd (drop (h / kv_mul p * head_size p) (nth t (cache_rows p c l (S pos)) [])) i))) o)%nat
    (replicate (head_size p) f0) (seq 0 (S pos)).
Proof.
  intros Hh. unfold attention_out. apply (foldl_ext_inv (λ o, length o = head_size p)).
  { apply length_replicate. }
  intros o t Ht%elem_of_seq Ho. split; [|by rewrite length_imap].
  apply imap_ext. intros i b Hi%lookup_lt_Some. f_equal. f_equal. apply rd_head; lia.
Qed.

Definition head_value (s : RunState F) (l pos h : nat) : list F :=
  spec_head p (q s) (cache_rows p (key_cache s) l (S pos)) (cache_rows p (value_cache s) l (S pos)) pos h.

(** What a head leaves alone. *)
Definition same_but_heads (s s' : RunState F) : Prop :=
  xb2 s' = xb2 s ∧ hb s' = hb s ∧ hb2 s' = hb2 s ∧ q s' = q s ∧ key_cache s' = key_cache s ∧
  value_cache s' = value_cache s ∧ length (att s') = length (att s).

Lemma head_step s l pos h :
  (h < cheads p)%nat → (pos < cseq p)%nat → length (att s) = (cheads p * cseq p)%nat →
  let s' := attention_head p (l * cseq p * kv_dim p) pos s h in
  same_but_heads s s' ∧ xb s' = overwrite (h * head_size p) (head_value s l pos h) (xb s).
Proof.
  intros Hh Hpos Ha s'. unfold s', attention_head. split.
  - split_and!; try done. cbn [att set_xb set_att]. apply length_overwrite.
    unfold softmax. rewrite !length_map. unfold attention_scores. rewrite length_map, length_seq. nia.
  - cbn [xb set_xb set_att q key_cache value_cache]. f_equal.
    unfold head_value, spec_head. rewrite out_spec, scores_spec by done. done.
Qed.

(** The heads, in any order, write their values. *)
Lemma heads_run l pos hs s :
  (∀ h, h ∈ hs → (h < cheads p)%nat) → (pos < cseq p)%nat → length (att s) = (cheads p * cseq p)%nat →
  let s' := worker_do_attention p l pos hs s in
  same_but_heads s s' ∧
  xb s' = foldl (λ b h, overwrite (h * head_size p) (head_value s l pos h) b) (xb s) hs.
Proof.
  intros Hh Hpos. unfold worker_do_attention. cbv zeta. revert s Hh.
  induction hs as [|h hs IH]; intros s Hh Ha.
  { split; [by split_and!|done]. }
  destruct (head_step s l pos h) as [Hs Hx]; [apply Hh; by left|done|done|].
  cbn [foldl]. set (s1 := attention_head _ _ _ s h) in *.
  destruct Hs as (H1 & H2 & H3 & H4 & H5 & H6 & H7).
  assert (Hh' : ∀ h', h' ∈ hs → (h' < cheads p)%nat) by (intros h' Hin; apply Hh; by right).
  assert (Ha' : length (att s1) = (cheads p * cseq p)%nat) by congruence.
  destruct (IH s1 Hh' Ha') as [Hs' Hx'].
  destruct Hs' as (G1 & G2 & G3 & G4 & G5 & G6 & G7). split; [split_and!; congruence|].
  rewrite Hx', Hx. unfold head_value. by rewrite H4, H5, H6.
Qed.

Lemma overwrite_heads n (f : nat → list F) k b :
  (∀ h, length (f h) = n) → (k * n ≤ length b)%nat →
  foldl (λ b h, overwrite (h * n) (f h) b) b (seq 0 k) = concat (map f (seq 0 k)) ++ drop (k * n) b.
Proof.
  intros Hf. induction k as [|k IH]; intros Hk; [done|].
  rewrite seq_S, foldl_app, map_app, concat_app, IH by lia. cbn [foldl map concat].
  assert (Hl : length (concat (map f (seq 0 k))) = (k * n)%nat).
  { clear IH Hk. induction k as [|k IHk]; [done|]. rewrite seq_S, map_app, concat_app, length_app, IHk.
    simpl. rewrite app_nil_r, Hf. lia. }
  unfold overwrite. simpl (0 + k)%nat. rewrite take_app_length' by done. rewrite app_nil_r, Hf, <- !app_assoc.
  rewrite drop_app_ge by lia. rewrite drop_drop, Hl. do 3 f_equal. lia.
Qed.

Lemma length_concat_heads (f : nat → list F) :
  (∀ h, length (f h) = head_size p) → cdim p = (cheads p * head_size p)%nat →
  length (concat (map f (seq 0 (cheads p)))) = cdim p.
Proof.
  intros Hf ->. induction (cheads p) as [|k IHk]; [done|].
  rewrite seq_S, map_app, concat_app, length_app, IHk. simpl. rewrite app_nil_r, Hf. lia.
Qed.

Lemma length_spec_head qv ks vs pos h : length (spec_head p qv ks vs pos h) = head_size p.
Proof.
  unfold spec_head. set (a := softmax _). generalize (seq 0 (S pos)). intros ts.
  assert (Hi : ∀ o : list F, length o = head_size p → length (foldl (λ o t,
    imap (λ i b, fadd b (fmul (rd a t) (rd (drop (h / kv_mul p * head_size p) (nth t vs [])) i))) o)%nat
    o ts) = head_size p).
  { induction ts as [|t ts IH]; intros o Ho; [done|]. simpl. apply IH. by rewrite length_imap. }
  apply Hi, length_replicate.
Qed.

(** Over the pool the heads run in the order of the loop. *)
Lemma attention_sequential pl l pos (s : RunState F) :
  0 < g_num_threads pl → multihead_attention pl p l pos s = worker_do_attention p l pos (seq 0 (cheads p)) s.
Proof.
  intros Hg. unfold multihead_attention. destruct (_ || _); [done|].
  assert (Hi : ∀ items s0, foldl (λ s r, worker_do_attention p l pos (rows r) s) s0 items =
    worker_do_attention p l pos (flat_map rows items) s0).
  { induction items as [|r items IH]; intros s0; [done|]. cbn [foldl flat_map]. rewrite IH.
    unfold worker_do_attention. by rewrite foldl_app. }
  rewrite Hi, attention_items_cover; [done|apply Hp|done].
Qed.

(** Sequential or over the pool, the attention is the concatenation of the
    heads. *)
Lemma attention_run pl l pos (s : RunState F) :
  0 < g_num_threads pl → run_ok p s → (pos < cseq p)%nat →
  let s' := multihead_attention pl p l pos s in
  same_but_heads s s' ∧ xb s' = concat (map (head_value s l pos) (seq 0 (cheads p))).
Proof.
  intros Hg (Hxb & _ & _ & _ & _ & Ha & _) Hpos s'.
  unfold s'. rewrite attention_sequential by done. clear s'.
  destruct (heads_run l pos (seq 0 (cheads p)) s) as [Hs Hx]; [|done|done|].
  { intros h Hh%elem_of_seq. lia. }
  split; [done|]. rewrite Hx. destruct Hp as (_ & _ & _ & _ & _ & _ & Hd & _).
  assert (Hl : ∀ h, length (head_value s l pos h) = head_size p) by (intros h; unfold head_value; apply length_spec_head).
  rewrite (overwrite_heads (head_size p) (head_value s l pos) (cheads p) (xb s) Hl) by lia.
  by rewrite drop_ge, app_nil_r by lia.
Qed.
End Attention.

(** *** One layer *)

Ltac bufs := cbn [rs_x xb xb2 hb hb2 q att logits key_cache value_cache
  set_x set_xb set_xb2 set_hb set_hb2 set_q set_att set_logits set_keys set_values].

Section Block.
Context {F : Type} `{FloatOps F}.
Context (pl : pool) (Hg : 0 < g_num_threads pl) (p : Config) (Hp : config_ok p).

Lemma kv_base_row l pos : kv_base p l pos = ((l * cseq p + pos) * kv_dim p)%nat.
Proof. unfold kv_base. lia. Qed.

Lemma kv_base_fits l pos : (l < clayers p)%nat → (pos < cseq p)%nat →
  (kv_base p l pos + kv_dim p ≤ clayers p * cseq p * kv_dim p)%nat.
Proof.
  intros. unfold kv_base.
  assert (l * cseq p + pos + 1 ≤ clayers p * cseq p)%nat by nia. nia.
Qed.

Lemma rmsnorm_exact (o x w : list F) n : length o = n → rmsnorm o x w n = norm x w n.
Proof. intros Ho. unfold rmsnorm. rewrite overwrite_all; [done|]. by rewrite length_map, length_seq. Qed.

Lemma residual_exact (x d : list F) n : length x = n → residual x d n = map (λ i, fadd (rd x i) (rd d i)) (seq 0 n).
Proof. intros Hx. unfold residual. apply overwrite_all. by rewrite length_map, length_seq. Qed.

Lemma rope_overwrite base pos (qv R c : list F) :
  length R = kv_dim p → (base ≤ length c)%nat →
  rope p base pos (qv, overwrite base R c) =
    (rope_vec p pos (cdim p) qv, overwrite base (rope_vec p pos (kv_dim p) R) c).
Proof.
  intros HR Hb. unfold overwrite. rewrite length_rope_vec.
  replace base with (length (take base c)) at 1 by (rewrite length_take; lia).
  unfold rope. rewrite rope_steps; [done|done|apply Hp|apply evens_ok].
Qed.

(** The rows after the row of this position was written. *)
Lemma cache_row_written c l pos l' t (k : list F) :
  length c = (clayers p * cseq p * kv_dim p)%nat → (l < clayers p)%nat → (pos < cseq p)%nat →
  length k = kv_dim p → (t < cseq p)%nat →
  cache_row p (overwrite (kv_base p l pos) k c) l' t =
    if decide (l' = l ∧ t = pos) then k else cache_row p c l' t.
Proof.
  intros Hc Hl Hpos Hk Ht. unfold cache_row. pose proof (kv_base_fits l pos Hl Hpos) as Hf.
  rewrite kv_base_row in *. rewrite row_overwrite by lia.
  destruct (decide (l' = l ∧ t = pos)) as [[-> ->]|Hne]; [by rewrite decide_True|].
  rewrite decide_False; [done|]. intros E. apply Hne.
  assert (l' = l) by (destruct (decide (l' < l)%nat); [nia|]; destruct (decide (l < l')%nat); nia).
  subst l'. split; [done|lia].
Qed.

Lemma cache_rows_written c l pos (k : list F) :
  length c = (clayers p * cseq p * kv_dim p)%nat → (l < clayers p)%nat → (pos < cseq p)%nat →
  length k = kv_dim p →
  cache_rows p (overwrite (kv_base p l pos) k c) l (S pos) = cache_rows p c l pos ++ [k].
Proof.
  intros Hc Hl Hpos Hk. unfold cache_rows. rewrite seq_S, map_app. f_equal.
  - apply map_ext_in. intros t Ht%in_seq. rewrite cache_row_written by (done || lia).
    rewrite decide_False by lia. done.
  - simpl. rewrite cache_row_written by (done || lia). by rewrite decide_True.
Qed.

Lemma block_qkv_run layer s x l pos :
  run_ok p s → (l < clayers p)%nat → (pos < cseq p)%nat →
  let n := norm x (rms_att layer) (cdim p) in
  let k := rope_vec p pos (kv_dim p) (mm pl n (wk layer) (cdim p) (kv_dim p)) in
  let v := mm pl n (wv layer) (cdim p) (kv_dim p) in
  let s' := block_qkv pl p layer s x l pos in
  run_ok p s' ∧ q s' = rope_vec p pos (cdim p) (mm pl n (wq layer) (cdim p) (cdim p)) ∧
  key_cache s' = overwrite (kv_base p l pos) k (key_cache s) ∧
  value_cache s' = overwrite (kv_base p l pos) v (value_cache s) ∧
  length k = kv_dim p ∧ length v = kv_dim p.
Proof.
  intros (Hxb & Hxb2 & Hhb & Hhb2 & Hq & Ha & Hk & Hv) Hl Hpos n k v s'.
  pose proof (kv_base_fits l pos Hl Hpos) as Hf.
  assert (Hlk : length k = kv_dim p) by (unfold k; by rewrite length_rope_vec, length_mm).
  assert (Hlv : length v = kv_dim p) by apply length_mm.
  assert (E : block_qkv pl p layer s x l pos =
    set_keys (overwrite (kv_base p l pos) k (key_cache s))
      (set_q (rope_vec p pos (cdim p) (mm pl n (wq layer) (cdim p) (cdim p)))
        (set_values (overwrite (kv_base p l pos) v (value_cache s))
          (set_keys (matmul_at pl (kv_base p l pos) (key_cache s) n (wk layer) (cdim p) (kv_dim p))
            (set_q (matmul pl (q s) n (wq layer) (cdim p) (cdim p)) (set_xb n s)))))).
  { unfold block_qkv. bufs. rewrite rmsnorm_exact by done. fold n. bufs.
    rewrite (matmul_at_values pl _ (value_cache s)), (matmul_at_values pl _ (key_cache s)),
      (matmul_exact pl (q s)) by (done || lia).
    rewrite rope_overwrite by (rewrite ?length_mm; done || lia). done. }
  unfold s'. rewrite E. bufs. split_and!; try done.
  unfold run_ok. bufs. rewrite !length_overwrite by lia. split_and!; try done.
  - unfold n, norm. by rewrite length_map, length_seq.
  - by rewrite length_rope_vec, length_mm.
Qed.

(** What the second half computes from the attention's output. *)
Definition after_attention (layer : llama_layer_t F) (o x : list F) : list F :=
  let d := cdim p in
  let y := mm pl o (wo layer) d d in
  let x := map (λ i, fadd (rd x i) (rd y i)) (seq 0 d) in
  let n := norm x (rms_ffn layer) d in
  let a := mm pl n (w1 layer) d (chidden p) in
  let b := mm pl n (w3 layer) d (chidden p) in
  let g := map (λ i, let val := rd a i in
                     fmul (fmul val (fdiv f1 (fadd f1 (fexp (fneg val))))) (rd b i)) (seq 0 (chidden p)) in
  let y := mm pl g (w2 layer) (chidden p) d in
  map (λ i, fadd (rd x i) (rd y i)) (seq 0 d).

Lemma block_ffn_run layer s x :
  run_ok p s → length x = cdim p →
  let r := block_ffn pl p layer s x in
  fst r = after_attention layer (xb s) x ∧ run_ok p (snd r) ∧
  key_cache (snd r) = key_cache s ∧ value_cache (snd r) = value_cache s.
Proof.
  intros (Hxb & Hxb2 & Hhb & Hhb2 & Hq & Ha & Hk & Hv) Hx r.
  set (y := mm pl (xb s) (wo layer) (cdim p) (cdim p)).
  set (x1 := map (λ i, fadd (rd x i) (rd y i)) (seq 0 (cdim p))).
  set (n := norm x1 (rms_ffn layer) (cdim p)).
  set (a := mm pl n (w1 layer) (cdim p) (chidden p)).
  set (b := mm pl n (w3 layer) (cdim p) (chidden p)).
  assert (Hx1 : length x1 = cdim p) by (unfold x1; by rewrite length_map, length_seq).
  assert (Hn : length n = cdim p) by (unfold n, norm; by rewrite length_map, length_seq).
  assert (Ha' : length a = chidden p) by apply length_mm.
  assert (Esw : swiglu a b (chidden p) = map (λ i, let val := rd a i in
    fmul (fmul val (fdiv f1 (fadd f1 (fexp (fneg val))))) (rd b i)) (seq 0 (chidden p))).
  { unfold swiglu. apply overwrite_all. by rewrite length_map, length_seq. }
  set (g := map _ _) in Esw. assert (Hlg : length g = chidden p) by (unfold g; by rewrite length_map, length_seq).
  assert (E : r = (map (λ i, fadd (rd x1 i) (rd (mm pl g (w2 layer) (chidden p) (cdim p)) i)) (seq 0 (cdim p)),
    set_xb (mm pl g (w2 layer) (chidden p) (cdim p)) (set_hb g (set_hb2 b (set_hb a (set_xb n (set_xb2 y s))))))).
  { unfold r, block_ffn. bufs. rewrite (matmul_exact pl (xb2 s)) by done. fold y.
    rewrite (residual_exact x y) by done. fold x1. rewrite rmsnorm_exact by done. fold n.
    rewrite (matmul_exact pl (hb s)), (matmul_exact pl (hb2 s)) by done. fold a b. rewrite Esw.
    rewrite matmul_exact by done. by rewrite (residual_exact x1) by done. }
  rewrite E. cbn [fst snd]. bufs. split; [done|]. split; [|done].
  unfold run_ok. bufs. split_and!; try done; apply length_mm.
Qed.

(** A layer refines its specification, and touches one row of each cache. *)
Lemma block_run layer s x l pos :
  run_ok p s → length x = cdim p → (l < clayers p)%nat → (pos < cseq p)%nat →
  let r := llama_block pl layer p s x l pos in
  let '(x', k, v) := block_spec pl p layer (cache_rows p (key_cache s) l pos)
                       (cache_rows p (value_cache s) l pos) x pos in
  fst r = x' ∧ length x' = cdim p ∧ run_ok p (snd r) ∧ length k = kv_dim p ∧ length v = kv_dim p ∧
  ∀ l' t, (t < cseq p)%nat →
    cache_row p (key_cache (snd r)) l' t =
      (if decide (l' = l ∧ t = pos) then k else cache_row p (key_cache s) l' t) ∧
    cache_row p (value_cache (snd r)) l' t =
      (if decide (l' = l ∧ t = pos) then v else cache_row p (value_cache s) l' t).
Proof.
  intros Hs Hx Hl Hpos r.
  destruct (block_qkv_run layer s x l pos Hs Hl Hpos) as (Hs1 & Hq1 & Hk1 & Hv1 & Hlk & Hlv).
  unfold r, llama_block. cbv zeta. set (s1 := block_qkv pl p layer s x l pos) in *.
  destruct (attention_run p Hp pl l pos s1 Hg Hs1 Hpos) as [(A1 & A2 & A3 & A4 & A5 & A6 & A7) Hxb].
  set (s2 := multihead_attention pl p l pos s1) in *.
  assert (Hs2 : run_ok p s2).
  { destruct Hs1 as (B1 & B2 & B3 & B4 & B5 & B6 & B7 & B8). unfold run_ok. split_and!; try congruence.
    rewrite Hxb. apply length_concat_heads; [|apply Hp]. intros h. unfold head_value. apply length_spec_head. }
  destruct (block_ffn_run layer s2 x Hs2 Hx) as (Hr & Hok & Hk2 & Hv2).
  destruct Hs as (_ & _ & _ & _ & _ & _ & Hkl & Hvl).
  unfold block_spec. cbv zeta. split; [|split].
  - rewrite Hr, Hxb. unfold after_attention. cbv zeta. repeat f_equal; unfold head_value;
      rewrite Hq1, Hk1, Hv1, !cache_rows_written by done; done.
  - by rewrite length_map, length_seq.
  - do 3 (split; [done|]). intros l' t Ht. rewrite Hk2, Hv2, A5, A6, Hk1, Hv1.
    by rewrite !cache_row_written by done.
Qed.
End Block.

(** *** The order of the work items *)

Section Order.
Context {F : Type} `{FloatOps F}.

Lemma overwrite_comm i j (a b l : list F) :
  (i + length a ≤ j)%nat → (j + length b ≤ length l)%nat →
  overwrite i a (overwrite j b l) = overwrite j b (overwrite i a l).
Proof.
  intros Hi Hj.
  assert (Hlk : ∀ k (v m : list F) n, (k + length v ≤ length m)%nat → overwrite k v m !! n =
    if decide (k ≤ n < k + length v)%nat then v !! (n - k)%nat else m !! n).
  { intros k v m n Hk. unfold overwrite. case_decide.
    - rewrite lookup_app_r, lookup_app_l; rewrite length_take, Nat.min_l by lia; [done|lia|lia].
    - destruct (decide (n < k)%nat).
      + rewrite lookup_app_l by (rewrite length_take; lia). by rewrite lookup_take_lt.
      + rewrite lookup_app_r, lookup_app_r by (rewrite ?length_take; lia).
        rewrite length_take, lookup_drop. f_equal. lia. }
  apply list_eq. intros n. rewrite !Hlk by (rewrite ?length_overwrite; lia).
  repeat case_decide; try done; lia.
Qed.

Context (p : Config) (Hp : config_ok p).

(** Two heads commute: each writes its own rows and reads what neither writes. *)
Lemma heads_commute l pos (s : RunState F) h1 h2 :
  (h1 < h2 < cheads p)%nat → (pos < cseq p)%nat →
  length (att s) = (cheads p * cseq p)%nat → length (xb s) = cdim p →
  attention_head p l pos (attention_head p l pos s h1) h2 =
  attention_head p l pos (attention_head p l pos s h2) h1.
Proof.
  intros Hh Hpos Ha Hx. pose proof Hp as (_ & _ & _ & _ & _ & _ & Hd & _).
  unfold attention_head. cbv zeta. cbn [q key_cache value_cache att xb set_xb set_att].
  assert (Hs : ∀ h, length (softmax (attention_scores p (q s) (key_cache s) l pos h)) = S pos).
  { intros h. unfold softmax, attention_scores. by rewrite !length_map, length_seq. }
  assert (Ho : ∀ a h, length (attention_out p a (value_cache s) l pos h) = head_size p).
  { intros a h. unfold attention_out. generalize (seq 0 (S pos)). intros ts.
    assert (Hi : ∀ o : list F, length o = head_size p → length (foldl (λ o t,
      imap (λ i b, fadd b (fmul (rd a t) (rd (drop (l + t * kv_dim p + h / kv_mul p * head_size p)
        (value_cache s)) i))) o)%nat o ts) = head_size p).
    { induction ts as [|t ts IH]; intros o Ho; [done|]. simpl. apply IH. by rewrite length_imap. }
    apply Hi, length_replicate. }
  unfold set_xb, set_att. bufs. apply (f_equal2 (λ a b, MkRunState (rs_x s) a (xb2 s) (hb s) (hb2 s) (q s) b
    (logits s) (key_cache s) (value_cache s))).
  - symmetry. apply overwrite_comm; rewrite Ho; nia.
  - symmetry. apply overwrite_comm; rewrite Hs; nia.
Qed.

(** The heads in any order, each once. *)
Lemma heads_permute l pos hs hs' (s : RunState F) :
  Permutation hs hs' → NoDup hs → Forall (λ h, h < cheads p)%nat hs → (pos < cseq p)%nat → run_ok p s →
  worker_do_attention p l pos hs s = worker_do_attention p l pos hs' s.
Proof.
  intros Hperm. unfold worker_do_attention.
  assert (G : ∀ h (s : RunState F), (h < cheads p)%nat → (pos < cseq p)%nat → run_ok p s →
    run_ok p (attention_head p (l * cseq p * kv_dim p) pos s h)).
  { intros h s0 Hh Hpos Hs0. destruct (head_step p Hp s0 l pos h Hh Hpos) as [(S1 & S2 & S3 & S4 & S5 & S6 & S7) Hx].
    { apply Hs0. }
    cbv zeta in *. set (s1 := attention_head p (l * cseq p * kv_dim p) pos s0 h) in *.
    destruct Hs0 as (B1 & B2 & B3 & B4 & B5 & B6 & B7 & B8). pose proof Hp as (_ & _ & _ & _ & _ & _ & Hd & _).
    unfold run_ok. split_and!; try congruence. rewrite Hx, length_overwrite; [done|].
    unfold head_value. rewrite length_spec_head. nia. }
  revert s. induction Hperm as [|h a b Hperm IH|h1 h2 a|a b c H1 IH1 H2 IH2]; intros s Hnd Hall Hpos Hs.
  - done.
  - apply NoDup_cons in Hnd as [_ Hnd]. apply Forall_cons in Hall as [Hh Hall].
    cbn [foldl]. apply IH; try done. by apply G.
  - cbn [foldl]. f_equal. apply NoDup_cons in Hnd as [Hne _]. rewrite not_elem_of_cons in Hne.
    apply Forall_cons in Hall as [Hb Hall]. apply Forall_cons in Hall as [Ha _].
    destruct (decide (h1 < h2)%nat).
    + symmetry. apply heads_commute; [lia|done|apply Hs|apply Hs].
    + apply heads_commute; [lia|done|apply Hs|apply Hs].
  - rewrite IH1 by done. apply IH2; try done; [by rewrite <- H1|by rewrite <- H1].
Qed.
End Order.

(** ** Properties *)

(** C38: The thread pool computes what a sequential loop computes, whatever the
    scheduling.  The ranges handed to the threads contain every row of the
    product and every head of the attention exactly once, and the rows or heads
    finished in any order leave the buffers that the code leaves. *)
Theorem threads_any_order {F : Type} `{FloatOps F} (pl : pool) (p : Config) :
  0 < g_num_threads pl → config_ok p →
  (∀ (xout x w : list F) n d rs,
     (0 < d ≤ length xout)%nat → Permutation rs (flat_map rows (matmul_items (Z.of_nat d) (g_num_threads pl))) →
     Permutation rs (seq 0 d) ∧
     ((128 ≤ d)%nat → thread_pool_initialized pl = true →
      matmul_rows (λ i, dot_product_unrolled (w_row w n i) x n) rs xout = matmul pl xout x w n d)) ∧
  (∀ (s : RunState F) l pos hs,
     run_ok p s → (pos < cseq p)%nat →
     Permutation hs (flat_map rows (attention_items (n_heads p) (g_num_threads pl))) →
     Permutation hs (seq 0 (cheads p)) ∧
     worker_do_attention p l pos hs s = multihead_attention pl p l pos s).
Proof.
  intros Hg Hp. split.
  - intros xout x w n d rs Hd Hrs.
    rewrite matmul_items_cover, Nat2Z.id in Hrs by lia. split; [done|]. intros Hlong Hinit.
    rewrite matmul_values by lia. unfold mm, threaded.
    rewrite (proj2 (Z.ltb_ge _ _)), Hinit by lia. cbn [orb negb].
    rewrite <- matmul_rows_seq by lia. apply list_eq. intros j. rewrite !matmul_rows_lookup.
    apply decide_ext. by rewrite Hrs.
  - intros s l pos hs Hs Hpos Hhs. pose proof Hp as (_ & _ & _ & Hh & _).
    rewrite attention_items_cover in Hhs by done. fold (cheads p) in Hhs. split; [done|].
    rewrite attention_sequential by done. apply heads_permute; try done; rewrite Hhs; [apply NoDup_seq|].
    apply Forall_forall. intros h Hin%elem_of_seq. lia.
Qed.

(** The integers as a domain of concrete runs. *)
Definition int_floats : FloatOps Z := {|
  f0 := 0; f1 := 1; f10000 := 10000; fadd := Z.add; fsub := Z.sub; fmul := Z.mul; fdiv := Z.div;
  fneg := Z.opp; fexp := Z.succ; fsqrt := Z.sqrt; fpow := Z.pow; fcos := Z.succ; fsin := Z.pred;
  fint := id; fgt := Z.gtb; f1em5 := 1 |}.
#[local] Existing Instance int_floats.

Definition tiny_config : Config := MkConfig 4 2 1 2 1 3 4.
Definition tiny_state : RunState Z :=
  let z n := replicate n 1 in
  MkRunState (z 4%nat) (z 4%nat) (z 4%nat) (z 2%nat) (z 2%nat) (z 4%nat) (z 8%nat) (z 3%nat) (z 8%nat) (z 8%nat).

Lemma tiny_ok : config_ok tiny_config ∧ run_ok tiny_config tiny_state.
Proof. split; vm_compute; repeat split. by exists 1%nat. Qed.

Lemma threads_any_order_witness :
  worker_do_attention tiny_config 0 2 [1; 0]%nat tiny_state =
    multihead_attention (Pool true 2) tiny_config 0 2 tiny_state ∧
  Permutation (rev (seq 0 200)) (seq 0 200).
Proof.
  destruct (threads_any_order (F := Z) (Pool true 2) tiny_config ltac:(reflexivity) (proj1 tiny_ok)) as [H1 H2].
  split.
  - apply (H2 tiny_state 0%nat 2%nat [1; 0]%nat (proj2 tiny_ok)); [vm_compute; lia|]. apply perm_swap.
  - apply (proj1 (H1 (replicate 200 0) [] [] 0%nat 200%nat (rev (seq 0 200)) ltac:(vm_compute; lia)
      ltac:(symmetry; exact (Permutation_rev _)))).
Defined.

(** C39: One transformer layer refines its specification.  [block_spec] maps the
    key and value rows of the earlier positions and the activation to the new
    activation and the new rows, with no buffers and no threads.  The code
    computes that activation, stores those rows at the position, leaves every
    other row of both caches as it was, and keeps the sizes of its buffers. *)
Theorem llama_block_refines {F : Type} `{FloatOps F} (pl : pool) (p : Config) layer (s : RunState F) x l pos :
  0 < g_num_threads pl → config_ok p → run_ok p s → length x = cdim p →
  (l < clayers p)%nat → (pos < cseq p)%nat →
  let r := llama_block pl layer p s x l pos in
  let '(x', k, v) := block_spec pl p layer (cache_rows p (key_cache s) l pos)
                       (cache_rows p (value_cache s) l pos) x pos in
  fst r = x' ∧ length x' = cdim p ∧ run_ok p (snd r) ∧
  ∀ l' t, (t < cseq p)%nat →
    cache_row p (key_cache (snd r)) l' t =
      (if decide (l' = l ∧ t = pos) then k else cache_row p (key_cache s) l' t) ∧
    cache_row p (value_cache (snd r)) l' t =
      (if decide (l' = l ∧ t = pos) then v else cache_row p (value_cache s) l' t).
Proof.
  intros Hg Hp Hs Hx Hl Hpos. pose proof (block_run pl Hg p Hp layer s x l pos Hs Hx Hl Hpos) as B.
  cbv zeta in *. destruct (block_spec _ _ _ _ _ _ _) as [[x' k] v]. destruct B as (B1 & B2 & B3 & _ & _ & B4). done.
Qed.

Lemma llama_block_refines_witness :
  let layer := LlamaLayer [1; 2; 3; 4] (seqZ 0 16) (seqZ 1 8) (seqZ 2 8) (seqZ 3 16) [4; 3; 2; 1]
    (seqZ 4 8) (seqZ 5 8) (seqZ 6 8) in
  fst (llama_block (Pool false 1) layer tiny_config tiny_state [1; 5; 2; 4] 0 1) =
  fst (fst (block_spec (Pool false 1) tiny_config layer [[1; 1]] [[1; 1]] [1; 5; 2; 4] 1)).
Proof.
  intros layer.
  pose proof (llama_block_refines (Pool false 1) tiny_config layer tiny_state [1; 5; 2; 4] 0 1 ltac:(reflexivity)
    (proj1 tiny_ok) (proj2 tiny_ok) ltac:(reflexivity) ltac:(vm_compute; lia) ltac:(vm_compute; lia)) as B.
  cbv zeta in B. change (cache_rows tiny_config (key_cache tiny_state) 0 1) with [[1; 1]] in B.
  change (cache_rows tiny_config (value_cache tiny_state) 0 1) with [[1; 1]] in B.
  destruct (block_spec _ _ _ _ _ _ _) as [[x' k] v]. apply B.
Defined.
