(* ===== verification/Checkpoint.v ===== *)
(** The layout of a checkpoint, as three pieces of code compute it: the
    single-node loader ([memory_map_weights], [llama_layer_at],
    user/llama_core.c), the shard loader ([ckpt_geometry], user/shard.c) and the
    master's loader ([llama_head_tail_offsets], user/llama_core.c).

    Offsets are in floats from the first weight, at the widths of the code:
    [int] products wrap at 32 bits, [uint64] ones at 64. *)
From S2P Require Import Prelude Llama.

Definition add64 (a b : Z) : Z := u64 (a + b).
Definition mul64 (a b : Z) : Z := u64 (a * b).
Definition mul32 (a b : Z) : Z := s32 (a * b).

(** ** The single-node loader *)

Record weights_t := Weights {
  token_embedding_table : Z; rms_att_weight : Z; wq_at : Z; wk_at : Z; wv_at : Z; wo_at : Z;
  rms_ffn_weight : Z; w1_at : Z; w2_at : Z; w3_at : Z; rms_final_weight : Z; wcls_at : Z;
}.

Definition memory_map_weights (p : Config) (ptr : Z) (shared : bool) : weights_t :=
  let hs := Z.quot (dim p) (n_heads p) in
  let nl := u64 (n_layers p) in
  let tok := ptr in
  let ptr := add64 ptr (mul32 (vocab_size p) (dim p)) in
  let rms_att := ptr in
  let ptr := add64 ptr (mul64 nl (dim p)) in
  let wq := ptr in
  let ptr := add64 ptr (mul64 (mul64 nl (dim p)) (mul32 (n_heads p) hs)) in
  let wk := ptr in
  let ptr := add64 ptr (mul64 (mul64 nl (dim p)) (mul32 (n_kv_heads p) hs)) in
  let wv := ptr in
  let ptr := add64 ptr (mul64 (mul64 nl (dim p)) (mul32 (n_kv_heads p) hs)) in
  let wo := ptr in
  let ptr := add64 ptr (mul64 (mul64 nl (mul32 (n_heads p) hs)) (dim p)) in
  let rms_ffn := ptr in
  let ptr := add64 ptr (mul64 nl (dim p)) in
  let w1 := ptr in
  let ptr := add64 ptr (mul64 (mul64 nl (dim p)) (hidden_dim p)) in
  let w2 := ptr in
  let ptr := add64 ptr (mul64 (mul64 nl (hidden_dim p)) (dim p)) in
  let w3 := ptr in
  let ptr := add64 ptr (mul64 (mul64 nl (dim p)) (hidden_dim p)) in
  let rms_final := ptr in
  let ptr := add64 ptr (dim p) in
  let ptr := add64 ptr (Z.quot (mul32 (seq_len p) hs) 2) in
  let ptr := add64 ptr (Z.quot (mul32 (seq_len p) hs) 2) in
  Weights tok rms_att wq wk wv wo rms_ffn w1 w2 w3 rms_final (if shared then tok else ptr).

(** The nine pointers of layer [l], in the order of [llama_layer_t]. *)
Definition llama_layer_at (w : weights_t) (p : Config) (l : Z) : list Z :=
  let d := dim p in
  let kv := Z.quot (mul32 (dim p) (n_kv_heads p)) (n_heads p) in
  let h := hidden_dim p in
  let ll := u64 l in
  [add64 (rms_att_weight w) (mul64 ll d); add64 (wq_at w) (mul64 (mul64 ll d) d);
   add64 (wk_at w) (mul64 (mul64 ll d) kv); add64 (wv_at w) (mul64 (mul64 ll d) kv);
   add64 (wo_at w) (mul64 (mul64 ll d) d); add64 (rms_ffn_weight w) (mul64 ll d);
   add64 (w1_at w) (mul64 (mul64 ll d) h); add64 (w2_at w) (mul64 (mul64 ll d) h);
   add64 (w3_at w) (mul64 (mul64 ll d) h)].

(** ** The shard loader *)

Record ckpt_geom_t := Geom { base : list Z; stride : list Z }.

(** [-vocab_size] and [vocab_size] are [int]s converted to [uint64]. *)
Definition vocab64 (p : Config) : Z :=
  u64 (if vocab_size p <? 0 then s32 (- vocab_size p) else vocab_size p).

Definition ckpt_geometry (p : Config) : ckpt_geom_t :=
  let d := u64 (dim p) in
  let hidden := u64 (hidden_dim p) in
  let nl := u64 (n_layers p) in
  let hs := d / u64 (n_heads p) in
  let kv := mul64 hs (u64 (n_kv_heads p)) in
  let b0 := mul64 (vocab64 p) d in
  let b1 := add64 b0 (mul64 nl d) in
  let b2 := add64 b1 (mul64 (mul64 nl d) d) in
  let b3 := add64 b2 (mul64 (mul64 nl d) kv) in
  let b4 := add64 b3 (mul64 (mul64 nl d) kv) in
  let b5 := add64 b4 (mul64 (mul64 nl d) d) in
  let b6 := add64 b5 (mul64 nl d) in
  let b7 := add64 b6 (mul64 (mul64 nl d) hidden) in
  let b8 := add64 b7 (mul64 (mul64 nl hidden) d) in
  Geom [b0; b1; b2; b3; b4; b5; b6; b7; b8]
    [d; mul64 d d; mul64 d kv; mul64 d kv; mul64 d d; d; mul64 d hidden; mul64 hidden d; mul64 d hidden].

(** ** The master's loader *)

Record head_tail_t := HeadTail {
  embed_off : Z; embed_bytes : Z; final_off : Z; final_bytes : Z; wcls_off : Z; wcls_bytes : Z;
}.

Definition SIZEOF_CONFIG : Z := 28.

Definition llama_head_tail_offsets (p : Config) (shared : bool) : head_tail_t :=
  let hs := Z.quot (dim p) (n_heads p) in
  let nl := u64 (n_layers p) in
  let vocab := vocab64 p in
  let off := mul64 vocab (dim p) in
  let off := add64 off (mul64 nl (dim p)) in
  let off := add64 off (mul64 (mul64 nl (dim p)) (mul32 (n_heads p) hs)) in
  let off := add64 off (mul64 (mul64 nl (dim p)) (mul32 (n_kv_heads p) hs)) in
  let off := add64 off (mul64 (mul64 nl (dim p)) (mul32 (n_kv_heads p) hs)) in
  let off := add64 off (mul64 (mul64 nl (mul32 (n_heads p) hs)) (dim p)) in
  let off := add64 off (mul64 nl (dim p)) in
  let off := add64 off (mul64 (mul64 nl (dim p)) (hidden_dim p)) in
  let off := add64 off (mul64 (mul64 nl (hidden_dim p)) (dim p)) in
  let off := add64 off (mul64 (mul64 nl (dim p)) (hidden_dim p)) in
  let final := off in
  let off := add64 off (dim p) in
  let off := add64 off (mul64 (u64 (seq_len p)) hs) in
  let e := add64 SIZEOF_CONFIG (mul64 0 4) in
  let eb := mul64 (mul64 vocab (dim p)) 4 in
  HeadTail e eb (add64 SIZEOF_CONFIG (mul64 final 4)) (mul64 (u64 (dim p)) 4)
    (if shared then e else add64 SIZEOF_CONFIG (mul64 off 4)) eb.

(** ** Lemmas *)

(** A configuration whose offsets fit: the conditions of [shard_fetch_config],
    and sizes far above those of any model the runtime can hold. *)
Definition cfg_fits (p : Config) : Prop :=
  0 < dim p ≤ 2 ^ 15 ∧ 0 < hidden_dim p ≤ 2 ^ 16 ∧ 0 < n_layers p ≤ 2 ^ 10 ∧
  0 < n_kv_heads p ≤ n_heads p ∧ n_heads p * Z.quot (dim p) (n_heads p) = dim p ∧
  0 < vocab_size p ∧ vocab_size p * dim p < 2 ^ 31 ∧
  0 < seq_len p ∧ seq_len p * Z.quot (dim p) (n_heads p) < 2 ^ 31.

Lemma u64_id x : 0 ≤ x < 2 ^ 64 → u64 x = x.
Proof. intros. by apply Z.mod_small. Qed.

Lemma add64_id a b : 0 ≤ a → 0 ≤ b → a + b < 2 ^ 64 → add64 a b = a + b.
Proof. intros. apply u64_id. lia. Qed.
Lemma mul64_id a b : 0 ≤ a * b < 2 ^ 64 → mul64 a b = a * b.
Proof. apply u64_id. Qed.
Lemma mul32_id a b : 0 ≤ a * b < 2 ^ 31 → mul32 a b = a * b.
Proof. intros. apply s32_id. lia. Qed.

Lemma mul_bound a b m n : 0 ≤ a ≤ m → 0 ≤ b ≤ n → 0 ≤ a * b ≤ m * n.
Proof. intros. nia. Qed.

Section Layout.
Context (p : Config) (Hp : cfg_fits p).

Definition hsize : Z := Z.quot (dim p) (n_heads p).
Definition kvd : Z := n_kv_heads p * hsize.

Lemma sizes_bounded (l : Z) : 0 ≤ l ≤ n_layers p →
  0 ≤ hsize ∧ n_heads p * hsize = dim p ∧ 0 ≤ kvd ≤ dim p ∧
  0 ≤ l * dim p ≤ 2 ^ 26 ∧ 0 ≤ dim p * dim p ≤ 2 ^ 32 ∧ 0 ≤ l * dim p * dim p ≤ 2 ^ 42 ∧
  0 ≤ dim p * kvd ≤ 2 ^ 32 ∧ 0 ≤ l * dim p * kvd ≤ 2 ^ 42 ∧
  0 ≤ dim p * hidden_dim p ≤ 2 ^ 32 ∧ 0 ≤ l * hidden_dim p ≤ 2 ^ 26 ∧
  0 ≤ l * dim p * hidden_dim p ≤ 2 ^ 42.
Proof.
  intros Hl. destruct Hp as (Hd & Hh & Hn & Hk & Hs & _).
  assert (H0 : 0 ≤ hsize) by (apply Z.quot_pos; lia). fold hsize in Hs.
  assert (Hkv : 0 ≤ kvd ≤ dim p) by (unfold kvd; nia).
  assert (M1 : 0 ≤ l * dim p ≤ 2 ^ 26) by (apply (mul_bound _ _ (2 ^ 10) (2 ^ 16)); lia).
  assert (M2 : 0 ≤ l * hidden_dim p ≤ 2 ^ 26) by (apply (mul_bound _ _ (2 ^ 10) (2 ^ 16)); lia).
  do 3 (split; [done|]). split; [exact M1|].
  split; [apply (mul_bound _ _ (2 ^ 16) (2 ^ 16)); lia|].
  split; [apply (mul_bound _ _ (2 ^ 26) (2 ^ 16)); lia|].
  split; [apply (mul_bound _ _ (2 ^ 16) (2 ^ 16)); lia|].
  split; [apply (mul_bound _ _ (2 ^ 26) (2 ^ 16)); lia|].
  split; [apply (mul_bound _ _ (2 ^ 16) (2 ^ 16)); lia|].
  split; [exact M2|]. apply (mul_bound _ _ (2 ^ 26) (2 ^ 16)); lia.
Qed.

(** The sizes of the tensors without wrap-around. *)
Lemma products_exact (l : Z) : 0 ≤ l ≤ n_layers p →
  u64 l = l ∧ u64 (dim p) = dim p ∧ u64 (hidden_dim p) = hidden_dim p ∧
  mul64 l (dim p) = l * dim p ∧ mul64 (l * dim p) (dim p) = l * dim p * dim p ∧
  mul32 (n_heads p) hsize = dim p ∧ mul32 (n_kv_heads p) hsize = kvd ∧
  mul64 (l * dim p) kvd = l * dim p * kvd ∧
  mul64 (l * dim p) (hidden_dim p) = l * dim p * hidden_dim p ∧
  mul64 l (hidden_dim p) = l * hidden_dim p ∧
  mul64 (l * hidden_dim p) (dim p) = l * dim p * hidden_dim p ∧
  mul64 (dim p) (dim p) = dim p * dim p ∧ mul64 (dim p) kvd = dim p * kvd ∧
  mul64 (dim p) (hidden_dim p) = dim p * hidden_dim p ∧
  mul64 (hidden_dim p) (dim p) = dim p * hidden_dim p.
Proof.
  intros Hl. pose proof (sizes_bounded l Hl) as (B0 & B1 & B2 & B3 & B4 & B5 & B6 & B7 & B8 & B9 & B10).
  pose proof Hp as (Hd & Hh & Hn & Hk & _).
  assert (E1 : n_kv_heads p * hsize = kvd) by done.
  split_and!; rewrite ?u64_id, ?mul64_id, ?mul32_id by lia; lia.
Qed.

Lemma kvd_quot : Z.quot (mul32 (dim p) (n_kv_heads p)) (n_heads p) = kvd.
Proof.
  pose proof Hp as (Hd & Hh & Hn & Hk & Hs & _). fold hsize in Hs.
  pose proof (sizes_bounded 0 ltac:(lia)) as (B0 & B1 & B2 & _).
  assert (E : dim p * n_kv_heads p = kvd * n_heads p) by (unfold kvd; nia).
  assert (n_heads p ≤ dim p) by (destruct (Z.eq_dec hsize 0); nia).
  pose proof (mul_bound (dim p) (n_kv_heads p) (2 ^ 15) (2 ^ 15)).
  rewrite mul32_id by lia. rewrite E. apply Z.quot_mul. lia.
Qed.

Lemma kvd_geom : mul64 (u64 (dim p) / u64 (n_heads p)) (u64 (n_kv_heads p)) = kvd.
Proof.
  pose proof Hp as (Hd & Hh & Hn & Hk & Hs & _). fold hsize in Hs.
  pose proof (sizes_bounded 0 ltac:(lia)) as (B0 & B1 & B2 & _).
  assert (n_heads p ≤ dim p) by (destruct (Z.eq_dec hsize 0); nia).
  rewrite !u64_id by lia. rewrite <- Z.quot_div_nonneg by lia. fold hsize.
  unfold kvd in *. rewrite mul64_id by lia. lia.
Qed.

Lemma vocab_exact : 0 < vocab_size p * dim p < 2 ^ 31 ∧ vocab64 p = vocab_size p ∧
  mul32 (vocab_size p) (dim p) = vocab_size p * dim p ∧
  mul64 (vocab_size p) (dim p) = vocab_size p * dim p.
Proof.
  pose proof Hp as (Hd & _ & _ & _ & _ & Hv & Hvd & _).
  assert (vocab_size p ≤ vocab_size p * dim p) by nia.
  split; [nia|]. unfold vocab64. rewrite (proj2 (Z.ltb_ge _ _)) by lia.
  rewrite u64_id, mul32_id, mul64_id by nia. done.
Qed.

(** The running offset: a list of partial sums, each of them exact. *)
Ltac no_wrap t := lazymatch t with
  | context [add64 _ _] => fail
  | context [mul64 _ _] => fail
  | _ => idtac
  end.
Ltac exact_sums := repeat match goal with
  | |- context [add64 ?a ?b] => no_wrap a; no_wrap b; rewrite (add64_id a b) by lia
  | |- context [mul64 ?a ?b] => no_wrap a; no_wrap b; rewrite (mul64_id a b) by lia
  end.

(** The geometry in plain arithmetic. *)
Definition plain_geometry : ckpt_geom_t :=
  let vd := vocab_size p * dim p in
  let ld := n_layers p * dim p in
  let q := ld * dim p in let kv := ld * kvd in let h := ld * hidden_dim p in
  Geom [vd; vd + ld; vd + ld + q; vd + ld + q + kv; vd + ld + q + kv + kv;
        vd + ld + q + kv + kv + q; vd + ld + q + kv + kv + q + ld;
        vd + ld + q + kv + kv + q + ld + h; vd + ld + q + kv + kv + q + ld + h + h]
    [dim p; dim p * dim p; dim p * kvd; dim p * kvd; dim p * dim p; dim p;
     dim p * hidden_dim p; dim p * hidden_dim p; dim p * hidden_dim p].

(** Floats in front of the final norm. *)
Definition model_floats : Z :=
  vocab_size p * dim p + 2 * (n_layers p * dim p) + 2 * (n_layers p * dim p * dim p) +
  2 * (n_layers p * dim p * kvd) + 3 * (n_layers p * dim p * hidden_dim p).

Lemma geometry_exact : ckpt_geometry p = plain_geometry.
Proof.
  pose proof Hp as (_ & _ & Hn & _).
  pose proof (products_exact (n_layers p) ltac:(lia)) as (P0 & P1 & P2 & P3 & P4 & P5 & P6 & P7 & P8 & P9 & P10 & P11 & P12 & P13 & P14).
  pose proof (sizes_bounded (n_layers p) ltac:(lia)) as (_ & _ & B2 & B3 & B4 & B5 & B6 & B7 & B8 & B9 & B10).
  destruct vocab_exact as (V0 & V1 & V2 & V3).
  unfold ckpt_geometry, plain_geometry. cbv zeta. rewrite kvd_geom.
  rewrite P0, P1, P2, V1, V3, P3, P9, P4, P7, P8, P10, P11, P12, P13, P14.
  clear P0 P1 P2 P3 P4 P5 P6 P7 P8 P9 P10 P11 P12 P13 P14 V1 V2 V3 B4 B6 B8 B9.
  generalize dependent (n_layers p * dim p * dim p). generalize dependent (n_layers p * dim p * kvd).
  generalize dependent (n_layers p * dim p * hidden_dim p). generalize dependent (n_layers p * dim p).
  generalize dependent (vocab_size p * dim p). intros vd Hvd ld Hld ldh Hldh ldk Hldk ldd Hldd.
  clear Hp Hn B2. exact_sums. done.
Qed.

(** Every slice of a layer lies in front of the final norm. *)
Lemma geometry_bounds l i b s : 0 ≤ l < n_layers p →
  base plain_geometry !! i = Some b → stride plain_geometry !! i = Some s →
  0 ≤ b ∧ 0 ≤ s ∧ b + l * s + s ≤ model_floats.
Proof.
  intros Hl Hb Hs. pose proof Hp as (Hd & Hh & Hn & _).
  pose proof (sizes_bounded (n_layers p) ltac:(lia)) as (_ & _ & B2 & B3 & B4 & B5 & B6 & B7 & B8 & B9 & B10).
  destruct vocab_exact as (V0 & _).
  assert (E : ∀ x, 0 ≤ x → l * x + x ≤ n_layers p * x).
  { intros x Hx. replace (l * x + x) with ((l + 1) * x) by ring. apply Z.mul_le_mono_nonneg_r; lia. }
  pose proof (E (dim p) ltac:(lia)) as E1. pose proof (E (dim p * dim p) ltac:(lia)) as E2.
  pose proof (E (dim p * kvd) ltac:(lia)) as E3. pose proof (E (dim p * hidden_dim p) ltac:(lia)) as E4.
  unfold model_floats. unfold plain_geometry in Hb, Hs. cbv zeta in Hb, Hs. cbn [base stride] in Hb, Hs.
  rewrite !(Z.mul_assoc (n_layers p)) in E2, E3, E4. clear E B9 Hl Hn Hh Hp.
  do 9 (destruct i as [|i]; [cbn in Hb, Hs; injection Hb as <-; injection Hs as <-; lia|]).
  done.
Qed.

Lemma layer_offsets_agree shared l : 0 ≤ l < n_layers p →
  zip_with (λ b s, b + l * s) (base (ckpt_geometry p)) (stride (ckpt_geometry p)) =
  llama_layer_at (memory_map_weights p 0 shared) p l.
Proof.
  intros Hl.
  pose proof (products_exact (n_layers p) ltac:(lia)) as (P0 & P1 & P2 & P3 & P4 & P5 & P6 & P7 & P8 & P9 & P10 & P11 & P12 & P13 & P14).
  pose proof (products_exact l ltac:(lia)) as (Q0 & _ & _ & Q3 & Q4 & _ & _ & Q7 & Q8 & Q9 & Q10 & _).
  pose proof (sizes_bounded (n_layers p) ltac:(lia)) as (_ & _ & B2 & B3 & B4 & B5 & B6 & B7 & B8 & B9 & B10).
  pose proof (sizes_bounded l ltac:(lia)) as (_ & _ & _ & C3 & _ & C5 & _ & C7 & _ & C9 & C10).
  destruct vocab_exact as (V0 & V1 & V2 & V3).
  unfold ckpt_geometry, llama_layer_at, memory_map_weights. cbv zeta.
  cbn [base stride rms_att_weight wq_at wk_at wv_at wo_at rms_ffn_weight w1_at w2_at w3_at zip_with].
  fold hsize. rewrite kvd_quot, kvd_geom.
  rewrite Q0, P0, P1, P2, V1, V2, V3, P5, P6, P3, Q3, P9, P4, P7, P8, P10, Q4, Q7, Q8, P11, P12, P13, P14.
  replace (l * (dim p * dim p)) with (l * dim p * dim p) by lia.
  replace (l * (dim p * kvd)) with (l * dim p * kvd) by lia.
  replace (l * (dim p * hidden_dim p)) with (l * dim p * hidden_dim p) by lia.
  clear P0 P1 P2 P3 P4 P5 P6 P7 P8 P9 P10 P11 P12 P13 P14 Q0 Q3 Q4 Q7 Q8 Q9 Q10 V1 V2 V3 B4 B6 B8 B9 C9.
  generalize dependent (n_layers p * dim p * dim p). generalize dependent (n_layers p * dim p * kvd).
  generalize dependent (n_layers p * dim p * hidden_dim p). generalize dependent (n_layers p * dim p).
  generalize dependent (l * dim p * dim p). generalize dependent (l * dim p * kvd).
  generalize dependent (l * dim p * hidden_dim p). generalize dependent (l * dim p).
  generalize dependent (vocab_size p * dim p). clear. intros.
  rewrite (add64_id 0 z), Z.add_0_l by lia. exact_sums. done.
Qed.

Lemma rms_final_exact shared : rms_final_weight (memory_map_weights p 0 shared) = model_floats.
Proof.
  pose proof Hp as (Hd & _ & Hn & _ & _ & _ & _ & Hs0 & Hs).
  pose proof (products_exact (n_layers p) ltac:(lia)) as (P0 & P1 & P2 & P3 & P4 & P5 & P6 & P7 & P8 & P9 & P10 & P11 & P12 & P13 & P14).
  pose proof (sizes_bounded (n_layers p) ltac:(lia)) as (Bh & _ & B2 & B3 & B4 & B5 & B6 & B7 & B8 & B9 & B10).
  destruct vocab_exact as (V0 & V1 & V2 & V3).
  unfold memory_map_weights, model_floats. cbv zeta. cbn [rms_final_weight].
  fold hsize. rewrite P0, V2, P5, P6, P3, P9, P4, P7, P8, P10.
  clear P0 P1 P2 P3 P4 P5 P6 P7 P8 P9 P10 P11 P12 P13 P14 V1 V2 V3 B4 B6 B8 B9.
  generalize dependent (n_layers p * dim p * dim p). generalize dependent (n_layers p * dim p * kvd).
  generalize dependent (n_layers p * dim p * hidden_dim p). generalize dependent (n_layers p * dim p).
  generalize dependent (vocab_size p * dim p).
  generalize dependent (dim p). clear. intros d Hd _ _ v Hv ld Hld ldh Hldh ldk Hldk ldd Hldd.
  rewrite (add64_id 0 v), Z.add_0_l by lia. exact_sums. lia.
Qed.

Lemma head_tail_agree shared :
  let w := memory_map_weights p 0 shared in
  let h := llama_head_tail_offsets p shared in
  embed_off h = SIZEOF_CONFIG + 4 * token_embedding_table w ∧
  embed_bytes h = 4 * (vocab_size p * dim p) ∧
  final_off h = SIZEOF_CONFIG + 4 * rms_final_weight w ∧ final_bytes h = 4 * dim p ∧
  wcls_off h = SIZEOF_CONFIG + 4 * (wcls_at w + if shared then 0 else (seq_len p * hsize) mod 2).
Proof.
  pose proof Hp as (Hd & _ & Hn & _ & _ & _ & _ & Hs0 & Hs). fold hsize in Hs.
  pose proof (products_exact (n_layers p) ltac:(lia)) as (P0 & P1 & P2 & P3 & P4 & P5 & P6 & P7 & P8 & P9 & P10 & P11 & P12 & P13 & P14).
  pose proof (sizes_bounded (n_layers p) ltac:(lia)) as (Bh & _ & B2 & B3 & B4 & B5 & B6 & B7 & B8 & B9 & B10).
  destruct vocab_exact as (V0 & V1 & V2 & V3).
  assert (Hsl : mul64 (u64 (seq_len p)) hsize = seq_len p * hsize ∧
    mul32 (seq_len p) hsize = seq_len p * hsize ∧ 0 ≤ seq_len p * hsize).
  { assert (seq_len p < 2 ^ 31) by (destruct (Z.eq_dec hsize 0); [|nia]; pose proof Hp as (_ & _ & _ & Hk & He & _); fold hsize in He; nia).
    rewrite u64_id, mul64_id, mul32_id by nia. nia. }
  destruct Hsl as (S1 & S2 & S0).
  unfold llama_head_tail_offsets, memory_map_weights. cbv zeta.
  cbn [embed_off embed_bytes final_off final_bytes wcls_off token_embedding_table rms_final_weight wcls_at].
  fold hsize. rewrite S1, S2, P0, P1, V1, V2, V3, P5, P6, P3, P9, P4, P7, P8, P10.
  clear P0 P1 P2 P3 P4 P5 P6 P7 P8 P9 P10 P11 P12 P13 P14 S1 S2 V1 V2 V3 B4 B6 B8 B9.
  generalize dependent (n_layers p * dim p * dim p). generalize dependent (n_layers p * dim p * kvd).
  generalize dependent (n_layers p * dim p * hidden_dim p). generalize dependent (n_layers p * dim p).
  generalize dependent (vocab_size p * dim p). generalize dependent (seq_len p * hsize).
  generalize dependent (dim p). clear. intros d Hd _ n Hn0 Hn v Hv ld Hld ldh Hldh ldk Hldk ldd Hldd.
  assert (Hq : Z.quot n 2 = n / 2) by (apply Z.quot_div_nonneg; lia). rewrite Hq.
  rewrite (add64_id 0 v), Z.add_0_l by lia. unfold SIZEOF_CONFIG.
  assert (0 ≤ n / 2 < 2 ^ 31 ∧ 2 * (n / 2) + n mod 2 = n ∧ 0 ≤ n mod 2) by zdivmod.
  set (a := n / 2) in *. set (b := n mod 2) in *. clearbody a b.
  exact_sums. destruct shared; split_and!; lia.
Qed.
End Layout.

(** ** Property *)

(** The three computations of the checkpoint layout agree.  For every
    configuration that fits, the slices a shard fetches for layer [l] start where
    the single-node loader's nine pointers for that layer point, each tensor ends
    where the next begins, and the master's embedding and final norm are the
    single-node ones.  The classifier of a model with unshared weights is found
    at the same place exactly when [seq_len * head_size] is even: one loader
    skips two halves of the RoPE tables, the other the whole. *)
Theorem checkpoint_layout_agrees p shared :
  cfg_fits p →
  let w := memory_map_weights p 0 shared in
  let g := ckpt_geometry p in
  let h := llama_head_tail_offsets p shared in
  (∀ l, 0 ≤ l < n_layers p → zip_with (λ b s, b + l * s) (base g) (stride g) = llama_layer_at w p l) ∧
  embed_off h = SIZEOF_CONFIG + 4 * token_embedding_table w ∧
  embed_bytes h = 4 * (vocab_size p * dim p) ∧
  final_off h = SIZEOF_CONFIG + 4 * rms_final_weight w ∧ final_bytes h = 4 * dim p ∧
  (wcls_off h = SIZEOF_CONFIG + 4 * wcls_at w ↔
   shared = true ∨ Z.Even (seq_len p * Z.quot (dim p) (n_heads p))).
Proof.
  intros Hp w g h. split; [intros l Hl; by apply layer_offsets_agree|].
  destruct (head_tail_agree p Hp shared) as (H1 & H2 & H3 & H4 & H5). fold w h in H1, H2, H3, H4, H5.
  split_and!; try done. rewrite H5. unfold hsize.
  set (n := seq_len p * Z.quot (dim p) (n_heads p)). destruct shared; [split; [by left|intros _; lia]|].
  split; [intros E; right; exists (n / 2); zdivmod|intros [?|[k Hk]]; [done|]].
  rewrite Hk. zdivmod.
Qed.

Definition sample_config : Config := MkConfig 288 768 6 6 6 32000 256.

Lemma checkpoint_layout_agrees_witness :
  llama_layer_at (memory_map_weights sample_config 0 true) sample_config 2 =
  zip_with (λ b s, b + 2 * s) (base (ckpt_geometry sample_config)) (stride (ckpt_geometry sample_config)).
Proof.
  symmetry. apply (proj1 (checkpoint_layout_agrees sample_config true
    ltac:(unfold cfg_fits; vm_compute; repeat split; discriminate)) 2). simpl. lia.
Defined.
