(* ===== verification/Shard.v ===== *)
(** A worker's slice of the model (user/shard.c), the head of the model on the
    master, and the single-node forward pass (user/llama_core.c), with the proof
    that shards in a row compute what the single node computes.

    The weight server and the shared-memory system calls are the parameter
    [ShardEnv]. *)
From S2P Require Import Prelude Registry Llama Checkpoint.

Class ShardEnv (S : Type) := {
  (** The segment id, negative for a failure. *)
  env_shmget : list Z → Z → S → Z * S;
  (** Whether the segment was attached. *)
  env_shmat : Z → S → bool * S;
  env_shmdt : S → S;
  (** [llm_fetch_range]: the bytes, or a failure. *)
  env_fetch : Z → Z → Z → S → option (list Z) * S;
  (** Whether the allocations of a run state succeed. *)
  env_calloc : S → bool * S;
  env_malloc : Z → S → bool * S;
}.

Definition CKPT_HEADER_BYTES : Z := 28.
Definition SHARD_MAX_LAYERS : Z := 16.
Definition SHARD_DEFAULT_MAX_SEQ : Z := 256.

Definition env {S A} (f : S → A * S) : M S A := λ s, Some (f s).

(** The 32-bit words of a byte string, little-endian as in memory. *)
Definition le_words (bs : list Z) : list Z :=
  map (λ i, le32_at bs (4 * Z.of_nat i)) (seq 0 (length bs / 4)).

(** ** Header *)

Definition read_config (b : list Z) : Config :=
  MkConfig (s32 (le32_at b 0)) (s32 (le32_at b 4)) (s32 (le32_at b 8)) (s32 (le32_at b 12))
    (s32 (le32_at b 16)) (s32 (le32_at b 20)) (s32 (le32_at b 24)).

Definition plausible (c : Config) : bool :=
  let vocab := if vocab_size c <? 0 then s32 (- vocab_size c) else vocab_size c in
  negb ((dim c <=? 0) || (hidden_dim c <=? 0) || (n_layers c <=? 0) || (n_heads c <=? 0) ||
        (n_kv_heads c <=? 0) || (vocab <=? 0) || (seq_len c <=? 0) ||
        negb (Z.rem (dim c) (n_heads c) =? 0)).

(** The name of the segment of layer [l], NUL included; a [char] is a byte. *)
Definition shard_segment_name (l : Z) : list Z :=
  [115; 104; 97; 114; 100; 95; 76] ++
  (if 10 <=? l then [u8 (48 + Z.quot l 10)] else []) ++ [u8 (48 + Z.rem l 10); 0].

Section Shard.
Context {F : Type} `{FloatOps F} (fbits : Z → F) {S : Type} `{ShardEnv S}.

Definition floats (bs : list Z) : list F := map fbits (le_words bs).

Definition shard_fetch_config (file_id : Z) : M S (option Config) :=
  let* r := env (env_fetch file_id 0 CKPT_HEADER_BYTES) in
  match r with
  | None => ret None
  | Some buf => let out := read_config buf in ret (if plausible out then Some out else None)
  end.

(** ** Run state *)

Definition new_run_state (p : Config) : RunState F :=
  let z n := replicate n (fbits 0) in
  MkRunState (z (cdim p)) (z (cdim p)) (z (cdim p)) (z (chidden p)) (z (chidden p)) (z (cdim p))
    (z (cheads p * cseq p)%nat) (z (Z.to_nat (vocab_size p)))
    (z (clayers p * cseq p * kv_dim p)%nat) (z (clayers p * cseq p * kv_dim p)%nat).

(** After [memset]: no buffers. *)
Definition run_state_null : RunState F := MkRunState [] [] [] [] [] [] [] [] [] [].

(** Exits the process when an allocation fails. *)
Definition malloc_run_state (p : Config) : M S (RunState F) :=
  let* ok := env env_calloc in
  if ok then ret (new_run_state p) else fault.

(** The single node's model from the bytes of a checkpoint: the configuration,
    whether the classifier is the embedding table, and the buffers. *)
Definition build_transformer (data : list Z) : M S (Config * bool * RunState F) :=
  let cfg := read_config data in
  let shared := 0 <? vocab_size cfg in
  let cfg := MkConfig (dim cfg) (hidden_dim cfg) (n_layers cfg) (n_heads cfg) (n_kv_heads cfg)
               (s32 (Z.abs (vocab_size cfg))) (seq_len cfg) in
  let* st := malloc_run_state cfg in
  ret (cfg, shared, st).

(** Only the buffers the master's head uses. *)
Definition malloc_run_state_head (p : Config) : M S (RunState F) :=
  let* ok := env env_calloc in
  if ok then
    ret (MkRunState (replicate (cdim p) (fbits 0)) (replicate (cdim p) (fbits 0)) [] [] [] [] []
           (replicate (Z.to_nat (vocab_size p)) (fbits 0)) [] [])
  else fault.

(** ** The master's part of the model *)

(** "llm_embed", NUL included. *)
Definition LLM_EMBED : list Z := [108; 108; 109; 95; 101; 109; 98; 101; 100; 0].

(** The configuration, the embedding table that is also the classifier, the
    final norm and the buffers; [None] is the return value -1. *)
Definition master_load_head_tail (model_id : Z) : M S (option (Config * list F * list F * RunState F)) :=
  let* r := shard_fetch_config model_id in
  match r with
  | None => ret None
  | Some cfg =>
      let shared := 0 <? vocab_size cfg in
      let cfg := MkConfig (dim cfg) (hidden_dim cfg) (n_layers cfg) (n_heads cfg) (n_kv_heads cfg)
                   (if vocab_size cfg <? 0 then s32 (- vocab_size cfg) else vocab_size cfg) (seq_len cfg) in
      if negb shared then ret None
      else
        let o := llama_head_tail_offsets cfg shared in
        let* shmid := env (env_shmget LLM_EMBED (embed_bytes o)) in
        if shmid <? 0 then ret None
        else
          let* ok := env (env_shmat shmid) in
          if negb ok then ret None
          else
            let* r := env (env_fetch model_id (u32 (embed_off o)) (u32 (embed_bytes o))) in
            match r with
            | None => ret None
            | Some embed =>
                let* ok := env (env_malloc (final_bytes o)) in
                if negb ok then ret None
                else
                  let* r := env (env_fetch model_id (u32 (final_off o)) (u32 (final_bytes o))) in
                  match r with
                  | None => ret None
                  | Some final_norm =>
                      let* st := malloc_run_state_head cfg in
                      ret (Some (cfg, floats embed, floats final_norm, st))
                  end
            end
  end.

(** ** Shards *)

(** [segs] counts the attached segments; their contents are in [layers]. *)
Record shard_t := Shard {
  cfg : Config; local : Config; layer_start : Z; layer_end : Z;
  layers : list (llama_layer_t F); segs : nat; sh_state : RunState F; loaded : bool;
}.

(** The nine pointers into a segment that holds the tensors one behind the
    other. *)
Definition segment_layer (ts : list (list F)) : llama_layer_t F :=
  let f i := concat (drop i ts) in
  LlamaLayer (f 0%nat) (f 1%nat) (f 2%nat) (f 3%nat) (f 4%nat) (f 5%nat) (f 6%nat) (f 7%nat) (f 8%nat).

(** The loop over the tensors of layer [l]. *)
Fixpoint fetch_tensors (file_id l : Z) (bs ss : list Z) : M S (option (list (list F))) :=
  match bs, ss with
  | b :: bs, s :: ss =>
      let src_off := add64 CKPT_HEADER_BYTES (mul64 (add64 b (mul64 (u64 l) s)) 4) in
      let* r := env (env_fetch file_id (u32 src_off) (u32 (mul64 s 4))) in
      match r with
      | None => ret None
      | Some bytes =>
          let* rest := fetch_tensors file_id l bs ss in
          ret (match rest with Some ts => Some (floats bytes :: ts) | None => None end)
      end
  | _, _ => ret (Some [])
  end.

(** The loop over the layers; the second result counts the attached segments
    also when the first is a failure. *)
Fixpoint load_layers (n : nat) (file_id l bytes : Z) (g : ckpt_geom_t)
    : M S (option (list (llama_layer_t F)) * nat) :=
  match n with
  | O => ret (Some [], 0%nat)
  | Datatypes.S n =>
      let* shmid := env (env_shmget (shard_segment_name l) bytes) in
      if shmid <? 0 then ret (None, 0%nat)
      else
        let* ok := env (env_shmat shmid) in
        if negb ok then ret (None, 0%nat)
        else
          let* ts := fetch_tensors file_id l (base g) (stride g) in
          match ts with
          | None => ret (None, 1%nat)
          | Some ts =>
              let* (rest, k) := load_layers n file_id (l + 1) bytes g in
              ret (match rest with Some ls => Some (segment_layer ts :: ls) | None => None end, Datatypes.S k)
          end
  end.

Definition with_shape (c : Config) (n m : Z) : Config :=
  MkConfig (dim c) (hidden_dim c) n (n_heads c) (n_kv_heads c) (vocab_size c) m.

Definition clamp_seq (c : Config) (max_seq : Z) : Z :=
  let m := if max_seq <=? 0 then SHARD_DEFAULT_MAX_SEQ else max_seq in
  if seq_len c <? m then seq_len c else m.

(** The return value and the shard; [sh] is returned as it was when the range is
    refused.  After a failure [loaded] is 0 and nothing reads the layers that
    did arrive, so they are left out; the segments stay attached. *)
Definition shard_load (sh : shard_t) (file_id : Z) (c : Config) (l0 l1 max_seq : Z) : M S (Z * shard_t) :=
  if (l0 <? 0) || (n_layers c <? l1) || (l1 <=? l0) then ret (-1, sh)
  else if SHARD_MAX_LAYERS <? l1 - l0 then ret (-1, sh)
  else
    let loc := with_shape c (l1 - l0) (clamp_seq c max_seq) in
    let g := ckpt_geometry c in
    let bytes := mul64 (foldl add64 0 (stride g)) 4 in
    let* (ls, k) := load_layers (Z.to_nat (l1 - l0)) file_id l0 bytes g in
    match ls with
    | None => ret (-1, Shard c loc l0 l1 [] k run_state_null false)
    | Some ls =>
        let* st := malloc_run_state loc in
        ret (0, Shard c loc l0 l1 ls k st true)
    end.

(** [None] is the return value -1. *)
Definition shard_forward (pl : pool) (sh : shard_t) (x : list F) (pos : Z) : option (list F) * shard_t :=
  if negb (loaded sh) then (None, sh)
  else if (pos <? 0) || (seq_len (local sh) <=? pos) then (None, sh)
  else
    let '(x, st) := run_layers pl (local sh) (layers sh) (sh_state sh) x 0 (Z.to_nat pos) in
    (Some x, Shard (cfg sh) (local sh) (layer_start sh) (layer_end sh) (layers sh) (segs sh) st true).

Definition shard_release (sh : shard_t) : M S shard_t :=
  if negb (loaded sh) then ret sh
  else
    modify (λ s, Nat.iter (segs sh) env_shmdt s) ;;*
    ret (Shard (cfg sh) (local sh) (layer_start sh) (layer_end sh) (layers sh) 0 (sh_state sh) false).

(** ** The single node *)

Definition ptr (ck : list F) (off : Z) : list F := drop (Z.to_nat off) ck.

(** The layer the single-node loader addresses. *)
Definition layer_at (ck : list F) (p : Config) (shared : bool) (l : nat) : llama_layer_t F :=
  let o := llama_layer_at (memory_map_weights p 0 shared) p (Z.of_nat l) in
  let f i := ptr ck (nth i o 0) in
  LlamaLayer (f 0%nat) (f 1%nat) (f 2%nat) (f 3%nat) (f 4%nat) (f 5%nat) (f 6%nat) (f 7%nat) (f 8%nat).

Definition llama_embed (table : list F) (p : Config) (x : list F) (token : nat) : list F :=
  overwrite 0 (take (cdim p) (drop (token * cdim p) table)) x.

(** The activation and the logits. *)
Definition llama_head (pl : pool) (final wcls : list F) (p : Config) (lg x : list F) : list F * list F :=
  let x := rmsnorm x x final (cdim p) in
  (x, matmul pl lg x wcls (cdim p) (Z.to_nat (vocab_size p))).

Definition forward (pl : pool) (ck : list F) (p : Config) (shared : bool) (s : RunState F) (token pos : nat)
    : list F * RunState F :=
  let w := memory_map_weights p 0 shared in
  let x := llama_embed (ptr ck (token_embedding_table w)) p (rs_x s) token in
  let '(x, s) := run_layers pl p (map (layer_at ck p shared) (seq 0 (clayers p))) s x 0 pos in
  let '(x, lg) := llama_head pl (ptr ck (rms_final_weight w)) (ptr ck (wcls_at w)) p (logits s) x in
  (lg, set_logits lg (set_x x s)).
End Shard.

Arguments shard_t : clear implicits.

(** ** Lemmas *)

(** *** A layer reads its tensors and nothing behind them *)

Section Layers.
Context {F : Type} `{FloatOps F}.

(** The first [n] elements agree. *)
Definition same_upto (n : nat) (a b : list F) : Prop := ∀ i, (i < n)%nat → rd a i = rd b i.

Definition layer_eq (p : Config) (a b : llama_layer_t F) : Prop :=
  let d := cdim p in let kv := kv_dim p in let h := chidden p in
  same_upto d (rms_att a) (rms_att b) ∧ same_upto (d * d) (wq a) (wq b) ∧
  same_upto (kv * d) (wk a) (wk b) ∧ same_upto (kv * d) (wv a) (wv b) ∧
  same_upto (d * d) (wo a) (wo b) ∧ same_upto d (rms_ffn a) (rms_ffn b) ∧
  same_upto (h * d) (w1 a) (w1 b) ∧ same_upto (d * h) (w2 a) (w2 b) ∧
  same_upto (h * d) (w3 a) (w3 b).

Lemma norm_ext (x w w' : list F) n : same_upto n w w' → norm x w n = norm x w' n.
Proof. intros Hw. unfold norm. apply map_ext_in. intros j Hj%in_seq. by rewrite Hw by lia. Qed.

Lemma dot_plain_ext (w w' x : list F) n : same_upto n w w' → dot_plain w x n = dot_plain w' x n.
Proof.
  intros Hw. unfold dot_plain. apply foldl_ext_in. intros v j Hj%elem_of_seq. by rewrite Hw by lia.
Qed.

Lemma mm_ext pl (x w w' : list F) n d : same_upto (d * n) w w' → mm pl x w n d = mm pl x w' n d.
Proof.
  intros Hw. unfold mm. apply map_ext_in. intros i Hi%in_seq.
  assert (Hr : same_upto n (w_row w n i) (w_row w' n i)).
  { intros j Hj. unfold w_row. rewrite !rd_drop. apply Hw. nia. }
  destruct (threaded pl d); [|by apply dot_plain_ext].
  apply dot_unrolled_ext. intros j Hj. split; [by apply Hr|done].
Qed.

Lemma block_spec_ext pl p a b ks vs x pos :
  layer_eq p a b → block_spec pl p a ks vs x pos = block_spec pl p b ks vs x pos.
Proof.
  intros (H1 & H2 & H3 & H4 & H5 & H6 & H7 & H8 & H9). unfold block_spec. cbv zeta.
  rewrite (norm_ext x _ _ _ H1). set (n := norm x (rms_att b) (cdim p)).
  rewrite (mm_ext pl n _ _ _ _ H2), (mm_ext pl n _ _ _ _ H3), (mm_ext pl n _ _ _ _ H4).
  set (o := concat _). rewrite (mm_ext pl o _ _ _ _ H5).
  set (y := mm pl o (wo b) (cdim p) (cdim p)). set (x1 := map (λ i, fadd (rd x i) (rd y i)) (seq 0 (cdim p))).
  rewrite (norm_ext x1 _ _ _ H6). set (n1 := norm x1 (rms_ffn b) (cdim p)).
  rewrite (mm_ext pl n1 _ _ _ _ H7), (mm_ext pl n1 _ _ _ _ H9).
  set (g := map _ (seq 0 (chidden p))). by rewrite (mm_ext pl g _ _ _ _ H8).
Qed.

(** Two nodes sum their products in the same order: both have their thread pools,
    or no output is long enough for the pool. *)
Definition pools_agree (p : Config) (a b : pool) : Prop :=
  threaded a (cdim p) = threaded b (cdim p) ∧ threaded a (kv_dim p) = threaded b (kv_dim p) ∧
  threaded a (chidden p) = threaded b (chidden p).

Lemma mm_pool a b (x w : list F) n d : threaded a d = threaded b d → mm a x w n d = mm b x w n d.
Proof. intros E. unfold mm. by rewrite E. Qed.

Lemma block_spec_pool a b p (w : llama_layer_t F) ks vs x pos :
  pools_agree p a b → block_spec a p w ks vs x pos = block_spec b p w ks vs x pos.
Proof.
  intros (H1 & H2 & H3). unfold block_spec. cbv zeta.
  rewrite !(mm_pool a b _ _ _ _ H1), !(mm_pool a b _ _ _ _ H2), !(mm_pool a b _ _ _ _ H3). done.
Qed.

(** *** Two runs of the same layers *)

(** The key and value rows of a layer and a position. *)
Definition kv_row (p : Config) (s : RunState F) (l t : nat) : list F * list F :=
  (cache_row p (key_cache s) l t, cache_row p (value_cache s) l t).

Lemma cache_rows_eq p p' (c c' : list F) l l' n :
  (∀ t, (t < n)%nat → cache_row p c l t = cache_row p' c' l' t) → cache_rows p c l n = cache_rows p' c' l' n.
Proof. intros Ht. unfold cache_rows. apply map_ext_in. intros t Hin%in_seq. apply Ht. lia. Qed.

Lemma config_ok_shape c n m : config_ok c → 0 < n → 0 < m → config_ok (with_shape c n m).
Proof. intros (? & ? & ? & ? & ? & ? & ? & ? & ?) ? ?. by split_and!. Qed.

Context (pl plw : pool) (Hg : 0 < g_num_threads pl) (Hgw : 0 < g_num_threads plw).
Context (c : Config) (Hc : config_ok c) (Hpl : pools_agree c pl plw).

(** A run on the whole model and a run on a shard, from states whose earlier rows
    agree: the same activation, rows that agree up to this position, and no other
    row changed. *)
Lemma run_layers_sim n m a b s1 s2 x l1 l2 pos :
  let p := with_shape c n m in
  0 < n → 0 < m → Forall2 (layer_eq c) a b → run_ok c s1 → run_ok p s2 → length x = cdim c →
  (l1 + length a ≤ clayers c)%nat → (l2 + length a ≤ clayers p)%nat →
  (pos < cseq c)%nat → (pos < cseq p)%nat →
  (∀ i t, (i < length a)%nat → (t < pos)%nat → kv_row c s1 (l1 + i) t = kv_row p s2 (l2 + i) t) →
  let r1 := run_layers pl c a s1 x l1 pos in
  let r2 := run_layers plw p b s2 x l2 pos in
  fst r1 = fst r2 ∧ length (fst r1) = cdim c ∧ run_ok c (snd r1) ∧ run_ok p (snd r2) ∧
  (∀ i t, (i < length a)%nat → (t ≤ pos)%nat → kv_row c (snd r1) (l1 + i) t = kv_row p (snd r2) (l2 + i) t) ∧
  (∀ l t, (t < cseq c)%nat → (l < l1 ∨ l1 + length a ≤ l)%nat → kv_row c (snd r1) l t = kv_row c s1 l t) ∧
  (∀ l t, (t < cseq p)%nat → (l < l2 ∨ l2 + length a ≤ l)%nat → kv_row p (snd r2) l t = kv_row p s2 l t).
Proof.
  intros p Hn Hm Hl. assert (Hp : config_ok p) by (by apply config_ok_shape).
  revert s1 s2 x l1 l2. induction Hl as [|la lb a b Hlay Hl IH];
    intros s1 s2 x l1 l2 Hs1 Hs2 Hx Hl1 Hl2 Hp1 Hp2 Hrows; cbn [run_layers length] in *.
  { cbn [fst snd]. split_and!; try done. intros i t Hi. lia. }
  pose proof (block_run pl Hg c Hc la s1 x l1 pos Hs1 Hx ltac:(lia) Hp1) as B1.
  pose proof (block_run plw Hgw p Hp lb s2 x l2 pos Hs2 Hx ltac:(lia) Hp2) as B2.
  cbv zeta in B1, B2.
  assert (Ek : cache_rows c (key_cache s1) l1 pos = cache_rows p (key_cache s2) l2 pos).
  { apply cache_rows_eq. intros t Ht. specialize (Hrows 0%nat t ltac:(lia) Ht).
    rewrite !Nat.add_0_r in Hrows. by injection Hrows. }
  assert (Ev : cache_rows c (value_cache s1) l1 pos = cache_rows p (value_cache s2) l2 pos).
  { apply cache_rows_eq. intros t Ht. specialize (Hrows 0%nat t ltac:(lia) Ht).
    rewrite !Nat.add_0_r in Hrows. by injection Hrows. }
  rewrite Ek, Ev, (block_spec_ext pl c la lb), (block_spec_pool pl plw) in B1 by done.
  change (block_spec plw p) with (block_spec plw c) in B2.
  destruct (block_spec plw c lb _ _ x pos) as [[x' k] v].
  destruct (llama_block pl la c s1 x l1 pos) as [y1 t1], (llama_block plw lb p s2 x l2 pos) as [y2 t2].
  cbn [fst snd] in B1, B2.
  destruct B1 as (-> & Hx' & Ht1 & _ & _ & R1), B2 as (-> & _ & Ht2 & _ & _ & R2).
  assert (K1 : ∀ l t, (t < cseq c)%nat → kv_row c t1 l t = if decide (l = l1 ∧ t = pos) then (k, v) else kv_row c s1 l t).
  { intros l t Ht. unfold kv_row. destruct (R1 l t Ht) as [-> ->]. by case_decide. }
  assert (K2 : ∀ l t, (t < cseq p)%nat → kv_row p t2 l t = if decide (l = l2 ∧ t = pos) then (k, v) else kv_row p s2 l t).
  { intros l t Ht. unfold kv_row. destruct (R2 l t Ht) as [-> ->]. by case_decide. }
  destruct (IH t1 t2 x' (S l1) (S l2)) as (I1 & I2 & I3 & I4 & I5 & I6 & I7); try done; try lia.
  { intros i t Hi Ht. rewrite K1, K2 by lia. rewrite !decide_False by lia.
    replace (S l1 + i)%nat with (l1 + S i)%nat by lia. replace (S l2 + i)%nat with (l2 + S i)%nat by lia.
    apply Hrows; lia. }
  split_and!; try done.
  - intros [|i] t Hi Ht; [|rewrite !Nat.add_succ_r; apply I5; lia].
    rewrite !Nat.add_0_r, I6, I7, K1, K2 by lia.
    destruct (decide (t = pos)) as [->|]; [by rewrite !decide_True|]. rewrite !decide_False by tauto.
    specialize (Hrows 0%nat t ltac:(lia) ltac:(lia)). by rewrite !Nat.add_0_r in Hrows.
  - intros l t Ht Hl'. rewrite I6, K1 by lia. by rewrite decide_False by lia.
  - intros l t Ht Hl'. rewrite I7, K2 by lia. by rewrite decide_False by lia.
Qed.
End Layers.

(** ** Shards in a row *)

Section Pipeline.
Context {F : Type} `{FloatOps F}.

(** The activation passed from shard to shard. *)
Fixpoint pipe (pl : pool) (shs : list (shard_t F)) (x : list F) (pos : Z) : option (list F * list (shard_t F)) :=
  match shs with
  | [] => Some (x, [])
  | sh :: shs =>
      match shard_forward pl sh x pos with
      | (Some x, sh') =>
          match pipe pl shs x pos with
          | Some (x, shs') => Some (x, sh' :: shs')
          | None => None
          end
      | (None, _) => None
      end
  end.

(** [sh] holds the layers from [l] on of the model [c] with weights [W], for
    [m] positions. *)
Definition serves (c : Config) (W : nat → llama_layer_t F) (m : Z) (l : nat) (sh : shard_t F) : Prop :=
  let n := length (layers sh) in
  loaded sh = true ∧ (0 < n)%nat ∧ (l + n ≤ clayers c)%nat ∧ local sh = with_shape c (Z.of_nat n) m ∧
  Forall2 (layer_eq c) (map W (seq l n)) (layers sh) ∧ run_ok (local sh) (sh_state sh).

(** The shards cover the layers from [l] on, and their caches agree with those of
    the single node [s] for the positions before [pos]. *)
Inductive chain (c : Config) (W : nat → llama_layer_t F) (m : Z) (s : RunState F) (pos : nat)
    : nat → list (shard_t F) → Prop :=
  | chain_nil : chain c W m s pos (clayers c) []
  | chain_cons l sh shs :
      serves c W m l sh →
      (∀ i t, (i < length (layers sh))%nat → (t < pos)%nat →
         kv_row c s (l + i) t = kv_row (local sh) (sh_state sh) i t) →
      chain c W m s pos (l + length (layers sh)) shs →
      chain c W m s pos l (sh :: shs).

Lemma chain_frame c W m s s' pos l shs :
  chain c W m s pos l shs →
  (∀ l' t, (l ≤ l')%nat → (t < pos)%nat → kv_row c s' l' t = kv_row c s l' t) →
  chain c W m s' pos l shs.
Proof.
  intros Hch. induction Hch as [|l sh shs Hs Hr Hch IH]; intros Hf; [constructor|].
  constructor; [done| |apply IH; intros; apply Hf; lia]. intros i t Hi Ht. rewrite Hf by lia. auto.
Qed.

Context (pl plw : pool) (Hg : 0 < g_num_threads pl) (Hgw : 0 < g_num_threads plw).
Context (c : Config) (Hc : config_ok c) (Hpl : pools_agree c pl plw).
Context (W : nat → llama_layer_t F) (m : Z) (Hm : 0 < m).

Lemma run_layers_app a b s x l pos :
  run_layers pl c (a ++ b) s x l pos =
  let '(x', s') := run_layers pl c a s x l pos in run_layers pl c b s' x' (l + length a) pos.
Proof.
  revert s x l. induction a as [|la a IH]; intros s x l; cbn [app run_layers length]; [by rewrite Nat.add_0_r|].
  destruct (llama_block pl la c s x l pos) as [x1 s1]. rewrite IH. by rewrite Nat.add_succ_r.
Qed.

Lemma pipe_step shs s x l pos :
  chain c W m s pos l shs → run_ok c s → length x = cdim c → (pos < cseq c)%nat → Z.of_nat pos < m →
  ∃ x' shs' s', pipe plw shs x (Z.of_nat pos) = Some (x', shs') ∧
    run_layers pl c (map W (seq l (clayers c - l))) s x l pos = (x', s') ∧
    length x' = cdim c ∧ run_ok c s' ∧ chain c W m s' (S pos) l shs' ∧
    (∀ l' t, (t < cseq c)%nat → (l' < l)%nat → kv_row c s' l' t = kv_row c s l' t).
Proof.
  revert s x l. induction shs as [|sh shs IH]; intros s x l Hch Hs Hx Hpos Hcap.
  { inversion Hch; subst. exists x, [], s. rewrite Nat.sub_diag. cbn [pipe seq map run_layers].
    split_and!; try done. constructor. }
  inversion Hch as [|l0 sh0 shs0 Hsv Hr Hch' E1 E2]; subst l0 sh0 shs0.
  destruct Hsv as (Hld & Hn & Hfit & Hloc & Hlay & Hst). set (n := length (layers sh)) in *.
  assert (Hla : length (map W (seq l n)) = n) by (by rewrite length_map, length_seq).
  assert (Hcs : (pos < cseq (local sh))%nat) by (rewrite Hloc; unfold cseq; simpl; lia).
  assert (Hcl : clayers (local sh) = n) by (rewrite Hloc; apply Nat2Z.id).
  rewrite Hloc in Hst, Hcs, Hcl, Hr.
  destruct (run_layers_sim pl plw Hg Hgw c Hc Hpl (Z.of_nat n) m (map W (seq l n)) (layers sh) s (sh_state sh) x l 0 pos)
    as (I1 & I2 & I3 & I4 & I5 & I6 & _); try done; try (rewrite ?Hla; lia).
  { intros i t Hi Ht. rewrite Hla in Hi. by apply Hr. }
  rewrite Hla in I5, I6. rewrite <- Hloc in I1, I4, I5.
  destruct (run_layers pl c (map W (seq l n)) s x l pos) as [x1 s1] eqn:E1.
  destruct (run_layers plw (local sh) (layers sh) (sh_state sh) x 0 pos) as [x2 t2] eqn:E2.
  cbn [fst snd] in *. subst x2.
  destruct (IH s1 x1 (l + n)%nat) as (x' & shs' & s' & P1 & P2 & P3 & P4 & P5 & P6); try done.
  { eapply chain_frame; [exact Hch'|]. intros l' t Hl' Ht. apply I6; lia. }
  set (sh' := Shard (cfg sh) (local sh) (layer_start sh) (layer_end sh) (layers sh) (segs sh) t2 true).
  exists x', (sh' :: shs'), s'. split_and!; try done.
  - cbn [pipe]. unfold shard_forward. rewrite Hld, Nat2Z.id, E2. cbn [negb].
    rewrite (proj2 (Z.ltb_ge _ _)), (proj2 (Z.leb_gt _ _)) by (rewrite ?Hloc; simpl; lia). cbn [orb].
    by rewrite P1.
  - replace (clayers c - l)%nat with (n + (clayers c - (l + n)))%nat by lia.
    rewrite seq_app, map_app, run_layers_app, E1, Hla. exact P2.
  - constructor.
    + do 5 (split; [done|]). exact I4.
    + cbn [layers local sh_state sh']. fold n. intros i t Hi Ht. rewrite P6 by lia. apply I5; [done|lia].
    + exact P5.
  - intros l' t Ht Hl'. rewrite P6, I6 by lia. done.
Qed.
End Pipeline.

(** ** Loading *)

Section Loading.
Context {F : Type} `{FloatOps F} (fbits : Z → F) {S : Type} `{ShardEnv S}.

(** What a transfer delivers when it succeeds: the bytes of the file. *)
Definition fetch_faithful (fid : Z) (file : list Z) : Prop :=
  ∀ off n s bs, 0 ≤ off → 0 ≤ n → off + n < 2 ^ 32 → fst (env_fetch fid off n s) = Some bs →
    bs = slice off n file ∧ off + n ≤ len file.

(** The weights of a checkpoint. *)
Definition weights (file : list Z) : list F := floats fbits (drop (Z.to_nat CKPT_HEADER_BYTES) file).

Lemma lookup_le_words bs i :
  le_words bs !! i = if decide (i < length bs / 4)%nat then Some (le32_at bs (4 * Z.of_nat i)) else None.
Proof.
  unfold le_words. rewrite list_lookup_fmap. case_decide.
  - by rewrite lookup_seq_lt by lia.
  - by rewrite lookup_seq_ge by lia.
Qed.

Lemma le32_at_sub (bs : list Z) k n i :
  (4 * i + 4 ≤ n)%nat → (k + n ≤ length bs)%nat →
  le32_at (take n (drop k bs)) (4 * Z.of_nat i) = le32_at bs (Z.of_nat k + 4 * Z.of_nat i).
Proof.
  intros Hi Hn. unfold le32_at.
  assert (E : ∀ j, (j < 4)%nat → byte_at (take n (drop k bs)) (4 * Z.of_nat i + Z.of_nat j) =
    byte_at bs (Z.of_nat k + 4 * Z.of_nat i + Z.of_nat j)).
  { intros j Hj. unfold byte_at. rewrite !nth_lookup, lookup_take_lt, lookup_drop by lia. do 2 f_equal. lia. }
  pose proof (E 0%nat ltac:(lia)) as E0. pose proof (E 1%nat ltac:(lia)) as E1.
  pose proof (E 2%nat ltac:(lia)) as E2. pose proof (E 3%nat ltac:(lia)) as E3.
  change (Z.of_nat 0) with 0 in E0. change (Z.of_nat 1) with 1 in E1.
  change (Z.of_nat 2) with 2 in E2. change (Z.of_nat 3) with 3 in E3.
  rewrite !Z.add_0_r in E0. by rewrite E0, E1, E2, E3.
Qed.

(** Floats of a slice are a slice of the floats. *)
Lemma floats_slice (bs : list Z) k n :
  (4 * k + 4 * n ≤ length bs)%nat →
  floats fbits (take (4 * n) (drop (4 * k) bs)) = take n (drop k (floats fbits bs)).
Proof.
  intros Hl. unfold floats. rewrite skipn_map, firstn_map. f_equal. apply list_eq. intros i.
  rewrite lookup_le_words, length_take, length_drop, Nat.min_l by lia.
  rewrite Nat.mul_comm, Nat.div_mul by lia. case_decide.
  - rewrite lookup_take_lt, lookup_drop, lookup_le_words by done. rewrite decide_True.
    + f_equal. rewrite Nat.mul_comm, le32_at_sub by lia. f_equal. lia.
    + apply Nat.div_le_lower_bound; lia.
  - by rewrite lookup_take_ge by lia.
Qed.

Lemma length_weights file : length (weights file) = ((length file - 28) / 4)%nat.
Proof.
  unfold weights, floats, le_words. rewrite !length_map, length_seq, length_drop. done.
Qed.

(** One tensor. *)
Lemma fetched_floats file o n :
  0 ≤ o → 0 ≤ n → 28 + 4 * o + 4 * n ≤ len file →
  floats fbits (slice (28 + 4 * o) (4 * n) file) = take (Z.to_nat n) (drop (Z.to_nat o) (weights file)) ∧
  o + n ≤ Z.of_nat (length (weights file)).
Proof.
  intros Ho Hn Hl. unfold len in *. rewrite length_weights. split.
  - unfold slice, weights. rewrite <- floats_slice by (rewrite length_drop; unfold CKPT_HEADER_BYTES; lia).
    rewrite drop_drop. do 3 f_equal; [lia|]. f_equal. unfold CKPT_HEADER_BYTES. lia.
  - assert (Z.to_nat (o + n) ≤ (length file - 28) / 4)%nat by (apply Nat.div_le_lower_bound; lia). lia.
Qed.

Context (fid : Z) (file : list Z) (Hfetch : fetch_faithful fid file).

Definition tensor (ck : list F) (l b s : Z) : list F := take (Z.to_nat s) (drop (Z.to_nat (b + l * s)) ck).

Lemma fetch_tensors_spec l bs ss (s0 : S) :
  0 ≤ l < 2 ^ 31 →
  Forall2 (λ b s, 0 ≤ b ∧ 0 ≤ s ∧ 28 + 4 * (b + l * s + s) < 2 ^ 32) bs ss →
  wlp (fetch_tensors fbits fid l bs ss) (λ r _,
    match r with
    | None => True
    | Some ts => ts = zip_with (tensor (weights file) l) bs ss ∧
                 Forall2 (λ b s, b + l * s + s ≤ Z.of_nat (length (weights file))) bs ss
    end) s0.
Proof.
  intros Hl Hb. revert s0. induction Hb as [|b s bs ss (Hb & Hs & Hmax) Hb' IH]; intros s0.
  { apply wlp_ret. by split. }
  cbn [fetch_tensors]. assert (Hls : 0 ≤ l * s) by nia.
  assert (E1 : u32 (add64 CKPT_HEADER_BYTES (mul64 (add64 b (mul64 (u64 l) s)) 4)) = 28 + 4 * (b + l * s)).
  { unfold CKPT_HEADER_BYTES. rewrite (u64_id l), (mul64_id l s), (add64_id b (l * s)),
      (mul64_id (b + l * s) 4), add64_id, u32_id by (unfold is_u32; lia). lia. }
  assert (E2 : u32 (mul64 s 4) = 4 * s) by (rewrite mul64_id, u32_id by (unfold is_u32; lia); lia).
  rewrite E1, E2. apply wlp_bind. intros r s1 Er. unfold env in Er. injection Er as Er.
  destruct r as [bytes|]; [|by apply wlp_ret].
  apply wlp_bind. eapply wlp_mono; [apply IH|]. intros [ts|] s2 Hts; apply wlp_ret; [|done].
  destruct Hts as [-> Hf].
  destruct (Hfetch (28 + 4 * (b + l * s)) (4 * s) s0 bytes) as [-> Hle]; [lia|lia|lia|by rewrite Er|].
  destruct (fetched_floats file (b + l * s) s) as [Ht Hlen]; [lia..|].
  split; [cbn [zip_with]; f_equal; exact Ht|by constructor].
Qed.

(** A segment holds the layer the single node addresses. *)
Lemma segment_layer_eq ck c shared l :
  cfg_fits c → config_ok c → 0 ≤ l < n_layers c →
  Forall2 (λ b s, b + l * s + s ≤ Z.of_nat (length ck)) (base (ckpt_geometry c)) (stride (ckpt_geometry c)) →
  layer_eq c (layer_at ck c shared (Z.to_nat l))
    (segment_layer (zip_with (tensor ck l) (base (ckpt_geometry c)) (stride (ckpt_geometry c)))).
Proof.
  intros Hfit Hok Hl Hb. set (bs := base (ckpt_geometry c)) in *. set (ss := stride (ckpt_geometry c)) in *.
  assert (Hoff : llama_layer_at (memory_map_weights c 0 shared) c l = zip_with (λ b s, b + l * s) bs ss).
  { symmetry. by apply layer_offsets_agree. }
  assert (G : ∀ i s, ss !! i = Some s → same_upto (Z.to_nat s)
    (ptr ck (nth i (llama_layer_at (memory_map_weights c 0 shared) c l) 0))
    (concat (drop i (zip_with (tensor ck l) bs ss)))).
  { intros i s Hi. destruct (Forall2_lookup_r _ _ _ _ _ Hb Hi) as (b & Hbi & Hle).
    assert (Ht : zip_with (tensor ck l) bs ss !! i = Some (tensor ck l b s)).
    { apply lookup_zip_with_Some. by exists b, s. }
    rewrite (drop_S _ _ _ Ht). cbn [concat]. rewrite Hoff.
    intros j Hj. rewrite nth_lookup. erewrite (proj2 (lookup_zip_with_Some _ _ _ _ _)) by (by exists b, s).
    cbn [default]. unfold ptr, rd.
    assert (Hgb : 0 ≤ b ∧ 0 ≤ s ∧ b + l * s + s ≤ model_floats c).
    { apply (geometry_bounds c Hfit l i); [done|..]; rewrite <- geometry_exact by done; done. }
    assert (0 ≤ l * s) by nia.
    assert (Hlt : length (tensor ck l b s) = Z.to_nat s).
    { unfold tensor. rewrite length_take, length_drop. lia. }
    rewrite app_nth1 by lia. unfold tensor. by rewrite !nth_lookup, lookup_take_lt. }
  destruct (config_sizes c Hok) as (_ & _ & Hkv).
  assert (Hkvd : Z.to_nat (kvd c) = kv_dim c).
  { destruct (sizes_bounded c Hfit 0 ltac:(pose proof Hfit as (_ & _ & ? & _); lia)) as (Hh0 & _).
    rewrite Hkv. unfold kvd. rewrite Z2Nat.inj_mul by (try done; apply Hok || (pose proof Hfit as (_ & _ & _ & ? & _); lia)).
    rewrite Nat.mul_comm. f_equal. unfold hsize, head_size, cdim, cheads.
    rewrite Z.quot_div_nonneg, Z2Nat.inj_div; try done; pose proof Hfit as (? & _ & _ & ? & _); lia. }
  pose proof Hfit as (Hd & Hh & _ & Hk & _).
  destruct (sizes_bounded c Hfit 0 ltac:(pose proof Hfit as (_ & _ & ? & _); lia)) as (_ & _ & Hk0 & _).
  unfold layer_at. rewrite Z2Nat.id by lia. 
  assert (Hss : ss = stride (plain_geometry c)) by (unfold ss; by rewrite geometry_exact).
  unfold layer_eq, segment_layer, cdim, chidden. cbv zeta.
  cbn [rms_att wq wk wv wo rms_ffn w1 w2 w3].
  assert (E : ∀ a, 0 ≤ a → (Z.to_nat a * Z.to_nat (dim c))%nat = Z.to_nat (dim c * a)) by (intros; lia).
  rewrite (Nat.mul_comm (Z.to_nat (dim c)) (Z.to_nat (hidden_dim c))), <- Hkvd, !E by lia.
  split_and!; apply G; rewrite Hss; reflexivity.
Qed.

Context (c : Config) (Hfit : cfg_fits c) (Hok : config_ok c) (Hsize : 28 + 4 * model_floats c < 2 ^ 32).

Lemma load_layers_spec shared n l bytes (s0 : S) :
  0 ≤ l → l + Z.of_nat n ≤ n_layers c →
  wlp (load_layers fbits n fid l bytes (ckpt_geometry c)) (λ r _,
    match fst r with
    | None => True
    | Some ls => snd r = n ∧
        Forall2 (layer_eq c) (map (layer_at (weights file) c shared) (seq (Z.to_nat l) n)) ls
    end) s0.
Proof.
  revert l s0. induction n as [|n IH]; intros l s0 Hl Hn.
  { apply wlp_ret. by split. }
  cbn [load_layers]. apply wlp_bind. intros shmid s1 _.
  destruct (shmid <? 0); [by apply wlp_ret|].
  apply wlp_bind. intros ok s2 _. destruct ok; cbn [negb]; [|by apply wlp_ret].
  assert (Hb : Forall2 (λ b s, 0 ≤ b ∧ 0 ≤ s ∧ 28 + 4 * (b + l * s + s) < 2 ^ 32)
    (base (ckpt_geometry c)) (stride (ckpt_geometry c))).
  { rewrite geometry_exact by done. apply Forall2_same_length_lookup_2; [done|].
    intros i b st Hb Hs. destruct (geometry_bounds c Hfit l i b st) as (? & ? & ?); [lia|done..|]. lia. }
  pose proof Hfit as (_ & _ & Hnl & _).
  apply wlp_bind. eapply wlp_mono; [apply (fetch_tensors_spec l); [lia|exact Hb]|].
  intros [ts|] s3 Hts; [|by apply wlp_ret]. destruct Hts as [-> Hle].
  apply wlp_bind. eapply wlp_mono; [apply (IH (l + 1)); lia|].
  intros [[ls|] k] s4 Hr; apply wlp_ret; [|done]. cbn [fst snd] in *. destruct Hr as [-> Hls].
  split; [done|]. cbn [seq map]. constructor; [by apply segment_layer_eq; try lia|].
  by replace (Datatypes.S (Z.to_nat l)) with (Z.to_nat (l + 1)) by lia.
Qed.

Lemma new_run_state_ok (p : Config) : run_ok p (new_run_state fbits p).
Proof. unfold run_ok, new_run_state. cbn. rewrite !length_replicate. by split_and!. Qed.

(** A loaded shard serves its layers; a shard that was not loaded runs nothing. *)
Lemma shard_load_spec shared sh0 l0 l1 max_seq (s0 : S) :
  wlp (shard_load fbits sh0 fid c l0 l1 max_seq) (λ r _,
    (fst r = 0 ∧ 0 ≤ l0 < l1 ∧ l1 ≤ n_layers c ∧ length (layers (snd r)) = Z.to_nat (l1 - l0) ∧
     serves c (layer_at (weights file) c shared) (clamp_seq c max_seq) (Z.to_nat l0) (snd r)) ∨
    (fst r = -1 ∧ (snd r = sh0 ∨ loaded (snd r) = false))) s0.
Proof.
  unfold shard_load.
  destruct (Z.ltb_spec l0 0); [apply wlp_ret; auto|]. destruct (Z.ltb_spec (n_layers c) l1); [apply wlp_ret; auto|].
  destruct (Z.leb_spec l1 l0); [apply wlp_ret; auto|]. cbn [orb].
  destruct (Z.ltb_spec SHARD_MAX_LAYERS (l1 - l0)); [apply wlp_ret; auto|].
  apply wlp_bind. eapply wlp_mono; [apply (load_layers_spec shared); lia|].
  intros [[ls|] k] s1 Hls; [|apply wlp_ret; auto]. cbn [fst snd] in Hls. destruct Hls as [-> Hls].
  apply wlp_bind. unfold malloc_run_state. apply wlp_bind. intros ok s2 _.
  destruct ok; [|intros ? ? E; discriminate E]. apply wlp_ret, wlp_ret. left. cbn [fst snd layers].
  pose proof (Forall2_length _ _ _ Hls) as Hlen. rewrite length_map, length_seq in Hlen.
  split_and!; try done; try lia. unfold serves. cbn [layers loaded local sh_state]. rewrite <- Hlen.
  split_and!; try done; try lia.
  - unfold clayers. lia.
  - by rewrite Z2Nat.id by lia.
  - apply new_run_state_ok.
Qed.

(** The configuration the file names. *)
Definition file_config (f : list Z) : Config := read_config (slice 0 CKPT_HEADER_BYTES f).

Lemma header_config f : 28 ≤ len f → read_config f = file_config f.
Proof.
  intros Hl. unfold file_config, read_config, slice, CKPT_HEADER_BYTES. unfold len in Hl. cbn [Z.to_nat drop].
  assert (E : ∀ i, (i < 7)%nat → le32_at (take (Z.to_nat 28) f) (4 * Z.of_nat i) = le32_at f (4 * Z.of_nat i)).
  { intros i Hi. change f with (drop 0 f) at 1. rewrite le32_at_sub by lia. done. }
  assert (E' : ∀ i, i ∈ [0; 4; 8; 12; 16; 20; 24] → le32_at (take (Z.to_nat 28) f) i = le32_at f i).
  { intros i Hi. replace i with (4 * Z.of_nat (Z.to_nat (i / 4))); [apply E|];
      repeat (apply elem_of_cons in Hi as [->|Hi]; [vm_compute; lia|]); by apply not_elem_of_nil in Hi. }
  rewrite !E' by set_solver. done.
Qed.

(** The single node reads the same configuration and starts with empty caches. *)
Lemma build_transformer_spec f (s0 : S) :
  28 ≤ len f → file_config f = c →
  wlp (build_transformer fbits f) (λ r _, r = (c, true, new_run_state fbits c)) s0.
Proof.
  intros Hl Hcfg. pose proof Hfit as (Hd & _ & _ & _ & _ & Hv & Hvd & _).
  unfold build_transformer. rewrite header_config, Hcfg by done.
  rewrite (proj2 (Z.ltb_lt 0 (vocab_size c))), Z.abs_eq, s32_id by (try lia; unfold is_s32; nia).
  replace (MkConfig _ _ _ _ _ _ _) with c by (by destruct c).
  apply wlp_bind. unfold malloc_run_state. apply wlp_bind. intros ok s1 _.
  destruct ok; [|intros ? ? E; discriminate E]. by apply wlp_ret, wlp_ret.
Qed.

(** What the master holds are the tensors the single node addresses. *)
Lemma master_load_spec (s0 : S) :
  file_config file = c → 28 + 4 * (model_floats c + dim c) < 2 ^ 32 →
  wlp (master_load_head_tail fbits fid) (λ r _,
    match r with
    | None => True
    | Some (c', table, final, st) =>
        let ck := weights file in
        let w := memory_map_weights c 0 true in
        c' = c ∧ table = take (Z.to_nat (vocab_size c * dim c)) (ptr ck (token_embedding_table w)) ∧
        final = take (cdim c) (ptr ck (rms_final_weight w)) ∧
        vocab_size c * dim c ≤ Z.of_nat (length ck) ∧ length (logits st) = Z.to_nat (vocab_size c)
    end) s0.
Proof.
  intros Hcfg Hsz. pose proof Hfit as (Hd & _ & _ & _ & _ & Hv & Hvd & _).
  destruct (head_tail_agree c Hfit true) as (O1 & O2 & O3 & O4 & _).
  assert (Hmf : vocab_size c * dim c ≤ model_floats c).
  { destruct (sizes_bounded c Hfit (n_layers c) ltac:(pose proof Hfit; unfold cfg_fits in *; lia))
      as (_ & _ & _ & ? & _ & ? & _ & ? & _ & _ & ?). unfold model_floats. lia. }
  rewrite rms_final_exact in O3 by done. change (token_embedding_table _) with 0 in O1.
  unfold SIZEOF_CONFIG in *.
  assert (U1 : u32 (embed_off (llama_head_tail_offsets c true)) = 28 + 4 * 0) by (rewrite O1, u32_id; unfold is_u32; lia).
  assert (U2 : u32 (embed_bytes (llama_head_tail_offsets c true)) = 4 * (vocab_size c * dim c))
    by (rewrite O2, u32_id; unfold is_u32; lia).
  assert (U3 : u32 (final_off (llama_head_tail_offsets c true)) = 28 + 4 * model_floats c)
    by (rewrite O3, u32_id; unfold is_u32; lia).
  assert (U4 : u32 (final_bytes (llama_head_tail_offsets c true)) = 4 * dim c) by (rewrite O4, u32_id; unfold is_u32; lia).
  unfold master_load_head_tail, shard_fetch_config. apply wlp_bind, wlp_bind.
  intros r s1 E1. unfold env in E1. injection E1 as E1.
  destruct r as [buf|]; [|apply wlp_ret; by apply wlp_ret].
  destruct (Hfetch 0 CKPT_HEADER_BYTES s0 buf) as [-> _]; [done|done|done|by rewrite E1|].
  fold (file_config file). rewrite Hcfg. apply wlp_ret.
  destruct (plausible c); [|by apply wlp_ret].
  rewrite (proj2 (Z.ltb_lt 0 (vocab_size c))) by done. cbn [negb].
  rewrite (proj2 (Z.ltb_ge (vocab_size c) 0)) by lia.
  replace (MkConfig _ _ _ _ _ _ _) with c by (by destruct c).
  apply wlp_bind. intros shmid s2 _. destruct (shmid <? 0); [by apply wlp_ret|].
  apply wlp_bind. intros ok s3 _. destruct ok; cbn [negb]; [|by apply wlp_ret].
  rewrite U1, U2, U3, U4.
  apply wlp_bind. intros r s4 E4. unfold env in E4. injection E4 as E4. destruct r as [e|]; [|by apply wlp_ret].
  destruct (Hfetch (28 + 4 * 0) (4 * (vocab_size c * dim c)) s3 e) as [-> Le]; [lia|lia|lia|by rewrite E4|].
  apply wlp_bind. intros ok s5 _. destruct ok; cbn [negb]; [|by apply wlp_ret].
  apply wlp_bind. intros r s6 E6. unfold env in E6. injection E6 as E6. destruct r as [f|]; [|by apply wlp_ret].
  destruct (Hfetch (28 + 4 * model_floats c) (4 * dim c) s5 f) as [-> Lf]; [lia|lia|lia|by rewrite E6|].
  apply wlp_bind. unfold malloc_run_state_head. apply wlp_bind. intros ok s7 _.
  destruct ok; [|intros ? ? E; discriminate E]. apply wlp_ret, wlp_ret.
  destruct (fetched_floats file 0 (vocab_size c * dim c)) as [T1 T2]; [lia..|].
  destruct (fetched_floats file (model_floats c) (dim c)) as [F1 _]; [lia..|].
  cbv zeta. rewrite rms_final_exact by done. cbn [logits]. rewrite length_replicate. by split_and!.
Qed.
End Loading.

(** ** The ring and the single node *)

Section Ring.
Context {F : Type} `{FloatOps F}.

(** The master embeds each token into its buffer, sends the activation round the
    shards and classifies what comes back; [k] is the position of the first. *)
Fixpoint ring_run (plm plw : pool) (table final : list F) (c : Config) (lg buf : list F)
    (shs : list (shard_t F)) (k : nat) (tokens : list nat) : option (list (list F)) :=
  match tokens with
  | [] => Some []
  | token :: tokens =>
      let buf := llama_embed table c buf token in
      match pipe plw shs (take (cdim c) buf) (Z.of_nat k) with
      | None => None
      | Some (x, shs) =>
          let '(_, lg) := llama_head plm final table c lg x in
          match ring_run plm plw table final c lg buf shs (S k) tokens with
          | None => None
          | Some r => Some (lg :: r)
          end
      end
  end.

Fixpoint single_run (pl : pool) (ck : list F) (c : Config) (s : RunState F) (k : nat) (tokens : list nat)
    : list (list F) :=
  match tokens with
  | [] => []
  | token :: tokens =>
      let '(lg, s) := forward pl ck c true s token k in
      lg :: single_run pl ck c s (S k) tokens
  end.

(** The layers leave the first and the last buffer alone. *)
Lemma attention_keeps pl p l pos (s : RunState F) :
  let s' := multihead_attention pl p l pos s in rs_x s' = rs_x s ∧ logits s' = logits s.
Proof.
  assert (G : ∀ hs s0, let s' := worker_do_attention p l pos hs s0 in rs_x s' = rs_x s0 ∧ logits s' = logits s0).
  { intros hs. induction hs as [|h hs IH]; intros s0; [done|]. unfold worker_do_attention in *.
    cbn [foldl]. cbv zeta in IH. destruct (IH (attention_head p (l * cseq p * kv_dim p) pos s0 h)) as [-> ->].
    done. }
  unfold multihead_attention. destruct (_ || _); [apply G|]. cbv zeta.
  generalize (attention_items (n_heads p) (g_num_threads pl)) as items. intros items. revert s.
  induction items as [|r items IH]; intros s; [done|]. cbn [foldl].
  destruct (IH (worker_do_attention p l pos (rows r) s)) as [-> ->]. apply G.
Qed.

Lemma run_layers_keeps pl p ls (s : RunState F) x l pos :
  let r := run_layers pl p ls s x l pos in rs_x (snd r) = rs_x s ∧ logits (snd r) = logits s.
Proof.
  revert s x l. induction ls as [|w ls IH]; intros s x l; [done|]. cbn [run_layers].
  unfold llama_block. cbv zeta. set (s1 := block_qkv pl p w s x l pos).
  destruct (attention_keeps pl p l pos s1) as [E1 E2]. set (s2 := multihead_attention pl p l pos s1) in *.
  destruct (block_ffn pl p w s2 x) as [x3 s3] eqn:E3.
  assert (E4 : rs_x s3 = rs_x s2 ∧ logits s3 = logits s2).
  { unfold block_ffn in E3. cbv zeta in E3. injection E3 as _ <-. done. }
  destruct (IH s3 x3 (S l)) as [-> ->]. destruct E4 as [-> ->]. rewrite E1, E2. done.
Qed.

Lemma embed_row (table : list F) c (buf : list F) t :
  (cdim c ≤ length buf)%nat → (t * cdim c + cdim c ≤ length table)%nat →
  take (cdim c) (llama_embed table c buf t) = take (cdim c) (drop (t * cdim c) table) ∧
  length (llama_embed table c buf t) = length buf.
Proof.
  intros Hb Ht. unfold llama_embed.
  assert (Hr : length (take (cdim c) (drop (t * cdim c) table)) = cdim c).
  { rewrite length_take, length_drop. lia. }
  split; [|apply length_overwrite; lia].
  unfold overwrite. rewrite take_0, app_nil_l. by apply take_app_length'.
Qed.

(** The classifier writes every logit. *)
Lemma head_logits pl (final w : list F) c lg x :
  0 < g_num_threads pl → length lg = Z.to_nat (vocab_size c) → length x = cdim c →
  snd (llama_head pl final w c lg x) = mm pl (norm x final (cdim c)) w (cdim c) (Z.to_nat (vocab_size c)) ∧
  length (fst (llama_head pl final w c lg x)) = cdim c.
Proof.
  intros Hg Hl Hx. unfold llama_head. cbv zeta. cbn [fst snd]. rewrite rmsnorm_exact by done.
  split; [by apply matmul_exact|unfold norm; by rewrite length_map, length_seq].
Qed.

Context (pl plm plw : pool) (Hg : 0 < g_num_threads pl) (Hgm : 0 < g_num_threads plm) (Hgw : 0 < g_num_threads plw).
Context (c : Config) (Hc : config_ok c) (Hpl : pools_agree c pl plw).
Context (Hpm : threaded plm (Z.to_nat (vocab_size c)) = threaded pl (Z.to_nat (vocab_size c))).
Context (ck table final : list F) (Hv : (Z.to_nat (vocab_size c) * cdim c ≤ length ck)%nat).
Context (Htable : table = take (Z.to_nat (vocab_size c) * cdim c) ck).
Context (Hfinal : final = take (cdim c) (ptr ck (rms_final_weight (memory_map_weights c 0 true)))).

Lemma ring_single m s shs lg buf k tokens :
  0 < m → chain c (layer_at ck c true) m s k 0 shs → run_ok c s → length (rs_x s) = cdim c →
  length (logits s) = Z.to_nat (vocab_size c) → length lg = Z.to_nat (vocab_size c) →
  (cdim c ≤ length buf)%nat → Forall (λ t, t < Z.to_nat (vocab_size c))%nat tokens →
  (k + length tokens ≤ cseq c)%nat → Z.of_nat (k + length tokens) ≤ m →
  ring_run plm plw table final c lg buf shs k tokens = Some (single_run pl ck c s k tokens).
Proof.
  intros Hm. revert s shs lg buf k. induction tokens as [|t tokens IH];
    intros s shs lg buf k Hch Hs Hx Hlog Hlg Hbuf Htok Hk Hkm; [done|].
  apply Forall_cons in Htok as [Ht Htok]. cbn [length] in Hk, Hkm.
  assert (Hrow : (t * cdim c + cdim c ≤ Z.to_nat (vocab_size c) * cdim c)%nat) by nia.
  assert (Hrow' : (t * cdim c + cdim c ≤ length table)%nat) by (rewrite Htable, length_take; lia).
  destruct (embed_row table c buf t Hbuf Hrow') as [Em1 Em2].
  destruct (embed_row ck c (rs_x s) t) as [Es1 Es2]; [lia|lia|].
  assert (Erow : take (cdim c) (drop (t * cdim c) table) = llama_embed ck c (rs_x s) t).
  { rewrite <- (take_ge (llama_embed ck c (rs_x s) t) (cdim c)), Es1 by lia.
    rewrite Htable. rewrite skipn_firstn_comm, take_take. f_equal. lia. }
  cbn [ring_run single_run]. cbv zeta. rewrite Em1, Erow. unfold forward. cbv zeta.
  change (token_embedding_table (memory_map_weights c 0 true)) with 0.
  change (wcls_at (memory_map_weights c 0 true)) with 0. change (ptr ck 0) with ck.
  set (x := llama_embed ck c (rs_x s) t) in *.
  destruct (pipe_step pl plw Hg Hgw c Hc Hpl (layer_at ck c true) m Hm shs s x 0 k)
    as (x' & shs' & s' & P1 & P2 & P3 & P4 & P5 & _); try done; try lia.
  destruct (run_layers_keeps pl c (map (layer_at ck c true) (seq 0 (clayers c))) s x 0 k) as [K1 K2].
  rewrite Nat.sub_0_r in P2. rewrite P1, P2. rewrite P2 in K1, K2. cbn [fst snd] in K1, K2.
  assert (Hhead : mm plm (norm x' final (cdim c)) table (cdim c) (Z.to_nat (vocab_size c)) =
    mm pl (norm x' (ptr ck (rms_final_weight (memory_map_weights c 0 true))) (cdim c)) ck (cdim c) (Z.to_nat (vocab_size c))).
  { rewrite (mm_pool _ _ _ _ _ _ Hpm), (norm_ext x' final (ptr ck (rms_final_weight (memory_map_weights c 0 true)))).
    - apply mm_ext. intros i Hi. rewrite Htable. by apply rd_take.
    - intros i Hi. rewrite Hfinal. by apply rd_take. }
  destruct (head_logits plm final table c lg x' Hgm Hlg P3) as [L1 _].
  destruct (head_logits pl (ptr ck (rms_final_weight (memory_map_weights c 0 true))) ck c (logits s') x' Hg
    ltac:(congruence) P3) as [L2 L3].
  destruct (llama_head plm final table c lg x') as [y1 lg1].
  destruct (llama_head pl (ptr ck (rms_final_weight (memory_map_weights c 0 true))) ck c (logits s') x') as [y2 lg2].
  cbn [fst snd] in L1, L2, L3. assert (E12 : lg2 = lg1) by congruence. clear L2. subst lg2.
  assert (Hl1 : length lg1 = Z.to_nat (vocab_size c)) by (rewrite L1; apply length_mm).
  rewrite (IH (set_logits lg1 (set_x y2 s')) shs' lg1 (llama_embed table c buf t) (S k)); try done; try lia.
  by eapply chain_frame; [exact P5|].
Qed.
End Ring.

(** ** Properties *)

Lemma clamp_seq_bounds c max_seq : 0 < seq_len c → 0 < clamp_seq c max_seq ≤ seq_len c.
Proof.
  intros Hs. unfold clamp_seq. destruct (Z.leb_spec max_seq 0); [|destruct (Z.ltb_spec (seq_len c) max_seq); lia].
  unfold SHARD_DEFAULT_MAX_SEQ. destruct (Z.ltb_spec (seq_len c) 256); lia.
Qed.

Section Split.
Context {F : Type} `{FloatOps F} (fbits : Z → F) {S : Type} `{ShardEnv S}.
Context (fid : Z) (file : list Z) (Hfetch : fetch_faithful fid file).
Context (c : Config) (Hfit : cfg_fits c) (Hok : config_ok c).
Context (Hsize : 28 + 4 * (model_floats c + dim c) < 2 ^ 32).

(** [sh] came out of a [shard_load] of the range. *)
Definition loaded_from (max_seq : Z) (r : Z * Z) (sh : shard_t F) : Prop :=
  ∃ sh0 (s s' : S), shard_load fbits sh0 fid c (fst r) (snd r) max_seq s = Some ((0, sh), s').

Lemma loaded_serves max_seq l0 l1 sh :
  loaded_from max_seq (l0, l1) sh →
  0 ≤ l0 < l1 ∧ l1 ≤ n_layers c ∧ length (layers sh) = Z.to_nat (l1 - l0) ∧
  serves c (layer_at (weights fbits file) c true) (clamp_seq c max_seq) (Z.to_nat l0) sh.
Proof.
  intros (sh0 & s & s' & E). cbn [fst snd] in E. pose proof Hfit as (Hd & _).
  destruct (shard_load_spec fbits fid file Hfetch c Hfit Hok ltac:(lia) true sh0 l0 l1 max_seq s _ _ E)
    as [(_ & H1 & H2 & H3 & H4)|(Hr & _)]; [|discriminate Hr]. split_and!; [lia..|done|done].
Qed.

(** What the single node and the master hold. *)
Lemma nodes_loaded (Hcfg : file_config file = c) table final st rs (s s' s1 s1' : S) :
  build_transformer fbits file s1 = Some ((c, true, rs), s1') →
  master_load_head_tail fbits fid s = Some (Some (c, table, final, st), s') →
  rs = new_run_state fbits c ∧ table = take (Z.to_nat (vocab_size c) * cdim c) (weights fbits file) ∧
  final = take (cdim c) (ptr (weights fbits file) (rms_final_weight (memory_map_weights c 0 true))) ∧
  (Z.to_nat (vocab_size c) * cdim c ≤ length (weights fbits file))%nat ∧ length (logits st) = Z.to_nat (vocab_size c).
Proof.
  intros Hbuild Hload. pose proof Hfit as (Hd & _ & _ & _ & _ & Hv & _).
  destruct (master_load_spec fbits fid file Hfetch c Hfit Hok ltac:(lia) s Hcfg Hsize _ _ Hload) as (_ & Ht & Hf & Hvd & Hlg).
  assert (Hlenf : 28 ≤ len file).
  { rewrite length_weights in Hvd. unfold len.
    destruct (decide (length file - 28 = 0)%nat) as [E|]; [rewrite E in Hvd; simpl in Hvd; nia|lia]. }
  pose proof (build_transformer_spec fbits fid file Hfetch c Hfit Hok ltac:(lia) file s1 Hlenf Hcfg _ _ Hbuild) as E. injection E as ->.
  assert (Evd : Z.to_nat (vocab_size c * dim c) = (Z.to_nat (vocab_size c) * cdim c)%nat) by (unfold cdim; lia).
  change (ptr _ (token_embedding_table _)) with (weights fbits file) in Ht. rewrite Evd in Ht.
  split; [done|]. split; [done|]. split; [done|]. split; [lia|done].
Qed.

(** The shards of a split form a chain. *)
Lemma split_chain max_seq n k shs s :
  0 < n → 0 ≤ k → k + Z.of_nat (length shs) = n →
  Forall2 (loaded_from max_seq) (map (λ j, layer_range (n_layers c) n (k + Z.of_nat j)) (seq 0 (length shs))) shs →
  chain c (layer_at (weights fbits file) c true) (clamp_seq c max_seq) s 0
    (Z.to_nat (fst (layer_range (n_layers c) n k))) shs.
Proof.
  intros Hn. revert k. induction shs as [|sh shs IH]; intros k Hk Hl Hf.
  { cbn [length] in Hl. replace k with n by lia. rewrite layer_range_end by done. apply chain_nil. }
  cbn [length seq map] in Hf, Hl. apply Forall2_cons in Hf as [Hsh Hf]. rewrite Z.add_0_r in Hsh.
  pose proof (layer_range_next (n_layers c) n k Hn Hk) as Hnext.
  destruct (layer_range (n_layers c) n k) as [a b]. cbn [fst snd] in *.
  destruct (loaded_serves max_seq a b sh Hsh) as (? & ? & Hlen & Hsv).
  constructor; [done|intros i t _ Ht; lia|]. rewrite Hlen.
  replace (Z.to_nat a + Z.to_nat (b - a))%nat with (Z.to_nat (fst (layer_range (n_layers c) n (k + 1)))) by lia.
  apply IH; [lia|lia|]. rewrite <- seq_shift, map_map in Hf.
  erewrite map_ext; [exact Hf|]. intros j. cbv beta.
  by replace (k + Z.of_nat (Datatypes.S j)) with (k + 1 + Z.of_nat j) by lia.
Qed.
End Split.

(** C4: Distributed inference computes what one node computes.  Let [file] be
    what the weight server holds and let every completed transfer deliver its
    bytes.  If the master has loaded its part of the model and the workers have
    each loaded their range of the split, then for every sequence of valid tokens
    that fits the workers' caches, the logits the master obtains by sending each
    embedded token through the shards are exactly those of [forward] on the
    model built from the whole checkpoint, for any floating-point operations.
    The nodes must sum their products in the same order: all with or all
    without a thread pool, or a model with no output of 128 rows.  As the program
    is wired only the master and the single node start a pool, so for a model with
    such an output the sums of the workers are ordered differently. *)
Theorem ring_computes_model {F : Type} `{FloatOps F} (fbits : Z → F) {S : Type} `{ShardEnv S}
    fid (file : list Z) c (n max_seq : Z) (pl plm plw : pool) table final st rs (s s' s1 s1' : S) shs buf tokens :
  fetch_faithful fid file →
  file_config file = c → cfg_fits c → config_ok c → 28 + 4 * (model_floats c + dim c) < 2 ^ 32 →
  0 < g_num_threads pl → 0 < g_num_threads plm → 0 < g_num_threads plw →
  pools_agree c pl plw → threaded plm (Z.to_nat (vocab_size c)) = threaded pl (Z.to_nat (vocab_size c)) →
  build_transformer fbits file s1 = Some ((c, true, rs), s1') →
  master_load_head_tail fbits fid s = Some (Some (c, table, final, st), s') →
  0 < n → Forall2 (loaded_from fbits fid c max_seq) (layer_split (n_layers c) n) shs →
  (cdim c ≤ length buf)%nat → Forall (λ t, t < Z.to_nat (vocab_size c))%nat tokens →
  Z.of_nat (length tokens) ≤ clamp_seq c max_seq →
  ring_run plm plw table final c (logits st) buf shs 0 tokens =
    Some (single_run pl (weights fbits file) c rs 0 tokens).
Proof.
  intros Hfetch Hcfg Hfit Hok Hsize Hg Hgm Hgw Hpl Hpm Hbuild Hload Hn Hshs Hbuf Htok Hlen.
  pose proof Hfit as (Hd & _ & Hnl & _ & _ & Hv & _ & Hsq & _).
  pose proof (Forall2_length _ _ _ Hshs) as Hl. rewrite layer_split_ranges, length_map, length_seq in Hl by lia.
  destruct (nodes_loaded fbits fid file Hfetch c Hfit Hok Hsize Hcfg _ _ _ _ _ _ _ _ Hbuild Hload) as (-> & Ht & Hf & Hvl & Hlg).
  pose proof (clamp_seq_bounds c max_seq ltac:(lia)) as Hcl.
  apply (ring_single pl plm plw Hg Hgm Hgw c Hok Hpl Hpm _ table final Hvl Ht Hf (clamp_seq c max_seq));
    try done; try lia; try (unfold cseq; lia); try (by unfold new_run_state; cbn; rewrite length_replicate);
    try apply new_run_state_ok.
  change 0%nat with (Z.to_nat 0) at 2.
  replace 0 with (fst (layer_range (n_layers c) n 0)).
  - apply (split_chain fbits fid file Hfetch c Hfit Hok Hsize max_seq n 0); [done|done|lia|].
    rewrite layer_split_ranges in Hshs by lia. rewrite Hl in Hshs. exact Hshs.
  - unfold layer_range. cbn [fst]. pose proof (Z.mod_pos_bound (n_layers c) n Hn).
    destruct (Z.ltb_spec 0 (n_layers c mod n)); lia.
Qed.

(** A small model: two layers, width 2, three tokens, four positions; the
    operations are those of the integers. *)
#[local] Existing Instance int_floats.

Definition small_config : Config := MkConfig 2 2 2 1 1 3 4.
Definition small_file : list Z :=
  flat_map (λ w, [w; 0; 0; 0]) ([2; 2; 2; 1; 1; 3; 4] ++ map (λ i, Z.of_nat i mod 5) (seq 1 72)).

#[local] Instance small_env : ShardEnv unit := {|
  env_shmget := λ _ _ s, (0, s); env_shmat := λ _ s, (true, s); env_shmdt := id;
  env_fetch := λ _ off n s, (if decide (off + n ≤ len small_file) then Some (slice off n small_file) else None, s);
  env_calloc := λ s, (true, s); env_malloc := λ _ s, (true, s) |}.

Definition small_shard (l : Z) : shard_t Z :=
  match shard_load id (Shard small_config small_config 0 0 [] 0 run_state_null false) 0 small_config l (l + 1) 0 tt with
  | Some ((_, sh), _) => sh
  | None => Shard small_config small_config 0 0 [] 0 run_state_null false
  end.

Lemma ring_computes_model_witness :
  let pl := Pool true 4 in
  ring_run pl (Pool false 1) (take 6 (weights id small_file)) (take 2 (drop 70 (weights id small_file))) small_config
    (replicate 3 0) (replicate 1024 0) [small_shard 0; small_shard 1] 0 [1; 0; 2]%nat =
  Some (single_run pl (weights id small_file) small_config (new_run_state id small_config) 0 [1; 0; 2]%nat).
Proof.
  cbv zeta.
  apply (ring_computes_model id 0 small_file small_config 2 0 (Pool true 4) (Pool true 4) (Pool false 1)
    (take 6 (weights id small_file)) (take 2 (drop 70 (weights id small_file)))
    (MkRunState [0; 0] [0; 0] [] [] [] [] [] [0; 0; 0] [] []) (new_run_state id small_config) tt tt tt tt).
  - intros off n s bs Hoff Hn _ E. cbn in E. case_decide; [|done]. injection E as <-. done.
  - reflexivity.
  - unfold cfg_fits. vm_compute. repeat split; discriminate.
  - unfold config_ok. vm_compute. repeat split. exists 1%nat. reflexivity.
  - reflexivity.
  - reflexivity.
  - reflexivity.
  - reflexivity.
  - repeat split.
  - reflexivity.
  - vm_compute. reflexivity.
  - vm_compute. reflexivity.
  - reflexivity.
  - repeat constructor; exists (Shard small_config small_config 0 0 [] 0 run_state_null false), tt, tt; vm_compute; reflexivity.
  - vm_compute. lia.
  - repeat constructor.
  - vm_compute. discriminate.
Defined.
