(* ===== verification/Join.v ===== *)
(** The worker's side of discovery (user/discovery.c): registration with the
    master and heartbeats.

    The static request and reply structures are written before they are read in
    every call, so they are not part of the state.  A pointer to the structure
    the caller passes for the neighbours is a value in and a value out. *)
From S2P Require Import Prelude Sha256 Auth RpcMsg Kernel Rpc Registry Master.

Section Join.
Context {K : Type} `{Kernel K}.

Abbreviation R := (M (rpc_t K)).

(** [cap_probe_run] with its allocation. *)
Definition run_probe (seed pages : Z) : R Z :=
  if (pages =? 0) || (CAP_PROBE_CEILING_BYTES / CAP_PROBE_PGSIZE <? pages) then ret (-1)
  else
    let* ok := sys (sys_malloc (pages * CAP_PROBE_PGSIZE)) in
    match cap_probe_run ok seed pages with
    | Some chk => ret chk
    | None => fault
    end.

(** The return value and [*out_reply]. *)
Definition discovery_cap_test (master : rpc_addr_t) (ack : cap_ack_t) : R (Z * option rpc_msg_t) :=
  let* req := make_request PROC_CAP_ACK (write_cap_ack ack) in
  rpc_call master req.

(** The return value and [*out_neighbors]. *)
Definition discovery_register (master : rpc_addr_t) (self : worker_info_t) (nb : set_neighbor_t)
    : R (Z * set_neighbor_t) :=
  let* req := make_request PROC_AUTH_HELLO (write_worker_info self) in
  let* (r, o) := rpc_call master req in
  if negb (r =? RPC_OK) then ret (r, nb)
  else
    let reply := default msg_zero o in
    if negb (reply_stat reply =? MSG_ACCEPTED) then ret (-1, nb)
    else if negb (acc_stat (accepted reply) =? SUCCESS) then ret (-1, nb)
    else if payload_len reply <? SIZEOF_AUTH_HELLO_REPLY then ret (-1, nb)
    else
      let rep := read_auth_hello_reply (payload reply) in
      if negb (status rep =? WORKER_PENDING) then ret (-1, nb)
      else
        let* chk := run_probe (rep_probe_seed rep) (rep_probe_pages rep) in
        if chk <? 0 then ret (-1, nb)
        else
          let ack := CapAck (probe_data rep) (u32 chk) (cap_identity (probe_data rep)) in
          let* (r, o) := discovery_cap_test master ack in
          if negb (r =? RPC_OK) then ret (r, nb)
          else
            let reply := default msg_zero o in
            if negb (reply_stat reply =? MSG_ACCEPTED) then ret (-1, nb)
            else if negb (acc_stat (accepted reply) =? SUCCESS) then ret (-1, nb)
            else ret (r, if SIZEOF_SET_NEIGHBOR <=? payload_len reply then read_set_neighbor (payload reply) else nb).

Definition discovery_heartbeat (master : rpc_addr_t) (worker_id : Z) : R Z :=
  let* req := make_request PROC_HEARTBEAT (put_le32 worker_id) in
  rpc_send_call master req.
End Join.

(** ** Lemmas *)

(** Copies of one call to [dst] with procedure [p] and arguments [args]. *)
Definition call_copies (dst : rpc_addr_t) (p : Z) (args : list Z) (pks : list packet) : Prop :=
  ∃ j pk, (j ≤ RPC_MAX_RETRIES)%nat ∧ pks = replicate j pk ∧ (dst_ip pk, dst_port pk) = (ip dst, port dst) ∧
    ∃ x, rpc_parse (contents pk) = Parsed (x, VCall INFERENCE_PROG INFERENCE_VERS p, args).

(** A reply that accepts, with its results. *)
Definition accepted_reply (m : rpc_msg_t) : Prop :=
  msg_ok m ∧ received m ∧ view_of m = VAccepted SUCCESS.

Section JoinRuns.
Context {K : Type} `{KernelLaws K}.
Context (Hheap : heap_available K) (Hnet : no_overrun K).

#[local] Opaque msg_zero.

Lemma make_request_runs p bs (s : rpc_t K) :
  is_bytes bs → len bs ≤ RPC_PAYLOAD_MAX →
  wp (make_request p bs) (λ m s', s' = set_xid (u32 (g_xid s + 1)) s ∧ request_ok m ∧
    rpcvers (call m) = RPC_VERSION ∧ proc (call m) = p ∧ args_of m = bs ∧ xid m = g_xid s) s.
Proof.
  intros Hb Hl. unfold make_request, rpc_fill_call, rpc_next_xid.
  apply wp_bind, wp_bind, wp_bind, wp_gets, wp_bind, wp_modify, wp_ret, wp_ret, wp_ret.
  destruct msg_zero_ok as (Hz & Hzb & Hc & Hv & Ha).
  split; [done|]. split; [split|split; [done|split; [done|split; [|done]]]].
  - split_and!; try done; cbn [payload set_payload set_head set_call].
    + rewrite len_splice; [done|lia|]. rewrite Hz. done.
    + apply Forall_app. split; [constructor|]. apply Forall_app. split; [done|by apply Forall_drop].
  - cbn [payload_len set_payload]. pose proof (len_nonneg bs). lia.
  - unfold args_of. cbn [payload payload_len set_payload]. unfold splice. rewrite take_0, app_nil_l.
    apply take_app_length'. unfold len. lia.
Qed.

Lemma parse_request x req p bs :
  is_u32 x → is_u32 p → request_ok req → proc (call req) = p → args_of req = bs →
  rpc_parse (call_wire (call_for x req)) = Parsed (x, VCall INFERENCE_PROG INFERENCE_VERS p, bs).
Proof.
  intros Hx Hp Hreq Ep Ea. destruct (call_for_ok x req Hreq) as [Hm' Hl'].
  rewrite parse_call_wire; [|split_and!; try done; cbn; by rewrite Ep|done|done|apply Hm']. cbn [call call_for set_call set_head prog vers proc].
  change (args_of (call_for x req)) with (args_of req). by rewrite Ea, Ep.
Qed.

Lemma request_call_runs dst p bs (s : rpc_t K) :
  rpc_ok s → is_bytes bs → len bs ≤ RPC_PAYLOAD_MAX → is_u32 p →
  wp (let* req := make_request p bs in rpc_call dst req) (λ r s', rpc_ok s' ∧
    (∃ pks, sent (kern s') = sent (kern s) ++ pks ∧ call_copies dst p bs pks) ∧
    (fst r = RPC_OK → ∃ m, snd r = Some m ∧ accepted_reply m)) s.
Proof.
  intros Hok Hb Hl Hp. apply wp_bind. eapply wp_mono; [by apply make_request_runs|].
  intros req s1 (-> & Hreq & Hv & Ep & Ea & _). pose proof (set_xid_ok (g_xid s + 1) s Hok) as Hok1.
  eapply wp_mono; [by apply call_runs|].
  intros [r o] s' (Hok' & Ho & _ & _ & j & Hj & _ & Hs). split; [done|]. split.
  - exists (replicate j (Packet (u16 (g_port s)) (ip dst) (port dst) (call_wire (call_for (u32 (g_xid s + 1)) req)))).
    split; [exact Hs|]. exists j. eexists. split; [done|]. split; [done|]. split; [done|].
    eexists. cbn [contents]. by apply parse_request; [apply Hok1|..].
  - cbn [fst snd]. intros ->. unfold outcome in Ho. cbn [fst snd] in Ho. destruct o as [m|].
    + destruct Ho as (_ & Hm & Hr & _ & _ & Hvw). exists m. by split.
    + exfalso. repeat (apply elem_of_cons in Ho as [Ho|Ho]; [discriminate Ho|]). by apply not_elem_of_nil in Ho.
Qed.

(** An allocation of that many pages succeeded. *)
Definition backed (pages : Z) : Prop := ∃ k : K, fst (sys_malloc (pages * CAP_PROBE_PGSIZE) k) = true.

Lemma run_probe_runs seed pages (s : rpc_t K) :
  rpc_ok s →
  wp (run_probe seed pages) (λ chk s', rpc_ok s' ∧ sent (kern s') = sent (kern s) ∧
    (0 ≤ chk → 1 ≤ pages ≤ 8192 ∧ chk = cap_probe_checksum seed pages ∧ backed pages)) s ∨ pages < 0.
Proof.
  intros Hok. destruct (decide (pages < 0)); [by right|left]. unfold run_probe.
  change (CAP_PROBE_CEILING_BYTES / CAP_PROBE_PGSIZE) with 8192.
  destruct (Z.eqb_spec pages 0); [apply wp_ret; split_and!; try done; lia|].
  destruct (Z.ltb_spec 8192 pages); [apply wp_ret; split_and!; try done; lia|]. cbn [orb].
  apply wp_bind, wp_sys. assert (Hok' : rpc_ok (set_kern (snd (sys_malloc (pages * CAP_PROBE_PGSIZE) (kern s))) s))
    by (by destruct Hok as (? & ? & ? & ?)).
  destruct (fst (sys_malloc _ (kern s))) eqn:Em.
  - rewrite probe_agrees by lia. apply wp_ret. split; [done|]. split; [apply malloc_sent|]. intros _. split; [lia|]. split; [done|by eexists].
  - unfold cap_probe_run. destruct (_ || _); apply wp_ret; (split; [done|]); (split; [apply malloc_sent|done]).
Qed.

#[local] Opaque cap_identity.

(** What a registration sends and returns, on every branch. *)
Definition registered master self nb (sent0 : list packet) (r : Z * set_neighbor_t) (s' : rpc_t K) : Prop :=
  rpc_ok s' ∧ ∃ hs acks, sent (kern s') = sent0 ++ hs ++ acks ∧
    call_copies master PROC_AUTH_HELLO (write_worker_info self) hs ∧
    ((acks = [] ∧ fst r ≠ RPC_OK ∧ snd r = nb) ∨
     ∃ m, accepted_reply m ∧
       let rep := read_auth_hello_reply (payload m) in
       let chk := cap_probe_checksum (rep_probe_seed rep) (rep_probe_pages rep) in
       status rep = WORKER_PENDING ∧ 1 ≤ rep_probe_pages rep ≤ 8192 ∧ backed (rep_probe_pages rep) ∧
       call_copies master PROC_CAP_ACK
         (write_cap_ack (CapAck (probe_data rep) chk (cap_identity (probe_data rep)))) acks ∧
       (fst r ≠ RPC_OK ∧ snd r = nb ∨
        fst r = RPC_OK ∧ ∃ m', accepted_reply m' ∧
          snd r = if SIZEOF_SET_NEIGHBOR <=? payload_len m' then read_set_neighbor (payload m') else nb)).

Lemma accepted_reply_fields m :
  accepted_reply m → reply_stat m = MSG_ACCEPTED ∧ acc_stat (accepted m) = SUCCESS.
Proof.
  intros (_ & _ & Hv). unfold view_of in Hv.
  destruct (Z.eqb_spec (mtype m) MSG_CALL); [done|]. destruct (Z.eqb_spec (reply_stat m) MSG_ACCEPTED); [|done].
  by injection Hv as ->.
Qed.

Lemma register_runs master self nb (s : rpc_t K) :
  rpc_ok s → is_bytes (psk_hash self) → len (psk_hash self) = 32 →
  wp (discovery_register master self nb) (registered master self nb (sent (kern s))) s.
Proof.
  intros Hok Hb Hl. unfold discovery_register. apply wp_bind2.
  assert (HL : len (write_worker_info self) ≤ RPC_PAYLOAD_MAX).
  { unfold RPC_PAYLOAD_MAX, write_worker_info. unfold len in *. rewrite !length_app. simpl length. lia. }
  eapply wp_mono; [apply request_call_runs; [done|by apply write_worker_info_bytes|done|done]|].
  intros [r o] s1 (Hok1 & (hs & Hs1 & Hh) & Ho). cbn [fst snd] in Ho.
  assert (Stop : ∀ r' s2, r' ≠ RPC_OK → rpc_ok s2 → sent (kern s2) = sent (kern s1) →
    wp (ret (r', nb)) (registered master self nb (sent (kern s))) s2).
  { intros r' s2 Hr' Hok2 E2. apply wp_ret. split; [done|]. exists hs, []. rewrite app_nil_r, E2. split; [done|].
    split; [done|]. by left. }
  destruct (Z.eqb_spec r RPC_OK) as [->|Hr]; cbn [negb]; [|by apply Stop].
  destruct (Ho eq_refl) as (m & -> & Hm). change (default msg_zero (Some m)) with m. destruct (accepted_reply_fields m Hm) as [-> ->].
  cbn [Z.eqb MSG_ACCEPTED SUCCESS negb]. destruct (payload_len m <? _); [by apply Stop|].
  set (rep := read_auth_hello_reply (payload m)).
  destruct (Z.eqb_spec (status rep) WORKER_PENDING) as [Est|]; cbn [negb]; [|by apply Stop].
  assert (Hpg : 0 ≤ rep_probe_pages rep) by (apply le32_at_range, Hm).
  destruct (run_probe_runs (rep_probe_seed rep) (rep_probe_pages rep) s1 Hok1) as [Hp|]; [|lia].
  apply wp_bind. eapply wp_mono; [exact Hp|]. intros chk s2 (Hok2 & E2 & Hchk).
  destruct (Z.ltb_spec chk 0); [by apply Stop|]. destruct (Hchk ltac:(done)) as (Hpages & -> & Hback).
  assert (Hc : is_u32 (cap_probe_checksum (rep_probe_seed rep) (rep_probe_pages rep))).
  { apply checksum_loop_range. unfold is_u32. lia. }
  rewrite u32_id by done. unfold discovery_cap_test. apply wp_bind. 
  eapply wp_mono; [apply request_call_runs; [done|apply write_cap_ack_bytes, cap_identity_bytes| |done]|].
  { unfold RPC_PAYLOAD_MAX, write_cap_ack. unfold len in *. cbn [identity].
    rewrite !length_app, cap_identity_length. simpl length. lia. }
  intros [r o] s3 (Hok3 & (acks & Hs3 & Hacks) & Ho'). cbn [fst snd] in Ho'.
  assert (Done : ∀ r' nb', (r' ≠ RPC_OK ∧ nb' = nb ∨ r' = RPC_OK ∧ ∃ m', accepted_reply m' ∧
      nb' = if SIZEOF_SET_NEIGHBOR <=? payload_len m' then read_set_neighbor (payload m') else nb) →
    wp (ret (r', nb')) (registered master self nb (sent (kern s))) s3).
  { intros r' nb' Hr'. apply wp_ret. split; [done|]. exists hs, acks. rewrite Hs3, E2, Hs1, app_assoc.
    split; [done|]. split; [done|]. right. exists m. by split_and!. }
  destruct (Z.eqb_spec r RPC_OK) as [->|Hr]; cbn [negb]; [|apply Done; auto].
  destruct (Ho' eq_refl) as (m' & -> & Hm'). change (default msg_zero (Some m')) with m'. destruct (accepted_reply_fields m' Hm') as [-> ->].
  cbn [Z.eqb MSG_ACCEPTED SUCCESS negb]. apply Done. right. eauto.
Qed.

Lemma rtotal_register master self nb :
  is_bytes (psk_hash self) → len (psk_hash self) = 32 → rtotal (discovery_register master self nb).
Proof.
  intros Hb Hl s Hs. eapply wp_mono; [by apply register_runs|].
  intros r s' (Hok & hs & acks & Hsent & _). by eapply reaches_sent.
Qed.

Lemma rtotal_heartbeat master wid : rtotal (discovery_heartbeat master wid).
Proof.
  unfold discovery_heartbeat. apply rtotal_request; [apply put_le32_bytes|done|].
  intros m Hm Hv. by apply rtotal_send_call.
Qed.
End JoinRuns.

(** ** Property *)

(** C27: A registration proves what it claims and reports what it got.  Whatever
    the network answers, [discovery_register] returns; it sends copies of one
    AUTH_HELLO with the node's identity, and a CAP_ACK only after an accepted
    reply with a PENDING challenge of between 1 and 8192 pages and after the
    allocation of those pages succeeded, carrying that challenge's nonce, the
    checksum of the pages and the keyed hash of the nonce.  A failure before that,
    the allocation's included, is reported without a CAP_ACK; a failure of the
    second call is reported after it.  It returns RPC_OK only after the CAP_ACK was
    accepted, and only then changes the neighbours, to those of that reply.  The
    stream records can be allocated, and no datagram received is an [Overrun]. *)
Theorem discovery_register_exact {K} `{KernelLaws K} master self nb (s : rpc_t K) :
  heap_available K → no_overrun K → rpc_ok s → is_bytes (psk_hash self) → len (psk_hash self) = 32 →
  ∃ r s', discovery_register master self nb s = Some (r, s') ∧
    registered master self nb (sent (kern s)) r s'.
Proof. intros Hh Hn Hok Hb Hl. by apply register_runs. Qed.

Lemma discovery_register_exact_witness :
  let self := WorkerInfo 7 9 10007 4096 (replicate 32 1) 0 0 in
  let s := rpc_start (Calm (Script [(1, 5000, reply_wire 2 SUCCESS
    (write_auth_hello_reply (AuthHelloReply WORKER_PENDING 77 5 2)) 16)] [] [] 9 true [])) in
  ∃ r s', discovery_register (RpcAddr 1 5000) self (SetNeighbor 0 0 0 0) s = Some (r, s') ∧
    registered (RpcAddr 1 5000) self (SetNeighbor 0 0 0 0) [] r s'.
Proof.
  intros self s. apply (discovery_register_exact (RpcAddr 1 5000) self (SetNeighbor 0 0 0 0) s calm_heap calm_no_overrun).
  - apply rpc_start_ok.
  - apply Forall_replicate. unfold is_byte. lia.
  - reflexivity.
Defined.
