(* ===== verification/Worker.v ===== *)
(** The worker process (user/distinf.c, and the listen thread of
    user/discovery.c): the call-back for inference messages, the inference
    thread, the heartbeat thread, the listen thread and the start-up.

    The state is what the three threads share: the RPC transport, the ring
    pointers of the node, the flags of the re-registration hand-shake and the
    mailbox [g_inf].  Here each operation runs without interruption; Threads.v
    interleaves them.  A [float] is its bit pattern, and the floating-point
    operations are those of the class [FloatOps] at that type. *)
From stdpp Require Import relations sorting.
From S2P Require Import Prelude Sha256 Auth RpcMsg Kernel Mutex Rpc Registry Wire Master Assign Hop Llama Checkpoint Shard Join.

Inductive corrupt_mode_t := CORRUPT_NONE | CORRUPT_SIGNFLIP | CORRUPT_ZERO | CORRUPT_DELTA.

(** The cycle counter, and the address of the weight server ([llm_set_server]). *)
Class NodeEnv (S : Type) := {
  env_rdtime : S → Z * S;
  env_set_server : Z → Z → S → S;
}.

Record worker_t (K E : Type) := WorkerState {
  wrpc : rpc_t K;
  wenv : E;
  (** [cur_prev_ip], [cur_prev_port], [cur_next_ip], [cur_next_port] *)
  cur : set_neighbor_t;
  needs_reregister : bool;
  w_master : rpc_addr_t;
  w_id : Z;
  w_self : worker_info_t;
  have_assignment : bool;
  assignment : assign_layers_t;
  have_hop : bool;
  hop : infer_hop_t;
  activation : list Z;
  compute : list Z;
  g_mutex : Z;
  shard : shard_t Z;
  session : Z;
  ready : bool;
  g_last_seq : Z;
  g_corrupt_mode : corrupt_mode_t;
  g_corrupt_delta : Z;
}.
Arguments WorkerState {K E}.
Arguments wrpc {K E}.
Arguments wenv {K E}.
Arguments cur {K E}.
Arguments needs_reregister {K E}.
Arguments w_master {K E}.
Arguments w_id {K E}.
Arguments w_self {K E}.
Arguments have_assignment {K E}.
Arguments assignment {K E}.
Arguments have_hop {K E}.
Arguments hop {K E}.
Arguments activation {K E}.
Arguments compute {K E}.
Arguments g_mutex {K E}.
Arguments shard {K E}.
Arguments session {K E}.
Arguments ready {K E}.
Arguments g_last_seq {K E}.
Arguments g_corrupt_mode {K E}.
Arguments g_corrupt_delta {K E}.

Section Worker.
Context {K E : Type} `{Kernel K} `{ShardEnv E} `{NodeEnv E} `{FloatOps Z}.

Abbreviation W := (M (worker_t K E)).

(** ** State updates *)

Definition set_wrpc (r : rpc_t K) (s : worker_t K E) : worker_t K E :=
  WorkerState r (wenv s) (cur s) (needs_reregister s) (w_master s) (w_id s) (w_self s) (have_assignment s)
    (assignment s) (have_hop s) (hop s) (activation s) (compute s) (g_mutex s) (shard s) (session s) (ready s)
    (g_last_seq s) (g_corrupt_mode s) (g_corrupt_delta s).
Definition set_wenv (e : E) (s : worker_t K E) : worker_t K E :=
  WorkerState (wrpc s) e (cur s) (needs_reregister s) (w_master s) (w_id s) (w_self s) (have_assignment s)
    (assignment s) (have_hop s) (hop s) (activation s) (compute s) (g_mutex s) (shard s) (session s) (ready s)
    (g_last_seq s) (g_corrupt_mode s) (g_corrupt_delta s).
Definition set_cur (n : set_neighbor_t) (s : worker_t K E) : worker_t K E :=
  WorkerState (wrpc s) (wenv s) n (needs_reregister s) (w_master s) (w_id s) (w_self s) (have_assignment s)
    (assignment s) (have_hop s) (hop s) (activation s) (compute s) (g_mutex s) (shard s) (session s) (ready s)
    (g_last_seq s) (g_corrupt_mode s) (g_corrupt_delta s).
Definition set_needs (b : bool) (s : worker_t K E) : worker_t K E :=
  WorkerState (wrpc s) (wenv s) (cur s) b (w_master s) (w_id s) (w_self s) (have_assignment s)
    (assignment s) (have_hop s) (hop s) (activation s) (compute s) (g_mutex s) (shard s) (session s) (ready s)
    (g_last_seq s) (g_corrupt_mode s) (g_corrupt_delta s).
(** The assignment mailbox. *)
Definition set_assignment (b : bool) (a : assign_layers_t) (s : worker_t K E) : worker_t K E :=
  WorkerState (wrpc s) (wenv s) (cur s) (needs_reregister s) (w_master s) (w_id s) (w_self s) b
    a (have_hop s) (hop s) (activation s) (compute s) (g_mutex s) (shard s) (session s) (ready s)
    (g_last_seq s) (g_corrupt_mode s) (g_corrupt_delta s).
(** The activation mailbox. *)
Definition set_hop (b : bool) (h : infer_hop_t) (x : list Z) (s : worker_t K E) : worker_t K E :=
  WorkerState (wrpc s) (wenv s) (cur s) (needs_reregister s) (w_master s) (w_id s) (w_self s) (have_assignment s)
    (assignment s) b h x (compute s) (g_mutex s) (shard s) (session s) (ready s)
    (g_last_seq s) (g_corrupt_mode s) (g_corrupt_delta s).
Definition set_compute (x : list Z) (s : worker_t K E) : worker_t K E :=
  WorkerState (wrpc s) (wenv s) (cur s) (needs_reregister s) (w_master s) (w_id s) (w_self s) (have_assignment s)
    (assignment s) (have_hop s) (hop s) (activation s) x (g_mutex s) (shard s) (session s) (ready s)
    (g_last_seq s) (g_corrupt_mode s) (g_corrupt_delta s).
Definition set_mutex (m : Z) (s : worker_t K E) : worker_t K E :=
  WorkerState (wrpc s) (wenv s) (cur s) (needs_reregister s) (w_master s) (w_id s) (w_self s) (have_assignment s)
    (assignment s) (have_hop s) (hop s) (activation s) (compute s) m (shard s) (session s) (ready s)
    (g_last_seq s) (g_corrupt_mode s) (g_corrupt_delta s).
Definition set_shard (sh : shard_t Z) (s : worker_t K E) : worker_t K E :=
  WorkerState (wrpc s) (wenv s) (cur s) (needs_reregister s) (w_master s) (w_id s) (w_self s) (have_assignment s)
    (assignment s) (have_hop s) (hop s) (activation s) (compute s) (g_mutex s) sh (session s) (ready s)
    (g_last_seq s) (g_corrupt_mode s) (g_corrupt_delta s).
Definition set_session (x : Z) (s : worker_t K E) : worker_t K E :=
  WorkerState (wrpc s) (wenv s) (cur s) (needs_reregister s) (w_master s) (w_id s) (w_self s) (have_assignment s)
    (assignment s) (have_hop s) (hop s) (activation s) (compute s) (g_mutex s) (shard s) x (ready s)
    (g_last_seq s) (g_corrupt_mode s) (g_corrupt_delta s).
Definition set_ready (b : bool) (s : worker_t K E) : worker_t K E :=
  WorkerState (wrpc s) (wenv s) (cur s) (needs_reregister s) (w_master s) (w_id s) (w_self s) (have_assignment s)
    (assignment s) (have_hop s) (hop s) (activation s) (compute s) (g_mutex s) (shard s) (session s) b
    (g_last_seq s) (g_corrupt_mode s) (g_corrupt_delta s).
Definition set_last_seq (x : Z) (s : worker_t K E) : worker_t K E :=
  WorkerState (wrpc s) (wenv s) (cur s) (needs_reregister s) (w_master s) (w_id s) (w_self s) (have_assignment s)
    (assignment s) (have_hop s) (hop s) (activation s) (compute s) (g_mutex s) (shard s) (session s) (ready s)
    x (g_corrupt_mode s) (g_corrupt_delta s).

Definition on_wrpc {A} (m : M (rpc_t K) A) : W A := zoom wrpc set_wrpc m.
Definition on_env {A} (m : M E A) : W A := zoom wenv set_wenv m.
Definition on_mutex {A} (m : M Z A) : W A := zoom g_mutex set_mutex m.

Definition wreply (src : rpc_addr_t) (x stat : Z) : W unit :=
  on_wrpc (rpc_send_reply src x stat [] 0) ;;* ret tt.

(** ** The call-back of the listen thread *)

(** The store into the mailbox, under the mutex. *)
Definition commit_hop (h : infer_hop_t) (x : list Z) : W unit :=
  on_mutex mutex_lock ;;*
  let* busy := gets have_hop in
  if busy then on_mutex mutex_unlock
  else
    modify (λ s, set_hop true h (overwrite 0 x (activation s)) (set_last_seq (ih_seq h) s)) ;;*
    on_mutex mutex_unlock.

Definition same_addr (a : rpc_addr_t) (i p : Z) : bool := (ip a =? i) && (port a =? p).

Definition worker_inference_hook (msg : rpc_msg_t) (src : rpc_addr_t) : W unit :=
  if proc (call msg) =? PROC_ASSIGN_LAYERS then
    if payload_len msg <? Z.of_nat ASSIGN_LAYERS_WORDS * 4 then wreply src (xid msg) GARBAGE_ARGS
    else
      let* master := gets w_master in
      if negb (same_addr src (ip master) (port master)) then wreply src (xid msg) SYSTEM_ERR
      else
        let a := words_assign (get_words (payload msg) 0 ASSIGN_LAYERS_WORDS) in
        modify (λ s, set_assignment true a (set_last_seq 0 (set_ready false s))) ;;*
        wreply src (xid msg) SUCCESS
  else if proc (call msg) =? PROC_INFER_REQ then
    let* s := get in
    let dim := if ready s then dim (cfg (shard s)) else 0 in
    match infer_decode_hop msg dim (session s) with
    | None => ret tt
    | Some (h, x) =>
        if negb (ready s) then ret tt
        else if negb (same_addr src (nb_prev_ip (cur s)) (nb_prev_port (cur s)) ||
                      same_addr src (ip (w_master s)) (port (w_master s))) then ret tt
        else if ih_seq h <=? g_last_seq s then ret tt
        else commit_hop h x
    end
  else wreply src (xid msg) PROC_UNAVAIL.

(** ** The inference thread *)

(** The status of an assignment; leaves the shard loaded when it is 0. *)
Definition load_assignment (a : assign_layers_t) : W Z :=
  let* r := on_env (shard_fetch_config (u8 (al_model_id a))) in
  match r with
  | None => ret 1
  | Some cfg =>
      if negb (dim cfg =? s32 (al_dim a)) || negb (n_layers cfg =? s32 (al_n_layers_total a)) ||
         negb (hidden_dim cfg =? s32 (al_hidden_dim a)) || negb (n_heads cfg =? s32 (al_n_heads a)) then ret 2
      else
        let* sh := gets shard in
        let* (r, sh) := on_env (shard_load id sh (u8 (al_model_id a)) cfg (s32 (al_layer_start a))
                                  (s32 (al_layer_end a)) (s32 (al_max_seq a))) in
        modify (set_shard sh) ;;*
        ret (if r <? 0 then 3 else 0)
  end.

Definition report_ready (a : assign_layers_t) (status : Z) : W unit :=
  let* master := gets w_master in
  let* wid := gets w_id in
  let rdy := ShardReady (al_session_id a) wid (al_layer_start a) (al_layer_end a) status in
  on_wrpc (
    let* m := rpc_fill_call msg_zero PROC_SHARD_READY in
    rpc_send_call master
      (set_payload (put_words 0 (ready_words rdy) (payload m)) (Z.of_nat SHARD_READY_WORDS * 4) m)) ;;*
  ret tt.

Definition serve_assignment : W unit :=
  let* a := gets assignment in
  modify (λ s, set_assignment false a s) ;;*
  modify (set_ready false) ;;*
  let* sh := gets shard in
  let* sh := on_env (shard_release sh) in
  modify (set_shard sh) ;;*
  modify (λ s, set_wenv (env_set_server (al_weights_ip a) (u16 (al_weights_port a)) (wenv s)) s) ;;*
  let* status := load_assignment a in
  (if status =? 0 then modify (λ s, set_ready true (set_session (al_session_id a) s)) else ret tt) ;;*
  report_ready a status.

(** Tampering with [n] floats of a result. *)
Definition corrupt (mode : corrupt_mode_t) (delta : Z) (n : nat) (x : list Z) : list Z :=
  match mode with
  | CORRUPT_NONE => x
  | CORRUPT_SIGNFLIP => map fneg (take n x) ++ drop n x
  | CORRUPT_ZERO => replicate n 0 ++ drop n x
  | CORRUPT_DELTA => map (λ v, fadd v delta) (take n x) ++ drop n x
  end.

(** The drain of the mailbox, under the mutex; [None] when it is empty by then. *)
Definition drain_hop : W (option infer_hop_t) :=
  on_mutex mutex_lock ;;*
  let* full := gets have_hop in
  if negb full then on_mutex mutex_unlock ;;* ret None
  else
    let* h := gets hop in
    modify (λ s, set_compute (overwrite 0 (take (Z.to_nat (ih_n_floats h)) (activation s)) (compute s)) s) ;;*
    modify (λ s, set_hop false h (activation s) s) ;;*
    on_mutex mutex_unlock ;;*
    ret (Some h).

(** The header passed on. *)
Definition next_hop (h : infer_hop_t) (fwd_us : Z) (final : bool) : infer_hop_t :=
  InferHop (ih_session_id h) (ih_seq h) (ih_pos h) (u32 (ih_hop h + 1)) (ih_n_floats h)
    (if final then Z.lor (ih_flags h) INFER_FLAG_FINAL else ih_flags h) (u32 (ih_compute_us h + fwd_us)).

Definition serve_hop (pl : pool) : W unit :=
  let* o := drain_hop in
  match o with
  | None => ret tt
  | Some h =>
      let* t0 := on_env (env env_rdtime) in
      let* s := get in
      match shard_forward pl (shard s) (compute s) (s32 (ih_pos h)) with
      | (None, _) => ret tt
      | (Some x, sh) =>
          modify (λ s, set_shard sh (set_compute x s)) ;;*
          let* t1 := on_env (env env_rdtime) in
          let fwd_us := u32 (u64 (t1 - t0) / 10) in
          modify (λ s, set_compute (corrupt (g_corrupt_mode s) (g_corrupt_delta s)
                                      (Z.to_nat (ih_n_floats h)) (compute s)) s) ;;*
          let* s := get in
          let nxt := RpcAddr (nb_next_ip (cur s)) (nb_next_port (cur s)) in
          let out := next_hop h fwd_us (same_addr nxt (ip (w_master s)) (port (w_master s))) in
          on_wrpc (infer_send_hop nxt out (compute s)) ;;*
          ret tt
      end
  end.

(** One iteration of the loop; [yield] is the identity. *)
Definition inference_step (pl : pool) : W unit :=
  let* a := gets have_assignment in
  if a then serve_assignment
  else
    let* h := gets have_hop in
    let* r := gets ready in
    if h && r then serve_hop pl else ret tt.

(** ** The heartbeat thread *)

(** One iteration, once the listen thread has parked if a re-registration is
    due. *)
Definition heartbeat_step : W unit :=
  let* s := get in
  (if needs_reregister s then
     let* (r, nb) := on_wrpc (discovery_register (w_master s) (w_self s) (SetNeighbor 0 0 0 0)) in
     if r =? RPC_OK then modify (λ s, set_needs false (set_cur nb s)) else ret tt
   else ret tt) ;;*
  let* again := gets needs_reregister in
  if again then ret tt
  else on_wrpc (discovery_heartbeat (w_master s) (w_id s)) ;;* ret tt.

(** ** The listen thread *)

Definition listen_dispatch (msg : rpc_msg_t) (src : rpc_addr_t) : W unit :=
  let p := proc (call msg) in
  if p =? PROC_SET_NEIGHBOR then
    if payload_len msg <? SIZEOF_SET_NEIGHBOR then wreply src (xid msg) GARBAGE_ARGS
    else
      modify (set_cur (read_set_neighbor (payload msg))) ;;*
      wreply src (xid msg) SUCCESS
  else if p =? PROC_EVICT then
    modify (set_needs true) ;;*
    wreply src (xid msg) SUCCESS
  else if (p =? PROC_ASSIGN_LAYERS) || (p =? PROC_INFER_REQ) then worker_inference_hook msg src
  else wreply src (xid msg) PROC_UNAVAIL.

(** One iteration that is not parked; [msg] and [src] are the thread's local
    variables. *)
Definition listen_step (msg : rpc_msg_t) (src : rpc_addr_t) : W (rpc_msg_t * rpc_addr_t) :=
  let* (r, msg, src) := on_wrpc (rpc_recv msg src 5000) in
  if r <? 0 then ret (msg, src)
  else if negb (mtype msg =? MSG_CALL) then ret (msg, src)
  else listen_dispatch msg src ;;* ret (msg, src).

(** ** Start-up *)

(** MB to bytes, saturating. *)
Definition mb_to_bytes (mb : Z) : Z :=
  if 0xFFFFFFFF / (1024 * 1024) <? mb then 0xFFFFFFFF else u32 (u32 (mb * 1024) * 1024).

Definition worker_port (my_id : Z) : Z := u16 (10000 + my_id mod 10000).

(** What the node advertises, from the flags [--claim-ram] and [--real-ram]. *)
Definition worker_identity (claimed real my_ip my_id : Z) : worker_info_t :=
  let real_ram_bytes := if negb (real =? 0) then mb_to_bytes real else 1024 * 1024 * 512 in
  WorkerInfo my_id my_ip (worker_port my_id) (if negb (claimed =? 0) then mb_to_bytes claimed else real_ram_bytes)
    (sha256_hash DISTINF_PSK DISTINF_PSK_LEN) 0 0.

(** The shared state when the threads start. *)
Definition worker_start (r : rpc_t K) (e : E) (master : rpc_addr_t) (self : worker_info_t) (nb : set_neighbor_t)
    (mode : corrupt_mode_t) (delta : Z) : worker_t K E :=
  let z := replicate (Z.to_nat INFER_MAX_FLOATS) 0 in
  WorkerState r e nb false master (worker_id self) self false (AssignLayers 0 0 0 0 0 0 0 0 0 0 0 0 0 0)
    false (InferHop 0 0 0 0 0 0 0) z z 0
    (Shard (MkConfig 0 0 0 0 0 0 0) (MkConfig 0 0 0 0 0 0 0) 0 0 [] 0 run_state_null false) 0 false 0 mode delta.

(** Up to the creation of the threads: their shared state, or [None] when the
    process ends.  [setrlimit] and [capdrop] confine the process; their results
    are not used. *)
Definition run_worker (claimed real : Z) (mode : corrupt_mode_t) (delta : Z) (e : E)
    (master_ip master_port my_ip my_id : Z) : M (rpc_t K) (option (worker_t K E)) :=
  let* r := rpc_init (worker_port my_id) in
  if r <? 0 then ret None
  else
    let self := worker_identity claimed real my_ip my_id in
    let master := RpcAddr master_ip master_port in
    let* (r, nb) := discovery_register master self (SetNeighbor 0 0 0 0) in
    let* st := get in
    ret (if r =? RPC_OK then Some (worker_start st e master self nb mode delta) else None).

End Worker.

(** ** Lemmas *)

(** *** Operations of the shard *)

Section ShardOps.
Context {E : Type} `{ShardEnv E} `{FloatOps Z}.

(** The weight server announces no model wider than the activation buffers, and
    the allocations of a run state succeed. *)
Definition narrow_models : Prop :=
  ∀ id (e : E) bs, fst (env_fetch id 0 CKPT_HEADER_BYTES e) = Some bs → dim (read_config bs) ≤ INFER_MAX_FLOATS.
Definition calloc_succeeds : Prop := ∀ e : E, fst (env_calloc e) = true.

Lemma wp_env {A} (f : E → A * E) Q e : Q (fst (f e)) (snd (f e)) → wp (env f) Q e.
Proof. intros HQ. unfold wp, env. destruct (f e) as [a e']. eauto. Qed.

Lemma fetch_config_runs (Hnar : narrow_models) id (e : E) :
  wp (shard_fetch_config id) (λ r _, match r with Some c => dim c ≤ INFER_MAX_FLOATS | None => True end) e.
Proof.
  apply wp_bind, wp_env. destruct (fst (env_fetch id 0 CKPT_HEADER_BYTES e)) as [bs|] eqn:Eb; [|by apply wp_ret].
  apply wp_ret. destruct (plausible _); [|done]. by eapply Hnar.
Qed.

Lemma fetch_tensors_runs fid l bs ss (e : E) : wp (fetch_tensors (F := Z) id fid l bs ss) (λ _ _, True) e.
Proof.
  revert ss e. induction bs as [|b bs IH]; intros [|st ss] e; try by apply wp_ret.
  cbn [fetch_tensors]. apply wp_bind, wp_env. destruct (fst _) as [bytes|]; [|by apply wp_ret].
  apply wp_bind. eapply wp_mono; [apply IH|]. intros [ts|] e' _; by apply wp_ret.
Qed.

Lemma load_layers_runs n fid l bytes g (e : E) : wp (load_layers (F := Z) id n fid l bytes g) (λ _ _, True) e.
Proof.
  revert l e. induction n as [|n IH]; intros l e; [by apply wp_ret|]. cbn [load_layers].
  apply wp_bind, wp_env. destruct (fst _ <? 0); [by apply wp_ret|].
  apply wp_bind, wp_env. destruct (fst _); cbn [negb]; [|by apply wp_ret].
  apply wp_bind. eapply wp_mono; [apply fetch_tensors_runs|]. intros [ts|] e1 _; [|by apply wp_ret].
  apply wp_bind. eapply wp_mono; [apply IH|]. intros [o k] e2 _. by apply wp_ret.
Qed.

Lemma shard_load_runs (Hcal : calloc_succeeds) sh fid c l0 l1 m (e : E) :
  wp (shard_load id sh fid c l0 l1 m) (λ r _, snd r = sh ∨ dim (local (snd r)) = dim c) e.
Proof.
  unfold shard_load. destruct (_ || _); [apply wp_ret; by left|]. destruct (_ <? _); [apply wp_ret; by left|].
  apply wp_bind. eapply wp_mono; [apply load_layers_runs|]. intros [[ls|] k] e1 _; [|apply wp_ret; by right].
  apply wp_bind. unfold malloc_run_state. apply wp_bind, wp_env. rewrite Hcal.
  apply wp_ret, wp_ret. by right.
Qed.

(** A layer keeps the size of the activation buffer. *)
Lemma run_layers_length pl p ls (s : RunState Z) x l pos :
  (cdim p ≤ length x)%nat → length (fst (run_layers pl p ls s x l pos)) = length x.
Proof.
  revert s x l. induction ls as [|w ls IH]; intros s x l Hx; [done|]. cbn [run_layers].
  assert (Hb : length (fst (llama_block pl w p s x l pos)) = length x).
  { unfold llama_block, block_ffn. cbv zeta. cbn [fst]. unfold residual.
    rewrite !length_overwrite; rewrite ?length_map, ?length_seq, ?length_overwrite; try done;
      rewrite ?length_map, ?length_seq; done. }
  destruct (llama_block pl w p s x l pos) as [x' s']. cbn [fst] in Hb. rewrite IH; lia.
Qed.

Lemma shard_forward_keeps pl (sh : shard_t Z) x pos :
  (cdim (local sh) ≤ length x)%nat →
  let r := shard_forward pl sh x pos in
  local (snd r) = local sh ∧ cfg (snd r) = cfg sh ∧
  match fst r with Some x' => length x' = length x | None => snd r = sh end.
Proof.
  intros Hx. unfold shard_forward. destruct (loaded sh); cbn [negb]; [|done].
  destruct (_ || _); [done|]. pose proof (run_layers_length pl (local sh) (layers sh) (sh_state sh) x 0 (Z.to_nat pos) Hx) as Hl.
  destruct (run_layers _ _ _ _ _ _ _) as [x' st]. done.
Qed.
End ShardOps.

(** The length field of a received message is within its array. *)
Lemma received_len m : msg_ok m → received m → 0 ≤ payload_len m ≤ RPC_PAYLOAD_MAX.
Proof.
  intros (Hl & _) (_ & _ & _ & _ & _ & _ & -> & _). pose proof (len_nonneg (args_of m)). split; [done|].
  unfold args_of, len in *. rewrite length_take. lia.
Qed.

(** *** Every operation returns and keeps the shared state well-formed *)

Section Safety.
Context {K E : Type} `{KernelLaws K} `{ShardEnv E} `{NodeEnv E} `{FloatOps Z}.
Context (Hheap : heap_available K) (Hnet : no_overrun K) (Hnar : narrow_models (E := E)) (Hcal : calloc_succeeds (E := E)).

Abbreviation W := (M (worker_t K E)).

(** Between two operations: the buffers have their sizes, the locks are free,
    and a parked header announces no more floats than a datagram holds. *)
Definition worker_ok (s : worker_t K E) : Prop :=
  rpc_ok (wrpc s) ∧ g_mutex s = 0 ∧ length (activation s) = Z.to_nat INFER_MAX_FLOATS ∧
  length (compute s) = Z.to_nat INFER_MAX_FLOATS ∧ 0 ≤ ih_n_floats (hop s) ≤ 1017 ∧
  dim (local (shard s)) ≤ INFER_MAX_FLOATS ∧ is_bytes (psk_hash (w_self s)) ∧ len (psk_hash (w_self s)) = 32.

Definition wtotal {A} (m : W A) : Prop := ∀ s, worker_ok s → wp m (λ _ s', worker_ok s') s.

Lemma wtotal_ret {A} (a : A) : wtotal (ret a).
Proof. intros s Hs. by apply wp_ret. Qed.
Lemma wtotal_bind {A B} (m : W A) (k : A → W B) : wtotal m → (∀ a, wtotal (k a)) → wtotal (bind m k).
Proof. intros Hm Hk s Hs. apply wp_bind. eapply wp_mono; [by apply Hm|]. intros a s' Hs'. by apply Hk. Qed.
Lemma wtotal_gets {A} (f : worker_t K E → A) : wtotal (gets f).
Proof. intros s Hs. by apply wp_gets. Qed.
Lemma wtotal_get : wtotal get.
Proof. intros s Hs. by apply wp_get. Qed.
Lemma wtotal_modify f : (∀ s, worker_ok s → worker_ok (f s)) → wtotal (modify f).
Proof. intros Hf s Hs. apply wp_modify. auto. Qed.
Lemma wtotal_wrpc {A} (m : M (rpc_t K) A) : rtotal m → wtotal (on_wrpc m).
Proof.
  intros Hm s (Hr & Hs). apply wp_zoom. eapply wp_mono; [by apply Hm|]. intros a r [Hr' _]. by split.
Qed.
Lemma wtotal_env {A} (m : M E A) : (∀ e, wp m (λ _ _, True) e) → wtotal (on_env m).
Proof. intros Hm s Hs. apply wp_zoom. eapply wp_mono; [apply Hm|]. intros a e _. exact Hs. Qed.

Lemma wtotal_reply src x stat : wtotal (wreply src x stat).
Proof.
  apply wtotal_bind; [|intros; apply wtotal_ret]. apply wtotal_wrpc, rtotal_reply; [done|unfold RPC_PAYLOAD_MAX; lia|done].
Qed.

(** The two critical sections, uninterrupted. *)
Lemma commit_hop_run h x (s : worker_t K E) :
  g_mutex s = 0 → commit_hop h x s =
    Some (tt, if have_hop s then s else set_hop true h (overwrite 0 x (activation s)) (set_last_seq (ih_seq h) s)).
Proof.
  destruct s; cbn [g_mutex]; intros ->. unfold commit_hop, on_mutex, zoom, bind, mutex_lock, test_and_set, bind, ret, gets.
  cbn [g_mutex set_mutex Z.eqb have_hop]. destruct have_hop0; done.
Qed.

Lemma drain_hop_run (s : worker_t K E) :
  g_mutex s = 0 → drain_hop s = Some (if have_hop s then
      (Some (hop s), set_hop false (hop s) (activation s)
        (set_compute (overwrite 0 (take (Z.to_nat (ih_n_floats (hop s))) (activation s)) (compute s)) s))
    else (None, s)).
Proof.
  destruct s; cbn [g_mutex]; intros ->. unfold drain_hop, on_mutex, zoom, bind, mutex_lock, test_and_set, bind, ret, gets.
  cbn [g_mutex set_mutex Z.eqb have_hop]. destruct have_hop0; done.
Qed.

(** The floats of a received hop fit the datagram. *)
Lemma decoded_size msg d ss h x :
  msg_ok msg → 0 ≤ payload_len msg ≤ RPC_PAYLOAD_MAX → infer_decode_hop msg d ss = Some (h, x) →
  0 < ih_n_floats h ≤ 1017 ∧ length x = Z.to_nat (ih_n_floats h).
Proof.
  intros Hm Hp Hd. destruct (decode_sound _ _ _ _ _ Hm Hp Hd) as (Ha & _ & _ & Hn & (Hr & _)).
  pose proof (len_args_of msg Hm Hp) as Hl. rewrite Ha, len_hop_bytes in Hl. unfold RPC_PAYLOAD_MAX in Hp. lia.
Qed.

Lemma wtotal_hook msg src :
  msg_ok msg → 0 ≤ payload_len msg ≤ RPC_PAYLOAD_MAX → wtotal (worker_inference_hook msg src).
Proof.
  intros Hm Hp. unfold worker_inference_hook. destruct (_ =? PROC_ASSIGN_LAYERS).
  { destruct (_ <? _); [apply wtotal_reply|]. apply wtotal_bind; [apply wtotal_gets|]. intros master.
    destruct (negb _); [apply wtotal_reply|]. apply wtotal_bind; [|intros; apply wtotal_reply].
    by apply wtotal_modify. }
  destruct (_ =? PROC_INFER_REQ); [|apply wtotal_reply].
  intros s Hs. apply wp_bind, wp_get. cbv zeta.
  destruct (infer_decode_hop msg _ _) as [[h x]|] eqn:Hd; [|by apply wp_ret].
  destruct (negb (ready s)); [by apply wp_ret|]. destruct (negb (_ || _)); [by apply wp_ret|].
  destruct (_ <=? _); [by apply wp_ret|]. exists tt. eexists. split; [apply commit_hop_run, Hs|].
  destruct (have_hop s); [done|]. destruct (decoded_size _ _ _ _ _ Hm Hp Hd) as [Hn Hx].
  destruct Hs as (? & ? & Hact & ? & _ & ? & ? & ?). unfold worker_ok. cbn. split_and!; try done; try lia.
  rewrite length_overwrite; [done|]. rewrite Hact, Hx. unfold INFER_MAX_FLOATS. lia.
Qed.

Lemma wtotal_report a st : wtotal (report_ready a st).
Proof.
  unfold report_ready. apply wtotal_bind; [apply wtotal_gets|]. intros master.
  apply wtotal_bind; [apply wtotal_gets|]. intros wid. apply wtotal_bind; [|intros; apply wtotal_ret].
  apply wtotal_wrpc. intros s Hs. apply wp_bind. unfold rpc_fill_call, rpc_next_xid.
  apply wp_bind, wp_bind, wp_gets, wp_bind, wp_modify, wp_ret, wp_ret. set (m := set_head _ _ _).
  assert (Hm : msg_ok m). { destruct msg_zero_ok as (Hz & Hzb & Hc & Hv & Ha). by split_and!. }
  eapply wp_mono; [|intros a' s'; by apply reaches_trans, (reaches_xid (g_xid s + 1))].
  apply rtotal_send_call; [done| |done|by apply set_xid_ok].
  apply (word_request_ok (ready_words _) m Hm). simpl. unfold RPC_PAYLOAD_MAX. lia.
Qed.

Lemma wtotal_load a : wtotal (load_assignment a).
Proof.
  intros s Hs. unfold load_assignment. apply wp_bind, wp_zoom.
  eapply wp_mono; [by apply fetch_config_runs|]. intros [c|] e Hc; [|by apply wp_ret].
  destruct (_ || _); [by apply wp_ret|]. apply wp_bind, wp_gets, wp_bind, wp_zoom.
  eapply wp_mono; [by apply shard_load_runs|]. intros [r sh] e' Hsh. cbn [snd] in Hsh.
  apply wp_bind, wp_modify, wp_ret. destruct Hs as (? & ? & ? & ? & ? & Hd & ? & ?).
  unfold worker_ok. cbn. do 5 (split; [done|]). split; [|done].
  destruct Hsh as [-> | ->]; [exact Hd|exact Hc].
Qed.

Lemma wtotal_serve_assignment : wtotal serve_assignment.
Proof.
  unfold serve_assignment. apply wtotal_bind; [apply wtotal_gets|]. intros a.
  apply wtotal_bind; [by apply wtotal_modify|]. intros _. apply wtotal_bind; [by apply wtotal_modify|]. intros _.
  intros s Hs. apply wp_bind, wp_gets, wp_bind, wp_zoom.
  assert (Hrel : wp (shard_release (shard s)) (λ sh _, local sh = local (shard s)) (wenv s)).
  { unfold shard_release. destruct (loaded (shard s)); cbn [negb]; [|by apply wp_ret].
    apply wp_bind, wp_modify, wp_ret. reflexivity. }
  eapply wp_mono; [exact Hrel|]. intros sh e Hsh. apply wp_bind, wp_modify.
  assert (Hs1 : worker_ok (set_shard sh (set_wenv e s))).
  { destruct Hs as (? & ? & ? & ? & ? & Hd & ? & ?). unfold worker_ok. cbn. rewrite Hsh.
    by do 7 (split; [done|]). }
  revert Hs1. generalize (set_shard sh (set_wenv e s)). change (wtotal (bind (A := unit) (B := unit)
    (modify (λ s, set_wenv (env_set_server (al_weights_ip a) (u16 (al_weights_port a)) (wenv s)) s))
    (λ _, let* status := load_assignment a in
          (if status =? 0 then modify (λ s, set_ready true (set_session (al_session_id a) s)) else ret tt) ;;*
          report_ready a status))).
  apply wtotal_bind; [by apply wtotal_modify|]. intros _. apply wtotal_bind; [apply wtotal_load|]. intros st.
  apply wtotal_bind; [|intros; apply wtotal_report]. destruct (st =? 0); [by apply wtotal_modify|apply wtotal_ret].
Qed.

Lemma wtotal_serve_hop pl : wtotal (serve_hop pl).
Proof.
  intros s Hs. unfold serve_hop. apply wp_bind. unfold wp at 1. rewrite drain_hop_run by apply Hs.
  destruct (have_hop s); eexists _, _; (split; [reflexivity|]); [|by apply wp_ret].
  set (s1 := set_hop false _ _ _). assert (Hs1 : worker_ok s1).
  { destruct Hs as (? & ? & Ha & Hc & Hn & ?). unfold s1, worker_ok. cbn. do 3 (split; [done|]). split; [|done].
    rewrite length_overwrite; [done|]. rewrite length_take, Ha, Hc. lia. }
  assert (Hn : 0 ≤ ih_n_floats (hop s) ≤ 1017) by apply Hs. clearbody s1. set (h := hop s) in *. clear Hs.
  apply wp_bind, wp_zoom, wp_env. set (s2 := set_wenv _ s1). apply wp_bind, wp_get.
  assert (Hs2 : worker_ok s2) by exact Hs1. clearbody s2. set (t0 := fst (env_rdtime _)). clearbody t0.
  pose proof Hs2 as (Hr & Hmx & Ha & Hc & Hh & Hd & Hpsk).
  destruct (shard_forward_keeps pl (shard s2) (compute s2) (s32 (ih_pos h))) as (Hl & _ & Hx).
  { rewrite Hc. unfold cdim. lia. }
  destruct (shard_forward pl (shard s2) (compute s2) _) as [[x|] sh]; cbn [fst snd] in Hl, Hx; [|by apply wp_ret].
  apply wp_bind, wp_modify, wp_bind, wp_zoom, wp_env. cbv zeta. set (fwd := u32 _). clearbody fwd.
  apply wp_bind, wp_modify, wp_bind, wp_get, wp_bind, wp_zoom. cbn.
  set (out := next_hop h fwd _). assert (Ho : ih_n_floats out = ih_n_floats h) by done. clearbody out.
  assert (Hcl : length (corrupt (g_corrupt_mode s2) (g_corrupt_delta s2) (Z.to_nat (ih_n_floats h)) x) = Z.to_nat INFER_MAX_FLOATS).
  { unfold corrupt. destruct (g_corrupt_mode s2); rewrite ?length_app, ?length_map, ?length_take, ?length_drop, ?length_replicate, ?Hx, ?Hc;
      unfold INFER_MAX_FLOATS; lia. }
  eapply wp_mono; [apply (send_hop_runs Hheap); [done|lia|unfold len; rewrite Hcl; unfold INFER_MAX_FLOATS; lia]|].
  intros r s' (Hok' & _). apply wp_ret. unfold worker_ok. cbn. rewrite Hl. do 3 (split; [done|]). by split.
Qed.

Lemma wtotal_inference pl : wtotal (inference_step pl).
Proof.
  unfold inference_step. apply wtotal_bind; [apply wtotal_gets|]. intros [|]; [apply wtotal_serve_assignment|].
  apply wtotal_bind; [apply wtotal_gets|]. intros h. apply wtotal_bind; [apply wtotal_gets|]. intros r.
  destruct (h && r); [apply wtotal_serve_hop|apply wtotal_ret].
Qed.

Lemma wtotal_heartbeat : wtotal heartbeat_step.
Proof.
  intros s Hs. unfold heartbeat_step. apply wp_bind, wp_get, wp_bind.
  pose proof Hs as (_ & _ & _ & _ & _ & _ & Hb & Hl).
  assert (Hreg : wp (if needs_reregister s then
      let* (r, nb) := on_wrpc (discovery_register (w_master s) (w_self s) (SetNeighbor 0 0 0 0)) in
      if r =? RPC_OK then modify (λ s, set_needs false (set_cur nb s)) else ret tt
    else ret tt) (λ _ s', worker_ok s') s).
  { destruct (needs_reregister s); [|by apply wp_ret]. apply wp_bind.
    eapply wp_mono; [apply wtotal_wrpc; [by apply rtotal_register|done]|].
    intros [r nb] s1 Hs1. destruct (r =? RPC_OK); [by apply wp_modify|by apply wp_ret]. }
  eapply wp_mono; [exact Hreg|]. intros u s1 Hs1. apply wp_bind, wp_gets.
  destruct (needs_reregister s1); [by apply wp_ret|].
  apply (wtotal_bind _ _); [by apply wtotal_wrpc, rtotal_heartbeat|intros; apply wtotal_ret|done].
Qed.

Lemma wtotal_dispatch msg src :
  msg_ok msg → 0 ≤ payload_len msg ≤ RPC_PAYLOAD_MAX → wtotal (listen_dispatch msg src).
Proof.
  intros Hm Hp. unfold listen_dispatch. cbv zeta. destruct (_ =? PROC_SET_NEIGHBOR).
  { destruct (_ <? _); [apply wtotal_reply|]. apply wtotal_bind; [by apply wtotal_modify|].
    intros _. apply wtotal_reply. }
  destruct (_ =? PROC_EVICT).
  { apply wtotal_bind; [by apply wtotal_modify|]. intros _. apply wtotal_reply. }
  destruct (_ || _); [by apply wtotal_hook|apply wtotal_reply].
Qed.

Lemma listen_step_runs msg src (s : worker_t K E) :
  worker_ok s → msg_ok msg → is_u32 (ip src) ∧ is_u16 (port src) →
  wp (listen_step msg src) (λ r s', worker_ok s' ∧ msg_ok (fst r) ∧ is_u32 (ip (snd r)) ∧ is_u16 (port (snd r))) s.
Proof.
  intros Hs Hm Hsrc. unfold listen_step. apply wp_bind, wp_zoom. pose proof Hs as (Hok & Hrest).
  eapply wp_mono; [by apply rpc_recv_runs|].
  intros [[r m] a] s1 (Hok1 & _ & Hm1 & Ha & Hrec & Hr). cbn [fst snd] in *.
  assert (Hs1 : worker_ok (set_wrpc s1 s)) by (by split).
  destruct (Z.ltb_spec r 0); [by apply wp_ret|]. destruct (negb _); [by apply wp_ret|].
  assert (Hz : r = RPC_OK).
  { repeat (apply elem_of_cons in Hr as [->|Hr]; [done|]). by apply not_elem_of_nil in Hr. }
  apply wp_bind. eapply wp_mono; [apply wtotal_dispatch; [done|by apply received_len, Hrec|exact Hs1]|].
  intros u s2 Hs2. by apply wp_ret.
Qed.
End Safety.

(** *** What each operation does *)

Section Effects.
Context {K E : Type} `{KernelLaws K} `{ShardEnv E} `{NodeEnv E} `{FloatOps Z}.
Context (Hheap : heap_available K).

(** One reply without results to [src] was handed to the kernel. *)
Definition replied (src : rpc_addr_t) (x stat : Z) (s s' : worker_t K E) : Prop :=
  ∃ r, s' = set_wrpc r s ∧ rpc_ok r ∧
    handed (Packet (u16 (g_port (wrpc s))) (ip src) (port src) (reply_wire x stat [] 0)) (kern (wrpc s)) (kern r).

Lemma wreply_runs src x stat (s : worker_t K E) :
  rpc_ok (wrpc s) → wp (wreply src x stat) (λ _ s', replied src x stat s s') s.
Proof.
  intros Hok. unfold wreply. apply wp_bind, wp_zoom.
  eapply wp_mono; [apply (send_tx_runs _ src (reply_wire x stat [] 0)); try done|].
  - rewrite len_reply_wire by done. unfold WIRE_MAX, RPC_PAYLOAD_MAX. destruct (stat =? SUCCESS); lia.
  - intros w Hw. apply encode_reply_run; try done; rewrite ?Hw; unfold WIRE_MAX, RPC_PAYLOAD_MAX in *; try lia.
    rewrite len_reply_wire by done. destruct (stat =? SUCCESS); lia.
  - intros r s' (Hok' & _ & _ & _ & Hk). apply wp_ret. by exists s'.
Qed.

(** The conditions under which a hop is taken: it is exactly one header and its
    floats, of the right shape and session, the shard is resident, it comes from
    the predecessor or the master, and it is new. *)
Definition admissible (msg : rpc_msg_t) (src : rpc_addr_t) (s : worker_t K E) (h : infer_hop_t) (x : list Z) : Prop :=
  args_of msg = hop_bytes h x ∧ hop_ok h ∧ Forall is_u32 x ∧ ih_n_floats h = Z.of_nat (length x) ∧
  hop_accepts h (dim (cfg (shard s))) (session s) ∧ ready s = true ∧
  ((ip src, port src) = (nb_prev_ip (cur s), nb_prev_port (cur s)) ∨
   (ip src, port src) = (ip (w_master s), port (w_master s))) ∧
  g_last_seq s < ih_seq h ∧ have_hop s = false.

Definition parked (s : worker_t K E) (h : infer_hop_t) (x : list Z) : worker_t K E :=
  set_hop true h (overwrite 0 x (activation s)) (set_last_seq (ih_seq h) s).

Lemma same_addr_spec a i p : same_addr a i p = true ↔ (ip a, port a) = (i, p).
Proof.
  unfold same_addr. rewrite andb_true_iff, !Z.eqb_eq. split; [by intros [-> ->]|]. by intros [= -> ->].
Qed.

Lemma hook_hop msg src (s : worker_t K E) :
  g_mutex s = 0 → msg_ok msg → 0 ≤ payload_len msg ≤ RPC_PAYLOAD_MAX → proc (call msg) = PROC_INFER_REQ →
  (∃ h x, admissible msg src s h x ∧ worker_inference_hook msg src s = Some (tt, parked s h x)) ∨
  ((∀ h x, ¬ admissible msg src s h x) ∧ worker_inference_hook msg src s = Some (tt, s)).
Proof.
  intros Hmx Hm Hp Ep.
  assert (E0 : worker_inference_hook msg src s =
    (match infer_decode_hop msg (if ready s then dim (cfg (shard s)) else 0) (session s) with
     | None => ret tt
     | Some (h, x) =>
         if negb (ready s) then ret tt
         else if negb (same_addr src (nb_prev_ip (cur s)) (nb_prev_port (cur s)) ||
                       same_addr src (ip (w_master s)) (port (w_master s))) then ret tt
         else if ih_seq h <=? g_last_seq s then ret tt
         else commit_hop h x
     end) s).
  { unfold worker_inference_hook. rewrite Ep. reflexivity. }
  rewrite E0. clear E0.
  assert (Hno : ready s = true → infer_decode_hop msg (dim (cfg (shard s))) (session s) = None →
    ∀ h x, ¬ admissible msg src s h x).
  { intros Hr Hd h x (Ha & Hh & Hx & Hn & Hacc & _).
    by rewrite (decode_complete msg _ _ h x Hm Hp Ha Hh Hx Hn Hacc) in Hd. }
  destruct (ready s) eqn:Er.
  2: { right. split; [by intros h x (_ & _ & _ & _ & _ & Hr & _); rewrite Er in Hr|].
       destruct (infer_decode_hop msg 0 (session s)) as [[h x]|]; done. }
  destruct (infer_decode_hop msg _ (session s)) as [[h x]|] eqn:Hd; [|right; split; [by apply Hno|done]].
  destruct (decode_sound _ _ _ _ _ Hm Hp Hd) as (Ha & Hh & Hx & Hn & Hacc). cbn [negb].
  (* any admissible pair is the decoded one *)
  assert (Hu : ∀ h' x', admissible msg src s h' x' → h' = h ∧ x' = x).
  { intros h' x' (Ha' & Hh' & Hx' & Hn' & Hacc' & _).
    rewrite (decode_complete msg _ _ h' x' Hm Hp Ha' Hh' Hx' Hn' Hacc') in Hd. by injection Hd as -> ->. }
  assert (Hrej : (admissible msg src s h x → False) → ∀ h' x', ¬ admissible msg src s h' x').
  { intros Hc h' x' Hadm. destruct (Hu h' x' Hadm) as [-> ->]. by apply Hc. }
  destruct (same_addr src (nb_prev_ip (cur s)) (nb_prev_port (cur s)) ||
    same_addr src (ip (w_master s)) (port (w_master s))) eqn:Esrc; cbn [negb].
  2: { right. split; [|done]. apply Hrej. intros (_ & _ & _ & _ & _ & _ & Hs & _).
       apply orb_false_iff in Esrc as [E1 E2]. destruct Hs as [Hs|Hs]; apply same_addr_spec in Hs; congruence. }
  apply orb_true_iff in Esrc. rewrite !same_addr_spec in Esrc.
  destruct (Z.leb_spec (ih_seq h) (g_last_seq s)).
  { right. split; [|done]. apply Hrej. intros (_ & _ & _ & _ & _ & _ & _ & Hs & _). lia. }
  rewrite commit_hop_run by done. destruct (have_hop s) eqn:Eh.
  { right. split; [|done]. apply Hrej. intros (_ & _ & _ & _ & _ & _ & _ & _ & Hs). by rewrite Eh in Hs. }
  left. exists h, x. split; [|done]. by split_and!.
Qed.

(** The state after an accepted assignment. *)
Definition assigned (msg : rpc_msg_t) (s : worker_t K E) : worker_t K E :=
  set_assignment true (words_assign (get_words (payload msg) 0 ASSIGN_LAYERS_WORDS))
    (set_last_seq 0 (set_ready false s)).

Lemma hook_assign msg src (s : worker_t K E) :
  rpc_ok (wrpc s) → proc (call msg) = PROC_ASSIGN_LAYERS →
  wp (worker_inference_hook msg src) (λ _ s',
    if decide (payload_len msg < 56) then replied src (xid msg) GARBAGE_ARGS s s'
    else if decide ((ip src, port src) = (ip (w_master s), port (w_master s)))
    then replied src (xid msg) SUCCESS (assigned msg s) s'
    else replied src (xid msg) SYSTEM_ERR s s') s.
Proof.
  intros Hok Ep. unfold worker_inference_hook. rewrite Ep, Z.eqb_refl.
  change (Z.of_nat ASSIGN_LAYERS_WORDS * 4) with 56.
  destruct (decide (payload_len msg < 56)).
  { rewrite (proj2 (Z.ltb_lt _ _)) by done. by apply wreply_runs. }
  rewrite (proj2 (Z.ltb_ge _ _)) by lia. apply wp_bind, wp_gets.
  destruct (decide ((ip src, port src) = (ip (w_master s), port (w_master s)))) as [Ea|Ea].
  - apply same_addr_spec in Ea. rewrite Ea. cbn [negb]. apply wp_bind, wp_modify. by apply wreply_runs.
  - destruct (same_addr _ _ _) eqn:Eb; [by apply same_addr_spec in Eb|]. by apply wreply_runs.
Qed.

(** The node's identity, its session, its orders and its mode. *)
Definition same_duty (s s' : worker_t K E) : Prop :=
  w_master s' = w_master s ∧ w_self s' = w_self s ∧ have_assignment s' = have_assignment s ∧
  session s' = session s ∧ g_corrupt_mode s' = g_corrupt_mode s.

(** What serving the parked hop does: the mailbox is empty, and if the shard can
    run the position the kernel is called, once, to send its result to the next
    node. *)
Definition passed_on (pl : pool) (s s' : worker_t K E) : Prop :=
  let h := hop s in
  let n := Z.to_nat (ih_n_floats h) in
  let x0 := overwrite 0 (take n (activation s)) (compute s) in
  have_hop s' = false ∧ g_last_seq s' = g_last_seq s ∧ ready s' = ready s ∧ cur s' = cur s ∧
  same_duty s s' ∧
  match shard_forward pl (shard s) x0 (s32 (ih_pos h)) with
  | (None, _) => sent (kern (wrpc s')) = sent (kern (wrpc s)) ∧ shard s' = shard s
  | (Some x, sh) =>
      shard s' = sh ∧
      (∃ pk id us, handed pk (kern (wrpc s)) (kern (wrpc s')) ∧
         (dst_ip pk, dst_port pk) = (nb_next_ip (cur s), nb_next_port (cur s)) ∧
         rpc_parse (contents pk) = Parsed (id, VCall INFERENCE_PROG INFERENCE_VERS PROC_INFER_REQ,
           hop_bytes
             (next_hop h us (same_addr (RpcAddr (nb_next_ip (cur s)) (nb_next_port (cur s)))
                (ip (w_master s)) (port (w_master s))))
             (take n (corrupt (g_corrupt_mode s) (g_corrupt_delta s) n x))))
  end.

Lemma serve_hop_runs pl (s : worker_t K E) :
  worker_ok s → have_hop s = true → wp (serve_hop pl) (λ _ s', passed_on pl s s') s.
Proof.
  intros Hs Hfull. pose proof Hs as (Hr & Hmx & Ha & Hc & Hn & Hd & _).
  unfold serve_hop. apply wp_bind. unfold wp at 1. rewrite drain_hop_run, Hfull by done.
  eexists _, _. split; [reflexivity|]. unfold passed_on. cbv zeta.
  set (h := hop s) in *. set (n := Z.to_nat (ih_n_floats h)) in *.
  set (x0 := overwrite 0 (take n (activation s)) (compute s)).
  assert (Hx0 : length x0 = Z.to_nat INFER_MAX_FLOATS).
  { unfold x0. rewrite length_overwrite; [done|]. rewrite length_take, Ha, Hc. lia. }
  apply wp_bind, wp_zoom, wp_env, wp_bind, wp_get. cbn.
  destruct (shard_forward_keeps pl (shard s) x0 (s32 (ih_pos h))) as (Hl & _ & Hx).
  { rewrite Hx0. unfold cdim. lia. }
  destruct (shard_forward pl (shard s) x0 _) as [[x|] sh]; cbn [fst snd] in Hl, Hx; [|by apply wp_ret].
  apply wp_bind, wp_modify, wp_bind, wp_zoom, wp_env. cbv zeta. set (fwd := u32 _). clearbody fwd.
  apply wp_bind, wp_modify, wp_bind, wp_get, wp_bind, wp_zoom. cbn.
  set (out := next_hop h fwd _). assert (Ho : ih_n_floats out = ih_n_floats h) by done.
  assert (Hcl : length (corrupt (g_corrupt_mode s) (g_corrupt_delta s) n x) = Z.to_nat INFER_MAX_FLOATS).
  { unfold corrupt. destruct (g_corrupt_mode s); rewrite ?length_app, ?length_map, ?length_take, ?length_drop, ?length_replicate, ?Hx, ?Hx0;
      unfold INFER_MAX_FLOATS; lia. }
  eapply wp_mono; [apply (send_hop_runs Hheap); [done|lia|unfold len; rewrite Hcl; unfold INFER_MAX_FLOATS; lia]|].
  intros r s' (_ & _ & _ & pk & _ & Hdst & Hk & id & Hparse). apply wp_ret. cbn.
  split_and!; try done. exists pk, id, fwd. by split_and!.
Qed.
End Effects.

(** *** The order of the hops *)

(** Operations that keep a preorder on the state. *)
Section Keeps.
Context {S : Type} (R : S → S → Prop) `{!PreOrder R}.

Definition keeps {A} (m : M S A) : Prop := ∀ s, wlp m (λ _ s', R s s') s.

Lemma keeps_bind {A B} (m : M S A) (k : A → M S B) : keeps m → (∀ a, keeps (k a)) → keeps (bind m k).
Proof.
  intros Hm Hk s. apply wlp_bind. eapply wlp_mono; [apply Hm|]. intros a s1 E1.
  eapply wlp_mono; [apply Hk|]. intros b s2 E2. by transitivity s1.
Qed.
Lemma keeps_ret {A} (a : A) : keeps (ret a).
Proof. intros s. by apply wlp_ret. Qed.
Lemma keeps_gets {A} (f : S → A) : keeps (gets f).
Proof. intros s. by apply wlp_gets. Qed.
Lemma keeps_modify f : (∀ s, R s (f s)) → keeps (modify f).
Proof. intros Hf s. apply wlp_modify, Hf. Qed.
Lemma keeps_get : keeps get.
Proof. intros s a s' [= <- <-]. reflexivity. Qed.
Lemma keeps_zoom {A T} (g : S → T) f (m : M T A) : (∀ r s, R s (f r s)) → keeps (zoom g f m).
Proof. intros Hf s. apply wlp_zoom. intros a r _. apply Hf. Qed.
End Keeps.

Ltac keeps_tac :=
  repeat (intros;
    match goal with
    | |- keeps _ (bind _ _) => apply keeps_bind; [apply _|..]
    | |- keeps _ (ret _) => apply keeps_ret, _
    | |- keeps _ (gets _) => apply keeps_gets, _
    | |- keeps _ get => apply keeps_get, _
    | |- keeps _ (modify _) => apply keeps_modify; intros; hnf; done
    | |- keeps _ (on_wrpc _) => apply keeps_zoom; intros; hnf; done
    | |- keeps _ (on_env _) => apply keeps_zoom; intros; hnf; done
    | |- keeps _ (on_mutex _) => apply keeps_zoom; intros; hnf; done
    | |- keeps _ (if ?b then _ else _) => destruct b
    | |- keeps _ (match ?o with _ => _ end) => destruct o
    | |- keeps _ (let '(_, _) := ?o in _) => destruct o
    end).

Section Replay.
Context {K E : Type} `{KernelLaws K} `{ShardEnv E} `{NodeEnv E} `{FloatOps Z}.

(** The mailbox holds the hop it held, or is empty; the counter stands; no
    assignment came in. *)
Definition mail_kept (s s' : worker_t K E) : Prop :=
  g_last_seq s' = g_last_seq s ∧
  (have_hop s' = true → have_hop s = true ∧ hop s' = hop s ∧ activation s' = activation s) ∧
  (have_assignment s' = true → have_assignment s = true).
#[local] Instance mail_kept_preorder : PreOrder mail_kept.
Proof.
  split; [by intros s|]. intros s1 s2 s3 (A1 & A2 & A3) (B1 & B2 & B3). split; [congruence|]. split; [|by intros ?; apply A3, B3].
  intros Hh. destruct (B2 Hh) as (C1 & C2 & C3), (A2 ltac:(done)) as (D1 & D2 & D3). split; [done|]. by split; congruence.
Qed.

(** The service does not begin. *)
Definition no_start (s s' : worker_t K E) : Prop := ready s' = true → ready s = true.
#[local] Instance no_start_preorder : PreOrder no_start.
Proof. split; [by intros s ?|]. intros s1 s2 s3 H12 H23 Hr. by apply H12, H23. Qed.

Lemma mail_inference pl : keeps mail_kept (inference_step pl).
Proof.
  unfold inference_step, serve_assignment, serve_hop, load_assignment, report_ready, drain_hop. keeps_tac.
Qed.
Lemma mail_heartbeat : keeps mail_kept heartbeat_step.
Proof. unfold heartbeat_step. keeps_tac. Qed.
Lemma mail_reply src x stat : keeps mail_kept (wreply src x stat).
Proof. unfold wreply. keeps_tac. Qed.
Lemma start_heartbeat : keeps no_start heartbeat_step.
Proof. unfold heartbeat_step. keeps_tac. Qed.
Lemma start_reply src x stat : keeps no_start (wreply src x stat).
Proof. unfold wreply. keeps_tac. Qed.

(** The inference thread serves the assignment it finds. *)
Lemma inference_serves pl s : wlp (inference_step pl) (λ _ s', have_assignment s' = false) s.
Proof.
  unfold inference_step. apply wlp_bind, wlp_gets. destruct (have_assignment s) eqn:Ea.
  - unfold serve_assignment. apply wlp_bind, wlp_gets, wlp_bind, wlp_modify. set (s1 := set_assignment _ _ s).
    assert (Hk : ∀ A (m : M (worker_t K E) A), keeps mail_kept m → wlp m (λ _ s', have_assignment s' = false) s1).
    { intros A m Hm. eapply wlp_mono; [apply Hm|]. intros a s' (_ & _ & Hn). destruct (have_assignment s'); [by specialize (Hn eq_refl)|done]. }
    apply Hk. unfold load_assignment, report_ready. keeps_tac.
  - match goal with |- wlp ?m _ _ => assert (Hk : keeps mail_kept m) by (unfold serve_hop, drain_hop; keeps_tac) end.
    eapply wlp_mono; [apply Hk|]. intros a s' (_ & _ & Hn). destruct (have_assignment s'); [|done]. by rewrite Hn in Ea.
Qed.

(** While an assignment waits, the service is stopped and the counter is 0. *)
Definition settled (s : worker_t K E) : Prop := have_assignment s = true → ready s = false ∧ g_last_seq s = 0.

(** A hop was put into the mailbox; an assignment came in. *)
Definition takes_hop (s s' : worker_t K E) : Prop :=
  have_hop s' = true ∧ (have_hop s = false ∨ hop s' ≠ hop s ∨ activation s' ≠ activation s).
Definition takes_assignment (s s' : worker_t K E) : Prop := have_assignment s = false ∧ have_assignment s' = true.

(** What a step does to the mailbox and the counter. *)
Inductive moves (s s' : worker_t K E) : Prop :=
  | mv_kept : mail_kept s s' → (have_assignment s' = true → no_start s s') → moves s s'
  | mv_assigned : g_last_seq s' = 0 → have_assignment s' = true → ready s' = false → have_hop s' = have_hop s →
      hop s' = hop s → activation s' = activation s → moves s s'
  | mv_took : g_last_seq s < g_last_seq s' → ih_seq (hop s') = g_last_seq s' → ready s = true → have_hop s = false → have_hop s' = true →
      have_assignment s' = have_assignment s → moves s s'.

Lemma moves_rpc r (s : worker_t K E) : moves s (set_wrpc r s).
Proof. apply mv_kept; [done|]. by intros _ Hr. Qed.

Lemma moves_settled s s' : settled s → moves s s' → settled s'.
Proof.
  intros Hs [(E1 & _ & Ha) Hr|E1 Ha Hr _ _ _|_ _ Hr _ _ Ea] Ha'.
  - destruct (Hs (Ha Ha')) as [Hr0 Hq0]. split; [|congruence]. destruct (ready s') eqn:Er; [|done]. specialize (Hr Ha' Er). congruence.
  - done.
  - rewrite Ea in Ha'. destruct (Hs Ha'). congruence.
Qed.

Lemma dispatch_moves msg src (s : worker_t K E) :
  g_mutex s = 0 → msg_ok msg → 0 ≤ payload_len msg ≤ RPC_PAYLOAD_MAX →
  wlp (listen_dispatch msg src) (λ _ s', moves s s') s.
Proof.
  intros Hmx Hm Hp.
  assert (Same : ∀ (m : M (worker_t K E) unit), keeps mail_kept m → keeps no_start m → wlp m (λ _ s', moves s s') s).
  { intros m Hk Hn u s' Es. apply mv_kept; [exact (Hk _ _ _ Es)|intros _; exact (Hn _ _ _ Es)]. }
  assert (Reply : ∀ x st, wlp (wreply src x st) (λ _ s', moves s s') s) by (intros x st; apply Same; [apply mail_reply|apply start_reply]).
  assert (Then : ∀ f x st, (∀ s, mail_kept s (f s)) → (∀ s, no_start s (f s)) → wlp (modify f ;;* wreply src x st) (λ _ s', moves s s') s).
  { intros f x st Hf Hg. apply Same; (apply keeps_bind; [apply _|by apply keeps_modify|intros; first [apply mail_reply|apply start_reply]]). }
  unfold listen_dispatch. cbv zeta. destruct (_ =? PROC_SET_NEIGHBOR); [destruct (_ <? _); [apply Reply|apply Then; intros; hnf; done]|].
  destruct (_ =? PROC_EVICT); [apply Then; intros; hnf; done|].
  destruct (Z.eqb_spec (proc (call msg)) PROC_ASSIGN_LAYERS) as [Ea|Ea]; cbn [orb].
  { unfold worker_inference_hook. rewrite Ea, Z.eqb_refl. destruct (_ <? _); [apply Reply|].
    apply wlp_bind, wlp_gets. destruct (negb _); [apply Reply|]. apply wlp_bind, wlp_modify.
    unfold wreply. apply wlp_bind, wlp_zoom. intros r w _. by apply wlp_ret, mv_assigned. }
  destruct (Z.eqb_spec (proc (call msg)) PROC_INFER_REQ) as [Ei|Ei]; [|apply Reply].
  intros u s' Es. destruct (hook_hop msg src s Hmx Hm Hp Ei) as [(h & x & Hadm & Eh)|[_ Eh]];
    rewrite Eh in Es; injection Es as <- <-; [|by apply mv_kept; [|intros _]].
  destruct Hadm as (_ & _ & _ & _ & _ & Hr & _ & Hseq & Hfree). by apply mv_took.
Qed.

(** A node: the shared state and the local variables of the listen thread. *)
Abbreviation node := (worker_t K E * rpc_msg_t * rpc_addr_t)%type.

Inductive wstep (pl : pool) : node → node → Prop :=
  | ws_inference s s' m a : inference_step pl s = Some (tt, s') → wstep pl (s, m, a) (s', m, a)
  | ws_heartbeat s s' m a : heartbeat_step s = Some (tt, s') → wstep pl (s, m, a) (s', m, a)
  | ws_listen s s' m a m' a' : listen_step m a s = Some ((m', a'), s') → wstep pl (s, m, a) (s', m', a').

Definition node_ok (n : node) : Prop :=
  worker_ok (fst (fst n)) ∧ msg_ok (snd (fst n)) ∧ is_u32 (ip (snd n)) ∧ is_u16 (port (snd n)).

Section Runs.
Context (Hheap : heap_available K) (Hnet : no_overrun K) (Hnar : narrow_models (E := E)) (Hcal : calloc_succeeds (E := E)).
Context (pl : pool).

Lemma wstep_ok n n' : node_ok n → wstep pl n n' → node_ok n'.
Proof.
  intros (Hs & Hm & Ha & Hb) Hstep.
  inversion Hstep as [s s' m a Hrun|s s' m a Hrun|s s' m a m' a' Hrun]; subst; cbn [fst snd] in *.
  - destruct (wtotal_inference Hheap Hnar Hcal pl s Hs) as (u & s2 & E2 & Hs2).
    rewrite Hrun in E2. injection E2 as <- <-. exact (conj Hs2 (conj Hm (conj Ha Hb))).
  - destruct (wtotal_heartbeat Hheap Hnet s Hs) as (u & s2 & E2 & Hs2).
    rewrite Hrun in E2. injection E2 as <- <-. exact (conj Hs2 (conj Hm (conj Ha Hb))).
  - destruct (listen_step_runs Hheap Hnet m a s Hs Hm (conj Ha Hb)) as ([m2 a2] & s2 & E2 & Hs2 & Hm2 & Ha2).
    rewrite Hrun in E2. injection E2 as <- <- <-. exact (conj Hs2 (conj Hm2 Ha2)).
Qed.

Lemma wstep_moves n n' : node_ok n → wstep pl n n' → moves (fst (fst n)) (fst (fst n')).
Proof.
  intros (Hs & Hm & Ha & Hb) Hstep.
  inversion Hstep as [s s' m a Hrun|s s' m a Hrun|s s' m a m' a' Hrun]; subst; cbn [fst snd] in *.
  - apply mv_kept; [exact (mail_inference pl s tt s' Hrun)|]. by rewrite (inference_serves pl s tt s' Hrun).
  - apply mv_kept; [exact (mail_heartbeat s tt s' Hrun)|]. intros _. exact (start_heartbeat s tt s' Hrun).
  - pose proof Hs as (Hok & Hmx & _). revert Hrun. unfold listen_step. intros Hrun.
    apply bind_inv in Hrun as ([[r m1] a1] & s1 & E1 & Hrun). unfold on_wrpc, zoom in E1.
    destruct (rpc_recv_runs m a 5000 (wrpc s) Hheap Hnet Hok Hm (conj Ha Hb)) as
      ([[r2 m2] a2] & w & E2 & Hok2 & _ & Hm2 & _ & Hrec & Hr). rewrite E2 in E1. injection E1 as <- <- <- <-.
    cbn [fst snd] in *. destruct (Z.ltb_spec r2 0); [injection Hrun as <- <- <-; apply moves_rpc|].
    destruct (negb _); [injection Hrun as <- <- <-; apply moves_rpc|].
    apply bind_inv in Hrun as (u & s2 & E3 & E4). injection E4 as <- <- <-.
    assert (Hz : r2 = RPC_OK).
    { repeat (apply elem_of_cons in Hr as [->|Hr]; [done|]). by apply not_elem_of_nil in Hr. }
    destruct (dispatch_moves m2 a2 (set_wrpc w s) Hmx Hm2 (received_len m2 Hm2 (Hrec Hz)) u s2 E3);
      [by apply mv_kept|by apply mv_assigned|by apply mv_took].
Qed.
End Runs.
End Replay.

(** *** Assignments *)

Section Assignments.
Context {K E : Type} `{KernelLaws K} `{ShardEnv E} `{NodeEnv E} `{FloatOps Z}.
Context (Hheap : heap_available K) (Hnar : narrow_models (E := E)) (Hcal : calloc_succeeds (E := E)).

#[local] Opaque msg_zero.

(** The report of the worker [wid] to [master]. *)
Definition reports (master : rpc_addr_t) (rdy : shard_ready_t) (pk : packet) : Prop :=
  (dst_ip pk, dst_port pk) = (ip master, port master) ∧
  ∃ id, rpc_parse (contents pk) =
    Parsed (id, VCall INFERENCE_PROG INFERENCE_VERS PROC_SHARD_READY, be_words (ready_words rdy)).

Lemma report_runs a st (s : worker_t K E) :
  rpc_ok (wrpc s) →
  wp (report_ready a st) (λ _ s', ∃ r, s' = set_wrpc r s ∧ rpc_ok r ∧
    (∃ pk, handed pk (kern (wrpc s)) (kern r) ∧
       reports (w_master s) (ShardReady (al_session_id a) (w_id s) (al_layer_start a) (al_layer_end a) st) pk)) s.
Proof.
  intros Hok. unfold report_ready. apply wp_bind, wp_gets, wp_bind, wp_gets. cbv zeta.
  set (rdy := ShardReady _ _ _ _ _). apply wp_bind, wp_zoom, wp_bind. unfold rpc_fill_call, rpc_next_xid.
  apply wp_bind, wp_bind, wp_gets, wp_bind, wp_modify, wp_ret, wp_ret. set (m := set_head _ _ _).
  assert (Hm : msg_ok m). { destruct msg_zero_ok as (Hz & Hzb & Hc & Hv & Ha). by split_and!. }
  destruct (word_request_ok (ready_words rdy) m Hm) as [[Hq Hl] Hargs]; [simpl; unfold RPC_PAYLOAD_MAX; lia|].
  change (Z.of_nat SHARD_READY_WORDS * 4) with (4 * Z.of_nat (length (ready_words rdy))).
  set (req := set_payload _ _ _) in *. pose proof (set_xid_ok (g_xid (wrpc s) + 1) (wrpc s) Hok) as Hok1.
  eapply wp_mono; [by apply (send_call_runs (w_master s) req _ Hheap Hok1)|].
  intros r s' (Hok' & _ & _ & _ & Hk). apply wp_ret. exists s'. split; [done|]. split; [done|].
  eexists. split; [exact Hk|]. split; [done|]. exists (xid req). cbn [contents].
  rewrite parse_call_wire; [by rewrite Hargs|split_and!; try done; apply Hok|done|done|apply Hq].
Qed.

(** Serving an assignment: the range is resident and live exactly when status 0
    is reported; a parked hop stays where it is. *)
Definition served_assignment (s s' : worker_t K E) : Prop :=
  let a := assignment s in
  have_assignment s' = false ∧ have_hop s' = have_hop s ∧ hop s' = hop s ∧ activation s' = activation s ∧
  ∃ st, st ∈ [0; 1; 2; 3] ∧ ready s' = (st =? 0) ∧ session s' = (if st =? 0 then al_session_id a else session s) ∧
  (st = 0 → ∃ c sh0 (e e' : E),
     shard_load id sh0 (u8 (al_model_id a)) c (s32 (al_layer_start a)) (s32 (al_layer_end a)) (s32 (al_max_seq a)) e =
       Some ((0, shard s'), e') ∧
     dim c = s32 (al_dim a) ∧ n_layers c = s32 (al_n_layers_total a)) ∧
  (∃ pk, handed pk (kern (wrpc s)) (kern (wrpc s')) ∧
     reports (w_master s) (ShardReady (al_session_id a) (w_id s) (al_layer_start a) (al_layer_end a) st) pk).

Lemma shard_load_returns sh fid c l0 l1 m (e : E) :
  wp (shard_load id sh fid c l0 l1 m) (λ r _, fst r = 0 ∨ fst r = -1) e.
Proof.
  unfold shard_load. destruct (_ || _); [apply wp_ret; by right|]. destruct (_ <? _); [apply wp_ret; by right|].
  apply wp_bind. eapply wp_mono; [apply load_layers_runs|]. intros [[ls|] k] e1 _; [|apply wp_ret; by right].
  apply wp_bind. unfold malloc_run_state. apply wp_bind, wp_env. rewrite Hcal. apply wp_ret, wp_ret. by left.
Qed.

Lemma serve_assignment_runs (s : worker_t K E) :
  rpc_ok (wrpc s) → wp serve_assignment (λ _ s', served_assignment s s') s.
Proof.
  intros Hok. unfold serve_assignment. set (a := assignment s).
  apply wp_bind, wp_gets, wp_bind, wp_modify, wp_bind, wp_modify, wp_bind, wp_gets, wp_bind, wp_zoom.
  assert (Hrel : wp (shard_release (shard s)) (λ _ _, True) (wenv s)).
  { unfold shard_release. destruct (loaded (shard s)); cbn [negb]; [|by apply wp_ret]. by apply wp_bind, wp_modify, wp_ret. }
  eapply wp_mono; [exact Hrel|]. intros sh e _. apply wp_bind, wp_modify, wp_bind, wp_modify, wp_bind.
  fold a. set (s1 := set_wenv _ _).
  assert (Hload : wp (load_assignment a) (λ st s', ∃ e' sh', s' = set_shard sh' (set_wenv e' s1) ∧ st ∈ [0; 1; 2; 3] ∧
    (st = 0 → ∃ c sh0 (e e' : E),
     shard_load id sh0 (u8 (al_model_id a)) c (s32 (al_layer_start a)) (s32 (al_layer_end a)) (s32 (al_max_seq a)) e =
       Some ((0, sh'), e') ∧ dim c = s32 (al_dim a) ∧ n_layers c = s32 (al_n_layers_total a))) s1).
  { unfold load_assignment. apply wp_bind, wp_zoom. eapply wp_mono; [by apply fetch_config_runs|].
    intros [c|] e2 _; [|apply wp_ret; exists e2, (shard s1); by split_and!; [|in_list|]].
    destruct (Z.eqb_spec (dim c) (s32 (al_dim a))); cbn [negb orb];
      [|apply wp_ret; exists e2, (shard s1); by split_and!; [|in_list|]].
    destruct (Z.eqb_spec (n_layers c) (s32 (al_n_layers_total a))); cbn [negb orb];
      [|apply wp_ret; exists e2, (shard s1); by split_and!; [|in_list|]].
    destruct (_ || _); [apply wp_ret; exists e2, (shard s1); by split_and!; [|in_list|]|].
    apply wp_bind, wp_gets, wp_bind, wp_zoom.
    destruct (shard_load_returns (shard (set_wenv e2 s1)) (u8 (al_model_id a)) c (s32 (al_layer_start a))
      (s32 (al_layer_end a)) (s32 (al_max_seq a)) (wenv (set_wenv e2 s1))) as ([r sh3] & e3 & E3 & Hr).
    exists (r, sh3), e3. split; [exact E3|]. apply wp_bind, wp_modify, wp_ret. exists e3, sh3. split; [done|].
    cbn [fst] in Hr. destruct Hr as [-> | ->]; (split; [in_list|]); [|done].
    intros _. eexists c, _, _, e3. split; [exact E3|done]. }
  eapply wp_mono; [exact Hload|]. intros st s2 (e2 & sh2 & -> & Hst & Hld). set (s2 := set_shard sh2 (set_wenv e2 s1)) in *.
  assert (Hset : wp (if st =? 0 then modify (λ s, set_ready true (set_session (al_session_id a) s)) else ret tt)
    (λ _ s', s' = if st =? 0 then set_ready true (set_session (al_session_id a) s2) else s2) s2).
  { destruct (st =? 0); [by apply wp_modify|by apply wp_ret]. }
  apply wp_bind. eapply wp_mono; [exact Hset|]. intros u s3 ->.
  eapply wp_mono; [apply report_runs; by destruct (st =? 0)|].
  intros v s4 (r & -> & _ & Hsent). destruct (Z.eqb_spec st 0) as [->|Hne];
    (do 4 (split; [done|]); eexists; split; [exact Hst|]; cbn [Z.eqb]).
  - do 2 (split; [done|]). split; [done|]. exact Hsent.
  - rewrite (proj2 (Z.eqb_neq _ _) Hne). do 2 (split; [done|]). split; [done|]. exact Hsent.
Qed.
End Assignments.

(** ** Properties *)


(** C9: The call-back of the listen thread takes exactly the messages it should.
    An activation is parked if and only if it is admissible: a well-formed hop of
    the model's width and the live session, from the predecessor or the master,
    newer than the last one taken, with a resident shard and an empty mailbox;
    otherwise the message changes nothing.  An assignment of full length from
    the master is stored, stops the service and resets the counter; any other
    assignment is refused with an error reply and changes nothing. *)
Theorem inference_hook_exact {K E} `{KernelLaws K} `{ShardEnv E} `{NodeEnv E} `{FloatOps Z}
    msg src (s : worker_t K E) :
  heap_available K → worker_ok s → msg_ok msg → 0 ≤ payload_len msg ≤ RPC_PAYLOAD_MAX →
  (proc (call msg) = PROC_INFER_REQ →
   (∃ h x, admissible msg src s h x ∧ worker_inference_hook msg src s = Some (tt, parked s h x)) ∨
   ((∀ h x, ¬ admissible msg src s h x) ∧ worker_inference_hook msg src s = Some (tt, s))) ∧
  (proc (call msg) = PROC_ASSIGN_LAYERS →
   ∃ s', worker_inference_hook msg src s = Some (tt, s') ∧
     if decide (payload_len msg < 56) then replied src (xid msg) GARBAGE_ARGS s s'
     else if decide ((ip src, port src) = (ip (w_master s), port (w_master s)))
     then replied src (xid msg) SUCCESS (assigned msg s) s'
     else replied src (xid msg) SYSTEM_ERR s s').
Proof.
  intros Hh Hs Hm Hp. split.
  - apply hook_hop; try done. apply Hs.
  - intros Ep. destruct (hook_assign Hh msg src s (proj1 Hs) Ep) as ([] & s' & E1 & Hr). eauto.
Qed.

(** A hop put into the mailbox, with its sequence number, and an assignment stored. *)
Inductive wevent := Took (seq : Z) | Assigned.

(** The events of a run of the threads. *)
Inductive wtrace {K E} `{Kernel K} `{ShardEnv E} `{NodeEnv E} `{FloatOps Z} (pl : pool)
    : worker_t K E * rpc_msg_t * rpc_addr_t → list wevent → worker_t K E * rpc_msg_t * rpc_addr_t → Prop :=
  | wt_nil n : wtrace pl n [] n
  | wt_quiet n n' n'' es :
      wstep pl n n' → ¬ takes_hop (fst (fst n)) (fst (fst n')) → ¬ takes_assignment (fst (fst n)) (fst (fst n')) →
      wtrace pl n' es n'' → wtrace pl n es n''
  | wt_took n n' n'' es :
      wstep pl n n' → takes_hop (fst (fst n)) (fst (fst n')) →
      wtrace pl n' es n'' → wtrace pl n (Took (ih_seq (hop (fst (fst n')))) :: es) n''
  | wt_assigned n n' n'' es :
      wstep pl n n' → takes_assignment (fst (fst n)) (fst (fst n')) →
      wtrace pl n' es n'' → wtrace pl n (Assigned :: es) n''.

(** Sequence numbers that grow from [last] on; an assignment starts again at 0. *)
Fixpoint in_order (last : Z) (es : list wevent) : Prop :=
  match es with
  | [] => True
  | Took q :: es => last < q ∧ in_order q es
  | Assigned :: es => in_order 0 es
  end.

Lemma moves_in_order {K E} (s s' : worker_t K E) :
  settled s → moves s s' →
  (takes_hop s s' → g_last_seq s < ih_seq (hop s') ∧ ih_seq (hop s') = g_last_seq s') ∧
  (takes_assignment s s' → g_last_seq s' = 0) ∧
  (¬ takes_hop s s' → ¬ takes_assignment s s' → g_last_seq s' = g_last_seq s).
Proof.
  intros Hs [(E1 & Hmail & Ha) Hr|E1 Ha Hr Eh1 Eh2 Eh3|Hlt Eq Hr Hf Ht Ea]; unfold takes_hop, takes_assignment.
  - split; [|split]; [|intros [G1 G2]; rewrite (Ha G2) in G1; done|done].
    intros [Hh Hd]. destruct (Hmail Hh) as (M1 & M2 & M3). exfalso. destruct Hd as [Hd|[Hd|Hd]]; congruence.
  - split; [|split; [done|]].
    + intros [Hh Hd]. exfalso. destruct Hd as [Hd|[Hd|Hd]]; congruence.
    + intros _ Hno. destruct (have_assignment s) eqn:Eas; [|by destruct Hno]. destruct (Hs Eas). congruence.
  - split; [by intros _; rewrite Eq|]. split; [intros [G1 G2]; congruence|]. intros Hno _. destruct Hno. by split; [|left].
Qed.

(** C8: No activation is replayed.  In any run of the worker's three threads, whatever
    is received and however often it is duplicated, the sequence number of each hop
    put into the mailbox is greater than that of the hop before it, and the first
    greater than the counter; only an assignment that is stored starts the numbers
    again, at 0.  The run begins in a well-formed state in which a waiting assignment
    has stopped the service and reset the counter, as at the start of the threads and
    in every later state.  No datagram received is an [Overrun], the stream records
    and the run state can be allocated, and no model is wider than the buffers. *)
Theorem hops_never_replayed {K E} `{KernelLaws K} `{ShardEnv E} `{NodeEnv E} `{FloatOps Z}
    pl (n n' : worker_t K E * rpc_msg_t * rpc_addr_t) es :
  heap_available K → no_overrun K → narrow_models (E := E) → calloc_succeeds (E := E) → node_ok n → settled (fst (fst n)) →
  wtrace pl n es n' → in_order (g_last_seq (fst (fst n))) es.
Proof.
  intros Hh Hn Hnar Hcal Hok Hset Htr.
  induction Htr as [n|n n1 n2 es Hstep Hno1 Hno2 _ IH|n n1 n2 es Hstep Htk _ IH|n n1 n2 es Hstep Htk _ IH]; [done|..];
    pose proof (wstep_moves Hh Hn pl n n1 Hok Hstep) as Hmv; destruct (moves_in_order _ _ Hset Hmv) as (H1' & H2' & H3');
    specialize (IH ltac:(by eapply wstep_ok) ltac:(by eapply moves_settled)).
  - by rewrite <- H3'.
  - destruct (H1' Htk) as [Hlt Heq]. split; [done|]. by rewrite Heq.
  - cbn [in_order]. by rewrite <- (H2' Htk).
Qed.


(** *** A concrete worker *)

#[local] Existing Instance int_floats.
#[local] Existing Instance small_env.
#[local] Instance small_node : NodeEnv unit := {| env_rdtime := λ s, (0, s); env_set_server := λ _ _ s, s |}.

Definition sample_self : worker_info_t := WorkerInfo 7 9 10007 4096 (replicate 32 1) 0 0.
Definition sample_worker (inbox : list (Z * Z * list Z)) : worker_t calm unit :=
  worker_start (rpc_start (Calm (Script inbox [] [] 9 true []))) tt (RpcAddr 1 5000) sample_self
    (SetNeighbor 1 5000 1 5000) CORRUPT_NONE 0.

Lemma small_narrow : narrow_models (E := unit).
Proof.
  intros i e bs. cbn [env_fetch small_env fst]. case_decide; [|done]. intros [= <-]. vm_compute. discriminate.
Qed.
Lemma small_calloc : calloc_succeeds (E := unit).
Proof. intros e. done. Qed.

Lemma sample_self_ok : is_bytes (psk_hash sample_self) ∧ len (psk_hash sample_self) = 32.
Proof. split; [|done]. apply Forall_replicate. unfold is_byte. lia. Qed.

Lemma sample_worker_ok inbox : worker_ok (sample_worker inbox).
Proof.
  split; [apply rpc_start_ok|]. destruct sample_self_ok as [? ?]. split_and!; try done; vm_compute; discriminate.
Qed.


(** The worker with the first layer of the small model resident. *)
Definition ready_worker (inbox : list (Z * Z * list Z)) : worker_t calm unit :=
  set_ready true (set_session 77 (set_shard (small_shard 0) (sample_worker inbox))).

Lemma ready_worker_ok inbox : worker_ok (ready_worker inbox).
Proof.
  split; [apply rpc_start_ok|]. destruct sample_self_ok as [? ?]. split_and!; try done; vm_compute; discriminate.
Qed.

Definition small_hop : infer_hop_t := InferHop 77 3 0 0 2 0 0.
Definition small_hop_msg : rpc_msg_t := hop_msg small_hop [4; 6].

Lemma small_hop_msg_ok : msg_ok small_hop_msg ∧ 0 ≤ payload_len small_hop_msg ≤ RPC_PAYLOAD_MAX.
Proof.
  split; [|vm_compute; split; discriminate]. apply msg_with_ok; [apply be_words_bytes|]. vm_compute. lia.
Qed.

Lemma small_admissible inbox : admissible small_hop_msg (RpcAddr 1 5000) (ready_worker inbox) small_hop [4; 6].
Proof.
  unfold admissible. split; [reflexivity|].
  split; [by repeat (apply Forall_cons; split; [by unfold is_u32|])|].
  split; [by repeat (apply Forall_cons; split; [by unfold is_u32|])|]. split; [reflexivity|]. split.
  { unfold hop_accepts, INFER_MAX_FLOATS. vm_compute. repeat split; discriminate. }
  split; [reflexivity|]. split; [by left|]. split; [vm_compute; reflexivity|reflexivity].
Qed.

Lemma inference_hook_exact_witness :
  worker_inference_hook small_hop_msg (RpcAddr 1 5000) (ready_worker []) =
    Some (tt, parked (ready_worker []) small_hop [4; 6]).
Proof.
  destruct (proj1 (inference_hook_exact small_hop_msg (RpcAddr 1 5000) (ready_worker []) calm_heap (ready_worker_ok [])
    (proj1 small_hop_msg_ok) (proj2 small_hop_msg_ok)) eq_refl) as [(h & x & Hadm & E)|[Hno _]].
  - destruct Hadm as (Ha & Hh & Hx & Hn & Hacc & _). pose proof (small_admissible []) as (Ha' & Hh' & Hx' & Hn' & Hacc' & _).
    destruct small_hop_msg_ok as [Hm Hp].
    pose proof (decode_complete _ _ _ _ _ Hm Hp Ha Hh Hx Hn Hacc) as D.
    rewrite (decode_complete _ _ _ _ _ Hm Hp Ha' Hh' Hx' Hn' Hacc') in D. by injection D as <- <-.
  - exfalso. exact (Hno _ _ (small_admissible [])).
Defined.

(** The same datagram twice. *)
Definition small_datagram : list Z := call_wire (call_for 1 small_hop_msg).
Definition after_listen (n : worker_t calm unit * rpc_msg_t * rpc_addr_t) : worker_t calm unit * rpc_msg_t * rpc_addr_t :=
  match listen_step (snd (fst n)) (snd n) (fst (fst n)) with
  | Some ((m, a), s) => (s, m, a)
  | None => n
  end.
Definition listens (n : worker_t calm unit * rpc_msg_t * rpc_addr_t) : bool :=
  match listen_step (snd (fst n)) (snd n) (fst (fst n)) with Some _ => true | None => false end.

Lemma listen_wstep pl n : listens n = true → wstep pl n (after_listen n).
Proof.
  destruct n as [[s m] a]. unfold listens, after_listen. cbn [fst snd].
  destruct (listen_step m a s) as [[[m' a'] s']|] eqn:E; [|done]. intros _. by apply ws_listen.
Qed.

Definition twice : worker_t calm unit * rpc_msg_t * rpc_addr_t :=
  (ready_worker [(1, 5000, small_datagram); (1, 5000, small_datagram)], msg_zero, RpcAddr 0 0).

Definition after_inference (n : worker_t calm unit * rpc_msg_t * rpc_addr_t) : worker_t calm unit * rpc_msg_t * rpc_addr_t :=
  match inference_step (Pool false 1) (fst (fst n)) with Some (_, s) => (s, snd (fst n), snd n) | None => n end.

Lemma inference_wstep n : (if inference_step (Pool false 1) (fst (fst n)) is Some _ then true else false) = true →
  wstep (Pool false 1) n (after_inference n).
Proof.
  destruct n as [[s m] a]. unfold after_inference. cbn [fst snd].
  destruct (inference_step (Pool false 1) s) as [[[] s']|] eqn:E; [|done]. intros _. by apply ws_inference.
Qed.

(** The datagram is taken, served, and refused when it comes again. *)
Lemma hops_never_replayed_witness : in_order 0 [Took 3].
Proof.
  apply (hops_never_replayed (Pool false 1) twice (after_listen (after_inference (after_listen twice))) [Took 3] calm_heap calm_no_overrun
    small_narrow small_calloc).
  - split; [apply ready_worker_ok|]. split; [exact msg_zero_ok|]. unfold is_u32, is_u16. simpl. lia.
  - discriminate.
  - change 3 with (ih_seq (hop (fst (fst (after_listen twice))))).
    apply (wt_took (Pool false 1) twice (after_listen twice) (after_listen (after_inference (after_listen twice))) []).
    + apply listen_wstep. vm_compute. reflexivity.
    + split; [vm_compute; reflexivity|left; vm_compute; reflexivity].
    + apply (wt_quiet (Pool false 1) (after_listen twice) (after_inference (after_listen twice))).
      * apply inference_wstep. vm_compute. reflexivity.
      * intros [Hh _]. vm_compute in Hh. discriminate Hh.
      * intros [_ Ha]. vm_compute in Ha. discriminate Ha.
      * apply (wt_quiet (Pool false 1) (after_inference (after_listen twice)) (after_listen (after_inference (after_listen twice)))).
        -- apply listen_wstep. vm_compute. reflexivity.
        -- intros [Hh _]. vm_compute in Hh. discriminate Hh.
        -- intros [_ Ha]. vm_compute in Ha. discriminate Ha.
        -- apply wt_nil.
Defined.

