(* ===== verification/Threads.v ===== *)
(** The worker's threads under preemption (user/distinf.c, user/discovery.c).

    [Handoff] is the hand-shake with which the heartbeat thread takes the socket
    from the listen thread; [Mailbox] is the one-slot mailbox through which the
    listen thread passes activations to the inference thread.  Every access to a
    shared variable is a step of its own, and a copy of an activation is one step
    per float. *)
From stdpp Require Import relations.
From S2P Require Import Prelude Mutex Wire.

(** ** The socket *)

Module Handoff.

(** The listen thread: before the test of [reregistering]; in [rpc_recv] or
    serving what it received; before raising [listen_suspended]; in the loop;
    before lowering it. *)
Inductive lpc := LCheck | LRecv | LPark | LWait | LClear.

(** The heartbeat thread: waiting or sending heartbeats; before raising
    [reregistering]; in the loop; in [discovery_register]; before lowering it. *)
Inductive hpc := HSleep | HRaise | HWait | HRegister | HLower.

Record state := State {
  listen : lpc; heart : hpc;
  needs_reregister : bool; reregistering : bool; listen_suspended : bool;
}.

Definition start : state := State LCheck HSleep false false false.

Inductive lstep : state → state → Prop :=
  | l_busy h n s : lstep (State LCheck h n true s) (State LPark h n true s)
  | l_free h n s : lstep (State LCheck h n false s) (State LRecv h n false s)
  | l_served h n r s : lstep (State LRecv h n r s) (State LCheck h n r s)
  | l_evicted h n r s : lstep (State LRecv h n r s) (State LCheck h true r s)
  | l_park h n r s : lstep (State LPark h n r s) (State LWait h n r true)
  | l_spin h n s : lstep (State LWait h n true s) (State LWait h n true s)
  | l_released h n s : lstep (State LWait h n false s) (State LClear h n false s)
  | l_clear h n r s : lstep (State LClear h n r s) (State LCheck h n r false).

Inductive hstep : state → state → Prop :=
  | h_beat l r s : hstep (State l HSleep false r s) (State l HSleep false r s)
  | h_due l r s : hstep (State l HSleep true r s) (State l HRaise true r s)
  | h_raise l n r s : hstep (State l HRaise n r s) (State l HWait n true s)
  | h_spin l n r : hstep (State l HWait n r false) (State l HWait n r false)
  | h_enter l n r : hstep (State l HWait n r true) (State l HRegister n r true)
  | h_registered l n r s : hstep (State l HRegister n r s) (State l HLower false r s)
  | h_failed l n r s : hstep (State l HRegister n r s) (State l HLower n r s)
  | h_lower l n r s : hstep (State l HLower n r s) (State l HSleep n false s).

Definition step (t t' : state) : Prop := lstep t t' ∨ hstep t t'.

Definition inv (t : state) : Prop :=
  listen_suspended t = (match listen t with LWait | LClear => true | _ => false end) ∧
  reregistering t = (match heart t with HWait | HRegister | HLower => true | _ => false end) ∧
  (heart t = HRegister → listen t ≠ LRecv).

Lemma inv_step t t' : inv t → step t t' → inv t'.
Proof.
  intros (H1 & H2 & H3) [Hs|Hs]; destruct Hs; cbn in *; unfold inv; cbn; split_and!; try done; try congruence;
    try (intros ->; congruence); intros ?; subst; congruence || by destruct l.
Qed.

Lemma inv_reachable t : rtc step start t → inv t.
Proof.
  intros Hr. assert (H0 : inv start) by done. revert H0.
  induction Hr as [|t1 t2 t3 Hs _ IH]; [done|]. intros Hi. apply IH. by eapply inv_step.
Qed.

(** How many steps the listen thread needs to park. *)
Definition distance (l : lpc) : nat :=
  match l with LRecv | LClear => 3 | LCheck => 2 | LPark => 1 | LWait => 0 end.

Lemma parks n t t' :
  inv t → heart t = HWait → (distance (listen t) ≤ n)%nat → nsteps lstep n t t' →
  heart t' = HWait ∧ listen_suspended t' = true.
Proof.
  revert t. induction n as [|n IH]; intros t Hi Hh Hd Hs.
  { inversion Hs; subst. split; [done|]. destruct Hi as (-> & _). destruct (listen t'); cbn in Hd; lia || done. }
  inversion Hs as [|n0 x y z Hl Hs']; subst. apply (IH y); [by eapply inv_step; [|left]| | |done].
  - destruct Hl; done.
  - destruct Hi as (_ & Hr & _). destruct Hl; cbn in *; try lia; exfalso; clear -Hr Hh; by rewrite Hh in Hr.
Qed.

Lemma lstep_total t : ∃ t', lstep t t'.
Proof.
  destruct t as [l h n r s]. destruct l, r; eexists; constructor.
Qed.
End Handoff.

(** ** The mailbox *)

Module Mailbox.

(** A decoded hop: the header and its floats. *)
Abbreviation item := (infer_hop_t * list Z)%type.

(** The listen thread in [worker_inference_hook]: elsewhere; before each exchange
    of [mutex_lock]; holding the lock before the test of [have_hop]; before
    copying float [i]; before storing the header; before raising [have_hop];
    before [mutex_unlock]. *)
Inductive ppc :=
  | PIdle | PLock (v : item) | PTest (v : item) | PCopy (v : item) (i : nat) | PHead (v : item)
  | PFlag (v : item) | PUnlock.

(** The inference thread: before the test of [have_hop]; before each exchange;
    holding the lock before the second test; before copying float [i]; before
    lowering [have_hop]; before [mutex_unlock]; running the layers on
    [compute]. *)
Inductive cpc :=
  | CIdle | CLock | CTest | CCopy (h : infer_hop_t) (i : nat) | CClear (h : infer_hop_t)
  | CUnlock (o : option infer_hop_t) | CRun (h : infer_hop_t).

(** The shared variables, the two threads, and what was stored and taken so
    far. *)
Record state := State {
  lock : Z; have_hop : bool; hop : infer_hop_t; activation : list Z; compute : list Z;
  prod : ppc; cons : cpc;
  stored : list item; taken : list item;
}.

Definition SIZE : nat := Z.to_nat INFER_MAX_FLOATS.

Definition fits (v : item) : Prop :=
  ih_n_floats (fst v) = Z.of_nat (length (snd v)) ∧ (length (snd v) ≤ SIZE)%nat.

Definition start (h : infer_hop_t) (a b : list Z) : state := State 0 false h a b PIdle CIdle [] [].

Definition floats_of (h : infer_hop_t) : nat := Z.to_nat (ih_n_floats h).

Inductive mbstep : state → state → Prop :=
  (* the listen thread *)
  | p_call m f h a b c st tk v : fits v →
      mbstep (State m f h a b PIdle c st tk) (State m f h a b (PLock v) c st tk)
  | p_spin m m' old f h a b c st tk v : test_and_set 1 m = Some (old, m') → old ≠ 0 →
      mbstep (State m f h a b (PLock v) c st tk) (State m' f h a b (PLock v) c st tk)
  | p_lock m m' f h a b c st tk v : test_and_set 1 m = Some (0, m') →
      mbstep (State m f h a b (PLock v) c st tk) (State m' f h a b (PTest v) c st tk)
  | p_busy m h a b c st tk v :
      mbstep (State m true h a b (PTest v) c st tk) (State m true h a b PUnlock c st tk)
  | p_free m h a b c st tk v :
      mbstep (State m false h a b (PTest v) c st tk) (State m false h a b (PCopy v 0) c st tk)
  | p_copy m f h a b c st tk v i x : snd v !! i = Some x →
      mbstep (State m f h a b (PCopy v i) c st tk) (State m f h (<[i := x]> a) b (PCopy v (S i)) c st tk)
  | p_copied m f h a b c st tk v :
      mbstep (State m f h a b (PCopy v (length (snd v))) c st tk) (State m f h a b (PHead v) c st tk)
  | p_head m f h a b c st tk v :
      mbstep (State m f h a b (PHead v) c st tk) (State m f (fst v) a b (PFlag v) c st tk)
  | p_flag m f h a b c st tk v :
      mbstep (State m f h a b (PFlag v) c st tk) (State m true h a b PUnlock c (st ++ [v]) tk)
  | p_unlock m m' f h a b c st tk : mutex_unlock m = Some (tt, m') →
      mbstep (State m f h a b PUnlock c st tk) (State m' f h a b PIdle c st tk)
  (* the inference thread *)
  | c_empty m h a b q st tk :
      mbstep (State m false h a b q CIdle st tk) (State m false h a b q CIdle st tk)
  | c_full m h a b q st tk :
      mbstep (State m true h a b q CIdle st tk) (State m true h a b q CLock st tk)
  | c_spin m m' old f h a b q st tk : test_and_set 1 m = Some (old, m') → old ≠ 0 →
      mbstep (State m f h a b q CLock st tk) (State m' f h a b q CLock st tk)
  | c_lock m m' f h a b q st tk : test_and_set 1 m = Some (0, m') →
      mbstep (State m f h a b q CLock st tk) (State m' f h a b q CTest st tk)
  | c_gone m h a b q st tk :
      mbstep (State m false h a b q CTest st tk) (State m false h a b q (CUnlock None) st tk)
  | c_here m h a b q st tk :
      mbstep (State m true h a b q CTest st tk) (State m true h a b q (CCopy h 0) st tk)
  | c_copy m f h a b q st tk g i x : (i < floats_of g)%nat → a !! i = Some x →
      mbstep (State m f h a b q (CCopy g i) st tk) (State m f h a (<[i := x]> b) q (CCopy g (S i)) st tk)
  | c_copied m f h a b q st tk g :
      mbstep (State m f h a b q (CCopy g (floats_of g)) st tk) (State m f h a b q (CClear g) st tk)
  | c_clear m f h a b q st tk g :
      mbstep (State m f h a b q (CClear g) st tk)
        (State m false h a b q (CUnlock (Some g)) st (tk ++ [(g, take (floats_of g) b)]))
  | c_unlock m m' f h a b q st tk o : mutex_unlock m = Some (tt, m') →
      mbstep (State m f h a b q (CUnlock o) st tk)
        (State m' f h a b q (match o with Some g => CRun g | None => CIdle end) st tk)
  | c_done m f h a b q st tk g :
      mbstep (State m f h a b q (CRun g) st tk) (State m f h a b q CIdle st tk).

(** Who holds the lock. *)
Definition p_holds (q : ppc) : bool := match q with PIdle | PLock _ => false | _ => true end.
Definition c_holds (q : cpc) : bool := match q with CIdle | CLock | CRun _ => false | _ => true end.

(** The slot holds [v]. *)
Definition holds (h : infer_hop_t) (a : list Z) (v : item) : Prop :=
  h = fst v ∧ take (length (snd v)) a = snd v ∧ fits v.

(** What the position of the listen thread says about the slot. *)
Definition p_inv (f : bool) (h : infer_hop_t) (a : list Z) (q : ppc) : Prop :=
  match q with
  | PIdle | PUnlock => True
  | PLock v | PTest v => fits v
  | PCopy v i => f = false ∧ fits v ∧ (i ≤ length (snd v))%nat ∧ take i a = take i (snd v)
  | PHead v => f = false ∧ fits v ∧ take (length (snd v)) a = snd v
  | PFlag v => f = false ∧ holds h a v
  end.

(** What the position of the inference thread says about its copy. *)
Definition c_inv (f : bool) (h : infer_hop_t) (a b : list Z) (q : cpc) (tk : list item) : Prop :=
  match q with
  | CIdle | CLock | CTest | CUnlock None => True
  | CCopy g i => f = true ∧ g = h ∧ (i ≤ floats_of g)%nat ∧ take i b = take i a
  | CClear g => f = true ∧ g = h ∧ take (floats_of g) b = take (floats_of g) a
  | CUnlock (Some g) | CRun g => last tk = Some (g, take (floats_of g) b)
  end.

Definition inv (s : state) : Prop :=
  length (activation s) = SIZE ∧ length (compute s) = SIZE ∧
  lock s = (if p_holds (prod s) || c_holds (cons s) then 1 else 0) ∧
  p_holds (prod s) && c_holds (cons s) = false ∧
  p_inv (have_hop s) (hop s) (activation s) (prod s) ∧
  c_inv (have_hop s) (hop s) (activation s) (compute s) (cons s) (taken s) ∧
  (if have_hop s then ∃ v, stored s = taken s ++ [v] ∧ holds (hop s) (activation s) v
   else stored s = taken s).

Lemma take_write (a x : list Z) i y :
  take i a = take i x → x !! i = Some y → (i < length a)%nat → take (S i) (<[i := y]> a) = take (S i) x.
Proof.
  intros Ht Hx Hi. rewrite (take_S_r x i y Hx), <- Ht.
  rewrite (take_S_r _ i y) by (by apply list_lookup_insert_eq). by rewrite take_insert_ge by lia.
Qed.

Lemma holds_floats h a v : holds h a v → take (floats_of h) a = snd v ∧ (floats_of h ≤ SIZE)%nat.
Proof.
  intros (-> & Ht & Hn & Hl). unfold floats_of. rewrite Hn, Nat2Z.id. done.
Qed.

(** Steps of the listen thread. *)
Ltac open_inv H :=
  destruct H as (Ha & Hb & Hm & Hx & Hp & Hc & Hq); cbn [lock have_hop hop activation compute prod cons stored taken] in *.

Ltac close_inv := unfold inv; cbn [lock have_hop hop activation compute prod cons stored taken p_holds c_holds p_inv c_inv orb andb];
  split_and!; try done.

(** The other thread does not hold the lock. *)
Lemma p_alone c :
  c_holds c = false → ∀ f h a b tk f' h' a', c_inv f h a b c tk → c_inv f' h' a' b c tk.
Proof. destruct c; done. Qed.

Lemma c_alone q : p_holds q = false → ∀ f h a f' h' a', p_inv f h a q → p_inv f' h' a' q.
Proof. destruct q; done. Qed.

Lemma mailbox_inv_step s s' : inv s → mbstep s s' → inv s'.
Proof.
  intros Hi Hs. destruct Hs as
    [m f h a b c st tk v Hv|m m' old f h a b c st tk v Et Eo|m m' f h a b c st tk v Et|m h a b c st tk v|m h a b c st tk v
    |m f h a b c st tk v i x Hlk|m f h a b c st tk v|m f h a b c st tk v|m f h a b c st tk v|m m' f h a b c st tk Et
    |m h a b q st tk|m h a b q st tk|m m' old f h a b q st tk Et Eo|m m' f h a b q st tk Et|m h a b q st tk|m h a b q st tk
    |m f h a b q st tk g i x Hlt Hlk|m f h a b q st tk g|m f h a b q st tk g|m m' f h a b q st tk o Et|m f h a b q st tk g];
    open_inv Hi; try (injection Et as Em Em'; subst m');
    try (unfold mutex_unlock, put in Et; injection Et as <-).
  - close_inv.
  - close_inv. rewrite Hm in Em. cbn [p_holds orb] in *. by destruct (c_holds c).
  - rewrite Hm in Em. cbn [p_holds orb] in Em. destruct (c_holds c) eqn:Ec; [done|]. close_inv; by rewrite Ec.
  - cbn [p_holds] in *. close_inv.
  - cbn [p_holds] in *. close_inv; lia.
  - destruct Hp as (-> & Hv & Hi & Ht). cbn [p_holds orb andb] in *.
    assert (Hlen : (i < length (snd v))%nat) by (by eapply lookup_lt_Some).
    assert (Hia : (i < length a)%nat) by (rewrite Ha; destruct Hv; lia).
    close_inv; [by rewrite length_insert|by apply take_write|by eapply p_alone].
  - destruct Hp as (-> & Hv & Hi & Ht). cbn [p_holds] in *. close_inv. by rewrite Ht, firstn_all.
  - destruct Hp as (-> & Hv & Ht). cbn [p_holds orb andb] in *. close_inv. by eapply p_alone.
  - destruct Hp as (-> & Hv). cbn [p_holds orb andb] in *. subst st. close_inv; [by eapply p_alone|by exists v].
  - cbn [p_holds orb andb] in *. close_inv. by rewrite Hx.
  - close_inv.
  - close_inv.
  - close_inv. rewrite Hm in Em. cbn [c_holds] in *. rewrite orb_false_r in *. by destruct (p_holds q).
  - rewrite Hm in Em. cbn [c_holds] in Em. rewrite orb_false_r in Em. destruct (p_holds q) eqn:Eq; [done|].
    close_inv; by rewrite Eq.
  - close_inv.
  - cbn [c_holds] in *. close_inv; lia.
  - destruct Hc as (-> & -> & Hi & Ht). cbn [c_holds orb andb] in *.
    assert (Hib : (i < length b)%nat) by (rewrite Hb, <- Ha; by eapply lookup_lt_Some).
    close_inv; [by rewrite length_insert|by apply take_write].
  - destruct Hc as (-> & -> & Hi & Ht). cbn [c_holds] in *. close_inv.
  - destruct Hc as (-> & -> & Ht). cbn [c_holds orb andb] in *. rewrite orb_true_r, andb_true_r in *.
    destruct Hq as (v & Hst & Hv). close_inv; try (by rewrite orb_true_r); try (by rewrite andb_true_r).
    + by eapply c_alone.
    + by rewrite last_snoc.
    + destruct (holds_floats h a v Hv) as [Hfl _]. rewrite Hst, Ht, Hfl. destruct Hv as (-> & _). by destruct v.
  - cbn [c_holds orb andb] in *. rewrite andb_true_r in Hx. destruct o as [g|]; close_inv;
      by rewrite ?orb_false_r, ?andb_false_r, ?Hx.
  - close_inv.
Qed.

Lemma mailbox_inv_reachable h a b s : length a = SIZE → length b = SIZE → rtc mbstep (start h a b) s → inv s.
Proof.
  intros Ha Hb Hr. assert (H0 : inv (start h a b)) by (by split_and!). revert H0.
  induction Hr as [|t1 t2 t3 Hs _ IH]; [done|]. intros Hi. apply IH. by eapply mailbox_inv_step.
Qed.
End Mailbox.

(** One thread at a time receives on the worker's socket.  However the listen
    and the heartbeat thread are scheduled, the listen thread is never in
    [rpc_recv] while the heartbeat thread runs [discovery_register]. *)
Theorem socket_has_one_owner t :
  rtc Handoff.step Handoff.start t →
  ¬ (Handoff.listen t = Handoff.LRecv ∧ Handoff.heart t = Handoff.HRegister).
Proof. intros Hr [Hl Hh]. by apply (Handoff.inv_reachable t Hr). Qed.

Lemma socket_has_one_owner_witness :
  ¬ (Handoff.listen (Handoff.State Handoff.LWait Handoff.HRegister true true true) = Handoff.LRecv ∧ True).
Proof.
  intros [Hl _]. apply (socket_has_one_owner (Handoff.State Handoff.LWait Handoff.HRegister true true true)).
  - eapply rtc_l; [left; apply Handoff.l_free|]. eapply rtc_l; [left; apply Handoff.l_evicted|].
    eapply rtc_l; [right; apply Handoff.h_due|]. eapply rtc_l; [right; apply Handoff.h_raise|].
    eapply rtc_l; [left; apply Handoff.l_busy|]. eapply rtc_l; [left; apply Handoff.l_park|].
    eapply rtc_l; [right; apply Handoff.h_enter|]. apply rtc_refl.
  - split; [exact Hl|reflexivity].
Defined.

(** The hand-shake completes.  Whenever the heartbeat thread waits for the
    socket, the listen thread can always move, after any three of its steps it
    has parked, and the next step of the heartbeat thread is the registration. *)
Theorem handoff_completes t :
  rtc Handoff.step Handoff.start t → Handoff.heart t = Handoff.HWait →
  (∃ t', nsteps Handoff.lstep 3 t t') ∧
  ∀ t', nsteps Handoff.lstep 3 t t' →
    Handoff.hstep t' (Handoff.State (Handoff.listen t') Handoff.HRegister (Handoff.needs_reregister t')
                        (Handoff.reregistering t') true) ∧
    ∀ t'', Handoff.hstep t' t'' → Handoff.heart t'' = Handoff.HRegister.
Proof.
  intros Hr Hh. split.
  - destruct (Handoff.lstep_total t) as [t1 S1]. destruct (Handoff.lstep_total t1) as [t2 S2].
    destruct (Handoff.lstep_total t2) as [t3 S3]. exists t3. eapply nsteps_l; [exact S1|].
    eapply nsteps_l; [exact S2|]. by apply nsteps_once.
  - intros t' Hs. destruct (Handoff.parks 3 t t') as [Hw Hp]; [by apply Handoff.inv_reachable|done| |done|].
    { destruct (Handoff.listen t); cbn; lia. }
    destruct t' as [l h n r s]. cbn in *. subst. split; [apply Handoff.h_enter|].
    intros t'' Hs'. inversion Hs'; subst; done.
Qed.

Lemma handoff_completes_witness :
  ∃ t', nsteps Handoff.lstep 3 (Handoff.State Handoff.LCheck Handoff.HWait true true false) t'.
Proof.
  apply (handoff_completes (Handoff.State Handoff.LCheck Handoff.HWait true true false)).
  - eapply rtc_l; [left; apply Handoff.l_free|]. eapply rtc_l; [left; apply Handoff.l_evicted|].
    eapply rtc_l; [right; apply Handoff.h_due|]. eapply rtc_l; [right; apply Handoff.h_raise|]. apply rtc_refl.
  - reflexivity.
Defined.

(** C28: The mailbox is a lossless one-slot queue.  However the two threads are
    scheduled, down to single floats of a copy, at most one of them is inside
    the critical section; what the inference thread has taken is what the listen
    thread has stored, in order and unaltered, except for at most one item still
    in the slot; and while the layers run, the private buffer holds the floats
    of the item taken last. *)
Theorem mailbox_exact h a b s :
  length a = Mailbox.SIZE → length b = Mailbox.SIZE → rtc Mailbox.mbstep (Mailbox.start h a b) s →
  Mailbox.p_holds (Mailbox.prod s) && Mailbox.c_holds (Mailbox.cons s) = false ∧
  (Mailbox.stored s = Mailbox.taken s ∨ ∃ v, Mailbox.stored s = Mailbox.taken s ++ [v]) ∧
  ∀ g, Mailbox.cons s = Mailbox.CRun g →
    last (Mailbox.taken s) = Some (g, take (Mailbox.floats_of g) (Mailbox.compute s)).
Proof.
  intros Ha Hb Hr. destruct (Mailbox.mailbox_inv_reachable h a b s Ha Hb Hr) as (_ & _ & _ & Hx & _ & Hc & Hq).
  split; [done|]. split.
  - destruct (Mailbox.have_hop s); [|by left]. destruct Hq as (v & Hq & _). right. by exists v.
  - intros g Eg. by rewrite Eg in Hc.
Qed.

Lemma mailbox_exact_witness :
  let h := InferHop 1 1 0 0 1 0 0 in
  let z := replicate Mailbox.SIZE 0 in
  last [(h, [5])] = Some (h, take 1 (<[0%nat := 5]> z)).
Proof.
  intros h z.
  refine (proj2 (proj2 (mailbox_exact h z z (Mailbox.State 0 false h (<[0%nat := 5]> z) (<[0%nat := 5]> z) Mailbox.PIdle
    (Mailbox.CRun h) [(h, [5])] [(h, take (Mailbox.floats_of h) (<[0%nat := 5]> z))]) eq_refl eq_refl _)) h eq_refl).
  eapply rtc_l; [apply (Mailbox.p_call _ _ _ _ _ _ _ _ (h, [5])); split; vm_compute; [done|lia]|].
  eapply rtc_l; [apply Mailbox.p_lock; reflexivity|]. eapply rtc_l; [apply Mailbox.p_free|].
  eapply rtc_l; [apply (Mailbox.p_copy _ _ _ _ _ _ _ _ _ _ 5); reflexivity|].
  eapply rtc_l; [apply (Mailbox.p_copied _ _ _ _ _ _ _ _ (h, [5]))|]. eapply rtc_l; [apply Mailbox.p_head|].
  eapply rtc_l; [apply Mailbox.p_flag|]. eapply rtc_l; [apply Mailbox.p_unlock; reflexivity|].
  eapply rtc_l; [apply Mailbox.c_full|]. eapply rtc_l; [apply Mailbox.c_lock; reflexivity|].
  eapply rtc_l; [apply Mailbox.c_here|].
  eapply rtc_l; [apply (Mailbox.c_copy _ _ _ _ _ _ _ _ _ _ 5); [vm_compute; lia|reflexivity]|].
  eapply rtc_l; [apply (Mailbox.c_copied _ _ _ _ _ _ _ _ h)|]. eapply rtc_l; [apply Mailbox.c_clear|].
  eapply rtc_l; [apply Mailbox.c_unlock; reflexivity|]. apply rtc_refl.
Defined.
