(* ===== verification/Text.v ===== *)
(** * Text (src/xv6-riscv/user/xstrlib.c, ulib.c, xstdlib.c)

    The string routines the tokenizer and the command lines use.  A C string is
    the list of its bytes; reading at the end of the list is reading the
    terminator, and a NUL inside the list ends the string.  A destination buffer
    is the list of the bytes written so far.  [double] arithmetic is a
    parameter. *)
From Stdlib Require Import String Ascii.
From S2P Require Import Prelude.

(** A string literal. *)
Definition lit (s : string) : list Z := map (λ c, Z.of_N (N_of_ascii c)) (list_ascii_of_string s).

(** The [double] operations of [ftoa] and of the [%f] scanner. *)
Class DoubleOps (D : Type) := {
  d_of : Z → D; d_half : D; d_tenth : D;
  dadd : D → D → D; dsub : D → D → D; dmul : D → D → D; ddiv : D → D → D; dneg : D → D;
  d_nan : D → bool; d_pinf : D → bool; d_ninf : D → bool; d_ltz : D → bool; d_gez : D → bool;
  d_trunc : D → Z;
}.

(** ** Strings *)

(** The string proper: the bytes before the first NUL. *)
Fixpoint cstr (s : list Z) : list Z :=
  match s with [] => [] | c :: s => if u8 c =? 0 then [] else u8 c :: cstr s end.

Definition strlen (s : list Z) : Z := Z.of_nat (length (cstr s)).

Fixpoint strcmp (p q : list Z) : Z :=
  match p, q with
  | a :: p, b :: q => if negb (u8 a =? 0) && (u8 a =? u8 b) then strcmp p q else u8 a - u8 b
  | a :: _, [] => u8 a
  | [], b :: _ => - u8 b
  | [], [] => 0
  end.

(** [*s], with the terminator at the end. *)
Definition deref (s : list Z) : Z := match s with [] => 0 | c :: _ => c end.

Definition xisprint (c : Z) : bool := (32 <=? c) && (c <? 127).
Definition xisspace (c : Z) : bool :=
  (c =? 32) || (c =? 12) || (c =? 10) || (c =? 13) || (c =? 9) || (c =? 11).
Definition xisdigit (c : Z) : bool := (48 <=? c) && (c <=? 57).

Fixpoint skip_while (f : Z → bool) (s : list Z) : list Z :=
  match s with c :: s' => if f c then skip_while f s' else s | [] => [] end.
Fixpoint span_while (f : Z → bool) (s : list Z) : list Z :=
  match s with c :: s' => if f c then c :: span_while f s' else [] | [] => [] end.

(** The loops that accumulate [val = val * 10 + digit], at the width of [val]. *)
Definition digits_value (wrap : Z → Z) (s : list Z) : Z :=
  fold_left (λ val c, wrap (val * 10 + (c - 48))) (span_while xisdigit s) 0.

Definition atoi (s : list Z) : Z := digits_value s32 s.

Definition xatoi (s : list Z) : Z :=
  let s := skip_while (λ c, (c =? 32) || (c =? 9) || (c =? 10) || (c =? 13)) s in
  let '(sign, s) := if deref s =? 43 then (1, tail s) else if deref s =? 45 then (-1, tail s) else (1, s) in
  s32 (sign * digits_value s32 s).

(** ** Formatting *)

(** The digits of [val], least significant first, at most 32 of them. *)
Fixpoint dec_digits (n : nat) (val : Z) : list Z :=
  match n with
  | O => []
  | S n => if val =? 0 then [] else 48 + val mod 10 :: dec_digits n (val / 10)
  end.

Definition utoa_dec (val : Z) (bufsize : Z) : list Z :=
  if bufsize <=? 0 then []
  else if val =? 0 then (if bufsize >? 1 then [48] else [])
  else take (Z.to_nat (bufsize - 1)) (rev (dec_digits 32 val)).

Definition hex_digit (uppercase : bool) (d : Z) : Z :=
  if d <? 10 then 48 + d else (if uppercase then 65 else 97) + (d - 10).

Fixpoint hex_digits (uppercase : bool) (n : nat) (val : Z) : list Z :=
  match n with
  | O => []
  | S n => if val =? 0 then [] else hex_digit uppercase (Z.land val 15) :: hex_digits uppercase n (val ≫ 4)
  end.

Definition utoa_hex (val : Z) (bufsize : Z) (uppercase : bool) : list Z :=
  if bufsize <=? 0 then []
  else if val =? 0 then (if bufsize >? 1 then [48] else [])
  else take (Z.to_nat (bufsize - 1)) (rev (hex_digits uppercase 32 val)).

Section Format.
Context {D : Type} `{DoubleOps D}.

Definition round_to_precision (x : D) (prec : Z) : D :=
  let p := Nat.iter (Z.to_nat prec) (λ p, dmul p (d_of 10)) (d_of 1) in
  if d_gez x then ddiv (d_of (d_trunc (dadd (dmul x p) d_half))) p
  else ddiv (d_of (d_trunc (dsub (dmul x p) d_half))) p.

(** The digits behind the point: stop when the buffer is full. *)
Fixpoint frac_digits (n : nat) (bufsize : Z) (frac : D) (out : list Z) : list Z :=
  match n with
  | O => out
  | S n =>
      let frac := dmul frac (d_of 10) in
      let d := d_trunc frac in
      if Z.of_nat (length out) + 1 >=? bufsize then out
      else frac_digits n bufsize (dsub frac (d_of d)) (out ++ [u8 (48 + d)])
  end.

Definition ftoa (val : D) (bufsize prec : Z) : list Z :=
  if bufsize <=? 0 then [] else
  let prec := if prec <? 0 then 6 else prec in
  if d_nan val then (if bufsize >? 3 then [110; 97; 110] else [])
  else if d_pinf val then (if bufsize >? 3 then [105; 110; 102] else [])
  else if d_ninf val then (if bufsize >? 4 then [45; 105; 110; 102] else [])
  else
    let '(sign, val) :=
      if d_ltz val then ((if 1 <? bufsize then [45] else []), dneg val) else ([], val) in
    let val := round_to_precision val prec in
    let ipart := d_trunc val in
    let frac := dsub val (d_of ipart) in
    let intbuf := utoa_dec ipart 32 in
    if Z.of_nat (length sign) + Z.of_nat (length intbuf) + 1 >=? bufsize then sign
    else
      let out := sign ++ intbuf in
      if prec =? 0 then out
      else if Z.of_nat (length out) + 1 >=? bufsize then out
      else frac_digits (Z.to_nat prec) bufsize frac (out ++ [46]).

(** A variadic argument. *)
Inductive va := VInt (v : Z) | VUint (v : Z) | VStr (s : option (list Z)) | VDouble (d : D).

(** [if (outpos + 1 < size) out[outpos++] = c], for each byte. *)
Definition emit (size : Z) (out : list Z) (cs : list Z) : list Z :=
  fold_left (λ out c, if Z.of_nat (length out) + 1 <? size then out ++ [c] else out) cs out.

(** What a conversion writes; [None] when the argument is missing or of another
    type. *)
Definition convert (spec : Z) (precision : Z) (args : list va) : option (list Z * list va) :=
  if spec =? 37 then Some ([37], args)
  else if spec =? 100 then
    match args with
    | VInt v :: args =>
        let uv := if v <? 0 then u32 (- v) else u32 v in
        Some ((if v <? 0 then [45] else []) ++ utoa_dec uv 32, args)
    | _ => None
    end
  else if spec =? 115 then
    match args with
    | VStr s :: args => Some (cstr (default [40; 110; 117; 108; 108; 41] s), args)
    | _ => None
    end
  else if spec =? 99 then
    match args with VInt ch :: args => Some ([u8 ch], args) | _ => None end
  else if spec =? 102 then
    match args with
    | VDouble d :: args => Some (ftoa d 64 (if precision >=? 0 then precision else 6), args)
    | _ => None
    end
  else if (spec =? 120) || (spec =? 88) then
    match args with VUint v :: args => Some (utoa_hex v 32 (spec =? 88), args) | _ => None end
  else Some ([37; spec], args).

(** [.ddd] after the percent sign. *)
Definition read_precision (p : list Z) : Z * list Z :=
  if deref p =? 46 then (digits_value s32 (tail p), skip_while xisdigit (tail p)) else (-1, p).

(** The loop over the format.  A percent sign at its end makes the code step
    over the terminator, which is outside the model. *)
Fixpoint format_loop (fuel : nat) (size : Z) (out p : list Z) (args : list va) : option (list Z) :=
  match fuel with
  | O => None
  | S fuel =>
      match p with
      | [] => Some out
      | c :: p =>
          if c =? 37 then
            let '(precision, p) := read_precision p in
            match p with
            | [] => None
            | spec :: p =>
                match convert spec precision args with
                | Some (cs, args) => format_loop fuel size (emit size out cs) p args
                | None => None
                end
            end
          else format_loop fuel size (emit size out [c]) p args
      end
  end.

Definition xvsnprintf (size : Z) (fmt : list Z) (args : list va) : option (list Z) :=
  if size <=? 0 then Some [] else format_loop (S (length (cstr fmt))) size [] (cstr fmt) args.

Definition xsprintf (fmt : list Z) (args : list va) : option (list Z) := xvsnprintf 1024 fmt args.

(** ** Scanning *)

(** A value stored through an argument pointer. *)
Inductive scanned := ScInt (v : Z) | ScFloat (d : D) | ScStr (s : list Z) | ScChar (c : Z) | ScHex (v : Z).

Definition hex_char_value (c : Z) : option Z :=
  if (48 <=? c) && (c <=? 57) then Some (c - 48)
  else if (97 <=? c) && (c <=? 102) then Some (10 + (c - 97))
  else if (65 <=? c) && (c <=? 70) then Some (10 + (c - 65))
  else None.

Fixpoint scan_hex (got : bool) (val : Z) (ps : list Z) : option (Z * list Z) :=
  match ps with
  | c :: ps' =>
      match hex_char_value c with
      | Some d => scan_hex true (Z.lor (u32 (val ≪ 4)) d) ps'
      | None => if got then Some (val, ps) else None
      end
  | [] => if got then Some (val, ps) else None
  end.

Definition scan_int (ps : list Z) : option (Z * list Z) :=
  let '(sign, ps) := if deref ps =? 45 then (-1, tail ps) else (1, ps) in
  if xisdigit (deref ps) then Some (s32 (s64 (digits_value s64 ps * sign)), skip_while xisdigit ps) else None.

Definition scan_float (ps : list Z) : option (D * list Z) :=
  let '(sign, ps) := if deref ps =? 45 then (-1, tail ps) else (1, ps) in
  if xisdigit (deref ps) then
    let val := fold_left (λ v c, dadd (dmul v (d_of 10)) (d_of (c - 48))) (span_while xisdigit ps) (d_of 0) in
    let ps := skip_while xisdigit ps in
    let '(val, ps) :=
      if deref ps =? 46 then
        (fst (fold_left (λ '(v, place) c, (dadd v (dmul (d_of (c - 48)) place), dmul place d_tenth))
               (span_while xisdigit (tail ps)) (val, d_tenth)),
         skip_while xisdigit (tail ps))
      else (val, ps) in
    Some (dmul val (d_of sign), ps)
  else None.

(** One conversion: the value and the rest of the input, or a break. *)
Definition scan_one (spec : Z) (ps : list Z) : option (scanned * list Z) :=
  if spec =? 100 then '(v, ps) ← scan_int ps; Some (ScInt v, ps)
  else if spec =? 102 then '(v, ps) ← scan_float ps; Some (ScFloat v, ps)
  else if spec =? 115 then
    Some (ScStr (span_while (λ c, negb (xisspace c)) ps), skip_while (λ c, negb (xisspace c)) ps)
  else if spec =? 99 then Some (ScChar (deref ps), tail ps)
  else if (spec =? 120) || (spec =? 88) then '(v, ps) ← scan_hex false 0 ps; Some (ScHex v, ps)
  else None.

(** [hh] and [h], then the width, which are ignored. *)
Definition skip_modifiers (pf : list Z) : list Z :=
  let pf := if deref pf =? 104 then (if deref (tail pf) =? 104 then tail (tail pf) else tail pf) else pf in
  skip_while xisdigit pf.

Fixpoint scan_loop (fuel : nat) (ps pf : list Z) (acc : list scanned) : option (list scanned) :=
  match fuel with
  | O => None
  | S fuel =>
      match pf with
      | [] => Some acc
      | c :: pf =>
          if c =? 37 then
            match skip_modifiers pf with
            | [] => Some acc
            | spec :: pf =>
                match scan_one spec (skip_while xisspace ps) with
                | Some (v, ps) => scan_loop fuel ps (skip_while (Z.eqb 32) pf) (acc ++ [v])
                | None => Some acc
                end
            end
          else match ps with
               | d :: ps => if c =? d then scan_loop fuel ps (skip_while (Z.eqb 32) pf) acc else Some acc
               | [] => Some acc
               end
      end
  end.

(** The values assigned, whose number is the result of [xsscanf]. *)
Definition xsscanf (s fmt : list Z) : option (list scanned) :=
  scan_loop (S (length (cstr fmt))) (cstr s) (cstr fmt) [].
End Format.
#[global] Arguments va : clear implicits.
#[global] Arguments scanned : clear implicits.

(** ** Comparison *)

Lemma strcmp_flip p : ∀ q, Z.sgn (strcmp p q) = - Z.sgn (strcmp q p).
Proof.
  induction p as [|a p IH]; intros [|b q]; cbn [strcmp]; try lia.
  rewrite (Z.eqb_sym (u8 b) (u8 a)). destruct (Z.eqb_spec (u8 a) (u8 b)) as [->|]; [|rewrite !andb_false_r; lia].
  rewrite !andb_true_r. destruct (negb _); [apply IH|lia].
Qed.

Lemma strcmp_le p : ∀ q, strcmp p q ≤ 0 ↔
  match p, q with
  | a :: p', b :: q' => u8 a < u8 b ∨ u8 a = 0 ∨ u8 a = u8 b ∧ strcmp p' q' ≤ 0
  | a :: _, [] => u8 a = 0
  | [], _ => True
  end.
Proof.
  intros q. destruct p as [|a p], q as [|b q]; cbn [strcmp]; [lia| | |].
  - pose proof (u8_byte b). unfold is_byte in *. lia.
  - pose proof (u8_byte a). unfold is_byte in *. lia.
  - pose proof (u8_byte a). pose proof (u8_byte b). unfold is_byte in *.
    destruct (Z.eqb_spec (u8 a) 0) as [->|]; cbn [negb andb]; [lia|].
    destruct (Z.eqb_spec (u8 a) (u8 b)); lia.
Qed.

Lemma strcmp_trans p : ∀ q r, strcmp p q ≤ 0 → strcmp q r ≤ 0 → strcmp p r ≤ 0.
Proof.
  induction p as [|a p IH]; intros q r; [intros _ _; by apply strcmp_le|].
  rewrite !strcmp_le. pose proof (u8_byte a). unfold is_byte in *.
  destruct q as [|b q], r as [|c r]; try lia.
  pose proof (u8_byte b). unfold is_byte in *. intros [|[|[? Hpq]]] [|[|[? Hqr]]]; try lia.
  right. right. split; [lia|by apply (IH q)].
Qed.

Lemma strcmp_eq p : ∀ q, strcmp p q = 0 ↔ cstr p = cstr q.
Proof.
  induction p as [|a p IH]; intros [|b q]; cbn [strcmp cstr]; [done| | |].
  - destruct (Z.eqb_spec (u8 b) 0); split; intros; (done || lia).
  - destruct (Z.eqb_spec (u8 a) 0); split; intros; (done || lia).
  - destruct (Z.eqb_spec (u8 a) 0) as [Ha|Ha]; cbn [negb andb].
    { rewrite Ha. destruct (Z.eqb_spec (u8 b) 0); split; intros; (done || lia). }
    destruct (Z.eqb_spec (u8 a) (u8 b)) as [E|E].
    { rewrite <- E. destruct (Z.eqb_spec (u8 a) 0); [done|]. rewrite IH. split; [by intros ->|by intros [= ->]]. }
    destruct (Z.eqb_spec (u8 b) 0); split; try (done || lia). intros [= Hab _]; lia.
Qed.

Lemma cstr_id s : Forall (λ c, 0 < c < 256) s → cstr s = s.
Proof.
  induction 1 as [|c s Hc _ IH]; [done|]. cbn. rewrite u8_id by (unfold is_byte; lia).
  destruct (Z.eqb_spec c 0); [lia|by rewrite IH].
Qed.

Lemma cstr_bytes s : Forall (λ c, 0 < c < 256) (cstr s).
Proof.
  induction s as [|c s IH]; [constructor|]. cbn. destruct (Z.eqb_spec (u8 c) 0); [constructor|].
  constructor; [|done]. pose proof (u8_byte c). unfold is_byte in *. lia.
Qed.

Lemma cstr_cstr s : cstr (cstr s) = cstr s.
Proof. apply cstr_id, cstr_bytes. Qed.

(** ** Bounded output *)

Lemma emit_take size cs : ∀ out, Z.of_nat (length out) ≤ size - 1 →
  emit size out cs = take (Z.to_nat (size - 1)) (out ++ cs).
Proof.
  induction cs as [|c cs IH]; intros out Ho; cbn [emit fold_left].
  { rewrite app_nil_r, take_ge by lia. done. }
  fold (emit size (if Z.of_nat (length out) + 1 <? size then out ++ [c] else out) cs).
  destruct (Z.ltb_spec (Z.of_nat (length out) + 1) size).
  - rewrite IH by (rewrite length_app; cbn; lia). by rewrite <- (assoc_L _).
  - rewrite IH by lia. rewrite !take_app_le by lia. done.
Qed.

#[global] Arguments emit : simpl never.

Section FormatFacts.
Context {D : Type} `{DoubleOps D}.

(** What the format says, without a bound. *)
Fixpoint render (fuel : nat) (p : list Z) (args : list (va D)) : option (list Z) :=
  match fuel with
  | O => None
  | S fuel =>
      match p with
      | [] => Some []
      | c :: p =>
          if c =? 37 then
            let '(precision, p) := read_precision p in
            match p with
            | [] => None
            | spec :: p => '(cs, args) ← convert spec precision args; t ← render fuel p args; Some (cs ++ t)
            end
          else t ← render fuel p args; Some (c :: t)
      end
  end.

Lemma format_loop_render fuel size : ∀ out p args, Z.of_nat (length out) ≤ size - 1 →
  format_loop fuel size out p args = t ← render fuel p args; Some (take (Z.to_nat (size - 1)) (out ++ t)).
Proof.
  assert (Hstep : ∀ out cs, Z.of_nat (length out) ≤ size - 1 → Z.of_nat (length (emit size out cs)) ≤ size - 1).
  { intros out cs Ho. rewrite emit_take by done. rewrite length_take. lia. }
  assert (Happ : ∀ (out cs t : list Z), take (Z.to_nat (size - 1)) (take (Z.to_nat (size - 1)) (out ++ cs) ++ t) =
    take (Z.to_nat (size - 1)) (out ++ cs ++ t)).
  { intros out cs t. rewrite (assoc_L _). rewrite (take_app (take _ _)), take_take, Nat.min_id. rewrite (take_app (out ++ cs)).
    f_equal. f_equal. rewrite length_take. lia. }
  induction fuel as [|fuel IH]; [done|]. intros out [|c p] args Ho; cbn [format_loop render].
  { cbn. rewrite app_nil_r, take_ge by lia. done. }
  destruct (c =? 37).
  - destruct (read_precision p) as [pr [|spec p']]; [done|]. destruct (convert spec pr args) as [[cs args']|]; [|done].
    cbn. rewrite IH by by apply Hstep. destruct (render fuel p' args') as [t|]; [|done]. cbn.
    by rewrite emit_take, Happ by done.
  - rewrite IH by by apply Hstep. destruct (render fuel p args) as [t|]; [|done]. cbn.
    by rewrite emit_take, Happ by done.
Qed.

(** [xvsnprintf] writes what the format says, cut to [size - 1] bytes. *)
Lemma xvsnprintf_bounded size fmt args : 0 < size →
  xvsnprintf size fmt args =
  t ← render (S (length (cstr fmt))) (cstr fmt) args; Some (take (Z.to_nat (size - 1)) t).
Proof.
  intros Hs. unfold xvsnprintf. destruct (Z.leb_spec size 0); [lia|]. apply format_loop_render. cbn. lia.
Qed.

Lemma xsprintf_concat a b :
  xsprintf (lit "%s%s") [VStr (Some a); VStr (Some b)] = Some (take 1023 (cstr a ++ cstr b)).
Proof. unfold xsprintf. rewrite xvsnprintf_bounded by done.
  change (cstr (lit "%s%s")) with [37; 115; 37; 115]. cbn -[take]. by rewrite app_nil_r. Qed.
End FormatFacts.

(** ** Numbers *)

Lemma s32_step v c : s32 (s32 v * 10 + c) = s32 (v * 10 + c).
Proof. unfold s32. zdivmod. Qed.
Lemma s64_step v c : s64 (s64 v * 10 + c) = s64 (v * 10 + c).
Proof. unfold s64. zdivmod. Qed.

(** The value of decimal digits, the least significant first. *)
Fixpoint number (ds : list Z) : Z := match ds with [] => 0 | d :: ds => number ds * 10 + (d - 48) end.

Lemma span_all f s : Forall (λ c, f c = true) s → span_while f s = s.
Proof. induction 1 as [|c s Hc _ IH]; cbn; [done|]. by rewrite Hc, IH. Qed.

Lemma skip_all f s : Forall (λ c, f c = true) s → skip_while f s = [].
Proof. induction 1 as [|c s Hc _ IH]; cbn; [done|]. by rewrite Hc. Qed.

Lemma digits_value_number wrap ds : (∀ v c, wrap (wrap v * 10 + c) = wrap (v * 10 + c)) → wrap 0 = 0 →
  Forall (λ c, xisdigit c = true) ds → digits_value wrap (rev ds) = wrap (number ds).
Proof.
  intros Hw H0 Hd. unfold digits_value. rewrite span_all by (rewrite Forall_forall in *; intros c Hc;
    apply Hd, list_elem_of_In; apply list_elem_of_In, in_rev in Hc; done).
  clear Hd. induction ds as [|d ds IH]; [done|]. cbn [rev number]. rewrite fold_left_app. cbn. by rewrite IH, Hw.
Qed.

Lemma dec_digits_number n : ∀ v, 0 ≤ v < 10 ^ Z.of_nat n →
  number (dec_digits n v) = v ∧ Forall (λ c, xisdigit c = true) (dec_digits n v) ∧ (length (dec_digits n v) ≤ n)%nat.
Proof.
  induction n as [|n IH]; intros v Hv; cbn [dec_digits]; [cbn in *; split; [lia|done]|].
  destruct (Z.eqb_spec v 0) as [->|]; [by split_and!; [|constructor|cbn; lia]|].
  rewrite Nat2Z.inj_succ, Z.pow_succ_r in Hv by lia. destruct (IH (v / 10)) as (IHv & IHd & IHl); [zdivmod|].
  cbn [number length]. rewrite IHv. split_and!; [zdivmod| |lia]. constructor; [|done]. unfold xisdigit.
  pose proof (Z.mod_pos_bound v 10). destruct (Z.leb_spec 48 (48 + v mod 10)), (Z.leb_spec (48 + v mod 10) 57); lia.
Qed.

Lemma dec_digits_head n v : 0 < v → 0 < Z.of_nat n → ∃ d ds, dec_digits n v = d :: ds.
Proof. intros Hv Hn. destruct n; [lia|]. cbn. destruct (Z.eqb_spec v 0); [lia|by eexists _, _]. Qed.

(** The text of a [uint] is a digit string that reads back as its value. *)
Lemma utoa_dec_number v : 0 ≤ v < 2 ^ 32 →
  ∃ ds, utoa_dec v 32 = rev ds ∧ number ds = v ∧ Forall (λ c, xisdigit c = true) ds ∧ ds ≠ [] ∧ (length ds ≤ 31)%nat.
Proof.
  intros Hv. unfold utoa_dec. cbn [Z.leb Z.gtb Z.compare Pos.compare Pos.compare_cont].
  destruct (Z.eqb_spec v 0) as [->|]; [by exists [48]; split_and!; [| |repeat constructor| |cbn; lia]|].
  destruct (dec_digits_number 31 v) as (Hn & Hd & Hl); [cbn; lia|].
  assert (E : dec_digits 32 v = dec_digits 31 v).
  { assert (Hext : ∀ n v, 0 ≤ v < 10 ^ Z.of_nat n → dec_digits (S n) v = dec_digits n v).
    { clear. induction n as [|n IH]; intros v Hv.
      - cbn in *. destruct (Z.eqb_spec v 0); [done|lia].
      - rewrite Nat2Z.inj_succ, Z.pow_succ_r in Hv by lia. change (dec_digits (S (S n)) v) with
          (if v =? 0 then [] else 48 + v mod 10 :: dec_digits (S n) (v / 10)).
        change (dec_digits (S n) v) with (if v =? 0 then [] else 48 + v mod 10 :: dec_digits n (v / 10)).
        destruct (Z.eqb_spec v 0); [done|]. by rewrite IH by zdivmod. }
    apply Hext. cbn. lia. }
  exists (dec_digits 31 v). rewrite E, take_ge by (rewrite length_rev; change (Z.to_nat (32 - 1)) with 31%nat; lia).
  split_and!; [done|done|done| |done]. destruct (dec_digits_head 31 v) as (d & ds & ->); [lia|cbn; lia|done].
Qed.

(** What the two readers make of a sign and digits. *)
Lemma xatoi_digits (neg : bool) c cs ds : rev ds = c :: cs → Forall (λ c, xisdigit c = true) ds →
  xatoi ((if neg then [45] else []) ++ c :: cs) = s32 ((if neg then -1 else 1) * s32 (number ds)).
Proof.
  intros Er Hd. assert (Hc : xisdigit c = true).
  { rewrite Forall_forall in Hd. apply Hd, list_elem_of_In, in_rev. rewrite Er. by left. }
  rewrite <- (digits_value_number s32 ds s32_step eq_refl Hd), Er. unfold xisdigit in Hc.
  destruct neg; unfold xatoi; cbn [app].
  - reflexivity.
  - assert (Hs : skip_while (λ c, (c =? 32) || (c =? 9) || (c =? 10) || (c =? 13)) (c :: cs) = c :: cs).
    { cbn. destruct (Z.eqb_spec c 32), (Z.eqb_spec c 9), (Z.eqb_spec c 10), (Z.eqb_spec c 13); (done || lia). }
    rewrite Hs. cbn [deref]. destruct (Z.eqb_spec c 43), (Z.eqb_spec c 45); (done || lia).
Qed.

Lemma scan_decimal {D} `{DoubleOps D} ps :
  scan_loop 3 ps [37; 100] [] =
  match scan_int (skip_while xisspace ps) with Some (v, _) => Some [ScInt v : scanned D] | None => Some [] end.
Proof.
  transitivity (match scan_one 100 (skip_while xisspace ps) with
                | Some (v, _) => Some [v : scanned D] | None => Some [] end); [done|].
  unfold scan_one. change (100 =? 100) with true. cbn match. by destruct (scan_int (skip_while xisspace ps)) as [[v r]|].
Qed.

Lemma xsscanf_digits {D} `{DoubleOps D} (neg : bool) c cs ds :
  rev ds = c :: cs → Forall (λ c, xisdigit c = true) ds →
  xsscanf ((if neg then [45] else []) ++ c :: cs) (lit "%d") =
  Some [ScInt (s32 (s64 (s64 (number ds) * (if neg then -1 else 1)))) : scanned D].
Proof.
  intros Er Hd.
  assert (Hr : Forall (λ c, xisdigit c = true) (c :: cs)).
  { rewrite <- Er. rewrite Forall_forall in *. intros x Hx. apply Hd, list_elem_of_In.
    apply list_elem_of_In, in_rev in Hx. done. }
  assert (Hc : xisdigit c = true) by (by inversion Hr).
  rewrite <- (digits_value_number s64 ds s64_step eq_refl Hd), Er. unfold xsscanf.
  change (cstr (lit "%d")) with [37; 100].
  rewrite cstr_id.
  2: { apply Forall_app. split; [destruct neg; repeat constructor; lia|]. eapply Forall_impl; [exact Hr|].
       intros x Hx. unfold xisdigit in Hx. cbn in Hx. lia. }
  change (length [37; 100]) with 2%nat. rewrite scan_decimal. destruct neg; cbn [app].
  - change (skip_while xisspace (45 :: c :: cs)) with (45 :: c :: cs). unfold scan_int.
    change (deref (45 :: c :: cs) =? 45) with true. cbn [tail deref]. by rewrite Hc.
  - assert (Hs : skip_while xisspace (c :: cs) = c :: cs).
    { unfold xisdigit in Hc. cbn. unfold xisspace.
      destruct (Z.eqb_spec c 32), (Z.eqb_spec c 12), (Z.eqb_spec c 10), (Z.eqb_spec c 13), (Z.eqb_spec c 9), (Z.eqb_spec c 11); (done || lia). }
    rewrite Hs. unfold scan_int. cbn [tail deref].
    destruct (Z.eqb_spec c 45) as [->|]; [done|]. cbn [deref]. by rewrite Hc.
Qed.

(** An [int] printed with [%d] is read back by [xatoi] and by the scanner, the
    least value included. *)
Theorem int_text_roundtrip {D} `{DoubleOps D} v : - 2 ^ 31 ≤ v < 2 ^ 31 →
  ∃ s, xsprintf (lit "%d") [VInt v : va D] = Some s ∧ xatoi s = v ∧
    xsscanf s (lit "%d") = Some [ScInt v : scanned D].
Proof.
  intros Hv. destruct (utoa_dec_number (Z.abs v)) as (ds & Ht & Hn & Hd & Hne & Hl); [lia|].
  destruct (rev ds) as [|c cs] eqn:Er; [destruct ds; [done|]; by apply app_nil in Er as [_ ?]|].
  exists ((if v <? 0 then [45] else []) ++ c :: cs). split_and!.
  - unfold xsprintf. rewrite xvsnprintf_bounded by done. change (cstr (lit "%d")) with [37; 100].
    cbn -[take utoa_dec]. replace (if v <? 0 then u32 (- v) else u32 v) with (Z.abs v)
      by (destruct (Z.ltb_spec v 0); rewrite u32_id; unfold is_u32; lia).
    rewrite Ht, app_nil_r, take_ge; [done|]. rewrite length_app, <- Er, length_rev.
    destruct (v <? 0); cbn [length]; change (Z.to_nat (1024 - 1)) with 1023%nat; lia.
  - rewrite (xatoi_digits _ c cs ds) by done. rewrite Hn. destruct (Z.ltb_spec v 0).
    + unfold s32. zdivmod.
    + rewrite (s32_id (Z.abs v)) by lia. rewrite s32_id; lia.
  - rewrite (xsscanf_digits _ c cs ds), Hn by done. do 3 f_equal. rewrite (s64_id (Z.abs v)) by lia.
    destruct (Z.ltb_spec v 0); rewrite s64_id by lia; rewrite s32_id; lia.
Qed.
