(* ===== verification/Sort.v ===== *)
(** * Sorting and searching (src/xv6-riscv/user/xstdlib.c)

    [xqsort] is an iterative quicksort over an explicit stack of 128 ints; an
    access outside the array or the stack is a fault of the model.  [xbsearch]
    is the binary search over byte offsets.  An array is the list of its
    elements of [size] bytes each, and the offset of element [j] is computed in
    [uint], as the code does.  The allocator is a parameter. *)
From stdpp Require Import sorting.
From S2P Require Import Prelude.

Definition MAX_STACK : nat := 128.

(** What the two routines rely on of a comparison function. *)
Class Comparator {A} (compar : A → A → Z) : Prop := {
  compar_flip x y : Z.sgn (compar x y) = - Z.sgn (compar y x);
  compar_trans x y z : compar x y ≤ 0 → compar y z ≤ 0 → compar x z ≤ 0;
}.

Section Sort.
Context {A E : Type} (compar : A → A → Z) (malloc : Z → E → bool * E) (size : Z).

Abbreviation Q := (M (list A * E)).

Definition alloc (n : Z) : Q bool := λ '(a, e), let '(b, e') := malloc n e in Some (b, (a, e')).

(** The element [arr + j * size]. *)
Definition index (j : Z) : option nat :=
  let o := u32 (j * size) in
  if o mod size =? 0 then Some (Z.to_nat (o / size)) else None.

Definition elem (j : Z) : Q A :=
  λ '(a, e), match index j ≫= λ k, a !! k with Some x => Some (x, (a, e)) | None => None end.

Definition swap (i j : Z) : Q unit :=
  λ '(a, e), match index i, index j with
             | Some k, Some l =>
                 match a !! k, a !! l with
                 | Some x, Some y => Some (tt, (<[l := x]> (<[k := y]> a), e))
                 | _, _ => None
                 end
             | _, _ => None
             end.

Fixpoint lomuto_loop (n : nat) (j i : Z) (pivot : A) : Q Z :=
  match n with
  | O => ret i
  | S n =>
      let* x := elem j in
      if compar x pivot <=? 0
      then swap (i + 1) j ;;* lomuto_loop n (j + 1) (i + 1) pivot
      else lomuto_loop n (j + 1) i pivot
  end.

Definition partition (low high : Z) : Q Z :=
  let* pivot := elem high in
  let* i := lomuto_loop (Z.to_nat (high - low)) low (low - 1) pivot in
  swap (i + 1) high ;;* ret (i + 1).

(** [stack[++top] = v], the stack with its top first. *)
Definition push (v : Z) (st : list Z) : Q (list Z) :=
  if bool_decide (length st < MAX_STACK)%nat then ret (v :: st) else fault.

Definition push_range (low high : Z) (st : list Z) : Q (list Z) :=
  if low <? high then let* st := push low st in push high st else ret st.

Definition push_ranges (low p high : Z) (st : list Z) : Q (list Z) :=
  if p - low >? high - p
  then let* st := push_range low (p - 1) st in push_range (p + 1) high st
  else let* st := push_range (p + 1) high st in push_range low (p - 1) st.

Fixpoint sort_loop (fuel : nat) (st : list Z) : Q unit :=
  match fuel with
  | O => fault
  | S fuel =>
      match st with
      | [] => ret tt
      | [_] => fault
      | high :: low :: st =>
          if low >=? high then sort_loop fuel st
          else let* ok := alloc size in
               if ok then
                 let* p := partition low high in
                 let* st := push_ranges low p high st in
                 sort_loop fuel st
               else ret tt
      end
  end.

Definition xqsort (nmemb : Z) : Q unit :=
  if nmemb <=? 1 then ret tt
  else let* ok := alloc (Z.of_nat MAX_STACK * 4) in
       if ok then
         let* st := push 0 [] in
         let* st := push (s32 (nmemb - 1)) st in
         sort_loop (Z.to_nat nmemb) st
       else ret tt.

(** [low] and [high] are byte offsets from [base]. *)
Fixpoint bsearch_loop (fuel : nat) (arr : list A) (key : A) (low high : Z) : option (option Z) :=
  match fuel with
  | O => None
  | S fuel =>
      if low <=? high then
        let mid_offset := s32 (Z.quot (Z.quot (high - low) size) 2) in
        let mid_ptr := low + u32 (mid_offset * size) in
        if mid_ptr mod size =? 0 then
          match arr !! Z.to_nat (mid_ptr / size) with
          | Some x =>
              let cmp := compar key x in
              if cmp =? 0 then Some (Some mid_ptr)
              else if cmp <? 0 then bsearch_loop fuel arr key low (mid_ptr - size)
              else bsearch_loop fuel arr key (mid_ptr + size) high
          | None => None
          end
        else None
      else Some None
  end.

Definition xbsearch (key : A) (arr : list A) (nmemb : Z) : option (option Z) :=
  if nmemb =? 0 then Some None
  else bsearch_loop (S (Z.to_nat nmemb)) arr key 0 (u32 (u32 (nmemb - 1) * size)).

(** ** Partitioning *)

#[local] Arguments swap : simpl never.
#[local] Arguments elem : simpl never.

Hypothesis size_pos : 0 < size.

Definition fits (a : list A) : Prop := Z.of_nat (length a) * size ≤ 2 ^ 32.

Lemma index_in a k : fits a → (k < length a)%nat → index (Z.of_nat k) = Some k.
Proof.
  unfold fits, index. intros Hf Hk. rewrite u32_id by (unfold is_u32; nia).
  rewrite Z_mod_mult, Z_div_mult by lia. cbn. f_equal. lia.
Qed.

Lemma elem_run a e j k x : fits a → j = Z.of_nat k → a !! k = Some x → elem j (a, e) = Some (x, (a, e)).
Proof.
  intros Hf -> Hx. unfold elem. rewrite (index_in a) by (done || by eapply lookup_lt_Some). cbn.
  by rewrite Hx.
Qed.

Lemma swap_run l x m y r e i j :
  fits (l ++ x :: m ++ y :: r) → i = Z.of_nat (length l) → j = i + 1 + Z.of_nat (length m) →
  swap i j (l ++ x :: m ++ y :: r, e) = Some (tt, (l ++ y :: m ++ x :: r, e)).
Proof.
  intros Hf Hi Hj. set (a := l ++ x :: m ++ y :: r) in *.
  assert (length a = length l + S (length m + S (length r)))%nat
    by (unfold a; rewrite length_app; cbn; rewrite length_app; done).
  replace j with (Z.of_nat (length l + S (length m))) by lia. subst i.
  unfold swap. rewrite !(index_in a) by (done || lia). unfold a.
  rewrite list_lookup_middle by done.
  rewrite lookup_app_r by lia. replace (length l + S (length m) - length l)%nat with (S (length m)) by lia.
  change ((x :: m ++ y :: r) !! S (length m)) with ((m ++ y :: r) !! length m).
  rewrite list_lookup_middle by done. do 3 f_equal.
  rewrite (insert_app_r_alt _ _ (length l)) by lia. rewrite Nat.sub_diag.
  change (<[0%nat := y]> (x :: m ++ y :: r)) with (y :: m ++ y :: r).
  rewrite insert_app_r_alt by lia.
  replace (length l + S (length m) - length l)%nat with (S (length m)) by lia.
  change (<[S (length m) := x]> (y :: m ++ y :: r)) with (y :: <[length m := x]> (m ++ y :: r)).
  rewrite (insert_app_r_alt m _ (length m)) by lia. by rewrite Nat.sub_diag.
Qed.

Lemma swap_same l x r e i : fits (l ++ x :: r) → i = Z.of_nat (length l) →
  swap i i (l ++ x :: r, e) = Some (tt, (l ++ x :: r, e)).
Proof.
  intros Hf ->. unfold swap.
  rewrite (index_in _ _ Hf) by (rewrite length_app; cbn; lia).
  rewrite list_lookup_middle by done. by rewrite list_insert_insert_eq, list_insert_id by (by rewrite list_lookup_middle).
Qed.

Lemma lomuto_loop_runs n : ∀ l sm bg rest tail pivot e i j,
  length rest = n → fits (l ++ sm ++ bg ++ rest ++ tail) →
  i = Z.of_nat (length l + length sm) - 1 → j = Z.of_nat (length l + length sm + length bg) →
  Forall (λ x, compar x pivot ≤ 0) sm → Forall (λ x, 0 < compar x pivot) bg →
  ∃ sm' bg', lomuto_loop n j i pivot (l ++ sm ++ bg ++ rest ++ tail, e) =
      Some (Z.of_nat (length l + length sm') - 1, (l ++ sm' ++ bg' ++ tail, e)) ∧
    sm' ++ bg' ≡ₚ sm ++ bg ++ rest ∧
    Forall (λ x, compar x pivot ≤ 0) sm' ∧ Forall (λ x, 0 < compar x pivot) bg'.
Proof.
  induction n as [|n IH]; intros l sm bg rest tail pivot e i j Hn Hf Hi Hj Hs Hb.
  { destruct rest; [|done]. exists sm, bg. rewrite app_nil_r. subst i. by split_and!. }
  destruct rest as [|x rest]; [done|]. cbn [lomuto_loop]. injection Hn as Hn.
  erewrite bind_run; [|eapply (elem_run _ _ _ (length (l ++ sm ++ bg))); [done|..]].
  2: rewrite !length_app; lia.
  2: replace (l ++ sm ++ bg ++ (x :: rest) ++ tail) with ((l ++ sm ++ bg) ++ x :: rest ++ tail)
       by (by rewrite <- !(assoc_L _)); by apply list_lookup_middle.
  destruct (Z.leb_spec (compar x pivot) 0) as [Hx|Hx].
  - assert (Hsw : ∃ bg1, bg1 ≡ₚ bg ∧
      swap (i + 1) j (l ++ sm ++ bg ++ (x :: rest) ++ tail, e) =
      Some (tt, (l ++ (sm ++ [x]) ++ bg1 ++ rest ++ tail, e))).
    { destruct bg as [|b bg].
      - exists []. split; [done|]. cbn in *. replace j with (i + 1) by lia.
        rewrite (assoc_L _ l sm) in Hf |- *.
        rewrite swap_same; [by rewrite <- !(assoc_L _)|done|rewrite length_app; lia].
      - exists (bg ++ [b]). split; [by rewrite <- Permutation_cons_append|].
        cbn [app] in Hf |- *. rewrite (assoc_L _ l sm) in Hf |- *.
        rewrite swap_run; [by rewrite <- !(assoc_L _)|done|rewrite length_app; lia|cbn in Hj; lia]. }
    destruct Hsw as (bg1 & Hp & Hsw). erewrite bind_run by exact Hsw.
    destruct (IH l (sm ++ [x]) bg1 rest tail pivot e (i + 1) (j + 1)) as (sm' & bg' & -> & Hp' & Hs' & Hb').
    + done.
    + unfold fits in *. rewrite !length_app in *. cbn in *. rewrite Hp. lia.
    + rewrite length_app. cbn. lia.
    + rewrite length_app, Hp. cbn. lia.
    + apply Forall_app. by split; [|constructor].
    + by rewrite Hp.
    + exists sm', bg'. split; [done|]. split; [|done]. rewrite Hp', Hp. rewrite <- (assoc_L _). cbn.
      by rewrite (Permutation_middle bg).
  - destruct (IH l sm (bg ++ [x]) rest tail pivot e i (j + 1)) as (sm' & bg' & Hr & Hp' & Hs' & Hb').
    + done.
    + unfold fits in *. rewrite !length_app in *. cbn in *. rewrite ?length_app. cbn. lia.
    + done.
    + rewrite length_app. cbn. lia.
    + done.
    + apply Forall_app. by split; [|constructor].
    + exists sm', bg'. rewrite <- (assoc_L _) in Hr. split; [exact Hr|]. split; [|done].
      rewrite Hp'. by rewrite <- (assoc_L _).
Qed.

(** The array around the pivot: [seg] becomes the elements not above the pivot,
    the pivot, and those above it. *)
Lemma partition_runs l seg pivot tail e low high :
  fits (l ++ seg ++ pivot :: tail) →
  low = Z.of_nat (length l) → high = Z.of_nat (length l + length seg) →
  ∃ sm bg, partition low high (l ++ seg ++ pivot :: tail, e) =
      Some (Z.of_nat (length l + length sm), (l ++ (sm ++ pivot :: bg) ++ tail, e)) ∧
    sm ++ bg ≡ₚ seg ∧ Forall (λ x, compar x pivot ≤ 0) sm ∧ Forall (λ x, 0 < compar x pivot) bg.
Proof.
  intros Hf -> ->. unfold partition.
  erewrite bind_run; [|eapply (elem_run _ _ _ (length (l ++ seg))); [done|by rewrite length_app|]].
  2: rewrite (assoc_L _); by apply list_lookup_middle.
  destruct (lomuto_loop_runs (length seg) l [] [] seg (pivot :: tail) pivot e
    (Z.of_nat (length l) - 1) (Z.of_nat (length l))) as (sm & bg & Hr & Hp & Hs & Hb);
    [done|done|cbn; lia|cbn; lia|done|done|].
  replace (Z.to_nat (Z.of_nat (length l + length seg) - Z.of_nat (length l))) with (length seg) by lia.
  erewrite bind_run by exact Hr. cbn in Hp.
  assert (Hl : (length sm + length bg = length seg)%nat) by (rewrite <- Hp, length_app; done).
  assert (Hsw : ∃ bg1, bg1 ≡ₚ bg ∧
    swap (Z.of_nat (length l + length sm)) (Z.of_nat (length l + length seg)) (l ++ sm ++ bg ++ pivot :: tail, e) =
    Some (tt, (l ++ (sm ++ pivot :: bg1) ++ tail, e))).
  { assert (Hf' : fits (l ++ sm ++ bg ++ pivot :: tail))
      by (unfold fits in *; rewrite !length_app in *; cbn in *; lia).
    destruct bg as [|b bg].
    - exists []. split; [done|]. cbn in *. replace (length seg) with (length sm) by lia.
      rewrite (assoc_L _ l sm) in Hf' |- *. rewrite swap_same; [by rewrite <- !(assoc_L _)|done|by rewrite length_app].
    - exists (bg ++ [b]). split; [by rewrite <- Permutation_cons_append|]. cbn in *.
      rewrite (assoc_L _ l sm) in Hf' |- *.
      rewrite swap_run; [|done|by rewrite length_app|lia]. do 3 f_equal. rewrite <- !(assoc_L _). cbn.
      by rewrite <- (assoc_L _). }
  destruct Hsw as (bg1 & Hp1 & Hsw). exists sm, bg1.
  replace (Z.of_nat (length l + length sm) - 1 + 1) with (Z.of_nat (length l + length sm)) by lia.
  erewrite bind_run by exact Hsw. split; [done|]. rewrite Hp1. done.
Qed.

(** ** The stack of ranges

    The pending ranges, top first, as the pairs of their first and last index. *)

Abbreviation range := (nat * nat)%type.

Definition enc (rs : list range) : list Z := flat_map (λ r, [Z.of_nat r.2; Z.of_nat r.1]) rs.
Definition apart (r s : range) : Prop := (r.2 < s.1)%nat ∨ (s.2 < r.1)%nat.
Definition weight (rs : list range) : nat := list_sum (map (λ r, r.2 - r.1)%nat rs).

(** Every range has two elements or more, no two overlap, and one with [k]
    ranges below it has at most [n / 2 ^ k] elements. *)
Fixpoint stack_ok (n : nat) (rs : list range) : Prop :=
  match rs with
  | [] => True
  | r :: rs => (r.1 < r.2 < n)%nat ∧ ((r.2 - r.1 + 1) * 2 ^ length rs ≤ n)%nat ∧ Forall (apart r) rs ∧ stack_ok n rs
  end.

Definition opt_range (lo hi : nat) : list range := if decide (lo < hi)%nat then [(lo, hi)] else [].
Definition children (lo p hi : nat) : list range :=
  if decide (hi - p < p - lo)%nat
  then opt_range (S p) hi ++ opt_range lo (p - 1) else opt_range lo (p - 1) ++ opt_range (S p) hi.

Lemma stack_depth n rs : stack_ok n rs → Z.of_nat n ≤ 2 ^ 31 → (length rs ≤ 31)%nat.
Proof.
  destruct rs as [|r rs]; cbn [stack_ok length]; [lia|]. intros (Hr & Hs & _) Hn.
  assert (H2 : 2 ^ Z.of_nat (S (length rs)) ≤ 2 ^ 31).
  { rewrite Nat2Z.inj_succ, Z.pow_succ_r by lia. assert (Z.of_nat (2 ^ length rs) = 2 ^ Z.of_nat (length rs)) by
      (by rewrite Nat2Z.inj_pow). nia. }
  apply Z.pow_le_mono_r_iff in H2; lia.
Qed.

Lemma children_elem lo p hi r : r ∈ children lo p hi ↔
  (r = (lo, p - 1)%nat ∧ (lo < p - 1)%nat) ∨ (r = (S p, hi) ∧ (S p < hi)%nat).
Proof.
  unfold children, opt_range.
  repeat case_decide; rewrite ?elem_of_app, ?list_elem_of_singleton, ?elem_of_nil; tauto.
Qed.

Lemma apart_sub r s lo hi : apart (lo, hi) s → (lo ≤ r.1)%nat → (r.2 ≤ hi)%nat → apart r s.
Proof. unfold apart. cbn. lia. Qed.

Lemma stack_ok_children n lo p hi rs :
  stack_ok n ((lo, hi) :: rs) → (lo ≤ p ≤ hi)%nat → stack_ok n (children lo p hi ++ rs).
Proof.
  cbn [stack_ok fst snd]. intros (Hr & Hs & Ha & Hrs) Hp.
  assert (Hsub : ∀ a b, (lo ≤ a)%nat → (b ≤ hi)%nat → Forall (apart (a, b)) rs).
  { intros a b H1 H2. eapply Forall_impl; [exact Ha|]. intros s Hsa. by eapply apart_sub. }
  unfold children, opt_range. set (k := (2 ^ length rs)%nat) in *. assert (0 < k)%nat by (apply Nat.neq_0_lt_0, Nat.pow_nonzero; lia).
  repeat case_decide; cbn [app stack_ok fst snd length]; rewrite ?Nat.pow_succ_r'; fold k;
    repeat match goal with |- _ ∧ _ => split end;
    try (by apply Hsub; lia); try (constructor; [unfold apart; cbn; lia|by apply Hsub; lia]); try done; try lia; try nia.
Qed.

Lemma weight_children lo p hi rs :
  (lo ≤ p ≤ hi)%nat → (lo < hi)%nat → (weight (children lo p hi ++ rs) < weight ((lo, hi) :: rs))%nat.
Proof.
  intros. unfold weight. rewrite map_app, list_sum_app. set (w := λ r : range, (r.2 - r.1)%nat).
  change (list_sum (map w ((lo, hi) :: rs))) with (hi - lo + list_sum (map w rs))%nat.
  cut (list_sum (map w (children lo p hi)) < hi - lo)%nat; [lia|].
  unfold children, opt_range. repeat case_decide; cbn; lia.
Qed.

Lemma push_range_runs lo hi rs s :
  (length rs ≤ 32)%nat → push_range (Z.of_nat lo) (Z.of_nat hi) (enc rs) s = Some (enc (opt_range lo hi ++ rs), s).
Proof.
  intros Hl. unfold push_range, opt_range. assert (Hn : length (enc rs) = (2 * length rs)%nat).
  { clear. unfold enc. induction rs; cbn in *; lia. }
  destruct (Z.ltb_spec (Z.of_nat lo) (Z.of_nat hi)).
  - rewrite decide_True by lia. unfold push, MAX_STACK.
    rewrite bool_decide_true by lia. erewrite bind_run by reflexivity. by rewrite bool_decide_true by (cbn; lia).
  - by rewrite decide_False by lia.
Qed.

Lemma push_ranges_runs lo p hi rs s : (lo ≤ p ≤ hi)%nat → (length rs ≤ 31)%nat →
  push_ranges (Z.of_nat lo) (Z.of_nat p) (Z.of_nat hi) (enc rs) s = Some (enc (children lo p hi ++ rs), s).
Proof.
  intros Hp Hl. unfold push_ranges, children.
  assert (Hone : ∀ a b, (length (opt_range a b ++ rs) ≤ 32)%nat).
  { intros a b. unfold opt_range. case_decide; cbn; lia. }
  assert (Hright : ∀ q, (length q ≤ 32)%nat → push_range (Z.of_nat p + 1) (Z.of_nat hi) (enc q) s =
    Some (enc (opt_range (S p) hi ++ q), s)).
  { intros q Hq. rewrite <- push_range_runs by done. f_equal. lia. }
  assert (Hleft : ∀ q, (length q ≤ 32)%nat → push_range (Z.of_nat lo) (Z.of_nat p - 1) (enc q) s =
    Some (enc (opt_range lo (p - 1) ++ q), s)).
  { intros q Hq. destruct p as [|p].
    - unfold push_range, opt_range. rewrite decide_False by lia. destruct (Z.ltb_spec (Z.of_nat lo) (Z.of_nat 0 - 1)); [lia|done].
    - rewrite <- push_range_runs by done. f_equal. lia. }
  rewrite Z.gtb_ltb. destruct (Z.ltb_spec (Z.of_nat hi - Z.of_nat p) (Z.of_nat p - Z.of_nat lo)).
  - rewrite decide_True by lia. erewrite bind_run by (apply Hleft; lia). rewrite Hright by done.
    by rewrite <- (assoc_L _).
  - rewrite decide_False by lia. erewrite bind_run by (apply Hright; lia). rewrite Hleft by done.
    by rewrite <- (assoc_L _).
Qed.

(** ** Order

    Two elements are in order, or in one pending range. *)
Definition ordered (a : list A) (rs : list range) : Prop :=
  ∀ i j x y, (i < j)%nat → a !! i = Some x → a !! j = Some y →
    compar x y ≤ 0 ∨ ∃ r, r ∈ rs ∧ (r.1 ≤ i)%nat ∧ (j ≤ r.2)%nat.

Lemma seg_lookup (l seg r : list A) k x : (l ++ seg ++ r) !! k = Some x →
  (length l ≤ k < length l + length seg)%nat → seg !! (k - length l)%nat = Some x.
Proof.
  intros Hx Hk. rewrite lookup_app_r in Hx by lia. by rewrite lookup_app_l in Hx by lia.
Qed.

Lemma out_lookup (l seg seg' r : list A) k : length seg = length seg' →
  (k < length l ∨ length l + length seg ≤ k)%nat → (l ++ seg ++ r) !! k = (l ++ seg' ++ r) !! k.
Proof.
  intros Hl [Hk|Hk].
  - by rewrite !lookup_app_l by lia.
  - rewrite !lookup_app_r by lia. f_equal. lia.
Qed.

Lemma ordered_step `{!Comparator compar} (l seg seg' r : list A) rs lo hi sm pivot bg :
  ordered (l ++ seg ++ r) ((lo, hi) :: rs) → Forall (apart (lo, hi)) rs →
  lo = length l → (hi + 1 = length l + length seg)%nat → seg' ≡ₚ seg → seg' = sm ++ pivot :: bg →
  Forall (λ x, compar x pivot ≤ 0) sm → Forall (λ x, 0 < compar x pivot) bg →
  ordered (l ++ seg' ++ r) (children lo (lo + length sm) hi ++ rs).
Proof.
  intros Ho Ha Hlo Hhi Hp Hs Hsm Hbg i j x y Hij Hx Hy.
  pose proof (Permutation_length Hp) as Hlen.
  assert (Hback : ∀ k z, (l ++ seg' ++ r) !! k = Some z → (lo ≤ k ≤ hi)%nat →
    ∃ k', (lo ≤ k' ≤ hi)%nat ∧ (l ++ seg ++ r) !! k' = Some z).
  { intros k z Hz Hk. apply seg_lookup in Hz; [|lia]. apply list_elem_of_lookup_2 in Hz. rewrite Hp in Hz.
    apply list_elem_of_lookup_1 in Hz as [k' Hk']. exists (length l + k')%nat.
    pose proof (lookup_lt_Some _ _ _ Hk'). split; [lia|].
    rewrite lookup_app_r, lookup_app_l by lia. by replace (length l + k' - length l)%nat with k' by lia. }
  assert (Hsame : ∀ k z, (l ++ seg' ++ r) !! k = Some z → ¬ (lo ≤ k ≤ hi)%nat → (l ++ seg ++ r) !! k = Some z).
  { intros k z Hz Hk. rewrite <- Hz. apply out_lookup; lia. }
  assert (Hold : ∀ i' j', ordered (l ++ seg ++ r) ((lo, hi) :: rs) → (i' < j')%nat →
    (l ++ seg ++ r) !! i' = Some x → (l ++ seg ++ r) !! j' = Some y →
    ¬ (lo ≤ i' ∧ j' ≤ hi)%nat →
    compar x y ≤ 0 ∨ ∃ s, s ∈ rs ∧ (s.1 ≤ i')%nat ∧ (j' ≤ s.2)%nat).
  { intros i' j' Ho' Hij' Hx' Hy' Hn. destruct (Ho' i' j' x y Hij' Hx' Hy') as [|(s & Hin & ?)]; [by left|right].
    apply elem_of_cons in Hin as [->|Hin]; [done|by exists s]. }
  assert (Hap : ∀ s k, s ∈ rs → (s.1 ≤ k ≤ s.2)%nat → ¬ (lo ≤ k ≤ hi)%nat).
  { intros s k Hin Hk. rewrite Forall_forall in Ha. specialize (Ha s Hin). unfold apart in Ha. cbn in Ha. lia. }
  destruct (decide (lo ≤ i ≤ hi)%nat) as [Hi|Hi], (decide (lo ≤ j ≤ hi)%nat) as [Hj|Hj].
  - apply seg_lookup in Hx, Hy; [|lia..]. subst seg'. rewrite length_app in Hlen. cbn in Hlen.
    destruct (decide (j < lo + length sm)%nat) as [H1|H1].
    { right. exists (lo, lo + length sm - 1)%nat. split; [|cbn; lia]. apply elem_of_app. left.
      apply children_elem. left. split; [done|lia]. }
    destruct (decide (lo + length sm < i)%nat) as [H2|H2].
    { right. exists (S (lo + length sm), hi). split; [|cbn; lia]. apply elem_of_app. left.
      apply children_elem. right. split; [done|lia]. }
    left. rewrite Forall_lookup in Hsm, Hbg.
    assert (Hxp : (i < lo + length sm)%nat → compar x pivot ≤ 0).
    { intros Hi'. rewrite lookup_app_l in Hx by lia. by apply (Hsm _ _ Hx). }
    assert (Hpy : (lo + length sm < j)%nat → compar pivot y ≤ 0).
    { intros Hj'. rewrite lookup_app_r in Hy by lia.
      replace (j - length l - length sm)%nat with (S (j - length l - length sm - 1)) in Hy by lia. cbn in Hy.
      specialize (Hbg _ _ Hy). cbn in Hbg. pose proof (compar_flip pivot y). lia. }
    assert (Hmid : ∀ k z, (sm ++ pivot :: bg) !! (k - length l)%nat = Some z → k = (lo + length sm)%nat → z = pivot).
    { intros k z Hz ->. rewrite lookup_app_r in Hz by lia.
      replace (lo + length sm - length l - length sm)%nat with 0%nat in Hz by lia. by injection Hz. }
    destruct (decide (i = lo + length sm)%nat) as [->|]; [rewrite (Hmid _ _ Hx); [apply Hpy; lia|done]|].
    destruct (decide (j = lo + length sm)%nat) as [->|]; [rewrite (Hmid _ _ Hy); [apply Hxp; lia|done]|].
    eapply compar_trans; [apply Hxp|apply Hpy]; lia.
  - destruct (Hback _ _ Hx Hi) as (i' & Hi' & Hx'). apply Hsame in Hy; [|done].
    destruct (Hold i' j Ho) as [|(s & Hin & ?)]; [lia|done|done|lia|by left|].
    exfalso. by apply (Hap s i' Hin); [lia|].
  - destruct (Hback _ _ Hy Hj) as (j' & Hj' & Hy'). apply Hsame in Hx; [|done].
    destruct (Hold i j' Ho) as [|(s & Hin & ?)]; [lia|done|done|lia|by left|].
    exfalso. by apply (Hap s j' Hin); [lia|].
  - apply Hsame in Hx, Hy; [|done..].
    destruct (Hold i j Ho) as [|(s & Hin & ?)]; [done|done|done|lia|by left|].
    right. exists s. split; [|done]. apply elem_of_app. by right.
Qed.

Lemma ordered_sorted a : ordered a [] → StronglySorted (λ x y, compar x y ≤ 0) a.
Proof.
  induction a as [|x a IH]; intros Ho; constructor.
  - apply IH. intros i j u v Hij Hu Hv. destruct (Ho (S i) (S j) u v) as [|(r & Hr & _)]; [lia|done|done|by left|].
    by apply elem_of_nil in Hr.
  - apply Forall_lookup. intros j y Hy.
    destruct (Ho 0%nat (S j) x y) as [|(r & Hr & _)]; [lia|done|done|done|]. by apply elem_of_nil in Hr.
Qed.

Definition malloc_succeeds : Prop := ∀ n e, fst (malloc n e) = true.

Lemma sort_loop_runs `{!Comparator compar} fuel : ∀ rs a e,
  fits a → Z.of_nat (length a) ≤ 2 ^ 31 → stack_ok (length a) rs → ordered a rs → (weight rs < fuel)%nat →
  ∃ a' e', sort_loop fuel (enc rs) (a, e) = Some (tt, (a', e')) ∧ a' ≡ₚ a ∧
    (malloc_succeeds → ordered a' []).
Proof.
  induction fuel as [|fuel IH]; [lia|]. intros [|[lo hi] rs] a e Hf Hn Hst Ho Hw.
  { exists a, e. by split_and!. }
  pose proof (stack_depth _ _ Hst Hn) as Hd. pose proof Hst as (Hr & _ & Ha & _). cbn [fst snd] in *.
  cbn [enc flat_map app fst snd sort_loop].
  assert (Hge : (Z.of_nat lo >=? Z.of_nat hi) = false) by (destruct (Z.geb_spec (Z.of_nat lo) (Z.of_nat hi)); lia).
  rewrite Hge. unfold alloc. unfold bind at 1. destruct (malloc size e) as [ok e1] eqn:Hm.
  destruct ok; [|exists a, e1; split_and!; [done|done|]; intros Hok; specialize (Hok size e); by rewrite Hm in Hok].
  destruct (lookup_lt_is_Some_2 a hi) as [pivot Hp]; [lia|].
  set (l := take lo a). set (seg := take (hi - lo) (drop lo a)). set (tail := drop (S hi) a).
  assert (Hl : length l = lo) by (unfold l; rewrite length_take; lia).
  assert (Hsg : length seg = (hi - lo)%nat) by (unfold seg; rewrite length_take, length_drop; lia).
  assert (Ea : a = l ++ seg ++ pivot :: tail).
  { unfold l, seg, tail. rewrite <- (take_drop lo a) at 1. f_equal.
    rewrite <- (take_drop (hi - lo) (drop lo a)) at 1. f_equal. rewrite drop_drop.
    replace (lo + (hi - lo))%nat with hi by lia. by apply drop_S. }
  destruct (partition_runs l seg pivot tail e1 (Z.of_nat lo) (Z.of_nat hi)) as (sm & bg & Hpr & Hperm & Hsm & Hbg);
    [by rewrite <- Ea|lia|lia|].
  rewrite <- Ea in Hpr. erewrite bind_run by exact Hpr. rewrite Hl.
  assert (Hlen : (length sm + length bg = hi - lo)%nat) by (rewrite <- Hsg, <- Hperm, length_app; done).
  fold (enc rs). erewrite bind_run by (apply push_ranges_runs; cbn in Hd; lia).
  set (a1 := l ++ (sm ++ pivot :: bg) ++ tail).
  assert (Hpa : a1 ≡ₚ a).
  { unfold a1. rewrite Ea. f_equiv. rewrite <- (assoc_L _). cbn. rewrite <- !Permutation_middle.
    by rewrite (assoc_L _), Hperm. }
  assert (Ea1 : length a1 = length a) by by rewrite Hpa.
  destruct (IH (children lo (lo + length sm) hi ++ rs) a1 e1) as (a' & e' & -> & Hp' & Ho').
  - unfold fits in *. by rewrite Ea1.
  - by rewrite Ea1.
  - rewrite Ea1. by apply stack_ok_children; [|lia].
  - unfold a1. eapply ordered_step; [|exact Ha|..|reflexivity|exact Hsm|exact Hbg].
    + instantiate (1 := seg ++ [pivot]). rewrite <- (assoc_L _). cbn [app]. by rewrite <- Ea.
    + done.
    + rewrite length_app. cbn. lia.
    + by rewrite <- Hperm, <- Permutation_middle, <- Permutation_cons_append.
  - eapply Nat.lt_le_trans; [apply weight_children; lia|]. lia.
  - exists a', e'. split; [done|]. split; [by rewrite Hp'|done].
Qed.

Lemma xqsort_runs `{!Comparator compar} a e :
  fits a → Z.of_nat (length a) ≤ 2 ^ 31 →
  ∃ a' e', xqsort (Z.of_nat (length a)) (a, e) = Some (tt, (a', e')) ∧ a' ≡ₚ a ∧
    (malloc_succeeds → StronglySorted (λ x y, compar x y ≤ 0) a').
Proof.
  intros Hf Hn. unfold xqsort. destruct (Z.leb_spec (Z.of_nat (length a)) 1) as [H1|H1].
  { exists a, e. split; [done|]. split; [done|]. intros _. destruct a as [|x [|y a]]; [| |cbn in H1; lia];
      repeat constructor. }
  unfold alloc. unfold bind at 1. destruct (malloc _ e) as [ok e1] eqn:Hm.
  destruct ok; [|exists a, e1; split_and!; [done|done|]; intros Hok; specialize (Hok (Z.of_nat MAX_STACK * 4) e); by rewrite Hm in Hok].
  erewrite bind_run by reflexivity. erewrite bind_run by reflexivity. rewrite s32_id by lia.
  destruct (sort_loop_runs (Z.to_nat (Z.of_nat (length a))) [(0, length a - 1)]%nat a e1)
    as (a' & e' & Hr & Hp & Ho); [done|done|..].
  - cbn. split_and!; try lia; done.
  - intros i j x y Hij Hx Hy. right. exists (0, length a - 1)%nat. split; [by apply elem_of_cons; left|].
    apply lookup_lt_Some in Hy. cbn. lia.
  - cbn. lia.
  - exists a', e'. split; [|split; [done|]; intros Hok; by apply ordered_sorted, Ho].
    rewrite <- Hr. cbn [enc flat_map app fst snd]. do 3 f_equal. lia.
Qed.
End Sort.

(** ** Binary search *)

Section Search.
Context {A : Type} (compar : A → A → Z) (size : Z).
Hypothesis size_pos : 0 < size.

Definition found (arr : list A) (key : A) (r : option Z) : Prop :=
  match r with
  | Some o => ∃ k x, o = Z.of_nat k * size ∧ arr !! k = Some x ∧ compar key x = 0
  | None => ∀ x, x ∈ arr → compar key x ≠ 0
  end.

Lemma sorted_lookup arr i j x y : StronglySorted (λ x y, compar x y ≤ 0) arr →
  (i < j)%nat → arr !! i = Some x → arr !! j = Some y → compar x y ≤ 0.
Proof.
  intros Hs. revert i j. induction Hs as [|z arr Hs IH Hz]; intros [|i] [|j] Hij Hx Hy; try (done || lia).
  - injection Hx as <-. rewrite Forall_lookup in Hz. by apply (Hz j).
  - apply (IH i j); [lia|done|done].
Qed.

Lemma bsearch_loop_runs `{!Comparator compar} arr key :
  StronglySorted (λ x y, compar x y ≤ 0) arr → fits size arr → Z.of_nat (length arr) ≤ 2 ^ 31 →
  ∀ fuel lo hi, 0 ≤ lo → lo - 1 ≤ hi < Z.of_nat (length arr) → hi - lo + 1 < Z.of_nat fuel →
  (∀ k x, arr !! k = Some x → compar key x = 0 → lo ≤ Z.of_nat k ≤ hi) →
  ∃ r, bsearch_loop compar size fuel arr key (lo * size) (hi * size) = Some r ∧ found arr key r.
Proof.
  intros Hs Hf Hn. induction fuel as [|fuel IH]; [lia|]. intros lo hi Hlo Hhi Hfu Hin. cbn [bsearch_loop].
  destruct (Z.leb_spec (lo * size) (hi * size)) as [Hle|Hle].
  2: { exists None. split; [done|]. intros x Hx Hc. apply list_elem_of_lookup_1 in Hx as [k Hk].
       specialize (Hin k x Hk Hc). nia. }
  assert (lo ≤ hi) by nia. unfold fits in Hf. set (m := Z.quot (hi - lo) 2).
  assert (Hm : 0 ≤ m ≤ hi - lo) by (unfold m; rewrite Z.quot_div_nonneg by lia; zdivmod).
  replace (hi * size - lo * size) with ((hi - lo) * size) by lia. rewrite Z.quot_mul by lia. fold m.
  rewrite s32_id by lia. rewrite u32_id by (unfold is_u32; nia).
  replace (lo * size + m * size) with ((lo + m) * size) by lia. rewrite Z_mod_mult, Z_div_mult by lia. cbn [Z.eqb].
  destruct (lookup_lt_is_Some_2 arr (Z.to_nat (lo + m))) as [x Hx]; [lia|]. rewrite Hx.
  destruct (Z.eqb_spec (compar key x) 0) as [Hc|Hc].
  { exists (Some ((lo + m) * size)). split; [done|]. exists (Z.to_nat (lo + m)), x. split; [|done]. f_equal. lia. }
  destruct (Z.ltb_spec (compar key x) 0) as [Hl|Hl].
  - replace ((lo + m) * size - size) with ((lo + m - 1) * size) by lia. apply IH; [done|lia|lia|].
    intros k y Hy Hk. pose proof (Hin k y Hy Hk). split; [lia|].
    destruct (decide (Z.of_nat k < lo + m)) as [|Hk']; [lia|]. exfalso.
    destruct (decide (k = Z.to_nat (lo + m))) as [->|Hne]; [congruence|].
    pose proof (sorted_lookup arr (Z.to_nat (lo + m)) k x y Hs ltac:(lia) Hx Hy) as Hxy. pose proof (compar_flip key y). pose proof (compar_flip key x).
    pose proof (compar_trans x y key Hxy). lia.
  - replace ((lo + m) * size + size) with ((lo + m + 1) * size) by lia. apply IH; [lia|lia|lia|].
    intros k y Hy Hk. pose proof (Hin k y Hy Hk). split; [|lia].
    destruct (decide (lo + m < Z.of_nat k)) as [|Hk']; [lia|]. exfalso.
    destruct (decide (k = Z.to_nat (lo + m))) as [->|Hne]; [congruence|].
    pose proof (sorted_lookup arr k (Z.to_nat (lo + m)) y x Hs ltac:(lia) Hy Hx) as Hyx.
    pose proof (compar_trans key y x). lia.
Qed.

Lemma xbsearch_runs `{!Comparator compar} arr key :
  StronglySorted (λ x y, compar x y ≤ 0) arr → fits size arr → Z.of_nat (length arr) ≤ 2 ^ 31 →
  ∃ r, xbsearch compar size key arr (Z.of_nat (length arr)) = Some r ∧ found arr key r.
Proof.
  intros Hs Hf Hn. unfold xbsearch. destruct (Z.eqb_spec (Z.of_nat (length arr)) 0) as [H0|H0].
  { exists None. split; [done|]. destruct arr; [|done]. by intros x ?%elem_of_nil. }
  rewrite (u32_id (_ - 1)) by (unfold is_u32; lia). rewrite u32_id by (unfold fits, is_u32 in *; nia).
  apply (bsearch_loop_runs arr key Hs Hf Hn _ 0 _); [lia|lia|lia|].
  intros k x Hk _. apply lookup_lt_Some in Hk. lia.
Qed.
End Search.

(** C31: The quicksort returns for every array whose offsets fit a [uint]: its stack
    of 128 ints never overflows and it reads and writes inside the array only.
    It always leaves a permutation of the elements, and a sorted one unless an
    allocation failed. *)
Theorem xqsort_sorts {A E} compar (malloc : Z → E → bool * E) size `{!Comparator compar} (a : list A) e :
  0 < size → Z.of_nat (length a) * size ≤ 2 ^ 32 → Z.of_nat (length a) ≤ 2 ^ 31 →
  ∃ a' e', xqsort compar malloc size (Z.of_nat (length a)) (a, e) = Some (tt, (a', e')) ∧ a' ≡ₚ a ∧
    ((∀ n e, fst (malloc n e) = true) → StronglySorted (λ x y, compar x y ≤ 0) a').
Proof. intros Hs Hf Hn. by apply xqsort_runs. Qed.

#[export] Instance Zsub_comparator : Comparator Z.sub.
Proof. split; intros; lia. Qed.

Lemma xqsort_sorts_witness :
  ∃ a', xqsort Z.sub (λ (_ : Z) (e : unit), (true, e)) 4 5 ([3; 1; 2; 3; -7], tt) = Some (tt, (a', tt)) ∧
    StronglySorted (λ x y, x - y ≤ 0) a'.
Proof.
  destruct (xqsort_sorts Z.sub (λ (_ : Z) (e : unit), (true, e)) 4 [3; 1; 2; 3; -7] tt) as (a' & [] & Hr & _ & Hs);
    [lia|vm_compute; congruence|vm_compute; congruence|].
  exists a'. split; [exact Hr|apply Hs; reflexivity].
Defined.
