(* ===== verification/Tokenizer.v ===== *)
(** * The tokenizer (src/xv6-riscv/user/llama_core.c)

    Parsing of the vocabulary file, the byte pair encoder and the decoder.  A
    vocabulary string is the buffer the file's bytes are copied to; a score is a
    floating-point value of an abstract type.  The allocator is a parameter.  A
    write outside [tokens] or [str_buffer], and an index outside the vocabulary,
    are faults of the model. *)
From stdpp Require Import sorting.
From Stdlib Require Import String.
From S2P Require Import Prelude Llama Sort Text.

(** The constants of the encoder, and a float read from memory. *)
Class FloatFile (F : Type) := { f_m1e10 : F; f_bits : Z → F }.

Record TokenIndex := MkTokenIndex { ti_str : list Z; ti_id : Z }.
Definition TOKEN_INDEX_SIZE : Z := 16.

Record Tokenizer (F : Type) := MkTokenizer {
  vocab : list (list Z);
  vocab_scores : list F;
  sorted_vocab : option (list TokenIndex);
  tok_vocab_size : Z;
  max_token_length : Z;
  byte_pieces : list Z;
}.
#[global] Arguments MkTokenizer {F}.
#[global] Arguments vocab {F}.
#[global] Arguments vocab_scores {F}.
#[global] Arguments sorted_vocab {F}.
#[global] Arguments tok_vocab_size {F}.
#[global] Arguments max_token_length {F}.
#[global] Arguments byte_pieces {F}.

Definition compare_tokens (a b : TokenIndex) : Z := strcmp (ti_str a) (ti_str b).

Definition str_lookup (s : list Z) (sorted : list TokenIndex) (size : Z) : option Z :=
  match xbsearch compare_tokens TOKEN_INDEX_SIZE (MkTokenIndex s 0) sorted size with
  | Some (Some o) => ti_id <$> sorted !! Z.to_nat (o / TOKEN_INDEX_SIZE)
  | Some None => Some (-1)
  | None => None
  end.

#[export] Instance compare_tokens_comparator : Comparator compare_tokens.
Proof.
  unfold compare_tokens. split; [intros; apply strcmp_flip|intros x y z; apply strcmp_trans].
Qed.

Section Tokenizer.
Context {F E : Type} `{FloatOps F} `{FloatFile F} (malloc : Z → E → bool * E).

Definition tmalloc (n : Z) : M E bool := λ e, let '(b, e) := malloc n e in Some (b, e).
(** An allocation whose result is written through at once. *)
Definition need (n : Z) : M E unit := let* ok := tmalloc n in if ok then ret tt else fault.

(** ** The vocabulary file *)

(** [memcpy] of [n] bytes at [p], inside the file. *)
Definition read_bytes (data : list Z) (p n : Z) : M E (list Z) :=
  if (0 <=? n) && (p + n <=? len data) then ret (slice p n data) else fault.

Definition read_word (data : list Z) (p : Z) : M E Z := let* bs := read_bytes data p 4 in ret (le32_at bs 0).

Fixpoint read_entries (n : nat) (data : list Z) (ptr : Z) : M E (list (list Z) * list F) :=
  match n with
  | O => ret ([], [])
  | S n =>
      let* score := read_word data ptr in
      let* w := read_word data (ptr + 4) in
      let length := s32 w in
      need (u32 (length + 1)) ;;*
      let* bytes := read_bytes data (ptr + 8) length in
      let* r := read_entries n data (ptr + 8 + length) in
      ret ((bytes ++ [0]) :: fst r, f_bits score :: snd r)
  end.

Definition build_tokenizer (data : list Z) (vocab_size : Z) : M E (Tokenizer F) :=
  need (u32 (vocab_size * 8)) ;;*
  need (u32 (vocab_size * 4)) ;;*
  let pieces := flat_map (λ i, [Z.of_nat i; 0]) (seq 0 256) in
  let* mtl := read_word data 0 in
  let* r := read_entries (Z.to_nat vocab_size) data 4 in
  ret (MkTokenizer (fst r) (snd r) None vocab_size mtl pieces).

(** ** Encoding *)

(** A token appended to an array of [cap] ints. *)
Definition push_token (cap : Z) (tokens : list Z) (tok : Z) : M E (list Z) :=
  if Z.of_nat (length tokens) <? cap then ret (tokens ++ [tok]) else fault.

Fixpoint push_bytes (cap : Z) (tokens : list Z) (bs : list Z) : M E (list Z) :=
  match bs with
  | [] => ret tokens
  | b :: bs => let* tokens := push_token cap tokens (u8 b + 3) in push_bytes cap tokens bs
  end.

Definition lookup_token (t : Tokenizer F) (s : list Z) : M E Z :=
  match sorted_vocab t ≫= λ sv, str_lookup s sv (tok_vocab_size t) with Some i => ret i | None => fault end.

(** A continuation byte of UTF-8. *)
Definition cont_byte (c : Z) : bool := Z.land c 192 =? 128.

Fixpoint encode_bytes (t : Tokenizer F) (cap bufsize : Z) (text buf tokens : list Z) : M E (list Z) :=
  match text with
  | [] => ret tokens
  | c :: rest =>
      let buf := (if negb (cont_byte c) then [] else buf) ++ [c] in
      if Z.of_nat (length buf) + 1 <=? bufsize then
        if cont_byte (deref rest) && (Z.of_nat (length buf) <? 4)
        then encode_bytes t cap bufsize rest buf tokens
        else
          let* i := lookup_token t buf in
          let* tokens := if negb (i =? -1) then push_token cap tokens i else push_bytes cap tokens buf in
          encode_bytes t cap bufsize rest [] tokens
      else fault
  end.

(** [t->vocab[i]] and [t->vocab_scores[i]]. *)
Definition vocab_at (t : Tokenizer F) (i : Z) : M E (list Z) :=
  if i <? 0 then fault else match vocab t !! Z.to_nat i with Some s => ret s | None => fault end.
Definition score_at (t : Tokenizer F) (i : Z) : M E F :=
  if i <? 0 then fault else match vocab_scores t !! Z.to_nat i with Some s => ret s | None => fault end.

(** The candidate: its score, token and position. *)
Abbreviation best := (F * Z * Z)%type.

(** The inner loop: the pair [sprintf] into [str_buffer], looked up, and the best
    so far. *)
Fixpoint best_pair (t : Tokenizer F) (bufsize i : Z) (tokens : list Z) (b : best) : M E best :=
  match tokens with
  | x :: (y :: _) as rest =>
      let* sx := vocab_at t x in
      let* sy := vocab_at t y in
      let s := take 1023 (cstr sx ++ cstr sy) in
      if Z.of_nat (length s) + 1 <=? bufsize then
        let* j := lookup_token t s in
        let* b := if j =? -1 then ret b
                  else let* sc := score_at t j in
                       if fgt sc (fst (fst b)) then ret (sc, j, i) else ret b in
        best_pair t bufsize (i + 1) rest b
      else fault
  | _ => ret b
  end.

Fixpoint merge_loop (fuel : nat) (t : Tokenizer F) (bufsize : Z) (tokens : list Z) : M E (list Z) :=
  match fuel with
  | O => fault
  | S fuel =>
      let* b := best_pair t bufsize 0 tokens (f_m1e10, -1, -1) in
      let '(_, best_id, best_idx) := b in
      if best_idx =? -1 then ret tokens
      else let k := Z.to_nat best_idx in
           merge_loop fuel t bufsize (take k tokens ++ [best_id] ++ drop (k + 2) tokens)
  end.

(** The sorted index, built at the first call. *)
Definition sort_vocab (t : Tokenizer F) : M E (Tokenizer F) :=
  match sorted_vocab t with
  | Some _ => ret t
  | None =>
      need (u32 (tok_vocab_size t * TOKEN_INDEX_SIZE)) ;;*
      let sv := imap (λ i s, MkTokenIndex s (Z.of_nat i)) (vocab t) in
      λ e, match xqsort compare_tokens malloc TOKEN_INDEX_SIZE (tok_vocab_size t) (sv, e) with
           | Some (_, (sv, e)) =>
               Some (MkTokenizer (vocab t) (vocab_scores t) (Some sv) (tok_vocab_size t)
                       (max_token_length t) (byte_pieces t), e)
           | None => None
           end
  end.

(** The encoder: the tokenizer with its index, and the tokens written. *)
Definition encode (t : Tokenizer F) (text : list Z) (bos eos : bool) (cap : Z) : M E (Tokenizer F * list Z) :=
  let* t := sort_vocab t in
  let bufsize := u32 (max_token_length t * 2 + 1 + 2) in
  let* ok := tmalloc bufsize in
  let bufsize := if ok then bufsize else 0 in
  let* tokens := if bos then push_token cap [] 1 else ret [] in
  let text := cstr text in
  let* tokens :=
    if negb (deref text =? 0)
    then let* dummy_prefix := lookup_token t [32] in push_token cap tokens dummy_prefix
    else ret tokens in
  let* tokens := encode_bytes t cap bufsize text [] tokens in
  let* tokens := merge_loop (S (length tokens)) t bufsize tokens in
  let* tokens := if eos then push_token cap tokens 2 else ret tokens in
  ret (t, tokens).

(** ** Decoding *)

Context {D : Type} `{DoubleOps D}.

(** The piece of a token.  When [sscanf] stores a value it does so as an
    [unsigned int] at the address of a byte, of which the low byte is kept. *)
Definition decode (t : Tokenizer F) (prev_token token : Z) : M E (list Z) :=
  let* s := vocab_at t token in
  let piece := if (prev_token =? 1) && (deref s =? 32) then tail s else s in
  match xsscanf (D := D) piece (lit "<0x%02hhX>") with
  | Some [ScHex v] => ret (drop (Z.to_nat (u8 v * 2)) (byte_pieces t))
  | Some _ => ret piece
  | None => fault
  end.

(** [piece[i]], inside its buffer. *)
Definition peek (piece : list Z) (i : nat) : M E Z :=
  match piece !! i with Some c => ret c | None => fault end.

Definition hex_add (b c : Z) : Z :=
  let b := u8 (b ≪ 4) in
  if (48 <=? c) && (c <=? 57) then u8 (b + (c - 48))
  else if (65 <=? c) && (c <=? 70) then u8 (b + (c - 65 + 10))
  else if (97 <=? c) && (c <=? 102) then u8 (b + (c - 97 + 10))
  else b.

(** What [safe_printf] writes to the console. *)
Definition safe_printf (piece : list Z) : M E (list Z) :=
  let* c0 := peek piece 0 in
  if c0 =? 0 then ret [] else
  let* hex :=
    if c0 =? 60 then
      let* c1 := peek piece 1 in
      if c1 =? 48 then
        let* c2 := peek piece 2 in
        if c2 =? 120 then let* c5 := peek piece 5 in ret (c5 =? 62) else ret false
      else ret false
    else ret false in
  if hex then
    let* c3 := peek piece 3 in
    let* c4 := peek piece 4 in
    let byte_val := hex_add (hex_add 0 c3) c4 in
    ret (if xisprint byte_val || xisspace byte_val then [byte_val] else [])
  else
    let* c1 := peek piece 1 in
    if (c1 =? 0) && negb (xisprint c0 || xisspace c0) then ret []
    else ret (cstr piece).

(** ** The file format *)

(** An entry of the file: the bits of the score, the length, the bytes. *)
Definition entry_bytes (en : Z * list Z) : list Z := put_le32 (fst en) ++ put_le32 (len (snd en)) ++ snd en.
Definition entry_ok (en : Z * list Z) : Prop := is_u32 (fst en) ∧ len (snd en) < 2 ^ 31.

Lemma read_bytes_runs w bs r e p n : p = len w → n = len bs → read_bytes (w ++ bs ++ r) p n e = Some (bs, e).
Proof.
  intros -> ->. unfold read_bytes. rewrite !len_app. pose proof (len_nonneg bs). pose proof (len_nonneg r).
  destruct (Z.leb_spec 0 (len bs)), (Z.leb_spec (len w + len bs) (len w + (len bs + len r))); try lia.
  cbn [andb]. by rewrite slice_app.
Qed.

Lemma read_word_runs w v r e p : p = len w → is_u32 v → read_word (w ++ put_le32 v ++ r) p e = Some (v, e).
Proof.
  intros Hp Hv. unfold read_word. erewrite bind_run by (by apply read_bytes_runs).
  rewrite <- (app_nil_r (put_le32 v)), le32_at_0 by done. done.
Qed.

Lemma need_runs n e : malloc_succeeds malloc → ∃ e', need n e = Some (tt, e').
Proof.
  intros Hm. unfold need, tmalloc, bind. specialize (Hm n e). destruct (malloc n e) as [b e']. cbn in Hm. subst b. by exists e'.
Qed.

Lemma read_entries_runs es : malloc_succeeds malloc → Forall entry_ok es → ∀ w r p e, p = len w →
  ∃ e', read_entries (length es) (w ++ flat_map entry_bytes es ++ r) p e =
    Some ((map (λ en, snd en ++ [0]) es, map (λ en, f_bits (fst en)) es), e').
Proof.
  intros Hm. induction 1 as [|[sc bs] es [Hsc Hl] _ IH]; intros w r p e ->; [by exists e|].
  cbn [length read_entries flat_map map fst snd] in *. pose proof (len_nonneg bs).
  set (tl := flat_map entry_bytes es ++ r).
  assert (Ed : w ++ (entry_bytes (sc, bs) ++ flat_map entry_bytes es) ++ r =
    w ++ put_le32 sc ++ put_le32 (len bs) ++ bs ++ tl) by (unfold tl, entry_bytes; by rewrite <- !(assoc_L (++))).
  rewrite Ed. clear Ed.
  erewrite bind_run by (by apply read_word_runs).
  erewrite bind_run.
  2: { rewrite (assoc_L (++) w). apply read_word_runs; [rewrite len_app; done|unfold is_u32; lia]. }
  rewrite s32_id by lia. destruct (need_runs (u32 (len bs + 1)) e Hm) as [e1 He1]. erewrite bind_run by exact He1.
  erewrite bind_run.
  2: { rewrite (assoc_L (++) (put_le32 sc)), (assoc_L (++) w). apply read_bytes_runs; [|done].
       rewrite !len_app. change (len (put_le32 ?v)) with 4. lia. }
  destruct (IH (w ++ put_le32 sc ++ put_le32 (len bs) ++ bs) r (len w + 8 + len bs) e1) as [e2 He2].
  { rewrite !len_app. change (len (put_le32 ?v)) with 4. lia. }
  fold tl in He2. rewrite <- !(assoc_L (++)) in He2. erewrite bind_run by exact He2. by exists e2.
Qed.

(** The parser reads back what the format says. *)
Lemma build_tokenizer_parses es mtl r e : malloc_succeeds malloc → Forall entry_ok es → is_u32 mtl →
  ∃ e', build_tokenizer (put_le32 mtl ++ flat_map entry_bytes es ++ r) (Z.of_nat (length es)) e =
    Some (MkTokenizer (map (λ en, snd en ++ [0]) es) (map (λ en, f_bits (fst en)) es) None (Z.of_nat (length es)) mtl
            (flat_map (λ i, [Z.of_nat i; 0]) (seq 0 256)), e').
Proof.
  intros Hm Hes Hmt. unfold build_tokenizer.
  destruct (need_runs (u32 (Z.of_nat (length es) * 8)) e Hm) as [e1 He1]. erewrite bind_run by exact He1.
  destruct (need_runs (u32 (Z.of_nat (length es) * 4)) e1 Hm) as [e2 He2]. erewrite bind_run by exact He2.
  cbv zeta. erewrite bind_run by (apply (read_word_runs []); done). rewrite Nat2Z.id.
  destruct (read_entries_runs es Hm Hes (put_le32 mtl) r 4 e2 eq_refl) as [e3 He3].
  erewrite bind_run by exact He3. by exists e3.
Qed.

(** ** What the encoder preserves *)

Definition valid (t : Tokenizer F) (k : Z) : Prop := 0 ≤ k < tok_vocab_size t.
(** The text of a token, and of a sequence of tokens. *)
Definition spell (t : Tokenizer F) (k : Z) : list Z := default [] (cstr <$> vocab t !! Z.to_nat k).
Definition text_of (t : Tokenizer F) (toks : list Z) : list Z := flat_map (spell t) toks.

(** A tokenizer as a vocabulary file for the model gives it: bytes have their
    tokens, the space is a token, and two strings fit [sprintf]'s bound. *)
Record tok_ok (t : Tokenizer F) : Prop := {
  ok_size : Z.of_nat (length (vocab t)) = tok_vocab_size t;
  ok_scores : Z.of_nat (length (vocab_scores t)) = tok_vocab_size t;
  ok_range : 259 ≤ tok_vocab_size t ≤ 2 ^ 28;
  ok_max : 1 ≤ max_token_length t ≤ 511;
  ok_lengths : Forall (λ s, strlen s ≤ max_token_length t) (vocab t);
  ok_space : ∃ k, valid t k ∧ spell t k = [32];
}.

Definition indexed (t : Tokenizer F) : Prop :=
  ∃ sv, sorted_vocab t = Some sv ∧ StronglySorted (λ a b, compare_tokens a b ≤ 0) sv ∧
    sv ≡ₚ imap (λ i s, MkTokenIndex s (Z.of_nat i)) (vocab t).

(** The result of a look-up: a token spelled [s], or -1 when there is none. *)
Definition looked_up (t : Tokenizer F) (s : list Z) (i : Z) : Prop :=
  (i = -1 ∧ ∀ k, valid t k → spell t k ≠ s) ∨ (valid t i ∧ spell t i = s).

Lemma spell_lookup (t : Tokenizer F) k v : vocab t !! k = Some v → spell t (Z.of_nat k) = cstr v.
Proof. intros Hv. unfold spell. by rewrite Nat2Z.id, Hv. Qed.

Lemma valid_lookup (t : Tokenizer F) k : tok_ok t → valid t k → ∃ v, vocab t !! Z.to_nat k = Some v ∧ spell t k = cstr v.
Proof.
  intros Ht Hk. destruct (lookup_lt_is_Some_2 (vocab t) (Z.to_nat k)) as [v Hv].
  { pose proof (ok_size t Ht). unfold valid in Hk. lia. }
  exists v. split; [done|]. unfold spell. by rewrite Hv.
Qed.

Lemma index_elem (t : Tokenizer F) x : x ∈ imap (λ i s, MkTokenIndex s (Z.of_nat i)) (vocab t) ↔
  ∃ k s, x = MkTokenIndex s (Z.of_nat k) ∧ vocab t !! k = Some s.
Proof.
  rewrite list_elem_of_lookup. setoid_rewrite list_lookup_imap. split.
  - intros (k & Hk). destruct (vocab t !! k) as [s|] eqn:Es; [|done]. injection Hk as <-. by exists k, s.
  - intros (k & s & -> & Hs). exists k. by rewrite Hs.
Qed.

Lemma lookup_token_runs (t : Tokenizer F) s e : tok_ok t → indexed t → cstr s = s →
  ∃ i, lookup_token t s e = Some (i, e) ∧ looked_up t s i.
Proof.
  intros Ht (sv & Hsv & Hs & Hp) Hc. unfold lookup_token. rewrite Hsv. cbn [mbind option_bind]. unfold str_lookup.
  assert (El : length sv = length (vocab t)) by (rewrite Hp; apply length_imap).
  destruct (xbsearch_runs compare_tokens TOKEN_INDEX_SIZE ltac:(done) sv (MkTokenIndex s 0)) as (r & Hr & Hf); [done|..].
  { unfold fits, TOKEN_INDEX_SIZE. pose proof (ok_range t Ht). pose proof (ok_size t Ht). lia. }
  { pose proof (ok_range t Ht). pose proof (ok_size t Ht). lia. }
  rewrite El, (ok_size t Ht) in Hr. rewrite Hr. destruct r as [o|].
  - destruct Hf as (k & x & -> & Hx & Hcmp). rewrite Z_div_mult, Nat2Z.id, Hx by done. cbn. exists (ti_id x). split; [done|right].
    apply list_elem_of_lookup_2 in Hx. rewrite Hp in Hx. apply index_elem in Hx as (j & v & -> & Hv). cbn [ti_id].
    apply strcmp_eq in Hcmp. cbn [ti_str] in Hcmp. rewrite (spell_lookup t j v Hv). split; [|by rewrite <- Hcmp].
    apply lookup_lt_Some in Hv. pose proof (ok_size t Ht). unfold valid. lia.
  - exists (-1). split; [done|left]. split; [done|]. intros k Hk Hsp.
    destruct (valid_lookup t k Ht Hk) as (v & Hv & Esp).
    apply (Hf (MkTokenIndex v (Z.of_nat (Z.to_nat k)))).
    + rewrite Hp. apply index_elem. by exists (Z.to_nat k), v.
    + apply strcmp_eq. cbn [ti_str]. by rewrite Hc, <- Hsp.
Qed.

(** ** The pieces of a text *)

(** The text cut into UTF-8 characters, of at most four bytes. *)
Fixpoint split_utf8 (text buf : list Z) : list (list Z) :=
  match text with
  | [] => []
  | c :: rest =>
      let buf := (if negb (cont_byte c) then [] else buf) ++ [c] in
      if cont_byte (deref rest) && (Z.of_nat (length buf) <? 4) then split_utf8 rest buf
      else buf :: split_utf8 rest []
  end.

(** What the tokens of a character spell: the character, or the spellings of its
    byte tokens. *)
Definition piece_text (t : Tokenizer F) (s : list Z) : list Z :=
  if decide (Exists (λ v, cstr v = s) (vocab t)) then s else flat_map (λ b, spell t (b + 3)) s.

Lemma split_utf8_concat text : ∀ buf, (buf ≠ [] → cont_byte (deref text) = true) →
  concat (split_utf8 text buf) = (if text is [] then [] else buf) ++ text.
Proof.
  induction text as [|c rest IH]; intros buf Hb; [done|]. cbn [split_utf8].
  assert (Eb : (if negb (cont_byte c) then [] else buf) = buf).
  { destruct (cont_byte c) eqn:Ec; [done|]. destruct buf; [done|]. cbn in Hb. rewrite Ec in Hb. by discriminate Hb. }
  rewrite Eb. destruct (cont_byte (deref rest)) eqn:Er; cbn [andb].
  - assert (rest ≠ []) by (by intros ->).
    destruct (Z.ltb_spec (Z.of_nat (length (buf ++ [c]))) 4).
    + rewrite IH by done. destruct rest; [done|]. by rewrite <- (assoc_L _).
    + cbn [concat]. rewrite IH by done. destruct rest; [done|]. by rewrite <- (assoc_L _).
  - cbn [concat]. rewrite IH by done. destruct rest; cbn; rewrite <- ?(assoc_L _); done.
Qed.

Lemma looked_up_piece (t : Tokenizer F) s i : tok_ok t → looked_up t s i → i ≠ -1 → spell t i = piece_text t s ∧ valid t i.
Proof.
  intros Ht [[-> _]|[Hv Hs]] Hi; [done|]. split; [|done]. unfold piece_text. destruct (valid_lookup t i Ht Hv) as (v & Hl & Es).
  rewrite decide_True; [done|]. apply Exists_exists. exists v. split; [by eapply list_elem_of_lookup_2|congruence].
Qed.

Lemma not_found_piece (t : Tokenizer F) s : tok_ok t → looked_up t s (-1) → piece_text t s = flat_map (λ b, spell t (b + 3)) s.
Proof.
  intros Ht [[_ Hn]|[Hv _]]; [|unfold valid in Hv; lia]. unfold piece_text. rewrite decide_False; [done|].
  rewrite Exists_exists. intros (v & Hin & Hv). apply list_elem_of_lookup_1 in Hin as [k Hk].
  apply (Hn (Z.of_nat k)); [|by rewrite (spell_lookup t k v)]. apply lookup_lt_Some in Hk.
  pose proof (ok_size t Ht). unfold valid. lia.
Qed.

Lemma push_token_runs cap tokens tok e : Z.of_nat (length tokens) < cap →
  push_token cap tokens tok e = Some (tokens ++ [tok], e).
Proof. intros Hc. unfold push_token. destruct (Z.ltb_spec (Z.of_nat (length tokens)) cap); [done|lia]. Qed.

Lemma push_bytes_runs cap bs : ∀ tokens e, Z.of_nat (length tokens) + Z.of_nat (length bs) ≤ cap →
  push_bytes cap tokens bs e = Some (tokens ++ map (λ b, u8 b + 3) bs, e).
Proof.
  induction bs as [|b bs IH]; intros tokens e Hc; cbn [push_bytes map]; [by rewrite app_nil_r|].
  cbn [length] in Hc. erewrite bind_run by (apply push_token_runs; lia).
  rewrite IH by (rewrite length_app; cbn; lia). by rewrite <- (assoc_L _).
Qed.

(** The tokens [g] pushed for the character [s]. *)
Definition tokenized (t : Tokenizer F) (g s : list Z) : Prop :=
  (∃ i, g = [i] ∧ valid t i ∧ spell t i = s) ∨ g = map (λ b, b + 3) s.

Lemma encode_bytes_runs (t : Tokenizer F) cap bufsize e : tok_ok t → indexed t → 5 ≤ bufsize → ∀ text buf tokens,
  Forall (λ c, 0 < c < 256) text → Forall (λ c, 0 < c < 256) buf → (length buf < 4)%nat →
  Z.of_nat (length tokens + length buf + length text) ≤ cap →
  ∃ toks, encode_bytes t cap bufsize text buf tokens e = Some (tokens ++ toks, e) ∧
    Forall (valid t) toks ∧ text_of t toks = flat_map (piece_text t) (split_utf8 text buf) ∧
    (length toks ≤ length buf + length text)%nat ∧
    ∃ gs, toks = concat gs ∧ Forall2 (tokenized t) gs (split_utf8 text buf).
Proof.
  intros Ht Hix Hbs. induction text as [|c rest IH]; intros buf tokens Hx Hb Hl Hc.
  { exists []. cbn. rewrite app_nil_r. split_and!; [done|constructor|done|lia|]. by exists []. }
  inversion_clear Hx as [|? ? Hc0 Hx']. cbn [encode_bytes split_utf8 length] in *.
  set (b0 := if negb (cont_byte c) then [] else buf).
  assert (Hb0 : (length b0 ≤ length buf)%nat) by (unfold b0; destruct (negb _); cbn; lia).
  assert (Hbb : Forall (λ c, 0 < c < 256) (b0 ++ [c])).
  { apply Forall_app. split; [unfold b0; by destruct (negb _)|by constructor]. }
  assert (Hlb : length (b0 ++ [c]) = S (length b0)) by (rewrite length_app; cbn; lia).
  destruct (Z.leb_spec (Z.of_nat (length (b0 ++ [c])) + 1) bufsize); [|lia].
  destruct (cont_byte (deref rest) && (Z.of_nat (length (b0 ++ [c])) <? 4)) eqn:Ec.
  { apply andb_prop in Ec as [_ Ec%Z.ltb_lt]. destruct (IH (b0 ++ [c]) tokens) as (toks & Hr & Hv & He & Hn & Hg);
      [done|done|lia|lia|]. exists toks. split_and!; [done|done|done|lia|done]. }
  destruct (lookup_token_runs t (b0 ++ [c]) e Ht Hix (cstr_id _ Hbb)) as (i & Hi & Hlk).
  erewrite bind_run by exact Hi.
  assert (Hpush : ∃ new, (if negb (i =? -1) then push_token cap tokens i else push_bytes cap tokens (b0 ++ [c])) e =
      Some (tokens ++ new, e) ∧ Forall (valid t) new ∧ text_of t new = piece_text t (b0 ++ [c]) ∧
      (length new ≤ length buf + 1)%nat ∧ tokenized t new (b0 ++ [c])).
  { destruct (Z.eqb_spec i (-1)) as [->|Hi1]; cbn [negb].
    - exists (map (λ b, u8 b + 3) (b0 ++ [c])). rewrite push_bytes_runs by lia.
      split; [done|]. split; [|split; [|split; [rewrite length_map; lia|]]].
      + apply Forall_map. eapply Forall_impl; [exact Hbb|]. intros b Hb1. cbn in *. pose proof (ok_range t Ht).
        rewrite u8_id by (unfold is_byte; lia). unfold valid. lia.
      + rewrite not_found_piece by done. clear -Hbb. unfold text_of. induction Hbb as [|b bs Hb1 _ IHb]; [done|].
        cbn. rewrite u8_id by (unfold is_byte; lia). by rewrite IHb.
      + right. apply map_ext_in. intros b Hin%list_elem_of_In. rewrite Forall_forall in Hbb. rewrite u8_id; [done|].
        specialize (Hbb b Hin). unfold is_byte. lia.
    - destruct (looked_up_piece t (b0 ++ [c]) i Ht Hlk Hi1) as [Hs Hv]. exists [i]. rewrite push_token_runs by lia.
      split_and!; [done|by constructor| |cbn; lia|]; [cbn; by rewrite app_nil_r|].
      left. exists i. split_and!; [done|done|]. destruct Hlk as [[? _]|[_ ?]]; done. }
  destruct Hpush as (new & Hp & Hnv & Hnt & Hnl & Hng). erewrite bind_run by exact Hp.
  destruct (IH [] (tokens ++ new)) as (toks & Hr & Hv & He & Hn & gs & Hgs & Hg);
    [done|done|cbn; lia|rewrite length_app; cbn; lia|].
  exists (new ++ toks). rewrite Hr, (assoc_L (++)). split; [done|]. split; [by apply Forall_app|]. split.
  - unfold text_of in *. rewrite flat_map_app. cbn [flat_map]. by rewrite Hnt, He.
  - split; [rewrite length_app; cbn in Hn; lia|]. exists (new :: gs). split; [by rewrite Hgs|by constructor].
Qed.

(** ** Merging *)

(** No token spells the pair, or one that does has a score not above [best]. *)
Definition unmergeable (t : Tokenizer F) (best : F) (x y : Z) : Prop :=
  (∀ k, valid t k → spell t k ≠ spell t x ++ spell t y) ∨
  ∃ k sc, valid t k ∧ spell t k = spell t x ++ spell t y ∧ vocab_scores t !! Z.to_nat k = Some sc ∧ fgt sc best = false.

Definition adjacent (tokens : list Z) (k : nat) (x y : Z) : Prop :=
  tokens !! k = Some x ∧ tokens !! S k = Some y.

Lemma spell_length (t : Tokenizer F) k : tok_ok t → valid t k → Z.of_nat (length (spell t k)) ≤ max_token_length t.
Proof.
  intros Ht Hk. destruct (valid_lookup t k Ht Hk) as (v & Hv & ->).
  pose proof (ok_lengths t Ht) as Hl. rewrite Forall_lookup in Hl. apply (Hl _ _ Hv).
Qed.

Lemma spell_bytes (t : Tokenizer F) k : Forall (λ c, 0 < c < 256) (spell t k).
Proof. unfold spell. destruct (vocab t !! Z.to_nat k); [apply cstr_bytes|constructor]. Qed.

Lemma vocab_at_runs (t : Tokenizer F) k e : tok_ok t → valid t k →
  ∃ v, vocab_at t k e = Some (v, e) ∧ cstr v = spell t k.
Proof.
  intros Ht Hk. destruct (valid_lookup t k Ht Hk) as (v & Hv & Es). exists v. unfold vocab_at.
  destruct (Z.ltb_spec k 0); [unfold valid in Hk; lia|]. by rewrite Hv.
Qed.

Lemma score_at_runs (t : Tokenizer F) k e : tok_ok t → valid t k →
  ∃ sc, score_at t k e = Some (sc, e) ∧ vocab_scores t !! Z.to_nat k = Some sc.
Proof.
  intros Ht Hk. destruct (lookup_lt_is_Some_2 (vocab_scores t) (Z.to_nat k)) as [sc Hs].
  { pose proof (ok_scores t Ht). unfold valid in Hk. lia. }
  exists sc. unfold score_at. destruct (Z.ltb_spec k 0); [unfold valid in Hk; lia|]. by rewrite Hs.
Qed.

(** One pair: the candidate is kept or replaced by the pair's token. *)
Lemma pair_runs (t : Tokenizer F) bufsize i x y (b : F * Z * Z) e : tok_ok t → indexed t →
  max_token_length t * 2 + 1 ≤ bufsize → valid t x → valid t y →
  ∃ b', (let* sx := vocab_at t x in
         let* sy := vocab_at t y in
         let s := take 1023 (cstr sx ++ cstr sy) in
         if Z.of_nat (length s) + 1 <=? bufsize then
           let* j := lookup_token t s in
           if j =? -1 then ret b
           else let* sc := score_at t j in if fgt sc (fst (fst b)) then ret (sc, j, i) else ret b
         else fault) e = Some (b', e) ∧
    ((b' = b ∧ unmergeable t (fst (fst b)) x y) ∨
     ∃ sc j, b' = (sc, j, i) ∧ valid t j ∧ spell t j = spell t x ++ spell t y).
Proof.
  intros Ht Hix Hbs Hx Hy. destruct (vocab_at_runs t x e Ht Hx) as (sx & Ex & Hsx).
  destruct (vocab_at_runs t y e Ht Hy) as (sy & Ey & Hsy).
  erewrite bind_run by exact Ex. erewrite bind_run by exact Ey. cbn zeta. rewrite Hsx, Hsy.
  pose proof (spell_length t x Ht Hx). pose proof (spell_length t y Ht Hy). pose proof (ok_max t Ht).
  rewrite take_ge by (rewrite length_app; lia).
  destruct (Z.leb_spec (Z.of_nat (length (spell t x ++ spell t y)) + 1) bufsize) as [_|Hb]; [|rewrite length_app in Hb; lia].
  destruct (lookup_token_runs t (spell t x ++ spell t y) e Ht Hix) as (j & Ej & Hj).
  { apply cstr_id, Forall_app. split; apply spell_bytes. }
  erewrite bind_run by exact Ej. destruct (Z.eqb_spec j (-1)) as [->|Hj1].
  { exists b. split; [done|left]. split; [done|left]. destruct Hj as [[_ Hn]|[Hv _]]; [done|unfold valid in Hv; lia]. }
  destruct Hj as [[-> _]|[Hv Hs]]; [done|]. destruct (score_at_runs t j e Ht Hv) as (sc & Es & Hsc).
  erewrite bind_run by exact Es. destruct (fgt sc (fst (fst b))) eqn:Eg.
  - exists (sc, j, i). split; [done|right]. by exists sc, j.
  - exists b. split; [done|left]. split; [done|right]. by exists j, sc.
Qed.

Lemma best_pair_runs (t : Tokenizer F) bufsize e : tok_ok t → indexed t → max_token_length t * 2 + 1 ≤ bufsize →
  ∀ tokens i b, Forall (valid t) tokens →
  ∃ b', best_pair t bufsize i tokens b e = Some (b', e) ∧
    ((b' = b ∧ ∀ k x y, adjacent tokens k x y → unmergeable t (fst (fst b)) x y) ∨
     ∃ sc j k x y, b' = (sc, j, i + Z.of_nat k) ∧ valid t j ∧ adjacent tokens k x y ∧ spell t j = spell t x ++ spell t y).
Proof.
  intros Ht Hix Hbs. induction tokens as [|x tokens IH]; intros i b Hv.
  { exists b. split; [done|left]. split; [done|]. by intros k x y [? _]. }
  inversion_clear Hv as [|? ? Hx Hv']. destruct tokens as [|y tokens].
  { exists b. split; [done|left]. split; [done|]. intros [|k] u v [_ ?]; done. }
  assert (Hy : valid t y) by (by inversion Hv'). destruct (pair_runs t bufsize i x y b e Ht Hix Hbs Hx Hy) as (b1 & Hr & Hb1).
  destruct (IH (i + 1) b1 Hv') as (b' & Hr' & Hb').
  exists b'. split.
  { rewrite <- Hr'. cbn [best_pair]. clear -Hr. unfold bind in *.
    destruct (vocab_at t x e) as [[sx ex]|]; [|done]. destruct (vocab_at t y ex) as [[sy ey]|]; [|done].
    cbn zeta in *. destruct (_ <=? bufsize); [|done]. destruct (lookup_token t _ ey) as [[j ej]|]; [|done].
    destruct (j =? -1); [by injection Hr as -> ->|].
    destruct (score_at t j ej) as [[sc es]|]; [|done]. destruct (fgt sc _); injection Hr as -> ->; done. }
  destruct Hb' as [[-> Hk]|(sc & j & k & u & v & -> & Hvj & [Hu Hw] & Hs)].
  - destruct Hb1 as [[-> Hun]|(sc & j & -> & Hvj & Hs)].
    + left. split; [done|]. intros [|k] u v [Hu Hw]; [cbn in Hu, Hw; by injection Hu as <-; injection Hw as <-|].
      by apply (Hk k u v).
    + right. exists sc, j, 0%nat, x, y. split_and!; [|done..]. do 2 f_equal. lia.
  - right. exists sc, j, (S k), u, v. split_and!; [f_equal; lia|done..].
Qed.

Lemma text_of_app (t : Tokenizer F) l1 l2 : text_of t (l1 ++ l2) = text_of t l1 ++ text_of t l2.
Proof. apply flat_map_app. Qed.

(** What every merge keeps, the loop keeps. *)
Definition kept_by_merges (t : Tokenizer F) (I : list Z → Prop) : Prop :=
  ∀ l1 x y l2 j, Forall (valid t) (l1 ++ [x; y] ++ l2) → valid t j → spell t j = spell t x ++ spell t y →
    I (l1 ++ [x; y] ++ l2) → I (l1 ++ [j] ++ l2).

Lemma text_kept (t : Tokenizer F) s : kept_by_merges t (λ toks, text_of t toks = s).
Proof.
  intros l1 x y l2 j _ _ Hs <-. rewrite !text_of_app. cbn [text_of flat_map].
  by rewrite Hs, !app_nil_r, <- !(assoc_L (++)).
Qed.

Lemma merge_loop_runs (t : Tokenizer F) bufsize e (I : list Z → Prop) : tok_ok t → indexed t →
  max_token_length t * 2 + 1 ≤ bufsize → kept_by_merges t I →
  ∀ fuel tokens, (length tokens < fuel)%nat → Forall (valid t) tokens → I tokens →
  ∃ toks, merge_loop fuel t bufsize tokens e = Some (toks, e) ∧ Forall (valid t) toks ∧
    I toks ∧ (length toks ≤ length tokens)%nat ∧
    ∀ k x y, adjacent toks k x y → unmergeable t f_m1e10 x y.
Proof.
  intros Ht Hix Hbs HI. induction fuel as [|fuel IH]; [lia|]. intros tokens Hl Hv Hin. cbn [merge_loop].
  destruct (best_pair_runs t bufsize e Ht Hix Hbs tokens 0 (f_m1e10, -1, -1) Hv) as (b' & Hr & Hb).
  erewrite bind_run by exact Hr. destruct Hb as [[-> Hn]|(sc & j & k & x & y & -> & Hj & [Hx Hy] & Hs)].
  { exists tokens. by split_and!. }
  destruct (Z.eqb_spec (0 + Z.of_nat k) (-1)) as [|_]; [lia|]. rewrite Z.add_0_l, Nat2Z.id.
  assert (Es : tokens = take k tokens ++ [x; y] ++ drop (k + 2) tokens).
  { rewrite <- (take_drop k tokens) at 1. f_equal. rewrite (drop_S _ _ _ Hx), (drop_S _ _ _ Hy). cbn. do 3 f_equal. lia. }
  pose proof (lookup_lt_Some _ _ _ Hy) as Hk.
  destruct (IH (take k tokens ++ [j] ++ drop (k + 2) tokens)) as (toks & Hr' & Hv' & Hin' & Hl' & Hn).
  - rewrite !length_app, length_take, length_drop. cbn. lia.
  - rewrite Es in Hv. apply Forall_app in Hv as [Hv1 Hv2]. apply Forall_app in Hv2 as [_ Hv2].
    apply Forall_app. split; [done|]. by apply Forall_app; split; [constructor|].
  - rewrite Es in Hv, Hin. by eapply HI.
  - exists toks. split_and!; [exact Hr'|done|done| |done].
    rewrite !length_app, length_take, length_drop in Hl'. cbn in Hl'. lia.
Qed.

(** ** The whole encoder *)

Definition with_index (t : Tokenizer F) (sv : list TokenIndex) : Tokenizer F :=
  MkTokenizer (vocab t) (vocab_scores t) (Some sv) (tok_vocab_size t) (max_token_length t) (byte_pieces t).

Lemma sort_vocab_runs (t : Tokenizer F) e : malloc_succeeds malloc → tok_ok t → sorted_vocab t = None ∨ indexed t →
  ∃ sv e', sort_vocab t e = Some (with_index t sv, e') ∧ indexed (with_index t sv).
Proof.
  intros Hm Ht Hs. unfold sort_vocab. destruct Hs as [Hn|(sv & Hsv & Hso & Hp)].
  2: { rewrite Hsv. exists sv, e. split; [|by exists sv]. destruct t; cbn in *. by subst. }
  rewrite Hn. set (sv := imap _ (vocab t)). unfold need, tmalloc, bind.
  pose proof (Hm (u32 (tok_vocab_size t * TOKEN_INDEX_SIZE)) e) as Hm1. destruct (malloc _ e) as [b e1]. cbn in Hm1. subst b.
  assert (El : Z.of_nat (length sv) = tok_vocab_size t) by (unfold sv; rewrite length_imap; apply (ok_size t Ht)).
  pose proof (ok_range t Ht).
  destruct (xqsort_runs compare_tokens malloc TOKEN_INDEX_SIZE ltac:(done) sv e1) as (sv' & e2 & Hr & Hp & Ho);
    [unfold fits, TOKEN_INDEX_SIZE; lia|lia|].
  rewrite El in Hr. cbn. rewrite Hr. exists sv', e2. split; [done|]. exists sv'. split_and!; [done|by apply Ho|done].
Qed.

(** The tokens before the merges: the start token, the space, and those of each
    character. *)
Definition premerge (t : Tokenizer F) (bos : bool) (text pre : list Z) : Prop :=
  ∃ l2 gs, pre = (if bos then [1] else []) ++ l2 ++ concat gs ∧
    (if text is [] then l2 = [] else ∃ i, l2 = [i] ∧ valid t i ∧ spell t i = [32]) ∧
    Forall2 (tokenized t) gs (split_utf8 text []).

Definition merged (t : Tokenizer F) (pre toks : list Z) : Prop := ∀ I, kept_by_merges t I → I pre → I toks.

Lemma merged_kept (t : Tokenizer F) pre : kept_by_merges t (merged t pre).
Proof. intros l1 x y l2 j Hv Hj Hs Hm I HI Hpre. eapply HI; [done..|]. by apply Hm. Qed.

Lemma kept_with_index (t : Tokenizer F) sv I : kept_by_merges t I → kept_by_merges (with_index t sv) I.
Proof. intros Hk l1 x y l2 j Hv Hj Hs. apply Hk; [exact Hv|exact Hj|exact Hs]. Qed.

Lemma encode_runs (t : Tokenizer F) text bos eos e :
  malloc_succeeds malloc → tok_ok t → sorted_vocab t = None ∨ indexed t →
  ∃ sv e' pre toks, encode t text bos eos (strlen text + 3) e =
      Some ((with_index t sv, toks ++ (if eos then [2] else [])), e') ∧
    indexed (with_index t sv) ∧ Forall (valid t) toks ∧ Z.of_nat (length toks) ≤ strlen text + 2 ∧
    premerge t bos (cstr text) pre ∧ merged t pre toks ∧
    text_of t pre = (if bos then spell t 1 else []) ++
      (if cstr text is [] then [] else [32]) ++ flat_map (piece_text t) (split_utf8 (cstr text) []) ∧
    ∀ k x y, adjacent toks k x y → unmergeable t f_m1e10 x y.
Proof.
  intros Hm Ht Hs. destruct (sort_vocab_runs t e Hm Ht Hs) as (sv & e1 & Hsv & Hix). set (t' := with_index t sv) in *.
  assert (Ht' : tok_ok t') by (destruct Ht; by split). pose proof (ok_max t Ht) as Hmax. pose proof (ok_range t Ht) as Hran.
  unfold encode. erewrite bind_run by exact Hsv.
  change (max_token_length t') with (max_token_length t). rewrite u32_id by (unfold is_u32; lia).
  set (bufsize := max_token_length t * 2 + 1 + 2).
  pose proof (Hm bufsize e1) as Hm1. unfold tmalloc at 1. unfold bind at 1. destruct (malloc bufsize e1) as [b e2]. cbn in Hm1. subst b.
  cbv zeta. set (cap := strlen text + 3). set (l1 := if bos then [1] else []).
  assert (Hb1 : (if bos then push_token cap [] 1 else ret []) e2 = Some (l1, e2)).
  { unfold l1. destruct bos; [|done]. by rewrite push_token_runs by (unfold cap, strlen; cbn; lia). }
  assert (Hv1 : Forall (valid t) l1 ∧ (length l1 ≤ 1)%nat ∧ text_of t l1 = (if bos then spell t 1 else [])).
  { unfold l1. destruct bos; cbn; rewrite ?app_nil_r; repeat split; try constructor; unfold valid; try lia; constructor. }
  destruct Hv1 as (Hv1 & Hl1 & Hx1). erewrite bind_run by exact Hb1.
  assert (Hb2 : ∃ l2, (if negb (deref (cstr text) =? 0)
      then let* dummy_prefix := lookup_token t' [32] in push_token cap l1 dummy_prefix else ret l1) e2 = Some (l1 ++ l2, e2) ∧
    Forall (valid t) l2 ∧ text_of t l2 = (if cstr text is [] then [] else [32]) ∧ (length l2 ≤ 1)%nat ∧
    (if cstr text is [] then l2 = [] else ∃ i, l2 = [i] ∧ valid t i ∧ spell t i = [32])).
  { pose proof (cstr_bytes text) as Hcb. destruct (cstr text) as [|c cs] eqn:Ec;
      [exists []; rewrite app_nil_r; split_and!; [done|constructor|done|cbn; lia|done]|].
    apply Forall_cons in Hcb as [Hc _]. cbn [deref].
    destruct (Z.eqb_spec c 0) as [|_]; [lia|]. cbn [negb].
    destruct (lookup_token_runs t' [32] e2 Ht' Hix eq_refl) as (i & Hi & Hlk). erewrite bind_run by exact Hi.
    rewrite push_token_runs by (unfold cap, strlen; lia). exists [i].
    destruct Hlk as [[_ Hn]|[Hv Hsp]]; [destruct (ok_space t Ht) as (k & Hk & Hks); by destruct (Hn k)|].
    split_and!; [done|by constructor| |done|by exists i]. cbn. rewrite app_nil_r. exact Hsp. }
  destruct Hb2 as (l2 & Hr2 & Hv2 & Hx2 & Hl2 & Hsp2). erewrite bind_run by exact Hr2.
  destruct (encode_bytes_runs t' cap bufsize e2 Ht' Hix ltac:(unfold bufsize; lia) (cstr text) [] (l1 ++ l2))
    as (l3 & Hr3 & Hv3 & Hx3 & Hl3 & gs & Hg3 & Hgs); [apply cstr_bytes|constructor|cbn; lia| |].
  { rewrite length_app. unfold cap, strlen. cbn. lia. }
  erewrite bind_run by exact Hr3. set (pre := (l1 ++ l2) ++ l3).
  destruct (merge_loop_runs t' bufsize e2 (merged t pre) Ht' Hix ltac:(unfold bufsize; cbn; lia)
    (kept_with_index t sv _ (merged_kept t pre)) (S (length pre)) pre) as (toks & Hr4 & Hv4 & Hx4 & Hl4 & Hn4); [lia|unfold pre; rewrite !Forall_app; exact (conj (conj Hv1 Hv2) Hv3)|by intros I _ ?|].
  erewrite bind_run by exact Hr4. unfold pre in Hl4. rewrite !length_app in Hl4. cbn in Hl3.
  assert (Hlen : Z.of_nat (length toks) ≤ strlen text + 2) by (unfold strlen; lia).
  exists sv, e2, pre, toks. split.
  - destruct eos; [erewrite bind_run by (apply push_token_runs; unfold cap; lia); done|by rewrite app_nil_r].
  - split; [done|]. split; [exact Hv4|]. split; [exact Hlen|]. split; [|split; [exact Hx4|split; [|exact Hn4]]].
    + exists l2, gs. unfold pre. rewrite Hg3, <- (assoc_L (++)). by split_and!.
    + change (text_of t') with (text_of t) in *. unfold pre. rewrite !text_of_app, Hx1, Hx2, Hx3. by rewrite <- (assoc_L (++)).
Qed.

(** ** Printing the tokens back *)

(** [safe_printf(decode(...))] for successive tokens; the generation loop is related
    to it in Generate.v. *)
Fixpoint echo (t : Tokenizer F) (prev : Z) (toks : list Z) : M E (list Z) :=
  match toks with
  | [] => ret []
  | k :: toks =>
      let* piece := decode t prev k in
      let* out := safe_printf piece in
      let* rest := echo t k toks in
      ret (out ++ rest)
  end.

Definition byte_tok (k : Z) : bool := (3 <=? k) && (k <? 259).
Definition byte_spelling (b : Z) : list Z := [60; 48; 120; hex_digit true (b / 16); hex_digit true (b mod 16); 62].

(** The vocabulary of the reference tokenizer: byte tokens are spelled [<0xNN>],
    no other token contains [<0x], none is empty, and nothing merges with the
    start token. *)
Record text_vocab (t : Tokenizer F) : Prop := {
  tv_bytes b : 0 ≤ b < 256 → spell t (b + 3) = byte_spelling b;
  tv_plain k l r : valid t k → byte_tok k = false → spell t k ≠ l ++ [60; 48; 120] ++ r;
  tv_full k : valid t k → spell t k ≠ [];
  tv_start k y : valid t k → valid t y → spell t k ≠ spell t 1 ++ spell t y;
  tv_mark : 60 ∈ spell t 1;
  tv_memory : Forall (λ s, is_bytes s ∧ (length (cstr s) < length s)%nat) (vocab t);
}.

Definition good (t : Tokenizer F) (k : Z) : Prop := byte_tok k = true ∨ 60 ∉ spell t k.
Definition denote (t : Tokenizer F) (k : Z) : list Z := if byte_tok k then [k - 3] else spell t k.
Definition meaning (t : Tokenizer F) (toks : list Z) : list Z := flat_map (denote t) toks.

Lemma byte_tok_spelling (t : Tokenizer F) k : text_vocab t → byte_tok k = true →
  spell t k = byte_spelling (k - 3) ∧ 0 ≤ k - 3 < 256.
Proof.
  intros Hv Hk. unfold byte_tok in Hk. assert (Hr : 0 ≤ k - 3 < 256) by lia. split; [|done].
  rewrite <- (tv_bytes t Hv _ Hr). f_equal. lia.
Qed.

Lemma good_not_start (t : Tokenizer F) k : text_vocab t → good t k → k ≠ 1.
Proof. intros Hv [Hk|Hk] ->; [done|]. by apply Hk, (tv_mark t Hv). Qed.

Lemma scan_literal f ps c pf (acc : list (scanned D)) : c ≠ 37 → skip_while (Z.eqb 32) pf = pf →
  scan_loop (Datatypes.S f) ps (c :: pf) acc =
  match ps with d :: ps => if c =? d then scan_loop f ps pf acc else Some acc | [] => Some acc end.
Proof. intros Hc Hp. cbn [scan_loop]. destruct (Z.eqb_spec c 37); [done|]. by rewrite Hp. Qed.

(** The modifiers stand behind the width, where [xsscanf] does not look for them:
    the format never assigns. *)
Lemma scan_byte_never s : xsscanf (D := D) s (lit "<0x%02hhX>") = Some [].
Proof.
  unfold xsscanf. change (cstr (lit "<0x%02hhX>")) with [60; 48; 120; 37; 48; 50; 104; 104; 88; 62].
  cbn [length]. rewrite scan_literal by done. destruct (cstr s) as [|c1 ps]; [done|]. destruct (60 =? c1); [|done].
  rewrite scan_literal by done. destruct ps as [|c2 ps]; [done|]. destruct (48 =? c2); [|done].
  rewrite scan_literal by done. destruct ps as [|c3 ps]; [done|]. by destruct (120 =? c3).
Qed.

Definition shown (c : Z) : bool := xisprint c || xisspace c.

Lemma cstr_prefix p : is_bytes p → take (length (cstr p)) p = cstr p.
Proof.
  induction 1 as [|c p Hc _ IH]; [done|]. cbn [cstr]. rewrite u8_id by done. destruct (c =? 0); [done|].
  cbn. by rewrite IH.
Qed.

Lemma cstr_lookup p i : is_bytes p → (i < length (cstr p))%nat → p !! i = cstr p !! i.
Proof. intros Hp Hi. rewrite <- (lookup_take_lt p (length (cstr p)) i Hi). by rewrite cstr_prefix. Qed.

Lemma print_plain p e : is_bytes p → (length (cstr p) < length p)%nat → 60 ∉ cstr p →
  Forall (λ c, shown c = true) (cstr p) → safe_printf p e = Some (cstr p, e).
Proof.
  intros Hb Hl Hn Hs. unfold safe_printf. destruct p as [|c0 p]; [cbn in Hl; lia|].
  erewrite bind_run by reflexivity. apply Forall_cons in Hb as [Hc Hb]. cbn [cstr] in *. rewrite u8_id in * by done.
  destruct (Z.eqb_spec c0 0) as [->|_]; [done|]. rewrite elem_of_cons in Hn.
  destruct (Z.eqb_spec c0 60) as [->|_]; [tauto|]. erewrite bind_run by reflexivity.
  destruct p as [|c1 p]; [cbn in Hl; lia|]. erewrite bind_run by reflexivity.
  apply Forall_cons in Hs as [Hs0 _]. unfold shown in Hs0. rewrite Hs0. cbn [negb]. by rewrite andb_false_r.
Qed.

Lemma hex_add_byte b : 0 ≤ b < 256 → hex_add (hex_add 0 (hex_digit true (b / 16))) (hex_digit true (b mod 16)) = b.
Proof.
  intros Hb. assert (Hn : Forall (λ n, let b := Z.of_nat n in
    hex_add (hex_add 0 (hex_digit true (b / 16))) (hex_digit true (b mod 16)) = b) (seq 0 256))
    by (apply (bool_decide_unpack _); vm_compute; exact I).
  rewrite Forall_forall in Hn. specialize (Hn (Z.to_nat b)). cbn zeta in Hn.
  rewrite Z2Nat.id in Hn by lia. apply Hn, elem_of_seq. lia.
Qed.

Lemma print_byte p b e : is_bytes p → cstr p = byte_spelling b → 0 ≤ b < 256 → shown b = true →
  safe_printf p e = Some ([b], e).
Proof.
  intros Hb Hp Hr Hs. unfold safe_printf.
  assert (Hpk : ∀ i c, byte_spelling b !! i = Some c → peek p i e = Some (c, e)).
  { intros i c Hc. unfold peek. rewrite cstr_lookup, Hp, Hc; [done|done|]. rewrite Hp. by eapply lookup_lt_Some. }
  erewrite bind_run by (by apply (Hpk 0%nat)). change (60 =? 0) with false. change (60 =? 60) with true. cbn iota.
  erewrite bind_run; [|erewrite bind_run by (by apply (Hpk 1%nat)); change (48 =? 48) with true; cbn iota;
    erewrite bind_run by (by apply (Hpk 2%nat)); change (120 =? 120) with true; cbn iota;
    erewrite bind_run by (by apply (Hpk 5%nat)); reflexivity].
  change (62 =? 62) with true. cbn iota. erewrite bind_run by (by apply (Hpk 3%nat)).
  erewrite bind_run by (by apply (Hpk 4%nat)). rewrite hex_add_byte by done.
  unfold shown in Hs. by rewrite Hs.
Qed.

Lemma print_token (t : Tokenizer F) prev k e : tok_ok t → text_vocab t → valid t k → good t k →
  Forall (λ c, shown c = true) (denote t k) →
  ∃ p, decode t prev k e = Some (p, e) ∧
    safe_printf p e = Some (if (prev =? 1) && (deref (denote t k) =? 32) && negb (byte_tok k)
                            then tail (denote t k) else denote t k, e).
Proof.
  intros Ht Hv Hk Hg Hs. unfold decode. destruct (valid_lookup t k Ht Hk) as (s & Hl & Hsp).
  assert (Hvo : vocab_at t k e = Some (s, e)).
  { unfold vocab_at. destruct (Z.ltb_spec k 0); [unfold valid in Hk; lia|]. by rewrite Hl. }
  erewrite bind_run by exact Hvo. pose proof (tv_memory t Hv) as Hm. rewrite Forall_lookup in Hm.
  destruct (Hm _ _ Hl) as [Hby Hlen]. clear Hm. rewrite scan_byte_never.
  assert (Hhd : deref s = deref (cstr s)).
  { destruct s as [|c s]; [done|]. inversion Hby; subst. cbn. rewrite u8_id by done. by destruct (Z.eqb_spec c 0) as [->|]. }
  rewrite Hhd, <- Hsp. unfold denote in *. destruct (byte_tok k) eqn:Eb; cbn [negb].
  - destruct (byte_tok_spelling t k Hv Eb) as [Hb Hr]. rewrite Hb. cbn [deref byte_spelling]. change (60 =? 32) with false.
    rewrite !andb_false_r. eexists. split; [done|]. apply print_byte; [done|congruence|done|by inversion Hs].
  - destruct Hg as [|Hg]; [congruence|]. rewrite !andb_true_r.
    destruct ((prev =? 1) && (deref (spell t k) =? 32)) eqn:Ep.
    + apply andb_prop in Ep as [_ Ep%Z.eqb_eq]. rewrite Hsp in *. rewrite <- Hhd in Ep.
      destruct s as [|c s]; [done|]. cbn in Ep. subst c. eexists. split; [done|]. apply Forall_cons in Hby as [_ Hby].
      cbn [tail]. change (cstr (32 :: s)) with (32 :: cstr s) in *. cbn [tail].
      apply print_plain; [done|cbn in Hlen; lia|by intros ?; apply Hg; right|by inversion Hs].
    + eexists. split; [done|]. rewrite Hsp in *. by apply print_plain.
Qed.

Lemma echo_runs (t : Tokenizer F) e : tok_ok t → text_vocab t → ∀ toks prev, prev ≠ 1 → Forall (valid t) toks → Forall (good t) toks →
  Forall (λ c, shown c = true) (meaning t toks) → echo t prev toks e = Some (meaning t toks, e).
Proof.
  intros Ht Hv. induction toks as [|k toks IH]; intros prev Hp Hva Hg Hs; [done|].
  apply Forall_cons in Hva as [Hk Hva], Hg as [Hgk Hg]. cbn [meaning flat_map] in Hs. apply Forall_app in Hs as [Hs1 Hs2].
  destruct (print_token t prev k e Ht Hv Hk Hgk Hs1) as (p & Hd & Hc).
  cbn [echo]. erewrite bind_run by exact Hd. erewrite bind_run by exact Hc.
  erewrite bind_run by (apply IH; [by eapply good_not_start|done..]).
  destruct (Z.eqb_spec prev 1); [done|]. done.
Qed.

Lemma byte_mark b : 60 ∈ byte_spelling b.
Proof. by left. Qed.

(** Merging keeps what the tokens stand for. *)
Definition prompt_tokens (t : Tokenizer F) (s toks : list Z) : Prop :=
  ∃ k rest, toks = 1 :: k :: rest ∧ byte_tok k = false ∧ Forall (good t) (k :: rest) ∧ meaning t (k :: rest) = s.

Lemma merge_good (t : Tokenizer F) x y j : text_vocab t → valid t x → valid t y → valid t j → good t x → good t y →
  spell t j = spell t x ++ spell t y → byte_tok j = false ∧ good t j ∧ denote t j = denote t x ++ denote t y.
Proof.
  intros Hv Hx Hy Hj Gx Gy Hs.
  assert (Hb : byte_tok x = false ∧ byte_tok y = false).
  { destruct (byte_tok x) eqn:Ex.
    - exfalso. destruct (byte_tok_spelling t x Hv Ex) as [Hb _]. rewrite Hb in Hs. destruct (byte_tok j) eqn:Ej.
      + destruct (byte_tok_spelling t j Hv Ej) as [Hbj _]. rewrite Hbj in Hs. apply (f_equal length) in Hs.
        rewrite length_app in Hs. cbn in Hs. apply (tv_full t Hv y Hy). destruct (spell t y); [done|cbn in Hs; lia].
      + eapply (tv_plain t Hv j []); [done|done|]. rewrite Hs. reflexivity.
    - split; [done|]. destruct (byte_tok y) eqn:Ey; [|done].
      exfalso. destruct (byte_tok_spelling t y Hv Ey) as [Hb _]. rewrite Hb in Hs. destruct (byte_tok j) eqn:Ej.
      + destruct (byte_tok_spelling t j Hv Ej) as [Hbj _]. rewrite Hbj in Hs. apply (f_equal length) in Hs.
        rewrite length_app in Hs. cbn in Hs. apply (tv_full t Hv x Hx). destruct (spell t x); [done|cbn in Hs; lia].
      + eapply (tv_plain t Hv j (spell t x)); [done|done|]. rewrite Hs. reflexivity. }
  destruct Hb as [Ex Ey]. destruct Gx as [|Gx]; [congruence|]. destruct Gy as [|Gy]; [congruence|].
  assert (Gj : 60 ∉ spell t j) by (rewrite Hs, elem_of_app; tauto).
  assert (Ej : byte_tok j = false).
  { destruct (byte_tok j) eqn:Ej; [|done]. exfalso. apply Gj. rewrite (proj1 (byte_tok_spelling t j Hv Ej)). apply byte_mark. }
  split; [done|]. split; [by right|]. unfold denote. by rewrite Ej, Ex, Ey.
Qed.

Lemma prompt_kept (t : Tokenizer F) s : text_vocab t → kept_by_merges t (prompt_tokens t s).
Proof.
  intros Hv l1 x y l2 j Hval Hj Hs (k & rest & Er & Ek & Hg & Hm). rewrite !Forall_app in Hval. destruct Hval as (_ & Hxy & _).
  apply Forall_cons in Hxy as [Hx Hy]. apply Forall_cons in Hy as [Hy _].
  destruct l1 as [|a l1]; injection Er as -> Er; [by destruct (tv_start t Hv j y)|]. rewrite <- Er in Hg, Hm.
  cbn [app] in Hg, Hm. apply Forall_app in Hg as [G1 G2]. apply Forall_cons in G2 as [Gx G2]. apply Forall_cons in G2 as [Gy G2].
  destruct (merge_good t x y j Hv Hx Hy Hj Gx Gy Hs) as (Ej & Gj & Hd).
  assert (Hg' : Forall (good t) (l1 ++ [j] ++ l2)) by (rewrite !Forall_app; by split_and!; [|constructor|]).
  assert (Hm' : meaning t (l1 ++ [j] ++ l2) = s).
  { rewrite <- Hm. unfold meaning. rewrite !flat_map_app. cbn [flat_map]. by rewrite Hd, !app_nil_r, <- !(assoc_L (++)). }
  destruct l1 as [|a l1]; cbn [app] in *.
  - by exists j, l2.
  - injection Er as -> _. by exists k, (l1 ++ j :: l2).
Qed.

Lemma tokenized_meaning (t : Tokenizer F) g s : text_vocab t → tokenized t g s → Forall (λ c, 0 < c < 256) s → 60 ∉ s →
  Forall (good t) g ∧ meaning t g = s.
Proof.
  intros Hv Hg Hs Hn. destruct Hg as [(i & -> & Hi & Hsp)| ->].
  - assert (Hb : byte_tok i = false).
    { destruct (byte_tok i) eqn:Eb; [|done]. exfalso. apply Hn. rewrite <- Hsp, (proj1 (byte_tok_spelling t i Hv Eb)). apply byte_mark. }
    split; [constructor; [right; by rewrite Hsp|constructor]|]. cbn. unfold denote. by rewrite Hb, app_nil_r.
  - assert (Hall : Forall (λ b, byte_tok (b + 3) = true) s).
    { eapply Forall_impl; [exact Hs|]. intros b Hb. cbn in Hb. unfold byte_tok. lia. }
    clear -Hall. induction Hall as [|b s Hb _ [IH1 IH2]]; [by split; [constructor|]|]. cbn [map]. split.
    + constructor; [by left|done].
    + unfold meaning in *. cbn [flat_map]. rewrite IH2. unfold denote. rewrite Hb. cbn. f_equal. lia.
Qed.

Lemma groups_meaning (t : Tokenizer F) gs ps : text_vocab t → Forall2 (tokenized t) gs ps →
  Forall (λ c, 0 < c < 256) (concat ps) → 60 ∉ concat ps → Forall (good t) (concat gs) ∧ meaning t (concat gs) = concat ps.
Proof.
  intros Hv. induction 1 as [|g s gs ps Hg _ IH]; intros Hb Hn; [by split; [constructor|]|]. cbn [concat] in *.
  apply Forall_app in Hb as [Hb1 Hb2]. rewrite elem_of_app in Hn.
  destruct (tokenized_meaning t g s Hv Hg Hb1) as [Hg1 Hm1]; [tauto|]. destruct IH as [Hg2 Hm2]; [done|tauto|].
  split; [by apply Forall_app|]. unfold meaning in *. by rewrite flat_map_app, Hm1, Hm2.
Qed.

Lemma prompt_echo_runs (t : Tokenizer F) text e : malloc_succeeds malloc → tok_ok t → text_vocab t →
  sorted_vocab t = None ∨ indexed t → cstr text ≠ [] → 60 ∉ cstr text → Forall (λ c, shown c = true) (cstr text) →
  ∃ t' e' toks, encode t text true false (strlen text + 3) e = Some ((t', 1 :: toks), e') ∧
    echo t' 1 toks e' = Some (cstr text, e') ∧
    Forall (λ k, valid t k ∧ k ≠ 1) toks ∧ Z.of_nat (length toks) ≤ strlen text + 1.
Proof.
  intros Hm Ht Hv Hs Hne Hn Hsh. destruct (encode_runs t text true false e Hm Ht Hs)
    as (sv & e' & pre & toks & Hr & _ & Hval & Hlen & (l2 & gs & -> & Hl2 & Hgs) & Hmg & _ & _).
  rewrite app_nil_r in Hr. set (t' := with_index t sv) in *.
  assert (Ht' : tok_ok t') by (destruct Ht; by split). assert (Hv' : text_vocab t') by (destruct Hv; by split).
  pose proof (cstr_bytes text) as Hcb.
  assert (Hcat : concat (split_utf8 (cstr text) []) = cstr text).
  { rewrite split_utf8_concat by done. by destruct (cstr text). }
  assert (Hsp2 : ∃ i, l2 = [i] ∧ valid t i ∧ spell t i = [32]) by by destruct (cstr text).
  destruct Hsp2 as (i & -> & Hi & Hsp).
  destruct (groups_meaning t gs _ Hv Hgs) as [Hg Hmean]; [by rewrite Hcat..|]. rewrite Hcat in Hmean.
  assert (Hb : byte_tok i = false).
  { destruct (byte_tok i) eqn:Eb; [|done]. destruct (byte_tok_spelling t i Hv Eb) as [Hx _]. by rewrite Hx in Hsp. }
  destruct (Hmg (prompt_tokens t (32 :: cstr text))) as (k & rest & -> & Ek & Hgk & Hmk).
  { by apply prompt_kept. }
  { exists i, (concat gs). split_and!; [done|done| |].
    - constructor; [right; rewrite Hsp; by intros ?%list_elem_of_singleton|done].
    - unfold meaning in *. cbn [flat_map]. unfold denote at 1. by rewrite Hb, Hsp, Hmean. }
  exists t', e', (k :: rest). split; [done|].
  apply Forall_cons in Hval as [_ Hval]. split; [|split; [|cbn [length] in Hlen |- *; lia]].
  2: { rewrite Forall_forall in *. intros x Hx. split; [by apply Hval|]. eapply good_not_start; [exact Hv|by apply Hgk]. }
  apply Forall_cons in Hval as [Hk Hval]. apply Forall_cons in Hgk as [Gk Gr].
  cbn [meaning flat_map] in Hmk. fold (meaning t rest) in Hmk.
  assert (Hshow : Forall (λ c, shown c = true) (denote t k ++ meaning t rest)) by (rewrite Hmk; by constructor).
  apply Forall_app in Hshow as [Hs1 Hs2].
  cbn [echo]. destruct (print_token t' 1 k e' Ht' Hv' Hk Gk Hs1) as (p & Hd & Hc).
  erewrite bind_run by exact Hd. erewrite bind_run by exact Hc.
  erewrite bind_run by (apply (echo_runs t' e' Ht' Hv'); [by eapply good_not_start|done..]).
  rewrite Ek. change (denote t' k) with (denote t k). change (meaning t' rest) with (meaning t rest).
  assert (Hdk : denote t k ≠ []) by (unfold denote; rewrite Ek; by apply (tv_full t Hv)).
  destruct (denote t k) as [|d ds]; [done|]. injection Hmk as -> Hmk. cbn. by rewrite Hmk.
Qed.
End Tokenizer.

(** C29: The encoder terminates within its buffers and keeps the text.  On any text,
    with a vocabulary as the model needs it and working memory, it returns at
    most [strlen + 2] valid tokens (and the end token) in an array of
    [strlen + 3]; they spell the start token, a space and the characters of the
    text, each by itself or by its byte tokens; and no neighbouring pair could
    still be merged. *)
Theorem encode_exact {F E} `{FloatOps F} `{FloatFile F} (malloc : Z → E → bool * E) (t : Tokenizer F) text bos eos e :
  (∀ n e, fst (malloc n e) = true) → tok_ok t → sorted_vocab t = None ∨ indexed t →
  ∃ t' e' toks, encode malloc t text bos eos (strlen text + 3) e = Some ((t', toks ++ (if eos then [2] else [])), e') ∧
    vocab t' = vocab t ∧ indexed t' ∧ Forall (valid t) toks ∧ Z.of_nat (length toks) ≤ strlen text + 2 ∧
    text_of t toks = (if bos then spell t 1 else []) ++
      (if cstr text is [] then [] else [32]) ++ flat_map (piece_text t) (split_utf8 (cstr text) []) ∧
    concat (split_utf8 (cstr text) []) = cstr text ∧
    ∀ k x y, adjacent toks k x y → unmergeable t f_m1e10 x y.
Proof.
  intros Hm Ht Hs. destruct (encode_runs malloc t text bos eos e Hm Ht Hs) as (sv & e' & pre & toks & Hr & Hi & Hv & Hl & _ & Hmg & Hx & Hn).
  exists (with_index t sv), e', toks. do 5 (split; [done|]). split; [|split; [|done]].
  { rewrite <- Hx. by apply (Hmg (λ toks, text_of t toks = text_of t pre)); [apply text_kept|]. }
  rewrite split_utf8_concat by done. by destruct (cstr text).
Qed.

(** A small vocabulary: the three special tokens, the 256 byte tokens, and a few
    strings. *)
Definition small_vocab : list (list Z) :=
  map (λ s, lit s ++ [0]) ["<unk>"; "<s>"; "</s>"]%string ++
  map (λ i, let v := Z.of_nat i in lit "<0x" ++ [hex_digit true (v / 16); hex_digit true (v mod 16)] ++ lit ">" ++ [0]) (seq 0 256) ++
  map (λ s, lit s ++ [0]) [" "; "a"; "b"; "ab"; " ab"]%string.
Definition small_tokenizer : Tokenizer Z :=
  MkTokenizer small_vocab (map Z.of_nat (seq 0 264)) None 264 6 [].
#[local] Existing Instance int_floats.
Definition int_file : FloatFile Z := {| f_m1e10 := -10000000000; f_bits := λ z, z |}.
#[local] Existing Instance int_file.

Lemma small_range (P : Z → Prop) : Forall P (seqZ 0 264) → ∀ k, valid small_tokenizer k → P k.
Proof. intros HP k Hk. rewrite Forall_forall in HP. apply HP, elem_of_seqZ. exact Hk. Qed.

Lemma small_ok : tok_ok small_tokenizer.
Proof.
  split; [vm_compute; reflexivity|vm_compute; reflexivity|vm_compute; split; congruence|vm_compute; split; congruence| |].
  - eapply bool_decide_unpack. vm_compute. exact I.
  - exists 259. vm_compute. split; [split; [congruence|reflexivity]|reflexivity].
Qed.

Lemma encode_exact_witness :
  ∃ t' toks, encode (λ (_ : Z) (e : unit), (true, e)) small_tokenizer (lit "abc") true false 6 tt = Some ((t', toks ++ []), tt) ∧
    text_of small_tokenizer toks = lit "<s> ab<0x63>".
Proof.
  destruct (encode_exact (λ (_ : Z) (e : unit), (true, e)) small_tokenizer (lit "abc") true false tt)
    as (t' & [] & toks & Hr & _ & _ & _ & _ & Hx & _).
  - reflexivity.
  - exact small_ok.
  - left. reflexivity.
  - exists t', toks. split; [exact Hr|]. rewrite Hx. vm_compute. reflexivity.
Defined.

Lemma small_text : text_vocab small_tokenizer.
Proof.
  assert (Hfull : ∀ k, valid small_tokenizer k → spell small_tokenizer k ≠ []).
  { apply small_range. eapply bool_decide_unpack. vm_compute. exact I. }
  split.
  - intros b Hb. assert (Hn : Forall (λ b, spell small_tokenizer (b + 3) = byte_spelling b) (seqZ 0 256))
      by (eapply bool_decide_unpack; vm_compute; exact I).
    rewrite Forall_forall in Hn. apply Hn, elem_of_seqZ. lia.
  - intros k l r Hk Hb Hs. assert (Hn : byte_tok k = true ∨ 48 ∉ spell small_tokenizer k).
    { revert k Hk Hb Hs. intros k Hk _ _. revert k Hk. apply small_range. eapply bool_decide_unpack. vm_compute. exact I. }
    destruct Hn as [Hn|Hn]; [congruence|]. apply Hn. rewrite Hs. apply elem_of_app. right. right. left.
  - exact Hfull.
  - intros k y Hk Hy Hs. assert (Hn : take 3 (spell small_tokenizer k) ≠ spell small_tokenizer 1 ∨
      length (spell small_tokenizer k) = 3%nat).
    { clear Hs. revert k Hk. apply small_range. eapply bool_decide_unpack. vm_compute. exact I. }
    destruct Hn as [Hn|Hn].
    + apply Hn. rewrite Hs. reflexivity.
    + apply (Hfull y Hy). apply (f_equal length) in Hs. rewrite Hn, length_app in Hs.
      change (length (spell small_tokenizer 1)) with 3%nat in Hs. destruct (spell small_tokenizer y); [done|cbn in Hs; lia].
  - left.
  - eapply bool_decide_unpack. vm_compute. exact I.
Qed.

Definition no_doubles : DoubleOps unit := {|
  d_of _ := tt; d_half := tt; d_tenth := tt; dadd _ _ := tt; dsub _ _ := tt; dmul _ _ := tt; ddiv _ _ := tt; dneg _ := tt;
  d_nan _ := false; d_pinf _ := false; d_ninf _ := false; d_ltz _ := false; d_gez _ := true; d_trunc _ := 0 |}.
