(* ===== verification/Sampler.v ===== *)
(** * The sampler (src/xv6-riscv/user/llama_core.c)

    The choice of the next token from the logits: greedy, multinomial and
    nucleus sampling, and the xorshift generator behind the last two.  Floating
    point is abstract; an access outside an array is a fault of the model. *)
From S2P Require Import Prelude Llama Sort.

(** The comparisons the sampler uses besides [>]. *)
Class FloatTest (F : Type) := { fge : F → F → bool; feq : F → F → bool }.

Record ProbIndex (F : Type) := MkProbIndex { prob : F; pindex : Z }.
#[global] Arguments MkProbIndex {F}.
#[global] Arguments prob {F}.
#[global] Arguments pindex {F}.
Definition PROB_INDEX_SIZE : Z := 8.

Record Sampler (F : Type) := MkSampler {
  sampler_vocab_size : Z;
  temperature : F;
  topp : F;
  rng_state : Z;
}.
#[global] Arguments MkSampler {F}.
#[global] Arguments sampler_vocab_size {F}.
#[global] Arguments temperature {F}.
#[global] Arguments topp {F}.
#[global] Arguments rng_state {F}.

Lemma omap_length {A B} (f : A → option B) l : (length (omap f l) ≤ length l)%nat.
Proof.
  induction l as [|x l IH]; [done|].
  change (omap f (x :: l)) with (match f x with Some y => y :: omap f l | None => omap f l end).
  destruct (f x); cbn [length]; lia.
Qed.

(** ** Random numbers *)

Definition xorshift (state : Z) : Z :=
  let state := Z.lxor state (state ≫ 12) in
  let state := Z.lxor state (u64 (state ≪ 25)) in
  Z.lxor state (state ≫ 27).

(** The value and the next state. *)
Definition random_u32 (state : Z) : Z * Z :=
  let state := xorshift state in
  (u32 (u64 (state * 0x2545F4914F6CDD1D) ≫ 32), state).

Section Sampler.
Context {F E : Type} `{FloatOps F} `{FloatTest F} (malloc : Z → E → bool * E).

Definition random_f32 (state : Z) : F * Z :=
  let '(r, state) := random_u32 state in (fdiv (fint (r ≫ 8)) (fint 16777216), state).

(** ** Choosing an index *)

Fixpoint argmax_loop (i max_i : Z) (max_p : F) (ps : list F) : Z :=
  match ps with
  | [] => max_i
  | p :: ps => if fgt p max_p then argmax_loop (i + 1) i p ps else argmax_loop (i + 1) max_i max_p ps
  end.

Definition sample_argmax (probabilities : list F) : M E Z :=
  match probabilities with p :: ps => ret (argmax_loop 1 0 p ps) | [] => fault end.

Fixpoint mult_loop (i : Z) (cdf coin : F) (ps : list F) : option Z :=
  match ps with
  | [] => None
  | p :: ps => let cdf := fadd cdf p in if fgt cdf coin then Some i else mult_loop (i + 1) cdf coin ps
  end.

Definition sample_mult (probabilities : list F) (coin : F) : Z :=
  match mult_loop 0 f0 coin probabilities with Some i => i | None => Z.of_nat (length probabilities) - 1 end.

Definition compare (a b : ProbIndex F) : Z :=
  if fgt (prob a) (prob b) then -1 else if fgt (prob b) (prob a) then 1 else 0.

(** The candidates at or above the cut-off. *)
Definition candidates (cutoff : F) (probabilities : list F) : list (ProbIndex F) :=
  omap (λ '(i, p), if fge p cutoff then Some (MkProbIndex p i) else None)
    (imap (λ i p, (Z.of_nat i, p)) probabilities).

(** The index of the candidate at which the sum exceeds [topp], and the sum. *)
Fixpoint truncate (i : Z) (cum topp : F) (ps : list (ProbIndex F)) : option Z * F :=
  match ps with
  | [] => (None, cum)
  | p :: ps => let cum := fadd cum (prob p) in if fgt cum topp then (Some i, cum) else truncate (i + 1) cum topp ps
  end.

Fixpoint pick_loop (cdf r : F) (ps : list (ProbIndex F)) : option Z :=
  match ps with
  | [] => None
  | p :: ps => let cdf := fadd cdf (prob p) in if fgt cdf r then Some (pindex p) else pick_loop cdf r ps
  end.

Definition sample_topp (probabilities : list F) (topp coin : F) : M E Z :=
  let n := Z.of_nat (length probabilities) in
  let cutoff := fdiv (fsub f1 topp) (fint (n - 1)) in
  let probindex := candidates cutoff probabilities in
  let n0 := Z.of_nat (length probindex) in
  λ e, match xqsort compare malloc PROB_INDEX_SIZE n0 (probindex, e) with
       | Some (_, (probindex, e)) =>
           let '(t, cumulative_prob) := truncate 0 f0 topp probindex in
           let last_idx := default (n0 - 1) t in
           let r := fmul coin cumulative_prob in
           match pick_loop f0 r (take (Z.to_nat (last_idx + 1)) probindex) with
           | Some i => Some (i, e)
           | None => if last_idx <? 0 then None
                     else (λ p, (pindex p, e)) <$> probindex !! Z.to_nat last_idx
           end
       | None => None
       end.

Definition build_sampler (vocab_size : Z) (temperature topp : F) (rng_seed : Z) : Sampler F :=
  MkSampler vocab_size temperature topp rng_seed.

(** The chosen token, the sampler and the logits, which become probabilities. *)
Definition sample (s : Sampler F) (logits : list F) : M E (Z * Sampler F * list F) :=
  let n := Z.to_nat (sampler_vocab_size s) in
  if feq (temperature s) f0 then
    let* next := sample_argmax (take n logits) in ret (next, s, logits)
  else
    let probs := softmax (map (λ l, fdiv l (temperature s)) (take n logits)) in
    let '(coin, state) := random_f32 (rng_state s) in
    let s := MkSampler (sampler_vocab_size s) (temperature s) (topp s) state in
    let logits := probs ++ drop n logits in
    if fge f0 (topp s) || fge (topp s) f1
    then ret (sample_mult probs coin, s, logits)
    else let* next := sample_topp probs (topp s) coin in ret (next, s, logits).

(** ** Greedy choice *)

Section Argmax.
Hypothesis gt_irrefl : ∀ x : F, fgt x x = false.
Hypothesis gt_trans : ∀ x y z : F, fgt x y = true → fgt y z = true → fgt x z = true.

Lemma argmax_loop_max ps : ∀ all i max_i max_p, drop (Z.to_nat i) all = ps → 0 < i →
  0 ≤ max_i < i → all !! Z.to_nat max_i = Some max_p →
  (∀ j p, (j < Z.to_nat i)%nat → all !! j = Some p → fgt p max_p = false) →
  ∃ m, 0 ≤ argmax_loop i max_i max_p ps ∧ all !! Z.to_nat (argmax_loop i max_i max_p ps) = Some m ∧
    ∀ p, p ∈ all → fgt p m = false.
Proof.
  induction ps as [|p ps IH]; intros all i max_i max_p Hd Hi Hm Hx Hle; cbn [argmax_loop].
  { assert (Hlen : (length all ≤ Z.to_nat i)%nat).
    { apply (f_equal length) in Hd. rewrite length_drop in Hd. cbn in Hd. lia. }
    exists max_p. split; [lia|]. split; [done|]. intros q Hq. apply list_elem_of_lookup_1 in Hq as [j Hq].
    apply (Hle j); [apply lookup_lt_Some in Hq; lia|done]. }
  assert (Hp : all !! Z.to_nat i = Some p).
  { pose proof (lookup_drop all (Z.to_nat i) 0) as El. rewrite Hd in El. cbn in El. by rewrite El, Nat.add_0_r. }
  assert (Hd' : drop (Z.to_nat (i + 1)) all = ps).
  { replace (Z.to_nat (i + 1)) with (Z.to_nat i + 1)%nat by lia. rewrite <- drop_drop, Hd. done. }
  destruct (fgt p max_p) eqn:Eg; (apply IH; [done|lia|lia|done|]); intros j q Hj Hq;
    destruct (decide (j = Z.to_nat i)) as [->|].
  - rewrite Hp in Hq. injection Hq as <-. apply gt_irrefl.
  - destruct (fgt q p) eqn:Eq; [|done]. pose proof (gt_trans _ _ _ Eq Eg) as Ex. rewrite (Hle j q) in Ex; [done|lia|done].
  - congruence.
  - apply (Hle j); [lia|done].
Qed.

(** At temperature zero the sampler returns an index of the logits at which no
    logit is greater, and changes nothing. *)
Lemma sample_greedy s logits e : feq (temperature s) f0 = true → 0 < sampler_vocab_size s →
  Z.of_nat (length logits) = sampler_vocab_size s →
  ∃ i m, sample s logits e = Some (i, s, logits, e) ∧ 0 ≤ i < sampler_vocab_size s ∧
    logits !! Z.to_nat i = Some m ∧ ∀ p, p ∈ logits → fgt p m = false.
Proof.
  intros Ht Hn Hl. unfold sample. rewrite Ht. rewrite take_ge by lia. destruct logits as [|p ps]; [cbn in Hl; lia|].
  destruct (argmax_loop_max ps (p :: ps) 1 0 p) as (m & Hge & Hm & Hmax); [done|lia|lia|done| |].
  { intros j q Hj Hq. replace j with 0%nat in Hq by lia. injection Hq as <-. apply gt_irrefl. }
  exists (argmax_loop 1 0 p ps), m. split_and!; [done|done| |done|done].
  apply lookup_lt_Some in Hm. rewrite <- Hl. cbn [length] in *. lia.
Qed.
End Argmax.

(** ** Range *)

Lemma mult_loop_range coin ps : ∀ i cdf r, mult_loop i cdf coin ps = Some r → i ≤ r < i + Z.of_nat (length ps).
Proof.
  induction ps as [|p ps IH]; intros i cdf r Hr; [done|]. cbn [mult_loop length] in *.
  destruct (fgt _ coin); [injection Hr as <-; lia|]. apply IH in Hr. lia.
Qed.

Lemma sample_mult_range ps coin : ps ≠ [] → 0 ≤ sample_mult ps coin < Z.of_nat (length ps).
Proof.
  intros Hn. unfold sample_mult. destruct (mult_loop 0 f0 coin ps) as [r|] eqn:Er.
  - apply mult_loop_range in Er. lia.
  - destruct ps; [done|cbn; lia].
Qed.

Lemma candidates_range cutoff ps c : c ∈ candidates cutoff ps → 0 ≤ pindex c < Z.of_nat (length ps).
Proof.
  unfold candidates. intros ([i p] & Hin & Hc)%list_elem_of_omap. destruct (fge p cutoff); [|done]. injection Hc as <-. cbn.
  apply list_elem_of_lookup_1 in Hin as [k Hk]. rewrite list_lookup_imap in Hk.
  destruct (ps !! k) as [q|] eqn:Eq; [|done]. injection Hk as <- _. apply lookup_lt_Some in Eq. lia.
Qed.

Lemma pick_loop_elem r ps : ∀ cdf i, pick_loop cdf r ps = Some i → ∃ c, c ∈ ps ∧ pindex c = i.
Proof.
  induction ps as [|p ps IH]; intros cdf i Hr; [done|]. cbn [pick_loop] in Hr. destruct (fgt _ r).
  - injection Hr as <-. exists p. split; [by left|done].
  - apply IH in Hr as (c & Hc & Hi). exists c. split; [by right|done].
Qed.

Lemma truncate_range topp ps : ∀ i cum k cum', truncate i cum topp ps = (Some k, cum') → i ≤ k < i + Z.of_nat (length ps).
Proof.
  induction ps as [|p ps IH]; intros i cum k cum' Hr; [done|]. cbn [truncate length] in *.
  destruct (fgt _ topp); [injection Hr as <- _; lia|]. apply IH in Hr. lia.
Qed.

(** Nucleus sampling returns an index of the distribution, provided some
    probability reaches the cut-off. *)
Lemma sample_topp_range `{!Comparator compare} ps tp coin e :
  candidates (fdiv (fsub f1 tp) (fint (Z.of_nat (length ps) - 1))) ps ≠ [] → Z.of_nat (length ps) ≤ 2 ^ 29 →
  ∃ i e', sample_topp ps tp coin e = Some (i, e') ∧ 0 ≤ i < Z.of_nat (length ps).
Proof.
  intros Hne Hn. unfold sample_topp. set (cs := candidates _ ps) in *.
  assert (Hcs : ∀ c, c ∈ cs → 0 ≤ pindex c < Z.of_nat (length ps)) by (intros c; apply candidates_range).
  assert (Hlen : (length cs ≤ length ps)%nat).
  { unfold cs, candidates. rewrite <- (length_imap (λ i p, (Z.of_nat i, p)) ps). apply omap_length. }
  destruct (xqsort_runs compare malloc PROB_INDEX_SIZE ltac:(done) cs e) as (cs' & e' & Hr & Hp & _);
    [unfold fits, PROB_INDEX_SIZE; lia|lia|].
  rewrite Hr. assert (Hcs' : ∀ c, c ∈ cs' → 0 ≤ pindex c < Z.of_nat (length ps)) by (intros c Hc; apply Hcs; by rewrite <- Hp).
  assert (Hl' : length cs' = length cs) by by rewrite Hp. assert (0 < length cs)%nat by (destruct cs; [done|cbn; lia]).
  destruct (truncate 0 f0 tp cs') as [t cum] eqn:Et.
  assert (Hk : 0 ≤ default (Z.of_nat (length cs) - 1) t < Z.of_nat (length cs')).
  { destruct t as [k|]; cbn; [apply truncate_range in Et|]; lia. }
  destruct (pick_loop _ _ _) as [i|] eqn:Ep.
  - apply pick_loop_elem in Ep as (c & Hc & <-). exists (pindex c), e'. split; [done|]. apply Hcs'.
    apply list_elem_of_lookup_1 in Hc as [j Hj]. apply lookup_take_Some in Hj as [Hj _]. by eapply list_elem_of_lookup_2.
  - destruct (Z.ltb_spec (default (Z.of_nat (length cs) - 1) t) 0); [lia|].
    destruct (lookup_lt_is_Some_2 cs' (Z.to_nat (default (Z.of_nat (length cs) - 1) t))) as [c Hc]; [lia|].
    rewrite Hc. exists (pindex c), e'. split; [done|]. apply Hcs'. by eapply list_elem_of_lookup_2.
Qed.
End Sampler.

(** ** The generator *)

Lemma shiftr_fix x n : 0 ≤ x → 0 < n → x ≫ n = x → x = 0.
Proof.
  intros Hx Hn Hs. rewrite shiftr_div in Hs by lia. destruct (decide (x = 0)); [done|].
  pose proof (Z.div_lt x (2 ^ n)). assert (1 < 2 ^ n) by (apply Z.pow_gt_1; lia). lia.
Qed.

Lemma shiftl_fix x : 0 ≤ x < 2 ^ 64 → u64 (x ≪ 25) = x → x = 0.
Proof.
  intros Hx Hs. unfold u64 in Hs. rewrite Z.shiftl_mul_pow2 in Hs by lia.
  assert (Hd : (2 ^ 64 | (2 ^ 25 - 1) * x)).
  { exists (x * 2 ^ 25 / 2 ^ 64). pose proof (Z.div_mod (x * 2 ^ 25) (2 ^ 64)). lia. }
  apply Z.gauss in Hd; [|reflexivity]. destruct Hd as [k ->]. nia.
Qed.

Lemma lxor_u64 a b : 0 ≤ a < 2 ^ 64 → 0 ≤ b < 2 ^ 64 → 0 ≤ Z.lxor a b < 2 ^ 64.
Proof.
  intros Ha Hb. split; [apply Z.lxor_nonneg; lia|]. destruct (decide (Z.lxor a b = 0)) as [->|]; [lia|].
  apply Z.log2_lt_pow2; [pose proof (Z.lxor_nonneg a b); lia|].
  eapply Z.le_lt_trans; [apply Z.log2_lxor; lia|].
  apply Z.max_lub_lt; [destruct (decide (a = 0)) as [->|]|destruct (decide (b = 0)) as [->|]]; try (cbn; lia);
    apply Z.log2_lt_pow2; lia.
Qed.

(** The state stays a non-zero 64-bit number, so the generator never sticks. *)
Lemma xorshift_nonzero x : 0 < x < 2 ^ 64 → 0 < xorshift x < 2 ^ 64.
Proof.
  intros Hx. unfold xorshift.
  assert (Hr : ∀ y n, 0 < y < 2 ^ 64 → 0 < n → 0 < Z.lxor y (y ≫ n) < 2 ^ 64).
  { intros y n Hy Hn. assert (Hs : 0 ≤ y ≫ n < 2 ^ 64).
    { rewrite shiftr_div by lia. assert (0 < 2 ^ n) by (apply Z.pow_pos_nonneg; lia).
      pose proof (Z.div_le_upper_bound y (2 ^ n) y). pose proof (Z.div_pos y (2 ^ n)). nia. }
    pose proof (lxor_u64 y (y ≫ n) ltac:(lia) Hs). destruct (decide (Z.lxor y (y ≫ n) = 0)) as [E0|]; [|lia].
    apply Z.lxor_eq in E0. symmetry in E0. apply shiftr_fix in E0; lia. }
  pose proof (Hr x 12 Hx ltac:(lia)) as H1. set (y := Z.lxor x (x ≫ 12)) in *.
  assert (H2 : 0 < Z.lxor y (u64 (y ≪ 25)) < 2 ^ 64).
  { assert (Hu : 0 ≤ u64 (y ≪ 25) < 2 ^ 64) by (apply Z.mod_pos_bound; lia).
    pose proof (lxor_u64 y (u64 (y ≪ 25)) ltac:(lia) Hu).
    destruct (decide (Z.lxor y (u64 (y ≪ 25)) = 0)) as [E0|]; [|lia].
    apply Z.lxor_eq in E0. symmetry in E0. apply shiftl_fix in E0; lia. }
  apply (Hr _ 27 H2 ltac:(lia)).
Qed.
