(* ===== verification/Session.v ===== *)
(** * The master's generation session (src/xv6-riscv/user/distinf.c)

    The single thread of the master: it pumps the socket, assigns the layers,
    sends each embedded token round the ring, classifies what comes back and
    prints the next token.  The state joins that of the discovery layer with the
    statics of distinf.c; a float is its bit pattern.  [rdtime], the shared
    segments and the file transfer are the environment. *)
From Stdlib Require Import String.
From S2P Require Import Prelude RpcMsg Kernel Rpc Registry Wire Master Hop Llama Checkpoint Shard Worker.
From S2P Require Import Text Tokenizer Sampler.

(** The tokenizer file: its size, the segment that may hold it, its transfer; and
    the server the workers are told to load from. *)
Class FileEnv (E : Type) := {
  env_meta : Z → E → option Z * E;
  env_shmfind : list Z → Z → E → Z * E;
  env_attach : Z → E → option (list Z) * E;
  env_fetch_file : Z → Z → E → option (list Z) * E;
  env_server : E → Z * Z;
}.

Definition MASTER_HOOK_INTERVAL_TICKS : Z := 20.
Definition FILE_TOKENIZER : Z := 2.

(** [g_model] without the layers, [g_tok] and [g_sampler]. *)
Record model_t := Model {
  g_config : Config; g_table : list Z; g_norm : list Z; g_logits : list Z;
  g_tok : Tokenizer Z; g_sampler : Sampler Z;
}.

Record ring_t := Ring {
  g_ready_count : Z; g_ready_failed : bool; g_session : Z;
  g_final_x : list Z; g_have_final : bool; g_final_seq : Z; g_final_compute_us : Z; g_seq : Z;
}.

Record metrics_t := Metrics {
  g_metric_rtt_us : Z; g_metric_compute_us : Z; g_metric_master_us : Z; g_metric_tokens : Z;
}.

Record dist_t (K E : Type) := Dist {
  disc : master_t K;
  denv : E;
  model : model_t;
  ring : ring_t;
  metrics : metrics_t;
  (** the statics of [master_pump], [master_pump_hook] and [master_run_token] *)
  pump_msg : rpc_msg_t;
  pump_src : rpc_addr_t;
  hook_last : Z;
  token_x : list Z;
  (** the generated text *)
  console : list Z;
}.
Arguments Dist {K E}.
Arguments disc {K E}.
Arguments denv {K E}.
Arguments model {K E}.
Arguments ring {K E}.
Arguments metrics {K E}.
Arguments pump_msg {K E}.
Arguments pump_src {K E}.
Arguments hook_last {K E}.
Arguments token_x {K E}.
Arguments console {K E}.

Section Session.
Context {K E D : Type} `{Kernel K} `{ShardEnv E} `{NodeEnv E} `{FileEnv E} `{FloatOps Z} `{FloatFile Z} `{FloatTest Z} `{DoubleOps D}.

Abbreviation T := (dist_t K E).
Abbreviation S := (M T).

(** ** State updates *)

Definition set_disc (d : master_t K) (s : T) : T :=
  Dist d (denv s) (model s) (ring s) (metrics s) (pump_msg s) (pump_src s) (hook_last s) (token_x s) (console s).
Definition set_denv (e : E) (s : T) : T :=
  Dist (disc s) e (model s) (ring s) (metrics s) (pump_msg s) (pump_src s) (hook_last s) (token_x s) (console s).
Definition set_model (m : model_t) (s : T) : T :=
  Dist (disc s) (denv s) m (ring s) (metrics s) (pump_msg s) (pump_src s) (hook_last s) (token_x s) (console s).
Definition set_ring (r : ring_t) (s : T) : T :=
  Dist (disc s) (denv s) (model s) r (metrics s) (pump_msg s) (pump_src s) (hook_last s) (token_x s) (console s).
Definition set_metrics (m : metrics_t) (s : T) : T :=
  Dist (disc s) (denv s) (model s) (ring s) m (pump_msg s) (pump_src s) (hook_last s) (token_x s) (console s).
Definition set_pump (m : rpc_msg_t) (a : rpc_addr_t) (s : T) : T :=
  Dist (disc s) (denv s) (model s) (ring s) (metrics s) m a (hook_last s) (token_x s) (console s).
Definition set_hook_last (n : Z) (s : T) : T :=
  Dist (disc s) (denv s) (model s) (ring s) (metrics s) (pump_msg s) (pump_src s) n (token_x s) (console s).
Definition set_token_x (x : list Z) (s : T) : T :=
  Dist (disc s) (denv s) (model s) (ring s) (metrics s) (pump_msg s) (pump_src s) (hook_last s) x (console s).
Definition set_console (c : list Z) (s : T) : T :=
  Dist (disc s) (denv s) (model s) (ring s) (metrics s) (pump_msg s) (pump_src s) (hook_last s) (token_x s) c.

Definition on_disc {A} (m : M (master_t K) A) : S A := zoom disc set_disc m.
Definition on_denv {A} (m : M E A) : S A := zoom denv set_denv m.
Definition uptime : S Z := on_disc (on_rpc (sys sys_uptime)).
Definition rdtime : S Z := on_denv (env env_rdtime).

Definition count_ready (r : ring_t) : ring_t :=
  Ring (s32 (g_ready_count r + 1)) (g_ready_failed r) (g_session r) (g_final_x r) (g_have_final r) (g_final_seq r)
    (g_final_compute_us r) (g_seq r).
Definition fail_ready (r : ring_t) : ring_t :=
  Ring (g_ready_count r) true (g_session r) (g_final_x r) (g_have_final r) (g_final_seq r)
    (g_final_compute_us r) (g_seq r).
Definition commit_final (x : list Z) (us : Z) (r : ring_t) : ring_t :=
  Ring (g_ready_count r) (g_ready_failed r) (g_session r) (overwrite 0 x (g_final_x r)) true (g_final_seq r) us (g_seq r).
Definition clear_final (r : ring_t) : ring_t :=
  Ring (g_ready_count r) (g_ready_failed r) (g_session r) (g_final_x r) false (g_final_seq r)
    (g_final_compute_us r) (g_seq r).
(** [g_final_seq = ++g_seq] *)
Definition next_seq (r : ring_t) : ring_t :=
  Ring (g_ready_count r) (g_ready_failed r) (g_session r) (g_final_x r) (g_have_final r) (u32 (g_seq r + 1))
    (g_final_compute_us r) (u32 (g_seq r + 1)).
Definition set_epoch (ss : Z) (r : ring_t) : ring_t :=
  Ring (g_ready_count r) (g_ready_failed r) ss (g_final_x r) (g_have_final r) (g_final_seq r)
    (g_final_compute_us r) (g_seq r).
Definition reset_ready (r : ring_t) : ring_t :=
  Ring 0 false (g_session r) (g_final_x r) (g_have_final r) (g_final_seq r) (g_final_compute_us r) (g_seq r).
Definition set_final_x (x : list Z) (r : ring_t) : ring_t :=
  Ring (g_ready_count r) (g_ready_failed r) (g_session r) x (g_have_final r) (g_final_seq r)
    (g_final_compute_us r) (g_seq r).

Definition add_master_us (us : Z) (m : metrics_t) : metrics_t :=
  Metrics (g_metric_rtt_us m) (g_metric_compute_us m) (u64 (g_metric_master_us m + us)) (g_metric_tokens m).
Definition add_token (rtt compute : Z) (m : metrics_t) : metrics_t :=
  Metrics (u64 (g_metric_rtt_us m + rtt)) (u64 (g_metric_compute_us m + compute)) (g_metric_master_us m)
    (s32 (g_metric_tokens m + 1)).

(** ** Messages *)

Definition master_handle_shard_ready (msg : rpc_msg_t) : S unit :=
  if payload_len msg <? Z.of_nat SHARD_READY_WORDS * 4 then ret tt
  else
    let r := words_ready (get_words (payload msg) 0 SHARD_READY_WORDS) in
    let* g := gets ring in
    if negb (sr_session_id r =? g_session g) then ret tt
    else if negb (sr_status r =? 0) then modify (λ s, set_ring (fail_ready (ring s)) s)
    else modify (λ s, set_ring (count_ready (ring s)) s).

(** The worker whose next hop is the master. *)
Definition is_tail (mip mport : Z) (e : worker_entry_t) : bool :=
  is_active e && (next_ip e =? mip) && (next_port e =? mport).

Definition master_ring_tail : S (option nat) :=
  on_disc (
    let* mip := on_rpc (sys sys_ip) in
    let* mport := on_rpc rpc_local_port in
    gets (λ d, first_slot (is_tail mip mport) (registry d))).

Definition master_handle_final (msg : rpc_msg_t) (src : rpc_addr_t) : S unit :=
  let* s := get in
  match infer_decode_hop msg (dim (g_config (model s))) (g_session (ring s)) with
  | None => ret tt
  | Some (h, x) =>
      if Z.land (ih_flags h) INFER_FLAG_FINAL =? 0 then ret tt
      else if negb (ih_seq h =? g_final_seq (ring s)) then ret tt
      else
        let* tail := master_ring_tail in
        let* reg := gets (λ s, registry (disc s)) in
        match tail with
        | Some i =>
            if same_addr src (info_ip (info (reg !!! i))) (info_port (info (reg !!! i)))
            then modify (λ s, set_ring (commit_final x (ih_compute_us h) (ring s)) s)
            else ret tt
        | None => ret tt
        end
  end.

Definition master_pump (ms : Z) : S unit :=
  let* s := get in
  let* (r, msg, src) := on_disc (on_rpc (rpc_recv (pump_msg s) (pump_src s) ms)) in
  modify (set_pump msg src) ;;*
  (if (r =? RPC_OK) && (mtype msg =? MSG_CALL) then
     if proc (call msg) =? PROC_SHARD_READY then master_handle_shard_ready msg
     else if proc (call msg) =? PROC_INFER_REQ then master_handle_final msg src
     else let* now := uptime in on_disc (discovery_handle_call msg src now) ;;* ret tt
   else ret tt) ;;*
  let* now := uptime in
  on_disc (discovery_expire_workers now).

Definition master_pump_hook : S unit :=
  let* now := uptime in
  let now := u32 now in
  let* last := gets hook_last in
  if u32 (now - last) <? MASTER_HOOK_INTERVAL_TICKS then ret tt
  else modify (set_hook_last now) ;;* master_pump 0.

(** ** One token *)

(** The measurements of a completed token. *)
Definition record_token (send_t0 : Z) : S unit :=
  let* t := rdtime in
  modify (λ s, set_metrics (add_token (u64 (t - send_t0) / 10) (g_final_compute_us (ring s)) (metrics s)) s).

(** [waited < INFER_TOKEN_TIMEOUT_MS], in steps of 200 ms: 75 pumps. *)
Fixpoint wait_final (n : nat) (send_t0 : Z) : S bool :=
  match n with
  | O => ret false
  | Datatypes.S n =>
      master_pump 200 ;;*
      let* g := gets ring in
      if g_have_final g then record_token send_t0 ;;* ret true else wait_final n send_t0
  end.

Definition WAITS : nat := Z.to_nat (INFER_TOKEN_TIMEOUT_MS / 200).

(** The hop of an attempt. *)
Definition first_hop (g : ring_t) (c : Config) (pos : Z) : infer_hop_t :=
  InferHop (g_session g) (g_final_seq g) (u32 pos) 0 (u32 (dim c)) 0 0.

(** One transmission; its time. *)
Definition send_attempt (head : rpc_addr_t) (pos : Z) : S Z :=
  modify (λ s, set_ring (next_seq (ring s)) s) ;;*
  let* s := get in
  let* send_t0 := rdtime in
  on_disc (on_rpc (infer_send_hop head (first_hop (ring s) (g_config (model s)) pos) (token_x s))) ;;*
  ret send_t0.

Fixpoint token_attempts (n : nat) (head : rpc_addr_t) (pos : Z) : S Z :=
  match n with
  | O => ret (-1)
  | Datatypes.S n =>
      let* send_t0 := send_attempt head pos in
      let* ok := wait_final WAITS send_t0 in
      if ok then ret 0 else token_attempts n head pos
  end.

(** [llama_embed] into the static buffer, inside the table. *)
Definition embed_token (token : Z) : S unit :=
  let* m := gets model in
  if (0 <=? token) && (token <? vocab_size (g_config m))
  then modify (λ s, set_token_x (llama_embed (g_table m) (g_config m) (token_x s) (Z.to_nat token)) s)
  else fault.

(** Before the first attempt. *)
Definition start_token (token : Z) : S unit :=
  let* embed_t0 := rdtime in
  embed_token token ;;*
  let* t := rdtime in
  modify (λ s, set_metrics (add_master_us (u64 (t - embed_t0) / 10) (metrics s)) s) ;;*
  modify (λ s, set_ring (clear_final (ring s)) s).

Definition head_addr (head_slot : nat) (s : T) : rpc_addr_t :=
  let e := registry (disc s) !!! head_slot in RpcAddr (info_ip (info e)) (info_port (info e)).

Definition master_run_token (token pos : Z) (head_slot : nat) : S Z :=
  start_token token ;;*
  let* head := gets (head_addr head_slot) in
  token_attempts (Z.to_nat (INFER_MAX_RETRIES + 1)) head pos.

(** ** A session *)

(** A fresh epoch. *)
Definition draw_session : S Z :=
  let* bs := on_disc (on_rpc (sys (sys_getentropy 4))) in
  let ss := match bs with Some bs => le32_at bs 0 | None => 0 end in
  let* ss := if ss =? 0 then let* t := uptime in ret (Z.lor (u32 t) 1) else ret ss in
  modify (λ s, set_ring (set_epoch ss (ring s)) s) ;;*
  ret ss.

Fixpoint notify_all (slots : list nat) : S unit :=
  match slots with
  | [] => ret tt
  | slot :: slots =>
      let* reg := gets (λ s, registry (disc s)) in
      let e := reg !!! slot in
      on_disc (discovery_notify_neighbor (RpcAddr (info_ip (info e)) (info_port (info e)))
                 (SetNeighbor (prev_ip e) (prev_port e) (next_ip e) (next_port e))) ;;*
      notify_all slots
  end.

(** Whether every assignment was accepted. *)
Fixpoint assign_all (tmpl : assign_layers_t) (ks : list nat) : S bool :=
  match ks with
  | [] => ret true
  | k :: ks =>
      let* r := on_disc (discovery_assign_one tmpl (Z.of_nat k)) in
      if r =? RPC_OK then assign_all tmpl ks else ret false
  end.

(** Pumps until every shard reported, one failed, or the time is up. *)
Fixpoint wait_ready (fuel : nat) (n wait_start : Z) : S unit :=
  match fuel with
  | O => fault
  | Datatypes.S fuel =>
      let* g := gets ring in
      if (g_ready_count g <? n) && negb (g_ready_failed g) then
        let* now := uptime in
        if u32 (u32 now - wait_start) <? SHARD_LOAD_TIMEOUT_TICKS
        then master_pump 200 ;;* wait_ready fuel n wait_start
        else ret tt
      else ret tt
  end.

Definition classify (pl : pool) : S unit :=
  modify (λ s,
    let m := model s in
    let '(x, lg) := llama_head pl (g_norm m) (g_table m) (g_config m) (g_logits m) (g_final_x (ring s)) in
    set_ring (set_final_x x (ring s)) (set_model (Model (g_config m) (g_table m) (g_norm m) lg (g_tok m) (g_sampler m)) s)).

Definition sample_next : S Z :=
  let* m := gets model in
  let* (next, sm, lg) := on_denv (sample env_malloc (g_sampler m) (g_logits m)) in
  modify (λ s, set_model (Model (g_config m) (g_table m) (g_norm m) lg (g_tok m) sm) s) ;;*
  ret next.

(** The rest of an iteration, with the activation back: the next token, or [None]
    when it is the end of the text. *)
Definition turn (pl : pool) (prompt : list Z) (token pos : Z) : S (option Z) :=
  let* head_t0 := rdtime in
  classify pl ;;*
  let* t := rdtime in
  modify (λ s, set_metrics (add_master_us (u64 (t - head_t0) / 10) (metrics s)) s) ;;*
  let* next := match prompt !! Z.to_nat (pos + 1) with Some t => ret t | None => sample_next end in
  if next =? 1 then ret None
  else
    let* m := gets model in
    let* piece := on_denv (decode (D := D) (g_tok m) token next) in
    let* out := on_denv (safe_printf piece) in
    modify (λ s, set_console (console s ++ out) s) ;;*
    ret (Some next).

(** [steps - pos] iterations at most. *)
Fixpoint generation_loop (n : nat) (pl : pool) (prompt : list Z) (head_slot : nat) (token pos : Z) : S Z :=
  match n with
  | O => ret 0
  | Datatypes.S n =>
      let* r := master_run_token token pos head_slot in
      if r <? 0 then ret (-1)
      else
        let* o := turn pl prompt token pos in
        match o with
        | None => ret 0
        | Some next => generation_loop n pl prompt head_slot next (pos + 1)
        end
  end.

Definition with_session (tmpl : assign_layers_t) (ss : Z) : assign_layers_t :=
  AssignLayers ss (al_model_id tmpl) (al_layer_start tmpl) (al_layer_end tmpl) (al_n_layers_total tmpl) (al_dim tmpl)
    (al_hidden_dim tmpl) (al_n_heads tmpl) (al_n_kv_heads tmpl) (al_seq_len tmpl) (al_vocab_size tmpl) (al_max_seq tmpl)
    (al_weights_ip tmpl) (al_weights_port tmpl).

Definition run_generation_session (fuel : nat) (pl : pool) (tmpl : assign_layers_t) (prompt : list Z) (steps : Z) : S Z :=
  let* n := on_disc restitch in
  if (n <? 1)%nat then ret (-2)
  else
    let* reg := gets (λ s, registry (disc s)) in
    let slots := discovery_ring_order reg MAX_WORKERS in
    let* ss := draw_session in
    let tmpl := with_session tmpl ss in
    notify_all (take n slots) ;;*
    modify (λ s, set_ring (reset_ready (ring s)) s) ;;*
    let* ok := assign_all tmpl (seq 0 n) in
    if negb ok then ret (-2)
    else
      let* wait_start := uptime in
      wait_ready fuel (Z.of_nat n) (u32 wait_start) ;;*
      let* g := gets ring in
      if g_ready_failed g then ret (-2)
      else if g_ready_count g <? Z.of_nat n then ret (-2)
      else match prompt, slots with
           | token :: _, head_slot :: _ => generation_loop (Z.to_nat steps) pl prompt head_slot token 0
           | _, _ => fault
           end.

(** The restarts of [run_master]: 0 when a session completed, -1 when a set-up
    failed, 1 when every attempt lost a hop. *)
Fixpoint restart_loop (n fuel : nat) (pl : pool) (tmpl : assign_layers_t) (prompt : list Z) (steps : Z) : S Z :=
  match n with
  | O => ret 1
  | Datatypes.S n =>
      let* gr := run_generation_session fuel pl tmpl prompt steps in
      if gr =? 0 then ret 0 else if gr =? -2 then ret (-1) else restart_loop n fuel pl tmpl prompt steps
  end.

(** ** The whole master *)

Definition SEGMENT_TOKENIZER : list Z := lit "llm_tokenizer"%string ++ [0].

Definition fetch_if_not_cached_pub (segment : list Z) (file_id : Z) : M E (option (list Z)) :=
  let* size := env (env_meta file_id) in
  match size with
  | None => ret None
  | Some size =>
      let* shmid := env (env_shmfind segment size) in
      let* cached := if 0 <=? shmid then env (env_attach shmid) else ret None in
      match cached with
      | Some a => ret (Some a)
      | None =>
          let* shmid := env (env_shmget segment size) in
          if shmid <? 0 then ret None
          else
            let* ok := env (env_shmat shmid) in
            if negb ok then ret None
            else
              let* r := env (env_fetch_file file_id size) in
              match r with
              | None => modify env_shmdt ;;* ret None
              | Some bytes => ret (Some bytes)
              end
      end
  end.

(** Serves registrations until enough workers are ACTIVE. *)
Fixpoint wait_workers (fuel : nat) (n want : Z) : S unit :=
  match fuel with
  | O => fault
  | Datatypes.S fuel =>
      if n <? want then
        master_pump 200 ;;*
        let* reg := gets (λ s, registry (disc s)) in
        wait_workers fuel (Z.of_nat (length (discovery_ring_order reg MAX_WORKERS))) want
      else ret tt
  end.

Definition assign_template (ss model_id : Z) (c : Config) (server : Z * Z) : assign_layers_t :=
  AssignLayers ss model_id 0 0 (u32 (n_layers c)) (u32 (dim c)) (u32 (hidden_dim c)) (u32 (n_heads c)) (u32 (n_kv_heads c))
    (u32 (seq_len c)) (u32 (vocab_size c)) SHARD_DEFAULT_MAX_SEQ (fst server) (snd server).

(** The calls of [g_ftp_progress_hook] during a transfer: they touch the socket,
    the transfer touches the environment. *)
Fixpoint pump_hooks (n : nat) : S unit :=
  match n with
  | O => ret tt
  | Datatypes.S n => master_pump_hook ;;* pump_hooks n
  end.

(** Step (2): the head of the model, the tokenizer and the sampler; false where the
    code returns -1.  The transfers call the hook [h1] and [h2] times. *)
Definition load_model (h1 h2 : nat) (model_id : Z) (topp : Z) : S bool :=
  let* r := on_denv (master_load_head_tail id model_id) in
  match r with
  | None => pump_hooks h1 ;;* ret false
  | Some (c, table, norm, st) =>
      modify (λ s, set_model (Model c table norm (logits st) (g_tok (model s)) (g_sampler (model s))) s) ;;*
      pump_hooks h1 ;;*
      let* tokdata := on_denv (fetch_if_not_cached_pub SEGMENT_TOKENIZER FILE_TOKENIZER) in
      pump_hooks h2 ;;*
      match tokdata with
      | None => ret false
      | Some data =>
          let* tok := on_denv (build_tokenizer env_malloc data (vocab_size c)) in
          let* seed := uptime in
          modify (set_model (Model c table norm (logits st) tok (build_sampler (vocab_size c) f0 topp (u64 seed)))) ;;*
          ret true
      end
  end.

(** The prompt's tokens, in a buffer of [strlen + 3] ints. *)
Definition encode_prompt (prompt : list Z) : S (list Z) :=
  let* ok := on_denv (env (env_malloc (u32 ((strlen prompt + 3) * 4)))) in
  if negb ok then fault
  else
    let* m := gets model in
    let* (tok, tokens) := on_denv (encode env_malloc (g_tok m) prompt true false (strlen prompt + 3)) in
    modify (set_model (Model (g_config m) (g_table m) (g_norm m) (g_logits m) tok (g_sampler m))) ;;*
    ret tokens.

(** [run_master] up to the endless pumping it ends in; the 0.9 of [topp] and the
    thread pool are arguments. *)
Definition run_master (fuel h1 h2 : nat) (pl : pool) (topp : Z) (port want_workers model_id : Z) (prompt : list Z)
    (steps : Z) : S Z :=
  let* r := on_disc (on_rpc (rpc_init port)) in
  if r <? 0 then ret (-1)
  else
    wait_workers fuel 0 want_workers ;;*
    let* ok := load_model h1 h2 model_id topp in
    if negb ok then ret (-1)
    else
      let* ss := draw_session in
      let* m := gets model in
      let* server := gets (λ s, env_server (denv s)) in
      let* tokens := encode_prompt prompt in
      if (length tokens <? 1)%nat then ret (-1)
      else restart_loop 4 fuel pl (assign_template ss model_id (g_config m) server) tokens steps.
End Session.

(** ** Every wait ends *)

Section Waits.
Context {K E : Type} `{KernelLaws K} `{ShardEnv E} `{NodeEnv E} `{FileEnv E} `{FloatOps Z} `{FloatFile Z} `{FloatTest Z}.
Context (Hheap : heap_available K) (Hnet : no_overrun K).

Abbreviation T := (dist_t K E).

Definition dist_ok (s : T) : Prop :=
  rpc_ok (rpc (disc s)) ∧ msg_ok (pump_msg s) ∧ (is_u32 (ip (pump_src s)) ∧ is_u16 (port (pump_src s))) ∧
  length (g_final_x (ring s)) = Z.to_nat INFER_MAX_FLOATS ∧ length (token_x s) = Z.to_nat INFER_MAX_FLOATS ∧
  0 < dim (g_config (model s)) ≤ 1017 ∧
  Z.of_nat (length (g_table (model s))) = vocab_size (g_config (model s)) * dim (g_config (model s)).

(** What servicing the socket leaves alone. *)
Definition same_run (s s' : T) : Prop :=
  model s' = model s ∧ token_x s' = token_x s ∧ console s' = console s ∧ metrics s' = metrics s ∧
  g_session (ring s') = g_session (ring s) ∧ g_seq (ring s') = g_seq (ring s) ∧ g_final_seq (ring s') = g_final_seq (ring s).

(** The message in the pump's buffer is a final hop of this session with the
    awaited sequence number, and [g_final_x] holds its floats. *)
Definition delivered (s : T) : Prop :=
  let c := g_config (model s) in
  ∃ h x, infer_decode_hop (pump_msg s) (dim c) (g_session (ring s)) = Some (h, x) ∧
    Z.land (ih_flags h) INFER_FLAG_FINAL ≠ 0 ∧ ih_seq h = g_final_seq (ring s) ∧
    (g_session (ring s) ≠ 0 → ih_session_id h = g_session (ring s)) ∧
    length x = Z.to_nat (dim c) ∧ take (Z.to_nat (dim c)) (g_final_x (ring s)) = x.

Definition claim (s : T) : Prop := g_have_final (ring s) = true → delivered s.

(** One handler run on the message in the buffer. *)
Definition kept (s s' : T) : Prop :=
  (dist_ok s' ∧ reaches (rpc (disc s)) (rpc (disc s'))) ∧ same_run s s' ∧ pump_msg s' = pump_msg s ∧ (claim s → claim s').

Lemma kept_refl s : dist_ok s → kept s s.
Proof. intros Hs. split; [split; [exact Hs|apply reaches_refl, Hs]|]. split; [by repeat split|]. by split. Qed.

Lemma same_run_trans s1 s2 s3 : same_run s1 s2 → same_run s2 s3 → same_run s1 s3.
Proof. unfold same_run. intuition congruence. Qed.

Lemma kept_trans s1 s2 s3 : kept s1 s2 → kept s2 s3 → kept s1 s3.
Proof.
  intros ([_ O1] & F1 & P1 & R1) ([Hok O2] & F2 & P2 & R2). split; [split; [exact Hok|by eapply reaches_trans]|].
  split; [by eapply same_run_trans|]. split; [congruence|tauto].
Qed.

(** An operation of the discovery layer that returns. *)
Lemma kept_disc {A} (m : M (master_t K) A) s : total m → dist_ok s → wp (on_disc m) (λ _ s', kept s s') s.
Proof.
  intros Hm Hs. apply wp_zoom. pose proof Hs as (Hr & Hrest). eapply wp_mono; [by apply Hm|].
  intros a d Hd. split; [exact (conj (conj (proj1 Hd) Hrest) Hd)|]. split; [by repeat split|]. split; [done|].
  intros Hc Hf. exact (Hc Hf).
Qed.

Lemma uptime_runs s : dist_ok s → wp uptime (λ _ s', kept s s') s.
Proof. intros Hs. apply kept_disc; [|done]. apply total_on_rpc, rtotal_sys, silent_uptime. Qed.

Lemma handle_ready_runs msg s : dist_ok s → wp (master_handle_shard_ready msg) (λ _ s', kept s s') s.
Proof.
  intros Hs. unfold master_handle_shard_ready. destruct (_ <? _); [by apply wp_ret, kept_refl|].
  apply wp_bind, wp_gets. destruct (negb _); [by apply wp_ret, kept_refl|].
  destruct (negb _); apply wp_modify; (split; [split; [exact Hs|apply reaches_refl, Hs]|]; split; [by repeat split|]; split; [done|]);
    intros Hc Hf; exact (Hc Hf).
Qed.

(** When the activation of a final hop is taken, in the state the handler finds. *)
Definition takes (msg : rpc_msg_t) (src : rpc_addr_t) (s : T) (h : infer_hop_t) (x : list Z) : Prop :=
  infer_decode_hop msg (dim (g_config (model s))) (g_session (ring s)) = Some (h, x) ∧
  Z.land (ih_flags h) INFER_FLAG_FINAL ≠ 0 ∧ ih_seq h = g_final_seq (ring s) ∧
  ∃ i, first_slot (is_tail (fst (sys_ip (kern (rpc (disc s)))))
         (if g_port (rpc (disc s)) <? 0 then 0 else u16 (g_port (rpc (disc s))))) (registry (disc s)) = Some i ∧
    addr_of (registry (disc s) !!! i) = (ip src, port src).

(** The state after asking the kernel for the node's address. *)
Definition after_ip (s : T) : T :=
  set_disc (set_rpc (set_kern (snd (sys_ip (kern (rpc (disc s))))) (rpc (disc s))) (disc s)) s.

Lemma ring_tail_run s :
  master_ring_tail s = Some (first_slot (is_tail (fst (sys_ip (kern (rpc (disc s)))))
         (if g_port (rpc (disc s)) <? 0 then 0 else u16 (g_port (rpc (disc s))))) (registry (disc s)), after_ip s).
Proof.
  unfold master_ring_tail, on_disc, zoom, on_rpc, bind, sys, gets. unfold zoom. unfold after_ip.
  destruct (sys_ip _) as [a k]. done.
Qed.

Lemma same_addr_eq a i p : same_addr a i p = true → (i, p) = (ip a, port a).
Proof. unfold same_addr. intros [?%Z.eqb_eq ?%Z.eqb_eq]%andb_prop. congruence. Qed.

Lemma handle_final_cases msg src s :
  (∃ h x, takes msg src s h x ∧
     master_handle_final msg src s = Some (tt, set_ring (commit_final x (ih_compute_us h) (ring s)) (after_ip s))) ∨
  ((∀ h x, ¬ takes msg src s h x) ∧ ∃ s', master_handle_final msg src s = Some (tt, s') ∧ (s' = s ∨ s' = after_ip s)).
Proof.
  unfold master_handle_final. change (bind get ?k s) with (k s s). cbv beta.
  destruct (infer_decode_hop msg _ _) as [[h x]|] eqn:Hd; [|right; split; [|by exists s; auto]; by intros h x (Hx & _); rewrite Hd in Hx].
  destruct (Z.eqb_spec (Z.land (ih_flags h) INFER_FLAG_FINAL) 0) as [Hfl|Hfl].
  { right. split; [|by exists s; auto]. intros h' x' (Hx & Hf & _). rewrite Hd in Hx. injection Hx as <- <-. done. }
  destruct (Z.eqb_spec (ih_seq h) (g_final_seq (ring s))) as [Hseq|Hseq]; cbn [negb].
  2:{ right. split; [|by exists s; auto]. intros h' x' (Hx & _ & Hs & _). rewrite Hd in Hx. injection Hx as <- <-. done. }
  erewrite bind_run by (apply ring_tail_run). erewrite bind_run by reflexivity.
  destruct (first_slot _ _) as [i|] eqn:Ei.
  2:{ right. split; [|by exists (after_ip s); auto]. intros h' x' (_ & _ & _ & i & Hi & _). by rewrite Ei in Hi. }
  destruct (same_addr src _ _) eqn:Ea.
  - left. exists h, x. split; [|done]. split_and!; try done. exists i. split; [done|]. by apply same_addr_eq in Ea.
  - right. split; [|by exists (after_ip s); auto]. intros h' x' (_ & _ & _ & j & Hj & Ha). rewrite Ei in Hj.
    injection Hj as <-. unfold addr_of in Ha. injection Ha as Ha1 Ha2. unfold same_addr in Ea.
    cbn [after_ip disc set_disc registry set_rpc] in Ea. rewrite Ha1, Ha2, !Z.eqb_refl in Ea. done.
Qed.

Lemma after_ip_kept s : dist_ok s → kept s (after_ip s).
Proof.
  intros Hs. assert (Hr : reaches (rpc (disc s)) (rpc (disc (after_ip s)))).
  { apply (reaches_sent _ _ []); [apply Hs|]. rewrite app_nil_r. apply ip_sent. }
  split; [exact (conj Hs Hr)|]. split; [by repeat split|]. split; [done|]. intros Hc Hf. exact (Hc Hf).
Qed.

Lemma commit_kept h x s : dist_ok s → msg_ok (pump_msg s) → received (pump_msg s) →
  infer_decode_hop (pump_msg s) (dim (g_config (model s))) (g_session (ring s)) = Some (h, x) →
  Z.land (ih_flags h) INFER_FLAG_FINAL ≠ 0 → ih_seq h = g_final_seq (ring s) →
  kept s (set_ring (commit_final x (ih_compute_us h) (ring s)) s).
Proof.
  intros Hs Hm Hrec Hd Hfl Hseq. pose proof (received_len _ Hm Hrec) as Hp.
  destruct (decode_sound _ _ _ _ _ Hm Hp Hd) as (_ & _ & _ & Hn & Hpos & Hdim & Hss).
  destruct (decoded_size _ _ _ _ _ Hm Hp Hd) as [Hn0 Hx].
  pose proof Hs as (Ho1 & Ho2 & Ho3 & Hfx & Htx & Hdm & Htab).
  assert (Hxd : length x = Z.to_nat (dim (g_config (model s)))).
  { rewrite Hx, (Hdim ltac:(lia)), u32_id; [done|]. unfold is_u32. lia. }
  assert (Hlx : (length x ≤ length (g_final_x (ring s)))%nat).
  { rewrite Hfx, Hxd. unfold INFER_MAX_FLOATS. lia. }
  split; [split; [|apply reaches_refl, Ho1]|].
  { do 3 (split; [exact Ho1 || exact Ho2 || exact Ho3|]). split; [|exact (conj Htx (conj Hdm Htab))].
    cbn [ring set_ring commit_final g_final_x]. by rewrite length_overwrite by lia. }
  split; [by repeat split|]. split; [done|]. intros _ _. exists h, x. cbn [model set_ring ring commit_final g_session g_final_seq g_final_x pump_msg].
  do 5 (split; [done|]). unfold overwrite. rewrite take_0, app_nil_l, <- Hxd. apply take_app_length.
Qed.

Lemma handle_final_runs src s : dist_ok s → received (pump_msg s) →
  wp (master_handle_final (pump_msg s) src) (λ _ s', kept s s') s.
Proof.
  intros Hs Hrec. destruct (handle_final_cases (pump_msg s) src s)
    as [(h & x & (Hd & Hfl & Hseq & _) & E1)|(_ & s' & E1 & [-> | ->])]; unfold wp; rewrite E1.
  - eexists _, _. split; [done|]. eapply kept_trans; [by apply after_ip_kept|].
    apply (commit_kept h x (after_ip s)); try done. apply Hs.
  - eexists _, _. split; [done|]. by apply kept_refl.
  - eexists _, _. split; [done|]. by apply after_ip_kept.
Qed.

(** What one round of the pump does. *)
Definition pumped (s s' : T) : Prop :=
  (dist_ok s' ∧ reaches (rpc (disc s)) (rpc (disc s'))) ∧ same_run s s' ∧
  (g_have_final (ring s) = false → claim s').

Lemma pump_runs ms s : dist_ok s → wp (master_pump ms) (λ _ s', pumped s s') s.
Proof.
  intros Hs. pose proof Hs as (Hok & Hm & Hsrc & Hrest). unfold master_pump. apply wp_bind, wp_get, wp_bind, wp_zoom, wp_zoom.
  eapply wp_mono; [by apply rpc_recv_runs|]. intros [[r msg] src] k (Hok1 & (_ & _ & Hsent) & Hm1 & Hsrc1 & Hrec & _).
  cbn [fst snd] in *. apply wp_bind, wp_modify. set (s1 := set_pump msg src _).
  assert (Hs1 : dist_ok s1) by exact (conj Hok1 (conj Hm1 (conj Hsrc1 Hrest))).
  assert (Hr1 : reaches (rpc (disc s)) (rpc (disc s1))).
  { apply (reaches_sent _ _ []); [done|]. by rewrite app_nil_r. }
  assert (Hk : wp (if (r =? RPC_OK) && (mtype msg =? MSG_CALL) then
     if proc (call msg) =? PROC_SHARD_READY then master_handle_shard_ready msg
     else if proc (call msg) =? PROC_INFER_REQ then master_handle_final msg src
     else let* now := uptime in on_disc (discovery_handle_call msg src now) ;;* ret tt
   else ret tt) (λ _ s', kept s1 s') s1).
  { destruct (Z.eqb_spec r RPC_OK) as [Er|]; [|by apply wp_ret, kept_refl]. destruct (_ =? MSG_CALL); [|by apply wp_ret, kept_refl].
    cbn [andb]. destruct (_ =? PROC_SHARD_READY); [by apply handle_ready_runs|].
    destruct (_ =? PROC_INFER_REQ); [by apply (handle_final_runs src s1), Hrec|].
    apply wp_bind. eapply wp_mono; [by apply uptime_runs|]. intros now s2 K2.
    apply wp_bind. eapply wp_mono; [apply kept_disc; [apply (total_handle_call Hheap Hnet)|apply K2]|].
    intros u s3 K3. apply wp_ret. exact (kept_trans _ _ _ K2 K3). }
  apply wp_bind. eapply wp_mono; [exact Hk|]. intros u s2 K2.
  apply wp_bind. eapply wp_mono; [apply uptime_runs, K2|]. intros now s3 K3.
  eapply wp_mono; [apply kept_disc; [apply (total_expire Hheap)|apply K3]|]. intros u' s4 K4.
  destruct (kept_trans _ _ _ (kept_trans _ _ _ K2 K3) K4) as ([Hs4 Hr4] & Hrun & Hp & Hc).
  split; [split; [exact Hs4|by eapply reaches_trans]|]. split; [exact Hrun|]. intros Hf. apply Hc. intros Hf1.
  cbn in Hf1. congruence.
Qed.

(** The same run up to the measurements. *)
Definition same_job (s s' : T) : Prop :=
  model s' = model s ∧ token_x s' = token_x s ∧ console s' = console s ∧ g_session (ring s') = g_session (ring s).

Lemma same_job_trans s1 s2 s3 : same_job s1 s2 → same_job s2 s3 → same_job s1 s3.
Proof. unfold same_job. intuition congruence. Qed.

Lemma same_run_job s s' : same_run s s' → same_job s s'.
Proof. unfold same_run, same_job. tauto. Qed.

Definition measured (s : T) : Z := g_metric_tokens (metrics s).

(** The wait for one attempt. *)
Definition waited (ok : bool) (s s' : T) : Prop :=
  (dist_ok s' ∧ reaches (rpc (disc s)) (rpc (disc s'))) ∧ same_job s s' ∧
  g_seq (ring s') = g_seq (ring s) ∧ g_final_seq (ring s') = g_final_seq (ring s) ∧
  g_have_final (ring s') = ok ∧ (if ok then delivered s' else True) ∧
  measured s' = if ok then s32 (measured s + 1) else measured s.

Lemma wait_final_runs n t0 s : dist_ok s → g_have_final (ring s) = false →
  wp (wait_final n t0) (λ ok s', waited ok s s') s.
Proof.
  revert s. induction n as [|n IH]; intros s Hs Hf; cbn [wait_final].
  { apply wp_ret. split; [split; [exact Hs|apply reaches_refl, Hs]|]. by repeat split. }
  apply wp_bind. eapply wp_mono; [by apply pump_runs|]. intros u s1 ([Hs1 Hr1] & Hrun & Hc).
  pose proof (same_run_job _ _ Hrun) as Hj. destruct Hrun as (_ & _ & _ & Hmet & _ & Hsq & Hfs).
  apply wp_bind, wp_gets. destruct (g_have_final (ring s1)) eqn:Ef.
  - apply wp_bind, wp_bind, wp_zoom, wp_env, wp_modify, wp_ret. split; [exact (conj Hs1 Hr1)|].
    split; [exact Hj|]. split; [exact Hsq|]. split; [exact Hfs|]. split; [exact Ef|].
    split; [exact (Hc Hf Ef)|]. unfold measured. cbn. by rewrite Hmet.
  - eapply wp_mono; [by apply IH|]. intros ok s2 ([Hs2 Hr2] & Hj2 & Hsq2 & Hfs2 & Hok & Hd & Hme).
    split; [split; [exact Hs2|by eapply reaches_trans]|]. split; [by eapply same_job_trans|].
    split; [congruence|]. split; [congruence|]. split; [exact Hok|]. split; [exact Hd|].
    rewrite Hme. unfold measured. by rewrite Hmet.
Qed.

(** The packet of an attempt: the embedded token for the head of the ring. *)
Definition carries (head : rpc_addr_t) (h : infer_hop_t) (x : list Z) (pk : packet) : Prop :=
  (dst_ip pk, dst_port pk) = (ip head, port head) ∧
  ∃ id, rpc_parse (contents pk) = Parsed (id, VCall INFERENCE_PROG INFERENCE_VERS PROC_INFER_REQ, hop_bytes h x).

(** The hop of the [i]-th attempt from a state with this ring and configuration. *)
Definition attempt_hop (g : ring_t) (c : Config) (pos : Z) (i : nat) : infer_hop_t :=
  InferHop (g_session g) (u32 (g_seq g + Z.of_nat (Datatypes.S i))) (u32 pos) 0 (u32 (dim c)) 0 0.

(** Each of [k] attempts put its hop on the network. *)
Definition transmitted (head : rpc_addr_t) (pos : Z) (s : T) (k : nat) (s' : T) : Prop :=
  ∃ ps, sent (kern (rpc (disc s'))) = sent (kern (rpc (disc s))) ++ ps ∧
    (sends_succeed K → ∀ i, (i < k)%nat → ∃ pk, pk ∈ ps ∧
       carries head (attempt_hop (ring s) (g_config (model s)) pos i)
         (take (Z.to_nat (dim (g_config (model s)))) (token_x s)) pk).

(** What [n] attempts leave: [k] were made. *)
Definition attempted (n : nat) (head : rpc_addr_t) (pos : Z) (s : T) (r : Z) (s' : T) : Prop :=
  dist_ok s' ∧ same_job s s' ∧
  ∃ k, (k ≤ n)%nat ∧ transmitted head pos s k s' ∧
    g_seq (ring s') = u32 (g_seq (ring s) + Z.of_nat k) ∧
    g_final_seq (ring s') = (if decide (k = 0%nat) then g_final_seq (ring s) else g_seq (ring s')) ∧
    (r = 0 ∧ k ≠ 0%nat ∧ g_have_final (ring s') = true ∧ delivered s' ∧ measured s' = s32 (measured s + 1) ∨
     r = -1 ∧ k = n ∧ g_have_final (ring s') = false ∧ measured s' = measured s).

Lemma u32_step a k : u32 (u32 (a + 1) + Z.of_nat k) = u32 (a + Z.of_nat (Datatypes.S k)).
Proof. unfold u32. rewrite Zplus_mod_idemp_l. f_equal. lia. Qed.

(** One attempt, then the others. *)
Lemma transmitted_step head pos s pk ps s1 k s2 :
  same_job s s1 → g_seq (ring s1) = u32 (g_seq (ring s) + 1) →
  sent (kern (rpc (disc s1))) = sent (kern (rpc (disc s))) ++ ps →
  (sends_succeed K → pk ∈ ps ∧ carries head (attempt_hop (ring s) (g_config (model s)) pos 0)
     (take (Z.to_nat (dim (g_config (model s)))) (token_x s)) pk) →
  transmitted head pos s1 k s2 → transmitted head pos s (Datatypes.S k) s2.
Proof.
  intros (Hm & Ht & _ & Hss) Hsq Hps Hpk (qs & Hqs & Hk). exists (ps ++ qs). rewrite Hqs, Hps, app_assoc. split; [done|].
  intros Hn i Hi. destruct i as [|i].
  - exists pk. destruct (Hpk Hn). split; [by apply elem_of_app; left|done].
  - destruct (Hk Hn i) as (p & Hp & Hc); [lia|]. exists p. split; [by apply elem_of_app; right|].
    unfold attempt_hop in *. by rewrite Hm, Ht, Hss, Hsq, u32_step in Hc.
Qed.

(** What sending the hop of one attempt does. *)
Definition sent_attempt (head : rpc_addr_t) (pos : Z) (s s' : T) : Prop :=
  dist_ok s' ∧ model s' = model s ∧ token_x s' = token_x s ∧ console s' = console s ∧ metrics s' = metrics s ∧
  registry (disc s') = registry (disc s) ∧ ring s' = next_seq (ring s) ∧
  ∃ ps pk, sent (kern (rpc (disc s'))) = sent (kern (rpc (disc s))) ++ ps ∧ (ps = [] ∧ ¬ sends_succeed K ∨ ps = [pk]) ∧
    carries head (attempt_hop (ring s) (g_config (model s)) pos 0)
      (take (Z.to_nat (dim (g_config (model s)))) (token_x s)) pk.

Lemma send_attempt_runs head pos s :
  dist_ok s → wp (send_attempt head pos) (λ _ s', sent_attempt head pos s s') s.
Proof.
  intros Hs. set (s1 := set_ring (next_seq (ring s)) s). unfold send_attempt.
  apply wp_bind, wp_modify, wp_bind, wp_get. cbv beta. fold s1. apply wp_bind, wp_zoom, wp_env. set (s2 := set_denv _ s1).
  apply wp_bind, wp_zoom, wp_zoom. pose proof Hs as (Hok & Hm & Hsrc & Hfx & Htx & Hdim & Htab).
  assert (Hn : u32 (dim (g_config (model s))) = dim (g_config (model s))) by (apply u32_id; unfold is_u32; lia).
  eapply wp_mono; [apply (send_hop_runs Hheap); [exact Hok|..]|]; cbn [first_hop ih_n_floats s1 model set_ring token_x].
  { rewrite Hn. lia. }
  { rewrite Hn. unfold len. rewrite Htx. unfold INFER_MAX_FLOATS. lia. }
  intros rs k (Hok3 & _ & Hrs & pk & Hsent & Hdst & _ & Hpar). apply wp_ret.
  split; [exact (conj Hok3 (proj2 Hs))|]. do 6 (split; [done|]). eexists _, pk. split; [exact Hsent|]. split.
  - destruct Hrs as [-> | [-> Hf]]; [by right|by left].
  - split; [done|]. rewrite Hn in Hpar. exact Hpar.
Qed.

(** Sending it and waiting for the answer. *)
Lemma one_attempt_runs head pos s :
  dist_ok s → g_have_final (ring s) = false →
  wp (let* send_t0 := send_attempt head pos in wait_final WAITS send_t0)
    (λ ok s', waited ok (set_ring (next_seq (ring s)) s) s' ∧ ∃ ps pk, sent (kern (rpc (disc s'))) = sent (kern (rpc (disc s))) ++ ps ∧
       (sends_succeed K → pk ∈ ps ∧ carries head (attempt_hop (ring s) (g_config (model s)) pos 0)
          (take (Z.to_nat (dim (g_config (model s)))) (token_x s)) pk)) s.
Proof.
  intros Hs Hf. apply wp_bind. eapply wp_mono; [by apply send_attempt_runs|].
  intros t0 s3 (Hs3 & Em & Ex & Ec & Eme & _ & Er & ps & pk & Hps & Hpk & Hcar).
  eapply wp_mono; [apply wait_final_runs; [done|by rewrite Er]|].
  intros ok s4 ([Hs4 [Hok4 (qs & Hqs)]] & Hj & Hw). unfold waited, same_job, measured in *. rewrite Em, Ex, Ec, Er, Eme in *.
  split.
  - split; [|exact (conj Hj Hw)]. split; [exact Hs4|]. eapply reaches_sent; [done|]. rewrite Hqs, Hps. by rewrite <- app_assoc.
  - exists (ps ++ qs), pk. split; [by rewrite Hqs, Hps, app_assoc|]. intros Hss.
    destruct Hpk as [[_ []] | ->]; [done|]. split; [by left|done].
Qed.

Lemma token_attempts_runs n head pos s :
  dist_ok s → is_u32 (g_seq (ring s)) → g_have_final (ring s) = false →
  wp (token_attempts n head pos) (attempted n head pos s) s.
Proof.
  revert s. induction n as [|n IH]; intros s Hs Hu Hf; cbn [token_attempts].
  { apply wp_ret. split; [exact Hs|]. split; [by repeat split|].
    exists 0%nat. rewrite Z.add_0_r, u32_id by done. split; [lia|].
    split; [exists []; rewrite app_nil_r; split; [done|lia]|]. split; [done|]. split; [done|]. by right. }
  apply wp_bind2. eapply wp_mono; [by apply one_attempt_runs|].
  intros ok s4 (((Hs4 & _) & Hj4 & Hsq & Hfs & Hh & Hd & Hme) & ps & pk & Hps & Hpk).
  assert (Hstep : ∀ k s', transmitted head pos s4 k s' → transmitted head pos s (Datatypes.S k) s').
  { intros k s'. by eapply transmitted_step. }
  destruct ok.
  - apply wp_ret. split; [exact Hs4|]. split; [exact Hj4|]. exists 1%nat.
    split; [lia|]. split; [apply Hstep; exists []; rewrite app_nil_r; split; [done|lia]|].
    split; [exact Hsq|]. split; [by rewrite Hfs, Hsq|]. left. by split_and!.
  - eapply wp_mono; [apply IH; [done| |done]|].
    { rewrite Hsq. apply Z.mod_pos_bound. lia. }
    intros r s5 (Hs5 & Hj5 & j & Hj & Htr & Hsq5 & Hfs5 & Hres). split; [exact Hs5|].
    split; [by eapply same_job_trans|]. exists (Datatypes.S j). split; [lia|]. split; [by apply Hstep|].
    rewrite Hsq5, Hsq. cbn [ring set_ring next_seq g_seq]. split; [apply u32_step|].
    split; [rewrite Hfs5; case_decide; [subst j; rewrite Hfs|rewrite Hsq5, Hsq]|].
    + cbn. rewrite Z.add_0_r. unfold u32. by rewrite Zmod_mod.
    + done.
    + rewrite Hme in Hres. destruct Hres as [(-> & ? & Hr)|(-> & -> & Hr)]; [left|right];
      (split; [done|]; split; [done|exact Hr]).
Qed.
(** Before the first attempt: the token is embedded, and no answer is there. *)
Definition started (token : Z) (s s1 : T) : Prop :=
  dist_ok s1 ∧ model s1 = model s ∧ console s1 = console s ∧ disc s1 = disc s ∧
  ring s1 = clear_final (ring s) ∧ measured s1 = measured s ∧
  take (cdim (g_config (model s))) (token_x s1) =
    take (cdim (g_config (model s))) (drop (Z.to_nat token * cdim (g_config (model s))) (g_table (model s))).

Lemma start_token_runs token s :
  dist_ok s → 0 ≤ token < vocab_size (g_config (model s)) → wp (start_token token) (λ _ s1, started token s s1) s.
Proof.
  intros Hs Ht. pose proof Hs as (Hok & Hm & Hsrc & Hfx & Htx & Hdim & Htab). set (c := g_config (model s)) in *.
  destruct (embed_row (g_table (model s)) c (token_x s) (Z.to_nat token)) as [Erow Elen].
  { rewrite Htx. unfold cdim, INFER_MAX_FLOATS. lia. }
  { unfold cdim. apply Nat2Z.inj_le. rewrite Htab. nia. }
  unfold start_token. apply wp_bind, wp_zoom, wp_env, wp_bind. unfold embed_token. apply wp_bind, wp_gets.
  rewrite (proj2 (Z.leb_le _ _)), (proj2 (Z.ltb_lt token _)) by apply Ht. cbn [andb]. apply wp_modify.
  apply wp_bind, wp_zoom, wp_env, wp_bind, wp_modify, wp_modify.
  split; [|do 5 (split; [done|]); exact Erow].
  do 4 (split; [assumption|]). split; [by etrans; [exact Elen|]|]. by split.
Qed.
End Waits.

(** ** Properties *)

Section Token.
Context {K E : Type} `{KernelLaws K} `{ShardEnv E} `{NodeEnv E} `{FloatOps Z}.

(** C10: One token round the ring.  Whatever datagrams arrive, none of them an
    [Overrun] (rpc.c:184), while the stream records can be allocated and for a model
    at most 1017 wide, [master_run_token]
    returns after at most three attempts of at most 75 rounds of the pump.  It
    embeds the token, puts a hop with a fresh sequence number on the network for
    each attempt, and leaves the model, the session and the printed text alone.
    It returns 0 only with the floats of a final hop of this session that answers
    the last attempt in [g_final_x], and then counts the token; it returns -1 only
    after three attempts. *)
Theorem run_token_exact token pos head_slot (s : dist_t K E) :
  heap_available K → no_overrun K → dist_ok s → is_u32 (g_seq (ring s)) →
  0 ≤ token < vocab_size (g_config (model s)) →
  let c := g_config (model s) in
  let e := registry (disc s) !!! head_slot in
  let row := take (cdim c) (drop (Z.to_nat token * cdim c) (g_table (model s))) in
  ∃ r s' k ps, master_run_token token pos head_slot s = Some (r, s') ∧ dist_ok s' ∧
    model s' = model s ∧ console s' = console s ∧ g_session (ring s') = g_session (ring s) ∧
    (1 ≤ k ≤ 3)%nat ∧ g_seq (ring s') = u32 (g_seq (ring s) + Z.of_nat k) ∧ g_final_seq (ring s') = g_seq (ring s') ∧
    sent (kern (rpc (disc s'))) = sent (kern (rpc (disc s))) ++ ps ∧
    (sends_succeed K → ∀ i, (i < k)%nat → ∃ pk, pk ∈ ps ∧
       carries (RpcAddr (info_ip (info e)) (info_port (info e))) (attempt_hop (ring s) c pos i) row pk) ∧
    (r = 0 ∧ g_have_final (ring s') = true ∧ delivered s' ∧ measured s' = s32 (measured s + 1) ∨
     r = -1 ∧ k = 3%nat ∧ g_have_final (ring s') = false ∧ measured s' = measured s).
Proof.
  intros Hh Hn Hs Hu Ht c e row. destruct (start_token_runs token s Hs Ht)
    as ([] & s1 & E1 & Hs1 & Em1 & Ec1 & Ed1 & Er1 & Eme1 & Erow).
  assert (Hu1 : is_u32 (g_seq (ring s1))) by (by rewrite Er1).
  destruct (token_attempts_runs Hh Hn 3 (head_addr head_slot s1) pos s1 Hs1 Hu1) as
    (r & s' & Er & (Hs' & (Em & _ & Ec & Ess) & k & Hk & (ps & Hps & Htr) & Hsq & Hfs & Hres)); [by rewrite Er1|].
  assert (Hk0 : k ≠ 0%nat) by (destruct Hres as [(_ & ? & _)|(_ & -> & _)]; [done|lia]).
  exists r, s', k, ps. rewrite decide_False in Hfs by done. rewrite Er1 in Ess, Hsq. rewrite Ed1 in Hps.
  split; [unfold master_run_token; by rewrite (bind_run _ _ _ _ _ E1)|]. split; [exact Hs'|].
  split; [congruence|]. split; [congruence|]. split; [exact Ess|]. split; [lia|].
  split; [exact Hsq|]. split; [done|]. split; [exact Hps|]. split.
  - intros Hss i Hi. destruct (Htr Hss i Hi) as (pk & Hpk & Hc). exists pk. split; [done|].
    unfold attempt_hop, head_addr in *. rewrite Em1, Er1, Ed1 in Hc. fold (cdim (g_config (model s))) in Hc.
    rewrite Erow in Hc. exact Hc.
  - rewrite Eme1 in Hres. tauto.
Qed.
End Token.

(** The final activation comes from the tail of the ring only.  The handler
    stores an activation exactly when the message decodes to a hop of this session
    and dimension, is flagged final, carries the awaited sequence number, and was
    sent by the ACTIVE worker whose next hop is the master; then it stores its
    floats and its compute time, and otherwise nothing changes. *)
Theorem final_from_tail_only {K E} `{Kernel K} msg src (s : dist_t K E) :
  (∃ h x, takes msg src s h x ∧
     master_handle_final msg src s = Some (tt, set_ring (commit_final x (ih_compute_us h) (ring s)) (after_ip s))) ∨
  ((∀ h x, ¬ takes msg src s h x) ∧ ∃ s', master_handle_final msg src s = Some (tt, s') ∧ (s' = s ∨ s' = after_ip s)).
Proof. apply handle_final_cases. Qed.

(** A master with the small model and one worker; the answer to the first
    attempt is waiting. *)
#[local] Existing Instance int_floats.
#[local] Existing Instance small_env.
#[local] Existing Instance small_node.

Definition tail_entry : worker_entry_t :=
  WorkerEntry sample_info 0 WORKER_ACTIVE (CapAck 0 0 []) 0 0 9 5000 9 5000.
Definition final_msg : rpc_msg_t := hop_msg (InferHop 77 1 0 0 2 INFER_FLAG_FINAL 30) [4; 6].
Definition sample_model : model_t :=
  Model small_config (take 6 (weights id small_file)) [1; 1] [0; 0; 0]
    (MkTokenizer [] [] None 3 0 []) (MkSampler 3 0 0 1).
Definition sample_master (box : list (Z * Z * list Z)) : dist_t calm unit :=
  Dist (Master (Rpc (Calm (Script box [] [] 9 true [])) 5000 (replicate (Z.to_nat WIRE_MAX) 0) (replicate (Z.to_nat WIRE_MAX) 0) 0 1)
          (<[0%nat := tail_entry]> registry_zero) buckets_zero (Drops 0 0 0 0))
    tt sample_model (Ring 0 false 77 (replicate 1024 0) false 0 0 0) (Metrics 0 0 0 0) msg_zero (RpcAddr 0 0) 0
    (replicate 1024 0) [].

Lemma sample_master_ok box : dist_ok (sample_master box).
Proof.
  split; [by split_and!|]. split; [apply msg_zero_ok|]. split; [by split|]. do 2 (split; [done|]). split; [|done].
  vm_compute. split; [reflexivity|discriminate].
Qed.

Lemma run_token_exact_witness :
  let s := sample_master [(10, 5001, call_wire (call_for 1 final_msg))] in
  ∃ s', master_run_token 1 0 0 s = Some (0, s') ∧ take 2 (g_final_x (ring s')) = [4; 6] ∧ g_seq (ring s') = 1.
Proof.
  intros s. destruct (run_token_exact 1 0 0 s calm_heap calm_no_overrun (sample_master_ok _)) as
    (r & s' & k & ps & Er & _ & Em & _ & _ & Hk & Hsq & _ & _ & _ & Hres).
  { vm_compute. split; [discriminate|reflexivity]. }
  { vm_compute. split; [discriminate|reflexivity]. }
  assert (Hr : (λ rs, (fst rs, take 2 (g_final_x (ring (snd rs))), g_seq (ring (snd rs)))) <$> master_run_token 1 0 0 s =
    Some (0, [4; 6], 1)) by (vm_compute; reflexivity).
  rewrite Er in Hr. cbn in Hr. injection Hr as -> Hx Hq. exists s'. split_and!; done.
Defined.
