(* ===== verification/Ring.v ===== *)
(** * Activations round the ring (src/xv6-riscv/user: shard.c, llama_core.c, distinf.c)

    What a shard computes for a position, stated against the single node: the
    activations between the layers of [forward] and the key and value rows it
    stores, for a history of tokens.  A worker runs its layers on a buffer longer
    than the activation, and may be handed the same position again. *)
From S2P Require Import Prelude Llama Checkpoint Shard.

(** ** Longer buffers *)

Section Padding.
Context {F : Type} `{FloatOps F}.

Lemma rd_app (x pad : list F) i : (i < length x)%nat → rd (x ++ pad) i = rd x i.
Proof. intros Hi. unfold rd. by apply app_nth1. Qed.

Lemma rmsnorm_pad (o x pad w : list F) n : length x = n → rmsnorm o (x ++ pad) w n = rmsnorm o x w n.
Proof.
  intros Hx. unfold rmsnorm.
  rewrite (foldl_ext_in _ (λ s j, fadd s (fmul (rd x j) (rd x j)))).
  2: { intros v j Hj%elem_of_seq. by rewrite rd_app by lia. }
  f_equal. apply map_ext_in. intros j Hj%in_seq. by rewrite rd_app by lia.
Qed.

Lemma residual_pad (x pad d : list F) n : length x = n → residual (x ++ pad) d n = residual x d n ++ pad.
Proof.
  intros Hx. unfold residual, overwrite. rewrite !take_0, !app_nil_l.
  rewrite !length_map, !length_seq, Nat.add_0_l, drop_app_length', (drop_ge x), app_nil_r by lia.
  f_equal. apply map_ext_in. intros j Hj%in_seq. by rewrite rd_app by lia.
Qed.

Lemma length_residual (x d : list F) n : length x = n → length (residual x d n) = n.
Proof. intros Hx. unfold residual. rewrite length_overwrite; rewrite ?length_map, ?length_seq; lia. Qed.

Lemma block_pad pl layer p (s : RunState F) x pad l pos :
  length x = cdim p →
  llama_block pl layer p s (x ++ pad) l pos =
    (fst (llama_block pl layer p s x l pos) ++ pad, snd (llama_block pl layer p s x l pos)) ∧
  length (fst (llama_block pl layer p s x l pos)) = cdim p.
Proof.
  intros Hx. unfold llama_block, block_qkv, block_ffn. cbv zeta. rewrite rmsnorm_pad by done.
  set (s1 := multihead_attention _ _ _ _ _). cbn [fst snd]. rewrite !residual_pad by (by rewrite ?length_residual).
  rewrite rmsnorm_pad by (by apply length_residual). split; [done|].
  apply length_residual. by apply length_residual.
Qed.

Lemma run_layers_pad pl p ls (s : RunState F) x pad l pos :
  length x = cdim p →
  run_layers pl p ls s (x ++ pad) l pos =
    (fst (run_layers pl p ls s x l pos) ++ pad, snd (run_layers pl p ls s x l pos)).
Proof.
  revert s x l. induction ls as [|la ls IH]; intros s x l Hx; [done|]. cbn [run_layers].
  destruct (block_pad pl la p s x pad l pos Hx) as [-> Hl].
  destruct (llama_block pl la p s x l pos) as [x1 s1]. cbn [fst snd] in *. by apply IH.
Qed.

Lemma mm_pad pl (x pad w : list F) n d : length x = n → mm pl (x ++ pad) w n d = mm pl x w n d.
Proof.
  intros Hx. unfold mm. apply map_ext_in. intros i Hi.
  destruct (threaded pl d).
  - apply dot_unrolled_ext. intros j Hj. split; [done|]. apply rd_app. lia.
  - unfold dot_plain. apply foldl_ext_in. intros v j Hj%elem_of_seq. by rewrite rd_app by lia.
Qed.

Lemma head_pad pl (final w : list F) c lg x pad :
  0 < g_num_threads pl → length lg = Z.to_nat (vocab_size c) → length x = cdim c →
  snd (llama_head pl final w c lg (x ++ pad)) = mm pl (norm x final (cdim c)) w (cdim c) (Z.to_nat (vocab_size c)).
Proof.
  intros Hg Hl Hx. unfold llama_head. cbv zeta. cbn [snd]. rewrite rmsnorm_pad by done.
  assert (Hn : length (norm x final (cdim c)) = cdim c) by (unfold norm; by rewrite length_map, length_seq).
  assert (E : rmsnorm (x ++ pad) x final (cdim c) = norm x final (cdim c) ++ pad).
  { unfold rmsnorm, overwrite. rewrite take_0, app_nil_l, length_map, length_seq, Nat.add_0_l, drop_app_length' by done. done. }
  rewrite E, matmul_exact by done. by apply mm_pad.
Qed.

(** Every element of an activation that left a layer is a sum. *)
Lemma run_layers_sums (P : F → Prop) pl p ls (s : RunState F) x l pos :
  (∀ a b, P (fadd a b)) → length x = cdim p → Forall P x → Forall P (fst (run_layers pl p ls s x l pos)).
Proof.
  intros Hadd. revert s x l. induction ls as [|la ls IH]; intros s x l Hx HP; [done|]. cbn [run_layers].
  destruct (block_pad pl la p s x [] l pos Hx) as [_ Hl].
  assert (Hs : Forall P (fst (llama_block pl la p s x l pos))).
  { unfold llama_block, block_ffn. cbn [fst]. rewrite residual_exact by (by apply length_residual).
    apply Forall_fmap, Forall_true. intros i. apply Hadd. }
  destruct (llama_block pl la p s x l pos) as [x1 s1]. by apply IH.
Qed.
End Padding.

Section Rows.
Context {F : Type} `{FloatOps F}.
Context (pl : pool) (Hg : 0 < g_num_threads pl) (c : Config) (Hc : config_ok c).

(** Layers [l] to [l + n) change nothing but their rows at the position. *)
Lemma run_layers_rows ls s x l pos :
  run_ok c s → length x = cdim c → (l + length ls ≤ clayers c)%nat → (pos < cseq c)%nat →
  let r := run_layers pl c ls s x l pos in
  length (fst r) = cdim c ∧ run_ok c (snd r) ∧
  (∀ l' t, (t < cseq c)%nat → (t ≠ pos ∨ l' < l ∨ l + length ls ≤ l')%nat → kv_row c (snd r) l' t = kv_row c s l' t).
Proof.
  revert s x l. induction ls as [|la ls IH]; intros s x l Hs Hx Hl Hp; cbn [run_layers length] in *; [by split_and!|].
  pose proof (block_run pl Hg c Hc la s x l pos Hs Hx ltac:(lia) Hp) as B. cbv zeta in B.
  destruct (block_spec _ _ _ _ _ _ _) as [[x' k] v].
  destruct (llama_block pl la c s x l pos) as [y s1]. cbn [fst snd] in B.
  destruct B as (-> & Hx' & Hs1 & _ & _ & R1).
  destruct (IH s1 x' (S l) Hs1 Hx' ltac:(lia) Hp) as (I1 & I2 & I3). split; [done|]. split; [done|].
  intros l' t Ht Hn. rewrite I3 by lia. unfold kv_row. destruct (R1 l' t Ht) as [-> ->]. by rewrite !decide_False by lia.
Qed.

Lemma layer_eq_refl p (w : llama_layer_t F) : layer_eq p w w.
Proof. unfold layer_eq, same_upto. by split_and!. Qed.

Lemma with_shape_self p : with_shape p (n_layers p) (seq_len p) = p.
Proof. by destruct p. Qed.

(** Running the same layers on the same activation again. *)
Lemma run_layers_again ls s x pos :
  run_ok c s → length x = cdim c → length ls = clayers c → (pos < cseq c)%nat →
  let r := run_layers pl c ls s x 0 pos in
  let r' := run_layers pl c ls (snd r) x 0 pos in
  fst r' = fst r ∧ run_ok c (snd r') ∧
  ∀ l t, (l < clayers c)%nat → (t < cseq c)%nat → kv_row c (snd r') l t = kv_row c (snd r) l t.
Proof.
  intros Hs Hx Hls Hpos r r'. destruct (run_layers_rows ls s x 0 pos Hs Hx) as (_ & R2 & R3); [lia|done|].
  fold r in R2, R3. destruct (run_layers_rows ls (snd r) x 0 pos R2 Hx) as (_ & R2' & R3'); [lia|done|].
  fold r' in R2', R3'. pose proof Hc as (_ & _ & Hl0 & _ & _ & Hs0 & _).
  assert (Hall : Forall2 (layer_eq c) ls ls) by (apply Forall_Forall2_diag, Forall_true; intros w; apply layer_eq_refl).
  pose proof (run_layers_sim pl pl Hg Hg c Hc ltac:(done) (n_layers c) (seq_len c) ls ls s (snd r) x 0 0 pos) as Hsim.
  cbv zeta in Hsim. rewrite with_shape_self in Hsim. fold r r' in Hsim.
  destruct Hsim as (I1 & _ & _ & _ & I5 & _); try done; try lia.
  { intros i t Hi Ht. symmetry. apply R3; lia. }
  split; [done|]. split; [done|]. intros l t Hl Ht. destruct (decide (t = pos)) as [->|]; [|apply R3'; lia].
  symmetry. apply (I5 l pos); lia.
Qed.
End Rows.

(** ** The single node, position by position *)

Section Reference.
Context {F : Type} `{FloatOps F}.
Context (pl : pool) (Hg : 0 < g_num_threads pl) (c : Config) (Hc : config_ok c) (ck : list F).
Context (Hv : (Z.to_nat (vocab_size c) * cdim c ≤ length ck)%nat).

Abbreviation W := (layer_at ck c true).

(** The state after the tokens, the first of them at position [k]. *)
Fixpoint after (s : RunState F) (k : nat) (tokens : list nat) : RunState F :=
  match tokens with
  | [] => s
  | t :: tokens => after (snd (forward pl ck c true s t k)) (S k) tokens
  end.

Lemma after_snoc s k tokens t :
  after s k (tokens ++ [t]) = snd (forward pl ck c true (after s k tokens) t (k + length tokens)).
Proof.
  revert s k. induction tokens as [|u tokens IH]; intros s k; cbn [app after length]; [by rewrite Nat.add_0_r|].
  rewrite IH. by rewrite Nat.add_succ_r.
Qed.

(** A state the model can continue from. *)
Definition node_state (s : RunState F) : Prop :=
  run_ok c s ∧ length (rs_x s) = cdim c ∧ length (logits s) = Z.to_nat (vocab_size c).

(** The activation of a token, and that after [l] layers. *)
Definition token_row (t : nat) : list F := take (cdim c) (drop (t * cdim c) ck).
Definition upto (s : RunState F) (t pos l : nat) : list F * RunState F :=
  run_layers pl c (map W (seq 0 l)) s (token_row t) 0 pos.

Lemma token_row_length t : (t < Z.to_nat (vocab_size c))%nat → length (token_row t) = cdim c.
Proof. intros Ht. unfold token_row. rewrite length_take, length_drop. nia. Qed.

Lemma embed_token_row s t :
  node_state s → (t < Z.to_nat (vocab_size c))%nat → llama_embed ck c (rs_x s) t = token_row t.
Proof.
  intros (_ & Hx & _) Ht. pose proof (token_row_length t Ht) as Hl.
  unfold llama_embed. apply overwrite_all. by rewrite Hx.
Qed.

Lemma upto_add s t pos l n :
  upto s t pos (l + n) =
  run_layers pl c (map W (seq l n)) (snd (upto s t pos l)) (fst (upto s t pos l)) l pos.
Proof.
  unfold upto. rewrite seq_app, map_app, run_layers_app, length_map, length_seq.
  by destruct (run_layers pl c (map W (seq 0 l)) s (token_row t) 0 pos).
Qed.

(** [forward] runs all layers and classifies. *)
Lemma forward_upto s t pos :
  node_state s → (t < Z.to_nat (vocab_size c))%nat → (pos < cseq c)%nat →
  let x := fst (upto s t pos (clayers c)) in
  let s' := snd (forward pl ck c true s t pos) in
  fst (forward pl ck c true s t pos) =
    mm pl (norm x (ptr ck (rms_final_weight (memory_map_weights c 0 true))) (cdim c)) ck (cdim c) (Z.to_nat (vocab_size c)) ∧
  node_state s' ∧ logits s' = fst (forward pl ck c true s t pos) ∧
  ∀ l u, kv_row c s' l u = kv_row c (snd (upto s t pos (clayers c))) l u.
Proof.
  intros Hs Ht Hp. pose proof Hs as (Hok & Hx & Hlg). unfold forward. cbv zeta.
  change (token_embedding_table (memory_map_weights c 0 true)) with 0.
  change (wcls_at (memory_map_weights c 0 true)) with 0. change (ptr ck 0) with ck.
  rewrite embed_token_row by done. fold (upto s t pos (clayers c)).
  destruct (run_layers_rows pl Hg c Hc (map W (seq 0 (clayers c))) s (token_row t) 0 pos Hok (token_row_length t Ht)) as (Hl & Hok' & _);
    [rewrite length_map, length_seq; lia|done|].
  destruct (run_layers_keeps pl c (map W (seq 0 (clayers c))) s (token_row t) 0 pos) as [K1 K2].
  fold (upto s t pos (clayers c)) in Hl, Hok', K1, K2.
  destruct (upto s t pos (clayers c)) as [x s1]. cbn [fst snd] in *.
  destruct (head_logits pl (ptr ck (rms_final_weight (memory_map_weights c 0 true))) ck c (logits s1) x Hg
    ltac:(congruence) Hl) as [L1 L2].
  destruct (llama_head pl _ ck c (logits s1) x) as [y lg]. cbn [fst snd] in *. split; [done|].
  split; [|done]. split; [exact Hok'|]. split; [done|]. cbn. rewrite L1. apply length_mm.
Qed.
End Reference.

(** ** A history of tokens *)

Section History.
Context {F : Type} `{FloatOps F}.
Context (pl : pool) (Hg : 0 < g_num_threads pl) (c : Config) (Hc : config_ok c) (ck : list F).
Context (Hv : (Z.to_nat (vocab_size c) * cdim c ≤ length ck)%nat).
Context (s0 : RunState F) (Hs0 : node_state c s0).

Abbreviation W := (layer_at ck c true).

(** The node before position [p] of the history, the activation it has after [l]
    layers at that position, and the rows it stores. *)
Definition before (hist : list nat) (p : nat) : RunState F := after pl c ck s0 0 (take p hist).
Definition act (hist : list nat) (p l : nat) : list F := fst (upto pl c ck (before hist p) (hist !!! p) p l).
Definition ref_row (hist : list nat) (l t : nat) : list F * list F :=
  kv_row c (snd (upto pl c ck (before hist t) (hist !!! t) t (clayers c))) l t.

Definition hist_ok (hist : list nat) : Prop :=
  Forall (λ t, t < Z.to_nat (vocab_size c))%nat hist ∧ (length hist ≤ cseq c)%nat.

Lemma hist_token hist p : hist_ok hist → (p < length hist)%nat → (hist !!! p < Z.to_nat (vocab_size c))%nat.
Proof.
  intros [Ht _] Hp. destruct (lookup_lt_is_Some_2 hist p Hp) as [t E].
  rewrite (list_lookup_total_correct _ _ _ E). exact (Forall_lookup_1 _ _ _ _ Ht E).
Qed.

Lemma before_S hist p : (p < length hist)%nat →
  before hist (S p) = snd (forward pl ck c true (before hist p) (hist !!! p) p).
Proof.
  intros Hp. destruct (lookup_lt_is_Some_2 hist p Hp) as [t E]. unfold before.
  rewrite (take_S_r _ _ _ E), after_snoc, length_take, (list_lookup_total_correct _ _ _ E), Nat.min_l by lia. done.
Qed.

Lemma before_state hist p : hist_ok hist → (p ≤ length hist)%nat → node_state c (before hist p).
Proof.
  intros Hh. induction p as [|p IH]; intros Hp; [done|]. rewrite before_S by lia.
  apply (forward_upto pl Hg c Hc ck Hv (before hist p)); [apply IH; lia|by apply hist_token|destruct Hh; lia].
Qed.

Lemma upto_rows hist p l : hist_ok hist → (p < length hist)%nat → (l ≤ clayers c)%nat →
  let r := upto pl c ck (before hist p) (hist !!! p) p l in
  length (fst r) = cdim c ∧ run_ok c (snd r) ∧
  (∀ l' t, (t < cseq c)%nat → (t ≠ p ∨ l ≤ l')%nat → kv_row c (snd r) l' t = kv_row c (before hist p) l' t).
Proof.
  intros Hh Hp Hl. destruct (before_state hist p Hh ltac:(lia)) as (Hok & _).
  pose proof (token_row_length c ck Hv _ (hist_token hist p Hh Hp)) as Hx.
  destruct (run_layers_rows pl Hg c Hc (map W (seq 0 l)) (before hist p) (token_row c ck (hist !!! p)) 0 p Hok Hx)
    as (R1 & R2 & R3); [rewrite length_map, length_seq; lia|destruct Hh; lia|].
  split; [done|]. split; [done|]. intros l' t Ht Hn. apply R3; [done|]. rewrite length_map, length_seq. lia.
Qed.

Lemma before_rows hist p l t : hist_ok hist → (p ≤ length hist)%nat → (t < p)%nat →
  kv_row c (before hist p) l t = ref_row hist l t.
Proof.
  intros Hh. induction p as [|p IH]; intros Hp Ht; [lia|]. rewrite before_S by lia. pose proof Hh as [_ Hlen].
  destruct (forward_upto pl Hg c Hc ck Hv (before hist p) (hist !!! p) p) as (_ & _ & _ & Hr);
    [apply before_state; [done|lia]|by apply hist_token|lia|]. rewrite Hr.
  destruct (decide (t = p)) as [->|Hne]; [done|].
  destruct (upto_rows hist p (clayers c) Hh ltac:(lia) ltac:(lia)) as (_ & _ & Hrow).
  rewrite Hrow by lia. apply IH; lia.
Qed.

(** More tokens change nothing of this. *)
Lemma before_app hist more p : (p ≤ length hist)%nat → before (hist ++ more) p = before hist p.
Proof. intros Hp. unfold before. by rewrite take_app_le. Qed.
Lemma act_app hist more p l : (p < length hist)%nat → act (hist ++ more) p l = act hist p l.
Proof. intros Hp. unfold act. by rewrite before_app, lookup_total_app_l by lia. Qed.
Lemma ref_row_app hist more l t : (t < length hist)%nat → ref_row (hist ++ more) l t = ref_row hist l t.
Proof. intros Hp. unfold ref_row. by rewrite before_app, lookup_total_app_l by lia. Qed.

(** The rows of a finished layer are final. *)
Lemma layer_row hist p l i : hist_ok hist → (p < length hist)%nat → (i < l)%nat → (l ≤ clayers c)%nat →
  kv_row c (snd (upto pl c ck (before hist p) (hist !!! p) p l)) i p = ref_row hist i p.
Proof.
  intros Hh Hp Hi Hl. unfold ref_row. pose proof Hh as [_ Hlen]. destruct (upto_rows hist p l Hh Hp Hl) as (Hx & Hok & _).
  replace (clayers c) with (l + (clayers c - l))%nat by lia. rewrite upto_add.
  destruct (run_layers_rows pl Hg c Hc (map W (seq l (clayers c - l)))
    (snd (upto pl c ck (before hist p) (hist !!! p) p l)) (fst (upto pl c ck (before hist p) (hist !!! p) p l)) l p Hok Hx)
    as (_ & _ & R); [rewrite length_map, length_seq; lia|lia|]. symmetry. apply R; lia.
Qed.

Lemma act_sums (P : F → Prop) hist p l :
  (∀ a b, P (fadd a b)) → Forall P ck → hist_ok hist → (p < length hist)%nat → Forall P (act hist p l).
Proof.
  intros Hadd Hck Hh Hp. unfold act, upto. apply run_layers_sums; [done|by apply token_row_length, hist_token|].
  unfold token_row. by apply Forall_take, Forall_drop.
Qed.

Lemma length_act hist p l : hist_ok hist → (p < length hist)%nat → (l ≤ clayers c)%nat → length (act hist p l) = cdim c.
Proof. intros Hh Hp Hl. by apply upto_rows. Qed.

Lemma act_0 hist p : act hist p 0 = token_row c ck (hist !!! p).
Proof. done. Qed.

(** The master's classifier on what comes back. *)
Lemma head_agrees plm table final lg hist p pad :
  0 < g_num_threads plm → threaded plm (Z.to_nat (vocab_size c)) = threaded pl (Z.to_nat (vocab_size c)) →
  table = take (Z.to_nat (vocab_size c) * cdim c) ck →
  final = take (cdim c) (ptr ck (rms_final_weight (memory_map_weights c 0 true))) →
  length lg = Z.to_nat (vocab_size c) → hist_ok hist → (p < length hist)%nat →
  snd (llama_head plm final table c lg (act hist p (clayers c) ++ pad)) =
    fst (forward pl ck c true (before hist p) (hist !!! p) p).
Proof.
  intros Hgm Hpm Htable Hfinal Hlg Hh Hp. pose proof Hh as [_ Hlen].
  rewrite head_pad by (done || apply length_act; done || lia).
  destruct (forward_upto pl Hg c Hc ck Hv (before hist p) (hist !!! p) p) as (-> & _);
    [apply before_state; [done|lia]|by apply hist_token|lia|]. fold (act hist p (clayers c)).
  rewrite (mm_pool _ _ _ _ _ _ Hpm), (norm_ext _ final (ptr ck (rms_final_weight (memory_map_weights c 0 true)))).
  - apply mm_ext. intros i Hi. rewrite Htable. by apply rd_take.
  - intros i Hi. rewrite Hfinal. by apply rd_take.
Qed.

(** ** One shard, one position *)

Context (plw : pool) (Hgw : 0 < g_num_threads plw) (Hpl : pools_agree c pl plw).
Context (m : Z) (Hm : 0 < m).

(** The caches of the shard of the layers from [l] on hold the rows of the
    positions before [n]. *)
Definition filled (hist : list nat) (l n : nat) (sh : shard_t F) : Prop :=
  ∀ i t, (i < length (layers sh))%nat → (t < n)%nat →
    kv_row (local sh) (sh_state sh) i t = ref_row hist (l + i) t.

Lemma shard_step hist l sh p pad :
  hist_ok hist → (p < length hist)%nat → Z.of_nat p < m → serves c W m l sh → filled hist l p sh →
  ∃ sh', shard_forward plw sh (act hist p l ++ pad) (Z.of_nat p) =
      (Some (act hist p (l + length (layers sh)) ++ pad), sh') ∧
    serves c W m l sh' ∧ layers sh' = layers sh ∧ cfg sh' = cfg sh ∧ local sh' = local sh ∧ filled hist l (S p) sh' ∧
    (∀ n, Z.of_nat n ≤ m → filled hist l n sh → filled hist l n sh').
Proof.
  intros Hh Hp Hpm Hsv Hf. pose proof Hsv as (Hld & Hn & Hfit & Hloc & Hlay & Hst). pose proof Hh as [_ Hlen].
  set (n := length (layers sh)) in *. set (u := upto pl c ck (before hist p) (hist !!! p) p l).
  destruct (upto_rows hist p l Hh Hp ltac:(lia)) as (Hx & Hok & Hrow). fold u in Hx, Hok, Hrow.
  assert (Hla : length (map W (seq l n)) = n) by (by rewrite length_map, length_seq).
  assert (Hcs : (p < cseq (local sh))%nat) by (rewrite Hloc; unfold cseq; simpl; lia).
  assert (Hcl : clayers (local sh) = n) by (rewrite Hloc; apply Nat2Z.id).
  assert (Hcp : config_ok (local sh)) by (rewrite Hloc; apply config_ok_shape; [done|lia|done]).
  assert (Hdim : cdim (local sh) = cdim c) by (by rewrite Hloc).
  destruct (run_layers_sim pl plw Hg Hgw c Hc Hpl (Z.of_nat n) m (map W (seq l n)) (layers sh) (snd u) (sh_state sh) (fst u) l 0 p)
    as (I1 & I2 & I3 & I4 & I5 & I6 & I7); try done; try (rewrite ?Hla; lia); try (by rewrite <- Hloc).
  { rewrite Hla, <- Hloc. lia. }
  { intros i t Hi Ht. rewrite Hla in Hi. rewrite <- Hloc, Hrow by lia. rewrite before_rows; [symmetry; by apply Hf|done|lia|done]. }
  destruct (run_layers_rows plw Hgw (local sh) Hcp (layers sh) (sh_state sh) (fst u) 0 p) as (_ & _ & J);
    [done|by rewrite Hdim|fold n; lia|done|].
  rewrite Hla in I5. rewrite <- Hloc in I1, I4, I5. unfold u in I1, I5. rewrite <- upto_add in I1, I5. fold u in I1, I5.
  assert (Hnew : ∀ i, (i < n)%nat → kv_row (local sh)
    (snd (run_layers plw (local sh) (layers sh) (sh_state sh) (fst u) 0 p)) i p = ref_row hist (l + i) p).
  { intros i Hi. pose proof (I5 i p Hi ltac:(lia)) as E5. rewrite Nat.add_0_l in E5. rewrite <- E5.
    apply layer_row; [done|done|lia|lia]. }
  destruct (run_layers plw (local sh) (layers sh) (sh_state sh) (fst u) 0 p) as [x2 t2] eqn:E2. cbn [fst snd] in *.
  set (sh' := Shard (cfg sh) (local sh) (layer_start sh) (layer_end sh) (layers sh) (segs sh) t2 true).
  exists sh'. split.
  { unfold shard_forward. rewrite Hld, Nat2Z.id. cbn [negb].
    rewrite (proj2 (Z.ltb_ge _ _)), (proj2 (Z.leb_gt _ _)) by (rewrite ?Hloc; simpl; lia). cbn [orb].
    unfold act. fold u. rewrite run_layers_pad, E2 by (by rewrite Hdim). cbn [fst snd]. by rewrite I1. }
  split; [by do 5 (split; [done|])|]. do 3 (split; [done|]). split.
  - intros i t Hi Ht. destruct (decide (t = p)) as [->|]; [by apply Hnew|].
    cbn [local sh_state sh']. rewrite J by lia. apply Hf; [done|lia].
  - intros k Hk Hfk i t Hi Ht. destruct (decide (t = p)) as [->|]; [by apply Hnew|].
    cbn [local sh_state sh']. rewrite J; [by apply Hfk| |lia]. rewrite Hloc. unfold cseq. simpl. lia.
Qed.
End History.

(** ** Properties *)

(** A loaded shard: as many layers as its configuration says, and buffers of the
    sizes it says. *)
Definition shard_ok {F} `{FloatOps F} (sh : shard_t F) : Prop :=
  config_ok (local sh) ∧ length (layers sh) = clayers (local sh) ∧ run_ok (local sh) (sh_state sh).

(** C26: Handing a shard the same activation again changes nothing.  If the shard
    ran a position, a second run of the same activation at the same position
    returns the same activation, bit for bit, and leaves every key and value row
    of every layer as the first run left it; so a retransmission is harmless. *)
Theorem reprocessing_idempotent {F} `{FloatOps F} pl (sh sh1 : shard_t F) x pos y :
  0 < g_num_threads pl → shard_ok sh → (cdim (local sh) ≤ length x)%nat →
  shard_forward pl sh x pos = (Some y, sh1) →
  ∃ sh2, shard_forward pl sh1 x pos = (Some y, sh2) ∧ shard_ok sh2 ∧ local sh2 = local sh1 ∧
    ∀ l t, (l < clayers (local sh1))%nat → (t < cseq (local sh1))%nat →
      kv_row (local sh2) (sh_state sh2) l t = kv_row (local sh1) (sh_state sh1) l t.
Proof.
  intros Hg (Hc & Hlay & Hst) Hx. rewrite <- (take_drop (cdim (local sh)) x). set (p := local sh) in *.
  assert (Hx0 : length (take (cdim p) x) = cdim p) by (rewrite length_take; lia).
  set (x0 := take (cdim p) x) in *. set (pad := drop (cdim p) x). unfold shard_forward. fold p.
  destruct (loaded sh); cbn [negb]; [|done]. destruct (Z.ltb_spec pos 0); [done|]. destruct (Z.leb_spec (seq_len p) pos); [done|].
  cbn [orb]. assert (Hpos : (Z.to_nat pos < cseq p)%nat) by (unfold cseq; lia). rewrite run_layers_pad by done.
  destruct (run_layers_again pl Hg p Hc (layers sh) (sh_state sh) x0 (Z.to_nat pos) Hst Hx0 Hlay Hpos) as (A1 & A2 & A3).
  intros [= <- <-]. cbn [loaded local layers sh_state negb]. rewrite (proj2 (Z.leb_gt _ _)) by lia.
  rewrite run_layers_pad, A1 by done. eexists. split; [reflexivity|]. by split_and!.
Qed.

#[local] Existing Instance int_floats.

Lemma small_shard_ok : shard_ok (small_shard 0).
Proof.
  split; [|split; [vm_compute; reflexivity|vm_compute; split_and!; reflexivity]].
  unfold config_ok. split_and!; try (vm_compute; reflexivity). exists 1%nat. vm_compute. reflexivity.
Qed.

Lemma reprocessing_idempotent_witness :
  let r := shard_forward (Pool false 1) (small_shard 0) [4; 6; 9] 0 in
  fst (shard_forward (Pool false 1) (snd r) [4; 6; 9] 0) = fst r ∧ fst r ≠ None.
Proof.
  intros r. destruct r as [[y|] sh1] eqn:E; [|vm_compute in E; discriminate E].
  destruct (reprocessing_idempotent (Pool false 1) (small_shard 0) sh1 [4; 6; 9] 0 y eq_refl small_shard_ok) as (sh2 & E2 & _).
  - vm_compute. lia.
  - exact E.
  - cbn [fst snd]. rewrite E2. done.
Defined.
