(* ===== verification/Generate.v ===== *)
(** * The single-node program (src/xv6-riscv/user/llama.c)

    The generation loop and the chat loop over the transformer, the tokenizer and
    the sampler, with the text they write, and the echo of the prompt.  Timing and profiling are left out. *)
From Stdlib Require Import String.
From S2P Require Import Prelude Llama Checkpoint Shard Text Sort Tokenizer Sampler.

(** The program's objects, its standard input and what it has written. *)
Record node_t (F E : Type) := Node {
  nd_env : E;
  nd_config : Config;
  nd_shared : bool;
  nd_data : list F;
  nd_state : RunState F;
  nd_tok : Tokenizer F;
  nd_sampler : Sampler F;
  nd_in : list Z;
  nd_out : list Z;
}.
Arguments Node {F E}.
Arguments nd_env {F E}.
Arguments nd_config {F E}.
Arguments nd_shared {F E}.
Arguments nd_data {F E}.
Arguments nd_state {F E}.
Arguments nd_tok {F E}.
Arguments nd_sampler {F E}.
Arguments nd_in {F E}.
Arguments nd_out {F E}.

Section Generate.
Context {F E D : Type} `{FloatOps F} `{FloatFile F} `{FloatTest F} `{DoubleOps D} (malloc : Z → E → bool * E).

Abbreviation N := (M (node_t F E)).

Definition set_nd_env (e : E) (s : node_t F E) : node_t F E :=
  Node e (nd_config s) (nd_shared s) (nd_data s) (nd_state s) (nd_tok s) (nd_sampler s) (nd_in s) (nd_out s).
Definition set_nd_state (st : RunState F) (s : node_t F E) : node_t F E :=
  Node (nd_env s) (nd_config s) (nd_shared s) (nd_data s) st (nd_tok s) (nd_sampler s) (nd_in s) (nd_out s).
Definition set_nd_tok (t : Tokenizer F) (s : node_t F E) : node_t F E :=
  Node (nd_env s) (nd_config s) (nd_shared s) (nd_data s) (nd_state s) t (nd_sampler s) (nd_in s) (nd_out s).
Definition set_nd_sampler (sm : Sampler F) (s : node_t F E) : node_t F E :=
  Node (nd_env s) (nd_config s) (nd_shared s) (nd_data s) (nd_state s) (nd_tok s) sm (nd_in s) (nd_out s).
Definition set_nd_in (i : list Z) (s : node_t F E) : node_t F E :=
  Node (nd_env s) (nd_config s) (nd_shared s) (nd_data s) (nd_state s) (nd_tok s) (nd_sampler s) i (nd_out s).
Definition print (o : list Z) (s : node_t F E) : node_t F E :=
  Node (nd_env s) (nd_config s) (nd_shared s) (nd_data s) (nd_state s) (nd_tok s) (nd_sampler s) (nd_in s) (nd_out s ++ o).

Definition on_nenv {A} (m : M E A) : N A := zoom nd_env set_nd_env m.

(** [forward], inside the embedding table and the caches. *)
Definition run_forward (pl : pool) (token pos : Z) : N unit :=
  let* s := get in
  if (0 <=? token) && (token <? vocab_size (nd_config s)) && (0 <=? pos) && (pos <? seq_len (nd_config s)) then
    modify (set_nd_state (snd (forward pl (nd_data s) (nd_config s) (nd_shared s) (nd_state s) (Z.to_nat token) (Z.to_nat pos))))
  else fault.

Definition sample_logits : N Z :=
  let* s := get in
  let* (next, sm, lg) := on_nenv (sample malloc (nd_sampler s) (logits (nd_state s))) in
  modify (λ s, set_nd_sampler sm (set_nd_state (set_logits lg (nd_state s)) s)) ;;*
  ret next.

(** [safe_printf(decode(tokenizer, token, next))] *)
Definition print_token (token next : Z) : N unit :=
  let* t := gets nd_tok in
  let* piece := on_nenv (decode (D := D) t token next) in
  let* out := on_nenv (safe_printf piece) in
  modify (print out).

(** ** [generate] *)

(** One iteration: the next token, or [None] at the end of the text. *)
Definition generate_step (pl : pool) (prompt : list Z) (token pos : Z) : N (option Z) :=
  run_forward pl token pos ;;*
  let* next := match prompt !! Z.to_nat (pos + 1) with Some t => ret t | None => sample_logits end in
  if next =? 1 then ret None else print_token token next ;;* ret (Some next).

(** The position reached. *)
Fixpoint generate_loop (n : nat) (pl : pool) (prompt : list Z) (token pos : Z) : N Z :=
  match n with
  | O => ret pos
  | S n =>
      let* o := generate_step pl prompt token pos in
      match o with
      | None => ret (pos + 1)
      | Some next => generate_loop n pl prompt next (pos + 1)
      end
  end.

(** [int* = malloc(n * sizeof(int))] and the encoder writing into it. *)
Definition encode_into (n : Z) (text : list Z) : N (list Z) :=
  let* ok := on_nenv (tmalloc malloc (u32 (n * 4))) in
  let* t := gets nd_tok in
  let* (t, tokens) := on_nenv (encode malloc t text true false (if ok then n else 0)) in
  modify (set_nd_tok t) ;;*
  ret tokens.

(** Whether the program goes on; [exit(EXIT_FAILURE)] otherwise. *)
Definition generate (pl : pool) (prompt : option (list Z)) (steps : Z) : N bool :=
  let prompt := match prompt with Some p => p | None => [0] end in
  let* tokens := encode_into (strlen prompt + 3) prompt in
  match tokens with
  | [] => ret false
  | token :: _ =>
      generate_loop (Z.to_nat steps) pl tokens token 0 ;;*
      modify (print [10]) ;;*
      ret true
  end.

(** ** [chat] *)

Fixpoint gets_loop (n : nat) (buf inp : list Z) : list Z * list Z :=
  match n, inp with
  | S n, c :: inp => if (c =? 10) || (c =? 13) then (buf ++ [c], inp) else gets_loop n (buf ++ [c]) inp
  | _, _ => (buf, inp)
  end.

Definition gets_line (max : Z) : N (list Z) :=
  let* s := get in
  let '(buf, inp) := gets_loop (Z.to_nat (max - 1)) [] (nd_in s) in
  modify (set_nd_in inp) ;;*
  ret (buf ++ [0]).

(** The buffer as a string. *)
Definition read_stdin (guide : list Z) (bufsize : Z) : N (list Z) :=
  modify (print guide) ;;*
  let* buf := gets_line bufsize in
  let s := cstr buf in
  ret (if match last s with Some c => c =? 10 | None => false end then removelast s else s).

(** [strcpy] into a buffer of [size] bytes. *)
Definition strcpy_into (size : Z) (src : list Z) : N (list Z) :=
  if Z.of_nat (length (cstr src)) + 1 <=? size then ret (cstr src) else fault.

Definition render_prompt (fmt : list Z) (args : list (va D)) : N (list Z) :=
  match xsprintf fmt args with Some s => ret s | None => fault end.

Definition system_template : list Z :=
  lit "[INST] <<SYS>>" ++ [10] ++ lit "%s" ++ [10] ++ lit "<</SYS>>" ++ [10; 10] ++ lit "%s [/INST]".
Definition user_template : list Z := lit "[INST] %s [/INST]".

(** The variables of [chat] that survive an iteration. *)
Record chat_t := Chat {
  system_prompt : list Z; prompt_tokens : list Z; user_idx : nat; user_turn : bool; chat_next : Z; chat_pos : Z;
}.

(** The user's turn: the prompts are read, rendered and encoded. *)
Definition take_turn (cli_user cli_system : option (list Z)) (cap : Z) (v : chat_t) : N chat_t :=
  let* sys := if chat_pos v =? 0 then
                match cli_system with
                | None => read_stdin (lit "Enter system prompt (optional): ") 512
                | Some p => strcpy_into 512 p
                end
              else ret (system_prompt v) in
  let* user := match cli_user, (chat_pos v =? 0) with
               | Some p, true => strcpy_into 512 p
               | _, _ => read_stdin (lit "User: ") 512
               end in
  let* text := match sys, (chat_pos v =? 0) with
               | _ :: _, true => render_prompt system_template [VStr (Some (sys ++ [0])); VStr (Some (user ++ [0]))]
               | _, _ => render_prompt user_template [VStr (Some (user ++ [0]))]
               end in
  let* t := gets nd_tok in
  let* (t, tokens) := on_nenv (encode malloc t (text ++ [0]) true false cap) in
  modify (set_nd_tok t) ;;*
  modify (print (lit "Assistant: ")) ;;*
  ret (Chat sys tokens 0 false (chat_next v) (chat_pos v)).

Definition chat_step (pl : pool) (cli_user cli_system : option (list Z)) (cap : Z) (v : chat_t) : N chat_t :=
  let* v := if user_turn v then take_turn cli_user cli_system cap v else ret v in
  let '(token, idx) := match prompt_tokens v !! user_idx v with
                       | Some t => (t, S (user_idx v))
                       | None => (chat_next v, user_idx v)
                       end in
  let turn := (token =? 2) || user_turn v in
  run_forward pl token (chat_pos v) ;;*
  let* next := sample_logits in
  (if (length (prompt_tokens v) <=? idx)%nat && negb (next =? 2) then print_token token next else ret tt) ;;*
  (if next =? 2 then modify (print [10]) else ret tt) ;;*
  ret (Chat (system_prompt v) (prompt_tokens v) idx turn next (chat_pos v + 1)).

Fixpoint chat_loop (n : nat) (pl : pool) (cli_user cli_system : option (list Z)) (cap : Z) (v : chat_t) : N chat_t :=
  match n with
  | O => ret v
  | S n => let* v := chat_step pl cli_user cli_system cap v in chat_loop n pl cli_user cli_system cap v
  end.

Definition chat (pl : pool) (cli_user cli_system : option (list Z)) (steps : Z) : N unit :=
  let* ok := on_nenv (tmalloc malloc (u32 (1152 * 4))) in
  chat_loop (Z.to_nat steps) pl cli_user cli_system (if ok then 1152 else 0) (Chat [] [] 0 true 0 0) ;;*
  modify (print [10]).
End Generate.

(** ** The prompt comes back *)

Section Prompt.
Context {F E D : Type} `{FloatOps F} `{FloatFile F} `{FloatTest F} `{DoubleOps D} (malloc : Z → E → bool * E).

(** The parts of the program's objects the loop leaves alone while it is in the
    prompt. *)
Definition same_model (s s' : node_t F E) : Prop := nd_tok s' = nd_tok s ∧ nd_config s' = nd_config s.

Lemma run_forward_runs pl token pos (s : node_t F E) :
  0 ≤ token < vocab_size (nd_config s) → 0 ≤ pos < seq_len (nd_config s) →
  ∃ st, run_forward pl token pos s = Some (tt, set_nd_state st s).
Proof.
  intros Ht Hp. unfold run_forward. rewrite (bind_run get _ s s s eq_refl).
  rewrite (proj2 (Z.leb_le 0 token)), (proj2 (Z.ltb_lt token _)), (proj2 (Z.leb_le 0 pos)), (proj2 (Z.ltb_lt pos _)) by lia.
  by eexists.
Qed.

Lemma print_token_runs token k piece out e1 e2 (s : node_t F E) :
  decode (D := D) (nd_tok s) token k (nd_env s) = Some (piece, e1) → safe_printf piece e1 = Some (out, e2) →
  print_token (D := D) token k s = Some (tt, print out (set_nd_env e2 s)).
Proof.
  intros Hd Hp. unfold print_token. rewrite (bind_run (gets nd_tok) _ s (nd_tok s) s eq_refl).
  rewrite (bind_run _ _ s piece (set_nd_env e1 s)) by (unfold on_nenv, zoom; by rewrite Hd).
  rewrite (bind_run _ _ (set_nd_env e1 s) out (set_nd_env e2 (set_nd_env e1 s))) by (unfold on_nenv, zoom; cbn [nd_env set_nd_env]; by rewrite Hp).
  done.
Qed.

(** One iteration inside the prompt prints its next token. *)
Lemma prompt_step_runs pl prompt token k pos piece out e1 e2 (s : node_t F E) :
  0 ≤ token < vocab_size (nd_config s) → 0 ≤ pos < seq_len (nd_config s) → prompt !! Z.to_nat (pos + 1) = Some k → k ≠ 1 →
  decode (D := D) (nd_tok s) token k (nd_env s) = Some (piece, e1) → safe_printf piece e1 = Some (out, e2) →
  ∃ s', generate_step (D := D) malloc pl prompt token pos s = Some (Some k, s') ∧
    same_model s s' ∧ nd_env s' = e2 ∧ nd_out s' = nd_out s ++ out.
Proof.
  intros Ht Hp Hk Hk1 Hd Hc. destruct (run_forward_runs pl token pos s Ht Hp) as [st Hf].
  unfold generate_step. rewrite (bind_run _ _ _ _ _ Hf), Hk, (bind_run (ret k) _ _ k _ eq_refl), (proj2 (Z.eqb_neq _ _)) by done.
  erewrite bind_run by (eapply print_token_runs; [exact Hd|exact Hc]). eexists. by split_and!.
Qed.

Lemma last_from (l : list Z) k d : List.last (k :: l) d = List.last l k.
Proof. revert k d. induction l as [|x l IH]; intros k d; [done|]. change (List.last (x :: l) d = List.last (x :: l) k). by rewrite !IH. Qed.

Lemma prompt_loop_runs pl prompt out e' toks : ∀ token pos (s : node_t F E),
  0 ≤ pos → drop (Z.to_nat pos) prompt = token :: toks → pos + Z.of_nat (length toks) ≤ seq_len (nd_config s) →
  Forall (λ k, 0 ≤ k < vocab_size (nd_config s)) (token :: toks) → Forall (λ k, k ≠ 1) toks →
  echo (D := D) (nd_tok s) token toks (nd_env s) = Some (out, e') →
  ∃ s', (∀ n, generate_loop (D := D) malloc (length toks + n) pl prompt token pos s =
      generate_loop (D := D) malloc n pl prompt (List.last toks token) (pos + Z.of_nat (length toks)) s') ∧
    same_model s s' ∧ nd_env s' = e' ∧ nd_out s' = nd_out s ++ out.
Proof.
  revert out. induction toks as [|k toks IH]; intros out token pos s Hpos Hd Hl Hv Hn1 He.
  - injection He as <- <-. exists s. rewrite app_nil_r. split_and!; [|done..]. intros n. by rewrite Z.add_0_r.
  - apply Forall_cons in Hv as [Ht Hv], Hn1 as [Hk1 Hn1]. cbn [length] in Hl.
    cbn [echo] in He. apply bind_inv in He as (piece & e1 & Hp & He). apply bind_inv in He as (o & e2 & Hc & He).
    apply bind_inv in He as (rest & e3 & Hr & He). injection He as <- <-.
    assert (Hdk : drop (Z.to_nat (pos + 1)) prompt = k :: toks).
    { replace (Z.to_nat (pos + 1)) with (Z.to_nat pos + 1)%nat by lia. by rewrite <- drop_drop, Hd. }
    assert (Hk : prompt !! Z.to_nat (pos + 1) = Some k) by (by rewrite <- (Nat.add_0_r (Z.to_nat _)), <- lookup_drop, Hdk).
    destruct (prompt_step_runs pl prompt token k pos piece o e1 e2 s Ht ltac:(lia) Hk Hk1 Hp Hc) as (s1 & Hs & [Etok Econf] & Eenv & Eout).
    destruct (IH rest k (pos + 1) s1) as (s2 & Hloop & [Etok2 Econf2] & Eenv2 & Eout2); rewrite ?Etok, ?Econf, ?Eenv; [lia|done|lia|done|done|done|].
    exists s2. split; [|split; [split; congruence|split; [done|]]].
    + intros n. cbn [length Nat.add generate_loop]. rewrite (bind_run _ _ _ _ _ Hs), Hloop, last_from. f_equal. lia.
    + by rewrite Eout2, Eout, <- app_assoc.
Qed.

(** The run of [generate] up to the last token of the prompt: its output is [out]
    and the loop goes on from there. *)
Definition echoes (pl : pool) (text : list Z) (out : list Z) (s : node_t F E) : Prop :=
  ∃ toks s', Z.of_nat (length toks) ≤ strlen text + 1 ∧ nd_out s' = nd_out s ++ out ∧
    ∀ n, 0 ≤ n → generate (D := D) malloc pl (Some text) (Z.of_nat (length toks) + n) s =
      (generate_loop (D := D) malloc (Z.to_nat n) pl (1 :: toks) (List.last toks 1) (Z.of_nat (length toks)) ;;*
       modify (print [10]) ;;* ret true) s'.

Lemma generate_echoes pl text (s : node_t F E) :
  malloc_succeeds malloc → tok_ok (nd_tok s) → text_vocab (nd_tok s) → sorted_vocab (nd_tok s) = None ∨ indexed (nd_tok s) →
  tok_vocab_size (nd_tok s) ≤ vocab_size (nd_config s) → strlen text + 1 ≤ seq_len (nd_config s) →
  cstr text ≠ [] → 60 ∉ cstr text → Forall (λ c, shown c = true) (cstr text) → echoes pl text (cstr text) s.
Proof.
  intros Hm Ht Hv Hs Hvoc Hseq Hne Hn Hsh. destruct (malloc (u32 ((strlen text + 3) * 4)) (nd_env s)) as [b e0] eqn:Em.
  pose proof (Hm (u32 ((strlen text + 3) * 4)) (nd_env s)) as Hb. rewrite Em in Hb. cbn in Hb. subst b.
  destruct (prompt_echo_runs malloc (nd_tok s) text e0 Hm Ht Hv Hs Hne Hn Hsh) as (t' & e' & toks & Henc & Hecho & Hval & Hlen).
  set (s0 := set_nd_tok t' (set_nd_env e' s)).
  assert (Hinto : encode_into malloc (strlen text + 3) text s = Some (1 :: toks, s0)).
  { unfold encode_into, on_nenv, zoom, tmalloc, bind. cbn. rewrite Em. cbn. by rewrite Henc. }
  assert (Hrange : Forall (λ k, 0 ≤ k < vocab_size (nd_config s0)) (1 :: toks)).
  { pose proof (ok_range _ Ht). constructor; [cbn; lia|]. eapply Forall_impl; [exact Hval|]. intros k [Hk _]. unfold valid in Hk. cbn. lia. }
  destruct (prompt_loop_runs pl (1 :: toks) (cstr text) e' toks 1 0 s0) as (s1 & Hloop & _ & _ & Hout); [done|done|cbn; lia|done| |exact Hecho|].
  { eapply Forall_impl; [exact Hval|]. by intros k [_ ?]. }
  exists toks, s1. split; [done|]. split; [done|]. intros n Hn0. unfold generate. rewrite (bind_run _ _ _ _ _ Hinto).
  replace (Z.to_nat (Z.of_nat (length toks) + n)) with (length toks + Z.to_nat n)%nat by lia.
  unfold bind at 1. rewrite Hloop. done.
Qed.
End Prompt.

(** ** Property *)

(** C30: A prompt comes back as it was given.  For a prompt of printable characters and
    white space without [<], [generate] prints, while its loop is inside the prompt,
    the text of the prompt and nothing else: characters outside the vocabulary come
    back from their byte tokens, and the space the encoder puts in front is taken
    away.  With the steps the tokens of the prompt take and [n] more, the run is the
    rest of the loop, [n] iterations from the last token of the prompt.  The
    vocabulary is of the reference tokenizer's form ([tok_ok], [text_vocab]), no larger than the
    model's, the prompt fits the model's context, and the allocations succeed. *)
Theorem prompt_echo_roundtrip {F E D} `{FloatOps F} `{FloatFile F} `{FloatTest F} `{DoubleOps D} (malloc : Z → E → bool * E)
    pl text (s : node_t F E) :
  (∀ n e, fst (malloc n e) = true) → tok_ok (nd_tok s) → text_vocab (nd_tok s) → sorted_vocab (nd_tok s) = None ∨ indexed (nd_tok s) →
  tok_vocab_size (nd_tok s) ≤ vocab_size (nd_config s) → strlen text + 1 ≤ seq_len (nd_config s) →
  cstr text ≠ [] → 60 ∉ cstr text → Forall (λ c, xisprint c || xisspace c = true) (cstr text) →
  ∃ toks s', Z.of_nat (length toks) ≤ strlen text + 1 ∧ nd_out s' = nd_out s ++ cstr text ∧
    ∀ n, 0 ≤ n → generate (D := D) malloc pl (Some text) (Z.of_nat (length toks) + n) s =
      (generate_loop (D := D) malloc (Z.to_nat n) pl (1 :: toks) (List.last toks 1) (Z.of_nat (length toks)) ;;*
       modify (print [10]) ;;* ret true) s'.
Proof. apply generate_echoes. Qed.

#[local] Existing Instances int_floats int_file no_doubles.
#[local] Instance int_tests : FloatTest Z := {| fge := Z.geb; feq := Z.eqb |}.

(** A model of one layer with the small vocabulary. *)
Definition prompt_node : node_t Z unit :=
  let z n := replicate n 0 in
  Node tt (MkConfig 2 2 1 1 1 264 16) true (z 600%nat)
    (MkRunState (z 2%nat) (z 2%nat) (z 2%nat) (z 2%nat) (z 2%nat) (z 2%nat) (z 16%nat) (z 264%nat) (z 32%nat) (z 32%nat))
    small_tokenizer (MkSampler 264 0 0 1) [] [].

Lemma prompt_echo_roundtrip_witness :
  ∃ steps s', generate (D := unit) (λ (_ : Z) (e : unit), (true, e)) (Pool false 1) (Some (lit "abc ab")) steps prompt_node = Some (true, s') ∧
    nd_out s' = lit "abc ab" ++ [10].
Proof.
  destruct (prompt_echo_roundtrip (D := unit) (λ (_ : Z) (e : unit), (true, e)) (Pool false 1) (lit "abc ab") prompt_node)
    as (toks & s' & _ & Ho & Hrun).
  - reflexivity.
  - exact small_ok.
  - exact small_text.
  - left. reflexivity.
  - vm_compute. congruence.
  - vm_compute. congruence.
  - vm_compute. congruence.
  - eapply bool_decide_unpack. vm_compute. exact I.
  - eapply bool_decide_unpack. vm_compute. exact I.
  - exists (Z.of_nat (length toks) + 0), (print [10] s'). rewrite Hrun by lia. split; [reflexivity|].
    change (nd_out (print [10] s')) with (nd_out s' ++ [10]). rewrite Ho. reflexivity.
Defined.
