(* ===== verification/Cluster.v ===== *)
(** * A generation session of the whole ring (src/xv6-riscv/user/distinf.c)

    The master's generation loop and the workers' threads as one system, step by
    step, over a network that may lose, delay, duplicate and reorder datagrams.
    The steps are the operations of Session.v and Worker.v: a transmission of the
    embedded token, the handler of a returned activation, the master's turn once
    it has one, a worker's call-back on an activation, and a pass of a worker's
    inference thread.  The system prints what the single-node program prints. *)
From stdpp Require Import relations.
From S2P Require Import Prelude RpcMsg Kernel Rpc Registry Wire Master Hop Llama Checkpoint Shard Worker.
From S2P Require Import Text Tokenizer Sampler Session Ring Generate.

(** The master with the local variables of its loop, and the workers in ring
    order. *)
Record cluster_t (K E : Type) := Cluster {
  boss : dist_t K E;
  now_token : Z;
  now_pos : Z;
  sent_at : Z;
  tries : nat;
  finished : bool;
  team : list (worker_t K E);
}.
Arguments Cluster {K E}.
Arguments boss {K E}.
Arguments now_token {K E}.
Arguments now_pos {K E}.
Arguments sent_at {K E}.
Arguments tries {K E}.
Arguments finished {K E}.
Arguments team {K E}.

Section System.
Context {K E D : Type} `{Kernel K} `{ShardEnv E} `{NodeEnv E} `{FloatOps Z} `{FloatFile Z} `{FloatTest Z} `{DoubleOps D}.
Context (plm plw : pool) (prompt : list Z) (steps : Z) (head_slot : nat) (maddr : rpc_addr_t).

Abbreviation C := (cluster_t K E).

Definition set_boss (m : dist_t K E) (c : C) : C :=
  Cluster m (now_token c) (now_pos c) (sent_at c) (tries c) (finished c) (team c).
Definition set_team (ws : list (worker_t K E)) (c : C) : C :=
  Cluster (boss c) (now_token c) (now_pos c) (sent_at c) (tries c) (finished c) ws.

Definition waddr (w : worker_t K E) : rpc_addr_t := RpcAddr (info_ip (w_self w)) (info_port (w_self w)).
Definition goes_to (pk : packet) (a : rpc_addr_t) : Prop := (dst_ip pk, dst_port pk) = (ip a, port a).

(** The datagrams a node may receive: everything that was ever sent. *)
Inductive on_net (c : C) : rpc_addr_t → packet → Prop :=
  | from_boss pk : pk ∈ sent (kern (rpc (disc (boss c)))) → on_net c maddr pk
  | from_worker i w pk : team c !! i = Some w → pk ∈ sent (kern (wrpc w)) → on_net c (waddr w) pk.

(** The message [rpc_recv] makes of an activation. *)
Definition hop_message (pk : packet) (msg : rpc_msg_t) : Prop :=
  msg_ok msg ∧ payload_len msg = len (args_of msg) ∧ proc (call msg) = PROC_INFER_REQ ∧
  ∃ id p v, rpc_parse (contents pk) = Parsed (id, VCall p v PROC_INFER_REQ, args_of msg).

(** A token is embedded and sent for the first time. *)
Definition open_token (token pos : Z) (m : dist_t K E) (ws : list (worker_t K E)) (c : C) : Prop :=
  ∃ t m1 m2, start_token token m = Some (tt, m1) ∧ send_attempt (head_addr head_slot m1) pos m1 = Some (t, m2) ∧
    c = Cluster m2 token pos t 1 false ws.

Inductive cstep (c : C) : C → Prop :=
  | c_retry t m :
      finished c = false → g_have_final (ring (boss c)) = false → (tries c < 3)%nat →
      send_attempt (head_addr head_slot (boss c)) (now_pos c) (boss c) = Some (t, m) →
      cstep c (Cluster m (now_token c) (now_pos c) t (S (tries c)) false (team c))
  | c_final src pk msg m :
      finished c = false → g_have_final (ring (boss c)) = false →
      on_net c src pk → goes_to pk maddr → hop_message pk msg →
      master_handle_final msg src (boss c) = Some (tt, m) → cstep c (set_boss m c)
  | c_next next m1 m2 c' :
      finished c = false → g_have_final (ring (boss c)) = true → record_token (sent_at c) (boss c) = Some (tt, m1) →
      turn (D := D) plm prompt (now_token c) (now_pos c) m1 = Some (Some next, m2) → now_pos c + 1 < steps →
      open_token next (now_pos c + 1) m2 (team c) c' → cstep c c'
  | c_end o m1 m2 :
      finished c = false → g_have_final (ring (boss c)) = true → record_token (sent_at c) (boss c) = Some (tt, m1) →
      turn (D := D) plm prompt (now_token c) (now_pos c) m1 = Some (o, m2) → o = None ∨ steps ≤ now_pos c + 1 →
      cstep c (Cluster m2 (now_token c) (now_pos c) (sent_at c) (tries c) true (team c))
  | c_deliver i w src pk msg w' :
      team c !! i = Some w → on_net c src pk → goes_to pk (waddr w) → hop_message pk msg →
      worker_inference_hook msg src w = Some (tt, w') → cstep c (set_team (<[i := w']> (team c)) c)
  | c_infer i w w' :
      team c !! i = Some w → inference_step plw w = Some (tt, w') → cstep c (set_team (<[i := w']> (team c)) c).
End System.

(** ** Lemmas *)

Lemma be_words_inj ws : ∀ ws', Forall is_u32 ws → Forall is_u32 ws' → be_words ws = be_words ws' → ws = ws'.
Proof.
  induction ws as [|v ws IH]; intros [|v' ws'] Hw Hw' E; try done.
  apply Forall_cons in Hw as [Hv Hw], Hw' as [Hv' Hw']. rewrite !be_words_cons in E.
  apply app_inj_1 in E as [E1 E2]; [|done]. f_equal; [|by apply IH].
  rewrite <- (u32_id v), <- (u32_id v'), <- (be32_at_put_0 v []), <- (be32_at_put_0 v' []) by done. by rewrite E1.
Qed.

Lemma hop_bytes_inj h x h' x' :
  hop_ok h → Forall is_u32 x → hop_ok h' → Forall is_u32 x' → hop_bytes h x = hop_bytes h' x' → h = h' ∧ x = x'.
Proof.
  intros Hh Hx Hh' Hx' E. apply be_words_inj in E; [|by apply Forall_app..].
  apply app_inj_1 in E as [E1 E2]; [|done]. split; [|done]. destruct h, h'. unfold hop_words in E1. cbn in E1. congruence.
Qed.

Lemma u32_lor a b : is_u32 a → is_u32 b → is_u32 (Z.lor a b).
Proof.
  intros Ha Hb. unfold is_u32 in *. assert (0 ≤ Z.lor a b) by (apply Z.lor_nonneg; lia). split; [done|].
  destruct (Z.eq_dec (Z.lor a b) 0) as [->|Hne]; [lia|].
  apply (Z.log2_lt_pow2 _ 32); [lia|]. rewrite Z.log2_lor by lia.
  assert (L : ∀ z, 0 ≤ z < 2 ^ 32 → Z.log2 z < 32).
  { intros z Hz. destruct (Z.eq_dec z 0) as [->|]; [done|]. apply Z.log2_lt_pow2; lia. }
  pose proof (L a ltac:(lia)). pose proof (L b ltac:(lia)). lia.
Qed.

Lemma next_hop_ok h us b : hop_ok h → hop_ok (next_hop h us b).
Proof.
  unfold hop_ok, hop_words. rewrite !Forall_cons. intros (? & ? & ? & ? & ? & ? & ? & _). cbn.
  split_and!; try done; try (apply Z.mod_pos_bound; lia).
  destruct b; [|done]. apply u32_lor; [done|]. unfold is_u32, INFER_FLAG_FINAL. lia.
Qed.

(** *** Computations that do not look at the environment *)

Section Pure.
Context {F E D : Type} `{FloatOps F} `{FloatTest F} `{DoubleOps D}.

Definition pure {A} (m : M E A) : Prop := ∃ o : option A, ∀ e, m e = (λ a, (a, e)) <$> o.

Lemma pure_ret {A} (a : A) : pure (ret a).
Proof. by exists (Some a). Qed.
Lemma pure_fault {A} : pure (@fault E A).
Proof. by exists None. Qed.
Lemma pure_bind {A B} (m : M E A) (k : A → M E B) : pure m → (∀ a, pure (k a)) → pure (bind m k).
Proof.
  intros [[a|] Hm] Hk; [|exists None; intros e; unfold bind; by rewrite Hm].
  destruct (Hk a) as [o Ho]. exists o. intros e. unfold bind. rewrite Hm. apply Ho.
Qed.
Lemma pure_run {A} (m : M E A) e a e' : pure m → m e = Some (a, e') → e' = e ∧ ∀ e2, m e2 = Some (a, e2).
Proof. intros [[b|] Ho]; rewrite Ho; [|done]. intros [= <- <-]. split; [done|]. intros e2. by rewrite Ho. Qed.

Lemma pure_peek piece i : pure (peek (E := E) piece i).
Proof. unfold peek. destruct (piece !! i); [apply pure_ret|apply pure_fault]. Qed.

Lemma pure_decode (t : Tokenizer F) prev k : pure (decode (E := E) (D := D) t prev k).
Proof.
  unfold decode. apply pure_bind.
  - unfold vocab_at. repeat case_match; apply pure_ret || apply pure_fault.
  - intros s. repeat case_match; apply pure_ret || apply pure_fault.
Qed.

Lemma pure_printf piece : pure (safe_printf (E := E) piece).
Proof.
  unfold safe_printf.
  repeat (first [apply pure_ret | apply pure_fault | apply pure_peek | apply pure_bind; [|intros ?] | case_match]).
Qed.

Lemma pure_greedy malloc (sm : Sampler F) lg : feq (temperature sm) f0 = true → pure (sample (E := E) malloc sm lg).
Proof.
  intros Ht. unfold sample. rewrite Ht. apply pure_bind; [|intros; apply pure_ret].
  unfold sample_argmax. case_match; [apply pure_fault|apply pure_ret].
Qed.
End Pure.

(** *** The master's turn *)

Section Turn.
Context {K E D : Type} `{Kernel K} `{ShardEnv E} `{NodeEnv E} `{FloatOps Z} `{FloatFile Z} `{FloatTest Z} `{DoubleOps D}.

(** The greedy choice. *)
Definition greedy (sm : Sampler Z) (lg : list Z) : option Z :=
  match take (Z.to_nat (sampler_vocab_size sm)) lg with p :: ps => Some (argmax_loop 1 0 p ps) | [] => None end.

Lemma sample_greedily malloc sm lg (e : E) :
  feq (temperature sm) f0 = true → sample malloc sm lg e = (λ k, (k, sm, lg, e)) <$> greedy sm lg.
Proof. intros Ht. unfold sample, greedy. rewrite Ht. unfold bind, sample_argmax. by destruct (take _ lg). Qed.

(** The token chosen from the logits. *)
Definition chosen (prompt : list Z) (pos : Z) (sm : Sampler Z) (lg : list Z) : option Z :=
  match prompt !! Z.to_nat (pos + 1) with Some t => Some t | None => greedy sm lg end.

(** What is printed for it. *)
Definition printed (t : Tokenizer Z) (token next : Z) (out : list Z) : Prop :=
  ∃ piece, (∀ e : E, decode (D := D) t token next e = Some (piece, e)) ∧ ∀ e : E, safe_printf piece e = Some (out, e).

Lemma record_runs t0 (b b1 : dist_t K E) :
  record_token t0 b = Some (tt, b1) → ∃ e mt, b1 = set_metrics mt (set_denv e b).
Proof.
  unfold record_token, rdtime, on_denv, zoom, env, bind, modify. destruct (env_rdtime (denv b)) as [t e]. intros [= <-]. eauto.
Qed.

Lemma turn_runs plm prompt token pos (b b2 : dist_t K E) o :
  feq (temperature (g_sampler (model b))) f0 = true → turn (D := D) plm prompt token pos b = Some (o, b2) →
  let m := model b in
  let r := llama_head plm (g_norm m) (g_table m) (g_config m) (g_logits m) (g_final_x (ring b)) in
  ∃ e mt next out, chosen prompt pos (g_sampler m) (snd r) = Some next ∧
    (next = 1 ∧ o = None ∧ out = [] ∨ next ≠ 1 ∧ o = Some next ∧ printed (g_tok m) token next out) ∧
    b2 = set_console (console b ++ out) (set_metrics mt (set_ring (set_final_x (fst r) (ring b))
           (set_model (Model (g_config m) (g_table m) (g_norm m) (snd r) (g_tok m) (g_sampler m)) (set_denv e b)))).
Proof.
  intros Ht Er m r. unfold turn in Er.
  apply bind_inv in Er as (t0 & b3 & E1 & Er). unfold rdtime, on_denv, zoom, env in E1.
  destruct (env_rdtime (denv b)) as [t e1]. injection E1 as <- <-.
  apply bind_inv in Er as ([] & b4 & E2 & Er). unfold classify, modify in E2. cbn [model ring set_denv] in E2. fold m in E2.
  change (llama_head _ _ _ _ _ _) with r in E2. destruct r as [x lg] eqn:Er'. injection E2 as <-.
  apply bind_inv in Er as (t1 & b5 & E3 & Er). unfold rdtime, on_denv, zoom, env in E3.
  destruct (env_rdtime _) as [t2 e2]. injection E3 as <- <-.
  apply bind_inv in Er as ([] & b6 & E4 & Er). unfold modify in E4. injection E4 as <-. cbn [fst snd].
  set (mt := add_master_us _ _) in Er. clearbody mt.
  set (m' := Model (g_config m) (g_table m) (g_norm m) lg (g_tok m) (g_sampler m)) in *.
  apply bind_inv in Er as (next & b7 & E5 & Er).
  assert (E6 : chosen prompt pos (g_sampler m) lg = Some next ∧
    b7 = set_metrics mt (set_ring (set_final_x x (ring b)) (set_model m' (set_denv e2 b)))).
  { unfold chosen. destruct (prompt !! Z.to_nat (pos + 1)); [by injection E5 as <- <-|].
    unfold sample_next in E5. apply bind_inv in E5 as (m1 & b8 & E6 & E5). injection E6 as <- <-.
    apply bind_inv in E5 as ([[nx sm] lg'] & b9 & E7 & E5). unfold on_denv, zoom in E7.
    rewrite sample_greedily in E7 by done. cbn in E7. destruct (greedy (g_sampler m) lg) as [g|]; [|done].
    injection E7 as <- <- <- <-. apply bind_inv in E5 as ([] & b10 & E8 & E5). injection E8 as <-. by injection E5 as <- <-. }
  destruct E6 as [Hch ->]. destruct (next =? 1) eqn:Hne.
  { injection Er as <- <-. exists e2, mt, next, []. split; [done|]. split; [left; by split; [lia|]|]. by rewrite app_nil_r. }
  apply Z.eqb_neq in Hne. apply bind_inv in Er as (m1 & b8 & E6 & Er). injection E6 as <- <-.
  apply bind_inv in Er as (piece & b9 & E7 & Er). unfold on_denv, zoom in E7. cbn in E7.
  destruct (decode _ token next e2) as [[pc e3]|] eqn:Ed; [|done]. injection E7 as <- <-.
  apply pure_run in Ed as [-> Ed]; [|apply pure_decode].
  apply bind_inv in Er as (out & b10 & E8 & Er). unfold on_denv, zoom in E8. cbn in E8.
  destruct (safe_printf pc e2) as [[o' e4]|] eqn:Ep; [|done]. injection E8 as <- <-.
  apply pure_run in Ep as [-> Ep]; [|apply pure_printf].
  apply bind_inv in Er as ([] & b11 & E9 & Er). injection E9 as <-. injection Er as <- <-.
  exists e2, mt, next, o'. split; [done|]. split; [|done]. right. split; [done|]. split; [done|]. exists pc. by split.
Qed.

(** The same on the single node. *)
Lemma generate_step_runs malloc pl prompt token p (n : node_t Z E) next out :
  0 ≤ token < vocab_size (nd_config n) → Z.of_nat p < seq_len (nd_config n) → feq (temperature (nd_sampler n)) f0 = true →
  let st := snd (forward pl (nd_data n) (nd_config n) (nd_shared n) (nd_state n) (Z.to_nat token) p) in
  chosen prompt (Z.of_nat p) (nd_sampler n) (logits st) = Some next →
  next = 1 ∧ out = [] ∨ next ≠ 1 ∧ printed (nd_tok n) token next out →
  generate_step (D := D) malloc pl prompt token (Z.of_nat p) n =
    Some (if next =? 1 then None else Some next, print out (set_nd_state st n)).
Proof.
  intros Htok Hp Ht st Hch Hout. unfold generate_step.
  assert (E1 : run_forward pl token (Z.of_nat p) n = Some (tt, set_nd_state st n)).
  { unfold run_forward, bind, get. rewrite (proj2 (Z.leb_le 0 token)), (proj2 (Z.ltb_lt token _)), (proj2 (Z.leb_le 0 (Z.of_nat p))),
      (proj2 (Z.ltb_lt (Z.of_nat p) _)) by lia. cbn [andb]. by rewrite Nat2Z.id. }
  rewrite (bind_run _ _ _ _ _ E1).
  assert (E2 : match prompt !! Z.to_nat (Z.of_nat p + 1) with Some t => ret t | None => sample_logits malloc end
    (set_nd_state st n) = Some (next, set_nd_state st n)).
  { unfold chosen in Hch. destruct (prompt !! _); [by injection Hch as ->|].
    unfold sample_logits. rewrite (bind_run _ _ _ _ _ (eq_refl : get _ = Some _)).
    assert (E3 : on_nenv (sample malloc (nd_sampler (set_nd_state st n)) (logits (nd_state (set_nd_state st n)))) (set_nd_state st n) =
      Some ((next, nd_sampler n, logits st), set_nd_state st n)).
    { unfold on_nenv, zoom. rewrite sample_greedily by done. cbn [nd_sampler set_nd_state nd_state]. rewrite Hch. done. }
    rewrite (bind_run _ _ _ _ _ E3). by destruct n, st. }
  rewrite (bind_run _ _ _ _ _ E2). destruct Hout as [[-> ->]|[Hne (piece & Hd & Hpr)]].
  - cbn [Z.eqb Pos.eqb]. unfold ret, print. do 2 f_equal. destruct n. cbn. by rewrite app_nil_r.
  - rewrite (proj2 (Z.eqb_neq _ _) Hne). unfold print_token, on_nenv, zoom, bind, gets, modify. cbn [nd_tok set_nd_state nd_env].
    rewrite Hd, Hpr. done.
Qed.
End Turn.

(** ** The invariant of a session *)

Section Invariant.
Context {K E D : Type} `{KernelLaws K} `{ShardEnv E} `{NodeEnv E} `{FloatOps Z} `{FloatFile Z} `{FloatTest Z} `{DoubleOps D}.
Context (Hheap : heap_available K).
(** The pools of the single node, of the master and of the workers. *)
Context (pl plm plw : pool) (Hg : 0 < g_num_threads pl) (Hgm : 0 < g_num_threads plm) (Hgw : 0 < g_num_threads plw).
(** The model, and the part of it the master holds. *)
Context (c : Config) (Hc : config_ok c) (Hdim : dim c ≤ 1017) (Hpl : pools_agree c pl plw).
Context (Hpm : threaded plm (Z.to_nat (vocab_size c)) = threaded pl (Z.to_nat (vocab_size c))).
Context (ck table final : list Z) (Hv : (Z.to_nat (vocab_size c) * cdim c ≤ length ck)%nat).
Context (Htable : table = take (Z.to_nat (vocab_size c) * cdim c) ck).
Context (Hfinal : final = take (cdim c) (ptr ck (rms_final_weight (memory_map_weights c 0 true)))).
(** Floats are 32-bit patterns. *)
Context (Hadd : ∀ a b : Z, is_u32 (fadd a b)) (Hck : Forall is_u32 ck).
Context (s0 : RunState Z) (Hs0 : node_state c s0).
(** The positions the workers' caches hold. *)
Context (m : Z) (Hm : 0 < m) (Hmc : m ≤ seq_len c).
(** The session: its epoch, the ring with the master behind the last worker, the
    first layer of each worker, and the sequence number it starts from. *)
Context (ss : Z) (Hss : ss ≠ 0) (Hssu : is_u32 ss) (N : nat) (addr : nat → rpc_addr_t) (off : nat → nat) (q0 : Z).
Context (Hinj : ∀ i j, (i ≤ N)%nat → (j ≤ N)%nat → addr i = addr j → i = j).
Context (Hoff0 : off 0%nat = 0%nat) (HoffN : off N = clayers c) (HN : (0 < N)%nat).
Context (prompt : list Z) (steps : Z) (Hsteps : steps ≤ m) (Hfew : steps < 2 ^ 30) (head_slot : nat).
Context (malloc : Z → E → bool * E) (n0 : node_t Z E) (first : Z) (text0 : list Z).

Abbreviation W := (layer_at ck c true).
Abbreviation A := (act pl c ck s0).
Abbreviation C := (cluster_t K E).

(** The caches of the workers before [i] hold the rows up to position [p]. *)
Definition stored (hist : list nat) (ws : list (worker_t K E)) (i p : nat) : Prop :=
  ∀ k w, (k < i)%nat → ws !! k = Some w → filled pl c ck s0 hist (off k) (S p) (shard w).

(** A hop that has passed [i] workers: it belongs to one of the attempts, whose
    positions are [log], and carries the activation after their layers. *)
Definition good (hist log : list nat) (ws : list (worker_t K E)) (i : nat) (h : infer_hop_t) (x : list Z) : Prop :=
  ih_n_floats h = dim c ∧ ∃ j p, log !! j = Some p ∧ ih_seq h = u32 (q0 + Z.of_nat (S j)) ∧
    ih_pos h = Z.of_nat p ∧ (p < length hist)%nat ∧ x = A hist p (off i) ∧ stored hist ws i p.

Definition carries_hop (pk : packet) (h : infer_hop_t) (x : list Z) : Prop :=
  (∃ id p v, rpc_parse (contents pk) = Parsed (id, VCall p v PROC_INFER_REQ, hop_bytes h x)) ∧
  hop_ok h ∧ Forall is_u32 x ∧ ih_n_floats h = Z.of_nat (length x).

Definition good_packet (hist log : list nat) (ws : list (worker_t K E)) (pk : packet) : Prop :=
  ∀ h x, carries_hop pk h x → ih_session_id h = ss → ∃ i, (i ≤ N)%nat ∧ goes_to pk (addr i) ∧ good hist log ws i h x.

(** The orders of the [i]-th worker. *)
Definition on_duty (i : nat) (w : worker_t K E) : Prop :=
  waddr w = addr i ∧ have_assignment w = false ∧ ready w = true ∧ session w = ss ∧ g_corrupt_mode w = CORRUPT_NONE ∧
  w_master w = addr N ∧ (nb_next_ip (cur w), nb_next_port (cur w)) = (ip (addr (S i)), port (addr (S i))).

Record worker_inv (hist log : list nat) (ws : list (worker_t K E)) (p i : nat) (w : worker_t K E) : Prop := {
  wi_ok : worker_ok w;
  wi_duty : on_duty i w;
  wi_serves : serves c W m (off i) (shard w);
  wi_off : off (S i) = (off i + length (layers (shard w)))%nat;
  wi_rows : filled pl c ck s0 hist (off i) p (shard w);
  wi_mail : have_hop w = true → hop_ok (hop w) ∧ ih_session_id (hop w) = ss ∧
    good hist log ws i (hop w) (take (Z.to_nat (ih_n_floats (hop w))) (activation w));
  wi_sent : ∀ pk, pk ∈ sent (kern (wrpc w)) → good_packet hist log ws pk;
}.

Record boss_inv (hist log : list nat) (ws : list (worker_t K E)) (p : nat) (b : dist_t K E) : Prop := {
  bi_ok : dist_ok b;
  bi_model : g_config (model b) = c ∧ g_table (model b) = table ∧ g_norm (model b) = final ∧
    length (g_logits (model b)) = Z.to_nat (vocab_size c) ∧ feq (temperature (g_sampler (model b))) f0 = true;
  bi_session : g_session (ring b) = ss;
  bi_head : head_addr head_slot b = addr 0;
  bi_token : take (cdim c) (token_x b) = token_row c ck (hist !!! p);
  bi_seq : g_seq (ring b) = u32 (q0 + Z.of_nat (length log)) ∧ g_final_seq (ring b) = g_seq (ring b);
  bi_final : g_have_final (ring b) = true → take (cdim c) (g_final_x (ring b)) = A hist p (clayers c) ∧ stored hist ws N p;
  bi_sent : ∀ pk, pk ∈ sent (kern (rpc (disc b))) → good_packet hist log ws pk;
}.

(** The single node has reached the same token and position and written the same
    text. *)
Definition in_step (hist : list nat) (p : nat) (token : Z) (b : dist_t K E) (n : node_t Z E) : Prop :=
  (∀ k, generate_loop (D := D) malloc (p + k) pl prompt first 0 n0 =
        generate_loop (D := D) malloc k pl prompt token (Z.of_nat p) n) ∧
  nd_config n = c ∧ nd_shared n = true ∧ nd_data n = ck ∧ nd_state n = before pl c ck s0 hist p ∧
  nd_tok n = g_tok (model b) ∧ nd_sampler n = g_sampler (model b) ∧ console b = text0 ++ nd_out n.

Record running (cl : C) (hist log : list nat) (p : nat) : Prop := {
  ri_pos : now_pos cl = Z.of_nat p ∧ now_pos cl < steps;
  ri_hist : hist_ok c hist ∧ length hist = S p ∧ Z.of_nat (hist !!! p) = now_token cl;
  ri_log : log !! pred (length log) = Some p ∧ (length log ≤ 3 * p + tries cl)%nat ∧ (tries cl ≤ 3)%nat;
  ri_len : length (team cl) = N;
  ri_team : ∀ i w, team cl !! i = Some w → worker_inv hist log (team cl) p i w;
  ri_boss : boss_inv hist log (team cl) p (boss cl);
  ri_text : ∃ n, in_step hist p (now_token cl) (boss cl) n;
}.

(** The session has ended, and so has the single node, with the same text. *)
Definition ended (cl : C) : Prop :=
  ∃ p n, generate_loop (D := D) malloc (Z.to_nat steps) pl prompt first 0 n0 = Some (p, n) ∧
    console (boss cl) = text0 ++ nd_out n.

Definition cluster_inv (cl : C) : Prop :=
  if finished cl then ended cl else ∃ hist log p, running cl hist log p.
(** *** Monotonicity *)

Abbreviation filledh := (filled pl c ck s0).

Lemma filled_app hist more l n sh : filledh hist l n sh → (n ≤ length hist)%nat → filledh (hist ++ more) l n sh.
Proof. intros Hf Hn i t Hi Ht. rewrite ref_row_app by lia. by apply Hf. Qed.

Lemma filled_less hist l n n' sh : filledh hist l n sh → (n' ≤ n)%nat → filledh hist l n' sh.
Proof. intros Hf Hn i t Hi Ht. apply Hf; [done|lia]. Qed.

(** The workers' caches only gain rows. *)
Definition grows (hist : list nat) (ws ws' : list (worker_t K E)) : Prop :=
  ∀ k w', ws' !! k = Some w' → ∃ w, ws !! k = Some w ∧
    ∀ n, Z.of_nat n ≤ m → filledh hist (off k) n (shard w) → filledh hist (off k) n (shard w').

Lemma grows_insert hist ws i w w' :
  ws !! i = Some w → (∀ n, Z.of_nat n ≤ m → filledh hist (off i) n (shard w) → filledh hist (off i) n (shard w')) →
  grows hist ws (<[i := w']> ws).
Proof.
  intros Hi Hn k v Hk. destruct (decide (k = i)) as [->|Hne].
  - rewrite list_lookup_insert_eq in Hk by (by eapply lookup_lt_Some). injection Hk as <-. eauto.
  - rewrite list_lookup_insert_ne in Hk by done. eauto.
Qed.

Lemma good_team hist log ws ws' i h x :
  Z.of_nat (length hist) ≤ m → grows hist ws ws' → good hist log ws i h x → good hist log ws' i h x.
Proof.
  intros Hl Hgr (Hn & j & p & Hj & Hq & Hp & Hlt & Hx & Hst). split; [done|]. exists j, p. do 5 (split; [done|]).
  intros k w' Hk Hw'. destruct (Hgr k w' Hw') as (w & Hw & Hf). apply Hf; [lia|]. by apply (Hst k).
Qed.

Lemma good_later hist more log more' ws i h x :
  good hist log ws i h x → good (hist ++ more) (log ++ more') ws i h x.
Proof.
  intros (Hn & j & p & Hj & Hq & Hp & Hlt & Hx & Hst). split; [done|]. exists j, p.
  split; [by apply lookup_app_l_Some|]. do 2 (split; [done|]). rewrite length_app, act_app by lia. split; [lia|].
  split; [done|]. intros k w Hk Hw. apply filled_app; [by apply (Hst k)|lia].
Qed.

Lemma packet_team hist log ws ws' pk :
  Z.of_nat (length hist) ≤ m → grows hist ws ws' → good_packet hist log ws pk → good_packet hist log ws' pk.
Proof.
  intros Hl Hgr Hp h x Hc' Hh. destruct (Hp h x Hc' Hh) as (i & Hi & Hd & Hgd). exists i.
  split; [done|]. split; [done|]. by eapply good_team.
Qed.

Lemma packet_later hist more log more' ws pk : good_packet hist log ws pk → good_packet (hist ++ more) (log ++ more') ws pk.
Proof.
  intros Hp h x Hc' Hh. destruct (Hp h x Hc' Hh) as (i & Hi & Hd & Hgd). exists i.
  split; [done|]. split; [done|]. by apply good_later.
Qed.

Lemma net_good cl hist log p src pk maddr : running cl hist log p → on_net maddr cl src pk → good_packet hist log (team cl) pk.
Proof.
  intros Hr [pk' Hpk|i w pk' Hi Hpk]; [by apply (bi_sent _ _ _ _ _ (ri_boss _ _ _ _ Hr))|].
  by apply (wi_sent _ _ _ _ _ _ (ri_team _ _ _ _ Hr i w Hi)).
Qed.

(** The hop a message carries. *)
Lemma message_carries pk msg h x :
  hop_message pk msg → args_of msg = hop_bytes h x → hop_ok h → Forall is_u32 x → ih_n_floats h = Z.of_nat (length x) →
  carries_hop pk h x.
Proof. intros (_ & _ & _ & id & q & v & Hpar) Ha Hh Hx Hn. rewrite Ha in Hpar. by split; [eauto|]. Qed.

Lemma message_len pk msg : hop_message pk msg → 0 ≤ payload_len msg ≤ RPC_PAYLOAD_MAX.
Proof.
  intros ((Hl & _) & -> & _). pose proof (len_nonneg (args_of msg)). split; [done|].
  unfold args_of, len in *. rewrite length_take. lia.
Qed.

Lemma goes_addr pk a b : goes_to pk a → goes_to pk b → a = b.
Proof. unfold goes_to. intros -> [= ? ?]. destruct a, b. cbn in *. congruence. Qed.

(** *** The workers *)

(** Changing one worker. *)
Lemma team_step cl hist log p i w w' :
  running cl hist log p → team cl !! i = Some w →
  (∀ n, Z.of_nat n ≤ m → filledh hist (off i) n (shard w) → filledh hist (off i) n (shard w')) →
  worker_inv hist log (<[i := w']> (team cl)) p i w' →
  running (set_team (<[i := w']> (team cl)) cl) hist log p.
Proof.
  intros Hr Hi Hf Hw'. pose proof Hr as [[Rp1 Rp2] (Hh1 & Hh2 & Hh3) Rl Rn Rt Rb Rx].
  assert (Hlen : Z.of_nat (length hist) ≤ m) by lia.
  pose proof (grows_insert hist (team cl) i w w' Hi Hf) as Hgr.
  split; try done; cbn [team boss set_team now_pos now_token tries].
  - by rewrite length_insert.
  - intros k v Hk. destruct (decide (k = i)) as [->|Hne].
    { rewrite list_lookup_insert_eq in Hk by (by eapply lookup_lt_Some). by injection Hk as <-. }
    rewrite list_lookup_insert_ne in Hk by done. destruct (Rt k v Hk) as [V1 V2 V4 V5 V6 V7 V8].
    split; try done.
    + intros Hv'. destruct (V7 Hv') as (G1 & G2 & G3). split; [done|]. split; [done|]. by eapply good_team.
    + intros pk Hpk. eapply packet_team; eauto.
  - destruct Rb as [B1 B2 B3 B4 B5 B6 B7 B8]. split; try done.
    + intros Hb. destruct (B7 Hb) as [E1 E2]. split; [done|]. intros k v Hk Hv'.
      destruct (Hgr k v Hv') as (v0 & Hv0 & Hfv). apply Hfv; [lia|]. by apply (E2 k).
    + intros pk Hpk. eapply packet_team; eauto.
Qed.

Lemma running_len cl hist log p : running cl hist log p → Z.of_nat (length hist) ≤ m.
Proof. intros [[? ?] (_ & ? & _) _ _ _ _ _]. lia. Qed.

Lemma index_lt cl hist log p i w : running cl hist log p → team cl !! i = Some w → (i < N)%nat.
Proof. intros Hr Hi. apply lookup_lt_Some in Hi. by rewrite (ri_len _ _ _ _ Hr) in Hi. Qed.

Lemma worker_same cl hist log p i w : running cl hist log p → team cl !! i = Some w →
  running (set_team (<[i := w]> (team cl)) cl) hist log p.
Proof. intros Hr Hi. rewrite list_insert_id by done. by destruct cl. Qed.

Lemma deliver_inv cl hist log p i w src pk msg w' maddr :
  running cl hist log p → team cl !! i = Some w → on_net maddr cl src pk → goes_to pk (waddr w) → hop_message pk msg →
  worker_inference_hook msg src w = Some (tt, w') → running (set_team (<[i := w']> (team cl)) cl) hist log p.
Proof.
  intros Hr Hi Hnet Hdst Hmsg Er. pose proof (ri_team _ _ _ _ Hr i w Hi) as [V1 V2 V4 V5 V6 V7 V8].
  pose proof (message_len _ _ Hmsg) as Hpl'. pose proof Hmsg as (Hmok & _ & Hproc & _).
  destruct (hook_hop msg src w) as [(h & x & Hadm & Eh)|[_ Eh]]; try done; [apply V1| |].
  2: { rewrite Eh in Er. injection Er as <-. by apply worker_same. }
  destruct (wtotal_hook Hheap msg src Hmok Hpl' w V1) as ([] & w2 & E2 & Hok2).
  rewrite Er in E2. injection E2 as <-. rewrite Er in Eh. injection Eh as ->.
  destruct Hadm as (Ha & Hh & Hx & Hn & (_ & Hacc1 & Hacc2) & _).
  pose proof V2 as (D1 & D2 & D3 & D4 & D5 & D6 & D7).
  destruct (net_good _ _ _ _ _ _ _ Hr Hnet h x) as (i' & Hi' & Hdst' & Hgd).
  { by eapply message_carries. }
  { rewrite D4 in Hacc2. by apply Hacc2. }
  pose proof (index_lt _ _ _ _ _ _ Hr Hi) as HiN.
  assert (i' = i) as ->. { apply Hinj; [done|lia|]. rewrite <- D1. by eapply goes_addr. }
  assert (Hgr : grows hist (team cl) (<[i := parked w h x]> (team cl))) by (by apply (grows_insert _ _ _ w)).
  pose proof (running_len _ _ _ _ Hr) as Hlen.
  apply (team_step cl hist log p i w); [done|done|by intros n _|]. split; try done.
  - intros _. cbn [parked hop activation set_hop set_last_seq have_hop]. split; [done|].
    split; [rewrite D4 in Hacc2; by apply Hacc2|]. unfold overwrite. rewrite take_0, app_nil_l, Hn, Nat2Z.id, take_app_length.
    by eapply good_team.
  - intros pk' Hpk'. eapply packet_team; [done|done|by apply V8].
Qed.

(** The packet a worker sends for a hop that has passed [i] workers. *)
Lemma passed_good hist log ws i h x q pk us b w' id :
  hist_ok c hist → (i < N)%nat → (off (S i) ≤ clayers c)%nat → ws !! i = Some w' →
  good hist log ws i h x → hop_ok h → ih_pos h = Z.of_nat q → (q < length hist)%nat →
  filledh hist (off i) (S q) (shard w') → goes_to pk (addr (S i)) →
  rpc_parse (contents pk) = Parsed (id, VCall INFERENCE_PROG INFERENCE_VERS PROC_INFER_REQ,
    hop_bytes (next_hop h us b) (A hist q (off (S i)))) →
  good_packet hist log ws pk.
Proof.
  intros Hh Hi Hof Hw (Hn & j & q' & Hj & Hq & Hp & Hlt & Hx & Hst) Hok Hpos Hq' Hf Hdst Hpar h' x' Hc' _.
  assert (q' = q) as -> by lia. destruct Hc' as ((id' & a & v & Hpar') & Hh' & Hx' & _).
  assert (Eb : hop_bytes (next_hop h us b) (A hist q (off (S i))) = hop_bytes h' x') by congruence.
  apply hop_bytes_inj in Eb as [<- <-]; [|by apply next_hop_ok|by eapply act_sums|done|done].
  exists (S i). split; [lia|]. split; [done|]. split; [exact Hn|]. exists j, q. do 5 (split; [done|]).
  intros k v' Hk Hv'. destruct (decide (k = i)) as [->|]; [|apply (Hst k); [lia|done]].
  rewrite Hw in Hv'. by injection Hv' as <-.
Qed.

Lemma infer_inv cl hist log p i w w' :
  running cl hist log p → team cl !! i = Some w → inference_step plw w = Some (tt, w') →
  running (set_team (<[i := w']> (team cl)) cl) hist log p.
Proof.
  intros Hr Hi Er. pose proof (ri_team _ _ _ _ Hr i w Hi) as [V1 V2 V4 V5 V6 V7 V8].
  pose proof V2 as (D1 & D2 & D3 & D4 & D5 & D6 & D7). unfold inference_step, bind, gets in Er. rewrite D2, D3 in Er.
  destruct (have_hop w) eqn:Eh; cbn [andb] in Er; [|injection Er as <-; by apply worker_same].
  destruct (serve_hop_runs Hheap plw w V1 Eh) as ([] & w2 & E2 & Hpass).
  destruct (wtotal_serve_hop Hheap plw w V1) as ([] & w3 & E3 & Hok3).
  rewrite Er in E2, E3. injection E2 as <-. injection E3 as <-.
  destruct (V7 eq_refl) as (M1 & M2 & Hgood). set (h := hop w) in *. set (x := take (Z.to_nat (ih_n_floats h)) (activation w)) in *.
  pose proof Hgood as (Hn & j & q & Hj & Hq & Hp & Hlt & Hx & Hst).
  pose proof (running_len _ _ _ _ Hr) as Hlen. pose proof (ri_hist _ _ _ _ Hr) as (Hh & Hhl & _).
  pose proof (ri_pos _ _ _ _ Hr) as [Hpos Hstp]. pose proof (index_lt _ _ _ _ _ _ Hr Hi) as HiN.
  pose proof V4 as (_ & _ & Hfit & _).
  assert (Hdx : length x = cdim c).
  { rewrite Hx. apply (length_act pl Hg c Hc ck Hv s0 Hs0); [done|done|lia]. }
  destruct (shard_step pl Hg c Hc ck Hv s0 Hs0 plw Hgw Hpl m Hm hist (off i) (shard w) q (drop (length x) (compute w)))
    as (sh' & F1 & F2 & F3 & F4 & F5 & F6 & F7); [done|done|lia|done|eapply filled_less; [exact V6|lia]|].
  rewrite <- V5, <- Hx in F1. unfold passed_on in Hpass. cbv zeta in Hpass. fold h x in Hpass.
  assert (Ex0 : overwrite 0 x (compute w) = x ++ drop (length x) (compute w)) by done.
  assert (Epos : s32 (ih_pos h) = Z.of_nat q) by (rewrite Hp; apply s32_id; lia).
  rewrite Ex0, Epos, F1 in Hpass. destruct Hpass as (P1 & P2 & P3 & P4 & (P5 & P6 & P7 & P8 & P9) & P10 & P11).
  assert (Hgr : grows hist (team cl) (<[i := w']> (team cl))) by (apply (grows_insert _ _ _ w); [done|by rewrite P10]).
  assert (Hw' : <[i := w']> (team cl) !! i = Some w') by (apply list_lookup_insert_eq; by eapply lookup_lt_Some).
  assert (Hgood' : good hist log (<[i := w']> (team cl)) i h x) by (by eapply good_team).
  apply (team_step cl hist log p i w); [done|done|by rewrite P10|]. split; try done; rewrite ?P10, ?F3, ?F4; try done.
  - unfold on_duty, waddr. rewrite P3, P4, P5, P6, P7, P8, P9. exact V2.
  - by apply F7; [lia|].
  - by rewrite P1.
  - intros pk Hpk. assert (Hold : pk ∈ sent (kern (wrpc w)) → good_packet hist log (<[i := w']> (team cl)) pk).
    { intros Hin. eapply packet_team; [done|done|by apply V8]. }
    destruct P11 as (pk' & id & us & P11 & Hd & Hpar). apply handed_sent in P11 as [P11|P11]; rewrite P11 in Hpk; [by apply Hold|].
    apply elem_of_app in Hpk as [Hpk|Hpk%list_elem_of_singleton]; [by apply Hold|]. subst pk'.
    eapply (passed_good hist log _ i h x q pk us _ w' id); try done.
    + rewrite V5. lia.
    + rewrite P10. exact F6.
    + unfold goes_to. rewrite Hd. exact D7.
    + rewrite D5 in Hpar. cbn [corrupt] in Hpar. rewrite take_app_length' in Hpar; [exact Hpar|].
      rewrite (length_act pl Hg c Hc ck Hv s0 Hs0); [rewrite Hn; done|done|done|rewrite V5; lia].
Qed.

(** *** The master *)

(** Another attempt, and perhaps another token. *)
Lemma worker_later hist more log more' ws p p' i w :
  worker_inv hist log ws p i w → filledh hist (off i) p' (shard w) → (p' ≤ length hist)%nat →
  worker_inv (hist ++ more) (log ++ more') ws p' i w.
Proof.
  intros [V1 V2 V4 V5 V6 V7 V8] Hf Hp. split; try done.
  - by apply filled_app.
  - intros Hh. destruct (V7 Hh) as (G1 & G2 & G3). split; [done|]. split; [done|]. by apply good_later.
  - intros pk Hpk. by apply packet_later, V8.
Qed.

(** The packet of an attempt. *)
Lemma attempt_good hist log ws p (g : ring_t) pk :
  hist_ok c hist → (p < length hist)%nat → Z.of_nat p < 2 ^ 30 → g_session g = ss → g_seq g = u32 (q0 + Z.of_nat (length log)) →
  carries (addr 0) (attempt_hop g c (Z.of_nat p) 0) (token_row c ck (hist !!! p)) pk →
  good_packet hist (log ++ [p]) ws pk.
Proof.
  intros Hh Hp Hp30 Hses Hseq (Hd & id & Hpar) h' x' ((id' & a & v & Hpar') & Hh' & Hx' & _) _.
  assert (Hpu : u32 (Z.of_nat p) = Z.of_nat p) by (apply u32_id; unfold is_u32; lia).
  assert (Hdu : u32 (dim c) = dim c) by (apply u32_id; unfold is_u32; destruct Hc; lia).
  assert (Eb : hop_bytes (attempt_hop g c (Z.of_nat p) 0) (token_row c ck (hist !!! p)) = hop_bytes h' x') by congruence.
  apply hop_bytes_inj in Eb as [<- <-]; [| |by rewrite <- (act_0 pl c ck s0); eapply act_sums|done|done].
  2: { unfold hop_ok, attempt_hop. rewrite Hses. unfold hop_words. cbn -[u32 Z.of_nat].
    repeat (apply Forall_cons; split; [first [exact Hssu|apply u32_range|unfold is_u32; lia]|]). by apply Forall_nil. }
  exists 0%nat. split; [lia|]. split; [exact Hd|]. split; [exact Hdu|]. exists (length log), p.
  split; [by rewrite lookup_app_r, Nat.sub_diag by lia|]. split.
  { cbn [attempt_hop ih_seq]. rewrite Hseq. unfold u32. rewrite Zplus_mod_idemp_l. f_equal. lia. }
  split; [exact Hpu|]. split; [done|]. split; [by rewrite Hoff0, act_0|]. intros k w Hk. lia.
Qed.

(** An attempt from a master that holds the token of position [p]. *)
Lemma attempt_inv hist log ws p b t b' :
  hist_ok c hist → (p < length hist)%nat → Z.of_nat p < 2 ^ 30 → boss_inv hist log ws p b → g_have_final (ring b) = false →
  send_attempt (head_addr head_slot b) (Z.of_nat p) b = Some (t, b') →
  boss_inv hist (log ++ [p]) ws p b' ∧ model b' = model b ∧ console b' = console b ∧ g_have_final (ring b') = false.
Proof.
  intros Hh Hp Hp30 [B1 B2 B3 B4 B5 B6 B7 B8] Hnf Er.
  destruct (send_attempt_runs Hheap (head_addr head_slot b) (Z.of_nat p) b B1)
    as (t' & b2 & E2 & S1 & S2 & S3 & S4 & S5 & S6 & S7 & ps & pk & S8 & S9 & S10).
  rewrite Er in E2. injection E2 as <- <-. split; [|rewrite S7; done]. split; rewrite ?S2, ?S3, ?S7; try done.
  - unfold head_addr. by rewrite S6.
  - cbn [next_seq g_seq g_final_seq]. split; [|done]. rewrite (proj1 B6), length_app. unfold u32. rewrite Zplus_mod_idemp_l.
    f_equal. cbn [length]. lia.
  - intros pk' Hpk'. rewrite S8 in Hpk'. rewrite <- (app_nil_r hist).
    assert (Hor : pk' ∈ sent (kern (rpc (disc b))) ∨ pk' = pk).
    { apply elem_of_app in Hpk' as [?|Hin]; [by left|]. destruct S9 as [[-> _]| ->]; [by apply not_elem_of_nil in Hin|].
      right. by apply list_elem_of_singleton in Hin. }
    destruct Hor as [Hin| ->]; [by apply packet_later, B8|]. rewrite app_nil_r.
    destruct B2 as (Bc & _). rewrite Bc, B4 in S10. change (Z.to_nat (dim c)) with (cdim c) in S10. rewrite B5 in S10.
    eapply attempt_good; [done|done|done|done|exact (proj1 B6)|exact S10].
Qed.

Lemma retry_inv cl hist log p t b :
  running cl hist log p → g_have_final (ring (boss cl)) = false → (tries cl < 3)%nat →
  send_attempt (head_addr head_slot (boss cl)) (now_pos cl) (boss cl) = Some (t, b) →
  running (Cluster b (now_token cl) (now_pos cl) t (S (tries cl)) false (team cl)) hist (log ++ [p]) p.
Proof.
  intros [[Rp1 Rp2] (Hh1 & Hh2 & Hh3) (L1 & L2 & L3) Rn Rt Rb (n & Rx)] Hnf Htr Er. rewrite Rp1 in Er.
  destruct (attempt_inv hist log (team cl) p (boss cl) t b) as (B & Em & Ec & _); [done|lia|lia|done|done|done|].
  split; cbn [team boss now_pos now_token tries finished]; try done.
  - rewrite length_app. cbn [length]. split; [|lia]. replace (pred (length log + 1)) with (length log) by lia.
    by rewrite lookup_app_r, Nat.sub_diag by lia.
  - intros i w Hi. rewrite <- (app_nil_r hist). pose proof (Rt i w Hi) as Hw.
    apply (worker_later _ _ _ _ _ p); [done|by apply Hw|lia].
  - exists n. unfold in_step in *. by rewrite Em, Ec.
Qed.

Lemma final_inv cl hist log p src pk msg b :
  running cl hist log p → on_net (addr N) cl src pk → goes_to pk (addr N) → hop_message pk msg →
  master_handle_final msg src (boss cl) = Some (tt, b) → running (set_boss b cl) hist log p.
Proof.
  intros Hr Hnet Hdst Hmsg Er. pose proof Hr as [[Rp1 Rp2] (Hh1 & Hh2 & Hh3) (L1 & L2 & L3) Rn Rt Rb (n & Rx)].
  pose proof (message_len _ _ Hmsg) as Hpl'. pose proof Hmsg as (Hmok & _ & Hproc & _).
  destruct Rb as [B1 B2 B3 B4 B5 B6 B7 B8]. pose proof B1 as (Hok & Hb2 & Hb3 & Hfx & Hrest).
  assert (Hrun : ∀ b', dist_ok b' → model b' = model (boss cl) → console b' = console (boss cl) → token_x b' = token_x (boss cl) →
    registry (disc b') = registry (disc (boss cl)) →
    g_session (ring b') = g_session (ring (boss cl)) → g_seq (ring b') = g_seq (ring (boss cl)) →
    g_final_seq (ring b') = g_final_seq (ring (boss cl)) → sent (kern (rpc (disc b'))) = sent (kern (rpc (disc (boss cl)))) →
    (g_have_final (ring b') = true → take (cdim c) (g_final_x (ring b')) = A hist p (clayers c) ∧ stored hist (team cl) N p) →
    running (set_boss b' cl) hist log p).
  { intros b' O1 O2 O3 O4 O5 O6 O7 O8 O9 O10. split; try done; cbn [set_boss boss team].
    - split; rewrite ?O2, ?O4, ?O6, ?O7, ?O8, ?O9; try done. unfold head_addr. by rewrite O5.
    - exists n. unfold in_step in *. by rewrite O2, O3. }
  assert (Hip : dist_ok (after_ip (boss cl)) ∧ sent (kern (rpc (disc (after_ip (boss cl))))) = sent (kern (rpc (disc (boss cl))))).
  { split; [by apply after_ip_kept|]. apply ip_sent. }
  destruct (handle_final_cases msg src (boss cl)) as [(h & x & (Hd & _ & Hsq & _) & Eh)|(_ & b' & Eh & [-> | ->])];
    rewrite Er in Eh; injection Eh as ->; [|by apply Hrun|by apply Hrun; try apply Hip].
  destruct B2 as (Bc & _). rewrite Bc, B3 in Hd.
  destruct (decode_sound _ _ _ _ _ Hmok Hpl' Hd) as (Ha & Hho & Hx & Hn & (_ & Hacc1 & Hacc2)).
  destruct (net_good _ _ _ _ _ _ _ Hr Hnet h x) as (i & Hi & Hdst' & Hn' & j & q & Hj & Hq & Hps & Hlt & Hxe & Hst).
  { by eapply message_carries. }
  { by apply Hacc2. }
  assert (i = N) as -> by (apply Hinj; [done|lia|by eapply goes_addr]).
  pose proof (lookup_lt_Some _ _ _ Hj) as Hjl.
  assert (Ej : S j = length log).
  { rewrite Hsq, (proj2 B6), (proj1 B6) in Hq. unfold u32 in Hq. Z.div_mod_to_equations. lia. }
  assert (q = p) as ->. { replace j with (pred (length log)) in Hj by lia. congruence. }
  assert (Hxl : length x = cdim c) by (apply Nat2Z.inj; rewrite <- Hn, Hn'; unfold cdim; lia).
  assert (Hxf : (length x ≤ length (g_final_x (ring (boss cl))))%nat) by (rewrite Hxl, Hfx; unfold cdim, INFER_MAX_FLOATS; lia).
  apply Hrun; try done; cbn [set_ring after_ip ring disc set_disc].
  - split; [apply Hip|]. do 2 (split; [done|]). split; [|exact Hrest].
    cbn [ring set_ring commit_final g_final_x]. by rewrite length_overwrite by lia.
  - apply Hip.
  - intros _. cbn [commit_final g_final_x]. rewrite HoffN in Hxe. split; [|exact Hst].
    unfold overwrite. rewrite take_0, app_nil_l, Hxe, <- Hxl, Hxe. apply take_app_length.
Qed.

(** The master's turn is the single node's step. *)
Record turned (hist : list nat) (p : nat) (token : Z) (b : dist_t K E) (o : option Z) (b2 : dist_t K E) : Prop := {
  td_ok : dist_ok b2;
  td_model : g_config (model b2) = c ∧ g_table (model b2) = table ∧ g_norm (model b2) = final ∧
    length (g_logits (model b2)) = Z.to_nat (vocab_size c) ∧ feq (temperature (g_sampler (model b2))) f0 = true;
  td_disc : disc b2 = disc b;
  td_ring : g_session (ring b2) = g_session (ring b) ∧ g_seq (ring b2) = g_seq (ring b) ∧ g_final_seq (ring b2) = g_final_seq (ring b);
  td_step : ∃ n n', in_step hist p token b n ∧ generate_step (D := D) malloc pl prompt token (Z.of_nat p) n = Some (o, n') ∧
    nd_config n' = c ∧ nd_shared n' = true ∧ nd_data n' = ck ∧ nd_state n' = before pl c ck s0 hist (S p) ∧
    nd_tok n' = g_tok (model b2) ∧ nd_sampler n' = g_sampler (model b2) ∧ console b2 = text0 ++ nd_out n';
}.

Lemma turn_inv cl hist log p m1 o m2 :
  running cl hist log p → g_have_final (ring (boss cl)) = true → record_token (sent_at cl) (boss cl) = Some (tt, m1) →
  turn (D := D) plm prompt (now_token cl) (now_pos cl) m1 = Some (o, m2) → turned hist p (now_token cl) (boss cl) o m2.
Proof.
  intros [[Rp1 Rp2] (Hh1 & Hh2 & Hh3) _ _ _ [B1 (Bc & Bt & Bn & Bl & Bg) B3 B4 B5 B6 B7 B8] (n & Rx)] Hf E1 E2.
  apply record_runs in E1 as (e & mt & ->). rewrite Rp1 in E2.
  apply turn_runs in E2 as (e2 & mt2 & next & out & Hch & Hout & ->); [|exact Bg].
  cbn [model set_metrics set_denv ring] in *. rewrite Bc, Bt, Bn in *. destruct (B7 Hf) as [Hfx _].
  pose proof Rx as (X1 & X2 & X3 & X4 & X5 & X6 & X7 & X8). pose proof (before_S pl c ck Hv s0 hist p ltac:(lia)) as HbS.
  pose proof (hist_token c hist p Hh1 ltac:(lia)) as Htok. pose proof Hh1 as [Hh1a Hh1b].
  destruct (forward_upto pl Hg c Hc ck Hv (before pl c ck s0 hist p) (hist !!! p) p) as (_ & (_ & _ & Hlen) & Hlg & _);
    [by apply (before_state pl Hg c Hc ck Hv s0 Hs0); [|lia]|done|lia|].
  set (r := llama_head _ _ _ _ _ _) in *.
  assert (Er : snd r = logits (before pl c ck s0 hist (S p))).
  { rewrite HbS, Hlg. unfold r. rewrite <- (take_drop (cdim c) (g_final_x (ring (boss cl)))), Hfx.
    by apply (head_agrees pl Hg c Hc ck Hv s0 Hs0); [..|lia]. }
  assert (Elen : length (fst r) = length (g_final_x (ring (boss cl)))).
  { pose proof B1 as (_ & _ & _ & Hl & _). unfold r, llama_head, rmsnorm. cbn [fst]. apply length_overwrite.
    rewrite length_map, length_seq, Hl. unfold cdim, INFER_MAX_FLOATS. lia. }
  clearbody r. split; cbn.
  - destruct B1 as (O1 & O2 & O3 & O4 & O5 & O6 & O7). rewrite Bc in O6, O7. rewrite Bt in O7.
    do 3 (split; [assumption|]). split; [exact (eq_trans Elen O4)|]. by split.
  - do 3 (split; [done|]). split; [|done]. rewrite Er, HbS. exact Hlen.
  - done.
  - done.
  - exists n, (print out (set_nd_state (before pl c ck s0 hist (S p)) n)). split; [exact Rx|]. split.
    + rewrite <- Hh3. rewrite (generate_step_runs malloc pl prompt (Z.of_nat (hist !!! p)) p n next out).
      * rewrite X2, X3, X4, X5, Nat2Z.id, <- HbS. do 2 f_equal. destruct Hout as [(-> & -> & _)|(Hn1 & -> & _)]; [done|].
        by rewrite (proj2 (Z.eqb_neq _ _) Hn1).
      * rewrite X2. lia.
      * rewrite X2. lia.
      * by rewrite X7.
      * rewrite X2, X3, X4, X5, X7, Nat2Z.id, <- HbS, <- Er. exact Hch.
      * rewrite X6, Hh3. destruct Hout as [(H1n & _ & Ho)|(H1n & _ & Ho)]; [left|right]; exact (conj H1n Ho).
    + do 6 (split; [done|]). cbn. by rewrite X8, app_assoc.
Qed.

Lemma start_token_valid token (b : dist_t K E) r : start_token token b = Some r → 0 ≤ token < vocab_size (g_config (model b)).
Proof.
  destruct r as [u b']. intros Er. unfold start_token in Er. apply bind_inv in Er as (t & b1 & E1 & Er).
  unfold rdtime, on_denv, zoom, env in E1. destruct (env_rdtime (denv b)) as [t1 e]. injection E1 as <- <-.
  apply bind_inv in Er as (v & b2 & E2 & _). unfold embed_token, bind, gets in E2. cbn [model set_denv] in E2.
  destruct (Z.leb_spec 0 token), (Z.ltb_spec token (vocab_size (g_config (model b)))); done.
Qed.

Lemma table_row t : (t < Z.to_nat (vocab_size c))%nat → take (cdim c) (drop (t * cdim c) table) = token_row c ck t.
Proof.
  intros Ht. unfold token_row. rewrite Htable, !take_drop_commute, take_take, Nat.min_l by nia. done.
Qed.

(** A token opened on a state whose history ends with it. *)
Lemma open_inv hist log ws p token b cl' :
  hist_ok c hist → length hist = S p → Z.of_nat (hist !!! p) = token → Z.of_nat p < steps →
  dist_ok b → (g_config (model b) = c ∧ g_table (model b) = table ∧ g_norm (model b) = final ∧
    length (g_logits (model b)) = Z.to_nat (vocab_size c) ∧ feq (temperature (g_sampler (model b))) f0 = true) →
  g_session (ring b) = ss → head_addr head_slot b = addr 0 →
  g_seq (ring b) = u32 (q0 + Z.of_nat (length log)) ∧ g_final_seq (ring b) = g_seq (ring b) →
  (∀ pk, pk ∈ sent (kern (rpc (disc b))) → good_packet hist log ws pk) → open_token head_slot token (Z.of_nat p) b ws cl' →
  boss_inv hist (log ++ [p]) ws p (boss cl') ∧ model (boss cl') = model b ∧ console (boss cl') = console b ∧
    now_token cl' = token ∧ now_pos cl' = Z.of_nat p ∧ tries cl' = 1%nat ∧ finished cl' = false ∧ team cl' = ws.
Proof.
  intros Hh Hl Ht Hp B1 B2 B3 B4 B6 B8 (t & m1 & m2 & E1 & E2 & ->). cbn [boss now_token now_pos tries team finished].
  pose proof (start_token_valid _ _ _ E1) as Hval. destruct B2 as (Bc & Bt & Brest). rewrite Bc in Hval.
  destruct (start_token_runs token b B1) as ([] & b1 & E3 & S1 & S2 & S3 & S4 & S5 & S6 & S7); [by rewrite Bc|].
  rewrite E1 in E3. injection E3 as <-. rewrite Bc, Bt, <- Ht, Nat2Z.id, table_row in S7 by lia.
  destruct (attempt_inv hist log ws p m1 t m2) as (B & Em & Ec & _); [done|lia|lia| |by rewrite S5|done|].
  - split; rewrite ?S2, ?S4, ?S5; try done. unfold head_addr. by rewrite S4.
  - rewrite Em, Ec, S2, S3. by split.
Qed.

(** The workers have filled their caches when the activation is back. *)
Lemma workers_filled cl hist log p i w :
  running cl hist log p → g_have_final (ring (boss cl)) = true → team cl !! i = Some w → filledh hist (off i) (S p) (shard w).
Proof.
  intros Hr Hf Hi. destruct (bi_final _ _ _ _ _ (ri_boss _ _ _ _ Hr) Hf) as [_ Hst].
  by apply (Hst i); [eapply index_lt|].
Qed.

Lemma next_inv cl hist log p next m1 m2 cl' :
  running cl hist log p → g_have_final (ring (boss cl)) = true → record_token (sent_at cl) (boss cl) = Some (tt, m1) →
  turn (D := D) plm prompt (now_token cl) (now_pos cl) m1 = Some (Some next, m2) → now_pos cl + 1 < steps →
  open_token head_slot next (now_pos cl + 1) m2 (team cl) cl' →
  running cl' (hist ++ [Z.to_nat next]) (log ++ [S p]) (S p).
Proof.
  intros Hr Hf E1 E2 Hlt Hop. pose proof (turn_inv _ _ _ _ _ _ _ Hr Hf E1 E2) as [T1 T2 T3 (T4 & T5 & T6) (n & n' & Tx & Ts & Tn)].
  pose proof Hr as [[Rp1 Rp2] (Hh1 & Hh2 & Hh3) (L1 & L2 & L3) Rn Rt [B1 B2 B3 B4 B5 B6 B7 B8] _].
  assert (Hnx : 0 ≤ next < vocab_size c).
  { destruct Hop as (t & m3 & m4 & E3 & _). pose proof (start_token_valid _ _ _ E3) as Hx. by rewrite (proj1 T2) in Hx. }
  set (hist' := hist ++ [Z.to_nat next]).
  assert (Hlast : Z.of_nat (hist' !!! S p) = next).
  { unfold hist'. rewrite list_lookup_total_middle by lia. lia. }
  assert (Hh' : hist_ok c hist').
  { destruct Hh1 as [Hh1a Hh1b]. split; [apply Forall_app; split; [done|]; apply Forall_singleton; lia|].
    unfold hist'. rewrite length_app. cbn [length]. unfold cseq. lia. }
  assert (Hl' : length hist' = S (S p)) by (unfold hist'; rewrite length_app; cbn [length]; lia).
  replace (now_pos cl + 1) with (Z.of_nat (S p)) in Hop by lia.
  destruct (open_inv hist' log (team cl) (S p) next m2 cl') as (B & Em & Ec & O1 & O2 & O3 & O4 & O5);
    rewrite ?T3, ?T4, ?T5, ?T6; try done; try lia.
  { unfold head_addr. by rewrite T3. }
  { intros pk Hpk. rewrite <- (app_nil_r log). by apply packet_later, B8. }
  split; rewrite ?O1, ?O2, ?O3, ?O5; try done; try lia.
  - rewrite length_app. cbn [length]. split; [|lia]. replace (pred (length log + 1)) with (length log) by lia.
    by rewrite lookup_app_r, Nat.sub_diag by lia.
  - intros i w Hi. apply (worker_later _ _ _ _ _ p); [by apply Rt|by eapply workers_filled|lia].
  - exists n'. destruct Tn as (N1 & N2 & N3 & N4 & N5 & N6 & N7). unfold in_step. rewrite Em, Ec, N4.
    split; [|by rewrite <- (before_app pl c ck s0 hist [Z.to_nat next]) by lia].
    intros k. replace (S p + k)%nat with (p + S k)%nat by lia. rewrite (proj1 Tx (S k)). cbn [generate_loop].
    rewrite (bind_run _ _ _ _ _ Ts). by replace (Z.of_nat p + 1) with (Z.of_nat (S p)) by lia.
Qed.

Lemma end_inv cl hist log p o m1 m2 :
  running cl hist log p → g_have_final (ring (boss cl)) = true → record_token (sent_at cl) (boss cl) = Some (tt, m1) →
  turn (D := D) plm prompt (now_token cl) (now_pos cl) m1 = Some (o, m2) → o = None ∨ steps ≤ now_pos cl + 1 →
  ended (Cluster m2 (now_token cl) (now_pos cl) (sent_at cl) (tries cl) true (team cl)).
Proof.
  intros Hr Hf E1 E2 Ho. pose proof (turn_inv _ _ _ _ _ _ _ Hr Hf E1 E2) as [_ _ _ _ (n & n' & Tx & Ts & _ & _ & _ & _ & _ & _ & Tc)].
  pose proof (ri_pos _ _ _ _ Hr) as [Rp1 Rp2]. exists (Z.of_nat (S p)), n'. split; [|done].
  replace (Z.to_nat steps) with (p + S (Z.to_nat steps - S p))%nat by lia. rewrite (proj1 Tx). cbn [generate_loop].
  rewrite (bind_run _ _ _ _ _ Ts). destruct o as [nx|]; [|by rewrite Nat2Z.inj_succ].
  destruct Ho as [?|Ho]; [done|]. replace (Z.to_nat steps - S p)%nat with 0%nat by lia. cbn. by rewrite Nat2Z.inj_succ.
Qed.

(** Every step keeps the invariant. *)
Lemma cstep_inv cl cl' : cstep (D := D) plm plw prompt steps head_slot (addr N) cl cl' → cluster_inv cl → cluster_inv cl'.
Proof.
  unfold cluster_inv. intros Hs Hi. destruct Hs as [t b H1f|src pk msg b H1f|next b1 b2 cl' H1f ? ? ? ? Hop|o b1 b2 H1f|
    i w src pk msg w' Hw|i w w' Hw]; try (rewrite H1f in Hi; destruct Hi as (hist & log & p & Hr)).
  - cbn. eexists _, _, _. by apply retry_inv.
  - cbn. rewrite H1f. eexists _, _, _. by eapply final_inv.
  - assert (finished cl' = false) as -> by (by destruct Hop as (? & ? & ? & _ & _ & ->)). eexists _, _, _. by eapply next_inv.
  - cbn. by eapply end_inv.
  - cbn [finished set_team]. destruct (finished cl); [exact Hi|]. destruct Hi as (hist & log & p & Hr).
    eexists _, _, _. by eapply deliver_inv.
  - cbn [finished set_team]. destruct (finished cl); [exact Hi|]. destruct Hi as (hist & log & p & Hr).
    eexists _, _, _. by eapply infer_inv.
Qed.
(** *** The first state *)

(** Nothing of the session has been sent. *)
Definition quiet (r : rpc_t K) : Prop := ∀ pk h x, pk ∈ sent (kern r) → carries_hop pk h x → ih_session_id h ≠ ss.

(** The [i]-th worker has its orders and no hop parked. *)
Definition worker_ready (i : nat) (w : worker_t K E) : Prop :=
  worker_ok w ∧ on_duty i w ∧ have_hop w = false ∧ quiet (wrpc w).

(** The master holds its part of the model, samples greedily and knows the head of
    the ring. *)
Definition master_ready (b : dist_t K E) : Prop :=
  dist_ok b ∧ (g_config (model b) = c ∧ g_table (model b) = table ∧ g_norm (model b) = final ∧
    length (g_logits (model b)) = Z.to_nat (vocab_size c) ∧ feq (temperature (g_sampler (model b))) f0 = true) ∧
  g_session (ring b) = ss ∧ head_addr head_slot b = addr 0 ∧
  (g_seq (ring b) = u32 q0 ∧ g_final_seq (ring b) = g_seq (ring b)) ∧ quiet (rpc (disc b)).

(** The single node: the whole model, and the master's tokenizer and sampler. *)
Definition node_ready (b : dist_t K E) (n : node_t Z E) : Prop :=
  nd_config n = c ∧ nd_shared n = true ∧ nd_data n = ck ∧ nd_state n = s0 ∧ nd_tok n = g_tok (model b) ∧
  nd_sampler n = g_sampler (model b).

Lemma quiet_good hist log ws r pk : quiet r → pk ∈ sent (kern r) → good_packet hist log ws pk.
Proof. intros Hq Hpk h x Hx Hh. by destruct (Hq pk h x Hpk Hx). Qed.

Lemma initial_inv b ws cl :
  0 < steps → length ws = N →
  (∀ i w, ws !! i = Some w → worker_ready i w ∧ serves c W m (off i) (shard w) ∧
     off (S i) = (off i + length (layers (shard w)))%nat) →
  master_ready b → node_ready b n0 → console b = text0 ++ nd_out n0 → open_token head_slot first 0 b ws cl → cluster_inv cl.
Proof.
  intros Hst Hlen Hws (M1 & M2 & M3 & M4 & M5 & M6) (N1 & N2 & N3 & N4 & N5 & N6) Htext Hop.
  assert (Hf : 0 ≤ first < vocab_size c).
  { destruct Hop as (t & m3 & m4 & E3 & _). pose proof (start_token_valid _ _ _ E3) as Hx. by rewrite (proj1 M2) in Hx. }
  assert (Hh : hist_ok c [Z.to_nat first]).
  { split; [apply Forall_singleton; lia|]. cbn. unfold cseq. lia. }
  destruct (open_inv [Z.to_nat first] [] ws 0 first b cl) as (B & Em & Ec & O1 & O2 & O3 & O4 & O5); try done.
  { cbn. lia. }
  { by rewrite Z.add_0_r. }
  { intros pk Hpk. by eapply quiet_good. }
  unfold cluster_inv. rewrite O4. exists [Z.to_nat first], [0%nat], 0%nat.
  split; rewrite ?O1, ?O2, ?O3, ?O5; try done.
  - split; [done|]. split; [done|]. cbn. lia.
  - split; [done|]. cbn. lia.
  - intros i w Hi. destruct (Hws i w Hi) as ((W1 & W2 & W3 & W4) & W5 & W6). split; try done.
    + intros l t _ Ht. lia.
    + by rewrite W3.
    + intros pk Hpk. by eapply quiet_good.
  - exists n0. unfold in_step. rewrite Em, Ec. by repeat (split; [done|]).
Qed.

(** *** What the invariant says *)

(** The text printed so far is that of the single node after as many iterations;
    at the end, after all of them. *)
Definition agrees (cl : C) : Prop :=
  ∃ n, console (boss cl) = text0 ++ nd_out n ∧
    if finished cl then ∃ p, generate_loop (D := D) malloc (Z.to_nat steps) pl prompt first 0 n0 = Some (p, n)
    else 0 ≤ now_pos cl < steps ∧
      ∀ k, generate_loop (D := D) malloc (Z.to_nat (now_pos cl) + k) pl prompt first 0 n0 =
           generate_loop (D := D) malloc k pl prompt (now_token cl) (now_pos cl) n.

Lemma inv_agrees cl : cluster_inv cl → agrees cl.
Proof.
  unfold cluster_inv, agrees. destruct (finished cl); [intros (p & n & Hg' & Ht); exists n; by split; [|exists p]|].
  intros (hist & log & p & [[Rp1 Rp2] _ _ _ _ _ (n & X1 & _ & _ & _ & _ & _ & _ & X8)]). exists n. split; [done|].
  split; [lia|]. intros k. by rewrite Rp1, Nat2Z.id.
Qed.
End Invariant.

(** ** The split *)

Section Deployment.
Context {E : Type} `{ShardEnv E} `{FloatOps Z}.
Context (fid : Z) (file : list Z) (c : Config) (max_seq : Z).
Context (Hfetch : fetch_faithful (S := E) fid file) (Hbytes : is_bytes file).
Context (Hcfg : file_config file = c) (Hfit : cfg_fits c) (Hc : config_ok c) (Hsize : 28 + 4 * (model_floats c + dim c) < 2 ^ 32).

Lemma weights_u32 : Forall is_u32 (weights id file).
Proof.
  unfold weights, floats, le_words. rewrite map_map. apply Forall_forall. intros z Hz.
  apply list_elem_of_fmap in Hz as (i & -> & _). apply le32_at_range. by apply Forall_drop.
Qed.

(** The first layer of each worker. *)
Definition first_layer (n i : nat) : nat := Z.to_nat (fst (layer_range (n_layers c) (Z.of_nat n) (Z.of_nat i))).

Lemma first_layer_0 n : (0 < n)%nat → first_layer n 0 = 0%nat.
Proof.
  intros Hn. unfold first_layer, layer_range. cbn [fst]. pose proof (Z.mod_pos_bound (n_layers c) (Z.of_nat n) ltac:(lia)).
  destruct (Z.ltb_spec (Z.of_nat 0) (n_layers c mod Z.of_nat n)); lia.
Qed.

Lemma first_layer_n n : (0 < n)%nat → first_layer n n = clayers c.
Proof. intros Hn. unfold first_layer. by rewrite layer_range_end by lia. Qed.

Lemma loaded_at shs i sh :
  (0 < length shs)%nat → Forall2 (loaded_from (S := E) id fid c max_seq) (layer_split (n_layers c) (Z.of_nat (length shs))) shs →
  shs !! i = Some sh →
  serves c (layer_at (weights id file) c true) (clamp_seq c max_seq) (first_layer (length shs) i) sh ∧
  first_layer (length shs) (S i) = (first_layer (length shs) i + length (layers sh))%nat.
Proof.
  intros Hn Hf Hi. pose proof Hfit as (_ & _ & Hnl & _). rewrite layer_split_ranges in Hf by lia. rewrite Nat2Z.id in Hf.
  destruct (Forall2_lookup_r _ _ _ _ _ Hf Hi) as (r & Hr & Hl).
  rewrite list_lookup_fmap, lookup_seq_lt in Hr by (by eapply lookup_lt_Some). injection Hr as <-. cbn [Nat.add] in Hl.
  pose proof (layer_range_next (n_layers c) (Z.of_nat (length shs)) (Z.of_nat i) ltac:(lia) ltac:(lia)) as Hnext.
  unfold first_layer. rewrite Nat2Z.inj_succ. unfold Z.succ. destruct (layer_range _ _ (Z.of_nat i)) as [a b]. cbn [fst snd] in *.
  destruct (loaded_serves id fid file Hfetch c Hfit Hc Hsize max_seq a b sh Hl) as (? & ? & Hlen & Hsv).
  split; [done|]. rewrite Hlen, <- Hnext. lia.
Qed.

End Deployment.

(** ** Properties *)

(** C1: A whole session of the ring prints what a single node prints.  Let the
    weight server hold one model, let the workers have loaded the ranges of the
    split and be chained from the head to the master, let the master have loaded
    its part and draw the token greedily, and let the session be fresh.  Then in
    every state the system can reach, whatever datagrams are delayed, duplicated,
    reordered or lost, in whatever order the workers and the master run, and
    however often a token is retransmitted, the text on the master's console is
    the text [generate] of the single-node program prints from the same file,
    tokenizer and prompt: up to the token in flight while the session runs, and
    the whole of it when it has ended.

    Conditions: the nodes add their products in the same order ([pools_agree]: all
    with a thread pool, or no output of 128 rows or more; as the program is wired
    the workers start no pool, so it is a model without such an output); the single
    node draws greedily too; the model is at most 1017 wide, the most a datagram
    carries; the steps fit the workers' caches; the ring is fixed while the session
    runs (no node leaves, restarts or is assigned anew); only datagrams of its nodes
    are on the network; and the stream records can be allocated. *)
Theorem ring_prints_what_one_node_prints {K E D : Type} `{KernelLaws K} `{ShardEnv E} `{NodeEnv E} `{FloatOps Z} `{FloatTest Z}
    `{DoubleOps D} fid (file : list Z) c max_seq (pl plm plw : pool) table final st rs (e1 e1' e2 e2' : E)
    ss addr q0 prompt steps head_slot malloc (n0 : node_t Z E) first (b : dist_t K E) (ws : list (worker_t K E)) cl0 cl :
  heap_available K → fetch_faithful (S := E) fid file → is_bytes file → (∀ a b : Z, is_u32 (fadd a b)) →
  file_config file = c → cfg_fits c → config_ok c → 28 + 4 * (model_floats c + dim c) < 2 ^ 32 →
  0 < g_num_threads pl → 0 < g_num_threads plm → 0 < g_num_threads plw →
  pools_agree c pl plw → threaded plm (Z.to_nat (vocab_size c)) = threaded pl (Z.to_nat (vocab_size c)) →
  build_transformer id file e1 = Some ((c, true, rs), e1') →
  master_load_head_tail id fid e2 = Some (Some (c, table, final, st), e2') →
  Forall2 (loaded_from (S := E) id fid c max_seq) (layer_split (n_layers c) (Z.of_nat (length ws))) (map shard ws) →
  ss ≠ 0 → is_u32 ss → (0 < length ws)%nat →
  (∀ i j, (i ≤ length ws)%nat → (j ≤ length ws)%nat → addr i = addr j → i = j) →
  (∀ i w, ws !! i = Some w → worker_ready ss (length ws) addr i w) →
  master_ready c table final ss addr q0 head_slot b → node_ready c (weights id file) rs b n0 → nd_out n0 = [] →
  0 < steps ≤ clamp_seq c max_seq → steps < 2 ^ 30 → open_token head_slot first 0 b ws cl0 →
  rtc (cstep (D := D) plm plw prompt steps head_slot (addr (length ws))) cl0 cl →
  agrees (D := D) pl prompt steps malloc n0 first (console b) cl.
Proof.
  intros Hheap Hfetch Hbytes Hadd Hcfg Hfit Hc Hsize Hg Hgm Hgw Hpl Hpm Hbuild Hload Hshs Hss Hssu HN Hinj Hws Hmr Hnr Hout
    [Hst Hmax] Hfew Hop Hrtc.
  destruct (nodes_loaded id fid file Hfetch c Hfit Hc Hsize Hcfg _ _ _ _ _ _ _ _ Hbuild Hload) as (-> & Ht & Hf & Hvl & Hlg).
  pose proof Hfit as (_ & _ & _ & _ & _ & Hv & _ & Hsq & _). pose proof (clamp_seq_bounds c max_seq Hsq) as Hcl.
  assert (Hdim : dim c ≤ 1017). { destruct Hmr as ((_ & _ & _ & _ & _ & Hd & _) & (Hm & _) & _). rewrite Hm in Hd. lia. }
  rewrite <- (length_map shard ws) in Hshs.
  set (off := first_layer c (length (map shard ws))).
  assert (Hs0 : node_state c (new_run_state id c)).
  { split; [by apply new_run_state_ok|]. unfold new_run_state. cbn. by rewrite !length_replicate. }
  set (inv := cluster_inv (D := D) pl c (weights id file) table final (new_run_state id c) (clamp_seq c max_seq) ss (length ws)
    addr off q0 prompt steps head_slot malloc n0 first (console b)).
  assert (Hoff0 : off 0%nat = 0%nat) by (apply first_layer_0; by rewrite length_map).
  assert (HoffN : off (length ws) = clayers c).
  { unfold off. rewrite length_map. by apply first_layer_n. }
  pose proof (weights_u32 file Hbytes) as Hck.
  assert (Hinv : inv cl0).
  { apply (initial_inv Hheap pl c Hc Hdim _ table final Hvl Ht Hadd Hck (new_run_state id c)) with (b := b) (ws := ws); try done; try lia.
    + intros i w Hi. split; [by apply Hws|]. apply (loaded_at fid file c max_seq Hfetch Hfit Hc Hsize); [by rewrite length_map|done|].
      by rewrite list_lookup_fmap, Hi.
    + by rewrite Hout, app_nil_r. }
  assert (Hinv' : inv cl); [|by eapply inv_agrees].
  clear Hop. induction Hrtc as [|cl1 cl2 cl3 Hstep _ IH]; [done|]. apply IH.
  eapply (cstep_inv Hheap pl plm plw Hg Hgm Hgw c Hc Hdim Hpl Hpm); try done; lia.
Qed.

(** *** A concrete session

    Two workers with one layer each of the small model, a master and two
    positions; the float operations are integer ones whose sums wrap. *)

#[local] Instance word_floats : FloatOps Z := {|
  f0 := 0; f1 := 1; f10000 := 10000; fadd a b := u32 (a + b); fsub := Z.sub; fmul := Z.mul; fdiv := Z.div;
  fneg := Z.opp; fexp := Z.succ; fsqrt := Z.sqrt; fpow := Z.pow; fcos := Z.succ; fsin := Z.pred;
  fint := id; fgt := Z.gtb; f1em5 := 1 |}.
#[local] Instance word_tests : FloatTest Z := {| fge := Z.geb; feq := Z.eqb |}.
#[local] Existing Instance small_env.
#[local] Existing Instance small_node.
#[local] Existing Instance no_doubles.

Definition place (i : nat) : rpc_addr_t :=
  match i with O => RpcAddr 10 5001 | S O => RpcAddr 11 5002 | _ => RpcAddr 9 5000 end.
Definition member_info (i : nat) : worker_info_t :=
  WorkerInfo (Z.of_nat i + 1) (ip (place i)) (port (place i)) 4096 (replicate 32 1) 0 0.
Definition before_place (i : nat) : rpc_addr_t := match i with O => place 2 | S i => place i end.
Definition member (i : nat) : worker_t calm unit :=
  set_ready true (set_session 77 (set_shard (small_shard (Z.of_nat i))
    (worker_start (rpc_start (Calm (Script [] [] [] (ip (place i)) true []))) tt (place 2) (member_info i)
      (SetNeighbor (ip (before_place i)) (port (before_place i)) (ip (place (S i))) (port (place (S i)))) CORRUPT_NONE 0))).
Definition member_entry (i : nat) : worker_entry_t :=
  WorkerEntry (member_info i) 0 WORKER_ACTIVE (CapAck 0 0 []) 0 0 (ip (place (S i))) (port (place (S i)))
    (ip (before_place i)) (port (before_place i)).
Definition chief_model : model_t :=
  Model small_config (take 6 (weights id small_file)) (take 2 (drop 70 (weights id small_file))) [0; 0; 0]
    (MkTokenizer [[97; 0]; [98; 0]; [99; 0]] [] None 3 1 []) (MkSampler 3 0 0 1).
Definition chief : dist_t calm unit :=
  Dist (Master (Rpc (Calm (Script [] [] [] 9 true [])) 5000 (replicate (Z.to_nat WIRE_MAX) 0) (replicate (Z.to_nat WIRE_MAX) 0) 0 1)
          (<[0%nat := member_entry 0]> (<[1%nat := member_entry 1]> registry_zero)) buckets_zero (Drops 0 0 0 0))
    tt chief_model (Ring 0 false 77 (replicate 1024 0) false 0 0 0) (Metrics 0 0 0 0) msg_zero (RpcAddr 0 0) 0
    (replicate 1024 0) [].
Definition lone_node : node_t Z unit :=
  Node tt small_config true (weights id small_file) (new_run_state id small_config) (g_tok chief_model) (g_sampler chief_model) [] [].

(** A scheduler: the last datagram of the previous node is delivered. *)
Inductive move := Deliver (i : nat) | Infer (i : nat) | Final | Next | End.
Definition opened (pk : packet) : option rpc_msg_t :=
  match rpc_parse (contents pk) with
  | Parsed (_, VCall _ _ q, a) =>
      if (q =? PROC_INFER_REQ) && forallb (λ b, (0 <=? b) && (b <? 256)) a && (length a <=? 4096)%nat
      then Some (msg_with PROC_INFER_REQ a) else None
  | _ => None
  end.

Lemma opened_message pk msg : opened pk = Some msg → hop_message pk msg.
Proof.
  unfold opened. destruct (rpc_parse (contents pk)) as [| |[[id [p v q| |]] a]] eqn:Ep; try done.
  destruct (Z.eqb_spec q PROC_INFER_REQ) as [->|]; [|done].
  destruct (forallb _ a) eqn:Eb; [|done]. destruct (Nat.leb_spec (length a) 4096) as [Hl|]; [|done]. cbn [andb].
  intros [= <-]. assert (Hb : is_bytes a).
  { apply Forall_forall. intros b Hb. apply list_elem_of_In in Hb. rewrite forallb_forall in Eb. specialize (Eb b Hb).
    unfold is_byte. lia. }
  assert (Ha : args_of (msg_with PROC_INFER_REQ a) = a).
  { unfold args_of, msg_with, len. cbn [payload payload_len set_payload]. by rewrite Nat2Z.id, take_app_length. }
  split; [by apply msg_with_ok|]. rewrite Ha. split; [done|]. split; [done|]. eauto.
Qed.

Abbreviation CL := (cluster_t calm unit).
Abbreviation step := (cstep (D := unit) (Pool false 1) (Pool false 1) [1; 2] 2 0 (place 2)).

Definition latest (k : rpc_t calm) : option packet := list.last (sent (kern k)).
Definition behind (i : nat) (cl : CL) : option (rpc_addr_t * packet) :=
  match i with
  | O => pair (place 2) <$> latest (rpc (disc (boss cl)))
  | S i => w ← team cl !! i; pair (waddr w) <$> latest (wrpc w)
  end.
Definition play (a : move) (cl : CL) : option CL :=
  match a with
  | Deliver i =>
      w ← team cl !! i; '(src, pk) ← behind i cl; msg ← opened pk;
      if decide ((dst_ip pk, dst_port pk) = (ip (waddr w), port (waddr w)))
      then (λ r, set_team (<[i := snd r]> (team cl)) cl) <$> worker_inference_hook msg src w else None
  | Infer i => w ← team cl !! i; (λ r, set_team (<[i := snd r]> (team cl)) cl) <$> inference_step (Pool false 1) w
  | Final =>
      '(src, pk) ← behind 2 cl; msg ← opened pk;
      if decide ((dst_ip pk, dst_port pk) = (ip (place 2), port (place 2)) ∧ finished cl = false ∧ g_have_final (ring (boss cl)) = false)
      then (λ r, set_boss (snd r) cl) <$> master_handle_final msg src (boss cl) else None
  | Next =>
      if decide (finished cl = false ∧ g_have_final (ring (boss cl)) = true ∧ now_pos cl + 1 < 2) then
        '(_, m1) ← record_token (sent_at cl) (boss cl);
        '(o, m2) ← turn (D := unit) (Pool false 1) [1; 2] (now_token cl) (now_pos cl) m1; next ← o;
        '(_, m3) ← start_token next m2; '(t, m4) ← send_attempt (head_addr 0 m3) (now_pos cl + 1) m3;
        Some (Cluster m4 next (now_pos cl + 1) t 1 false (team cl))
      else None
  | End =>
      if decide (finished cl = false ∧ g_have_final (ring (boss cl)) = true ∧ 2 ≤ now_pos cl + 1) then
        '(_, m1) ← record_token (sent_at cl) (boss cl);
        '(_, m2) ← turn (D := unit) (Pool false 1) [1; 2] (now_token cl) (now_pos cl) m1;
        Some (Cluster m2 (now_token cl) (now_pos cl) (sent_at cl) (tries cl) true (team cl))
      else None
  end.

Lemma behind_net i cl src pk : behind i cl = Some (src, pk) → on_net (place 2) cl src pk.
Proof.
  destruct i as [|i]; unfold behind.
  - destruct (latest (rpc (disc (boss cl)))) as [p|] eqn:El; [|done]. intros [= <- <-]. apply from_boss. by apply last_Some_elem_of.
  - destruct (team cl !! i) as [w|] eqn:Ei; [|done]. change (Some w ≫= ?f) with (f w). cbv beta. destruct (latest (wrpc w)) as [p|] eqn:El; [|done]. intros [= <- <-].
    apply (from_worker _ _ i w); [done|]. by apply last_Some_elem_of.
Qed.

Lemma play_sound a cl cl' : play a cl = Some cl' → step cl cl'.
Proof.
  destruct a as [i|i| | |]; unfold play; intros Hp.
  - apply bind_Some in Hp as (w & Hw & Hp). apply bind_Some in Hp as ([src pk] & Hb & Hp). apply bind_Some in Hp as (msg & Hm & Hp).
    case_decide; [|done]. destruct (worker_inference_hook msg src w) as [[[] w']|] eqn:Eh; [|done]. injection Hp as <-.
    eapply c_deliver; eauto using behind_net, opened_message.
  - apply bind_Some in Hp as (w & Hw & Hp). destruct (inference_step _ w) as [[[] w']|] eqn:Eh; [|done]. injection Hp as <-.
    by eapply c_infer.
  - apply bind_Some in Hp as ([src pk] & Hb & Hp). apply bind_Some in Hp as (msg & Hm & Hp). case_decide as Hd; [|done].
    destruct Hd as (Hd & Hf & Hn). destruct (master_handle_final _ _ _) as [[[] b]|] eqn:Eh; [|done]. injection Hp as <-.
    eapply c_final; eauto using behind_net, opened_message.
  - case_decide as Hd; [|done]. destruct Hd as (Hf & Hn & Hlt).
    apply bind_Some in Hp as ([[] m1] & H1 & Hp). apply bind_Some in Hp as ([o m2] & H2 & Hp).
    apply bind_Some in Hp as (next & -> & Hp). apply bind_Some in Hp as ([[] m3] & H3 & Hp).
    apply bind_Some in Hp as ([t m4] & H4 & Hp). injection Hp as <-. eapply c_next; eauto. by exists t, m3, m4.
  - case_decide as Hd; [|done]. destruct Hd as (Hf & Hn & Hlt).
    apply bind_Some in Hp as ([[] m1] & H1 & Hp). apply bind_Some in Hp as ([o m2] & H2 & Hp). injection Hp as <-.
    eapply c_end; eauto.
Qed.

Definition plays (script : list move) (cl : CL) : option CL := foldl (λ o a, o ≫= play a) (Some cl) script.

Lemma plays_sound script cl cl' : plays script cl = Some cl' → rtc step cl cl'.
Proof.
  unfold plays. revert cl. induction script as [|a script IH]; cbn; intros cl Hp; [by injection Hp as <-|].
  destruct (play a cl) as [cl1|] eqn:Ea.
  - eapply rtc_l; [by eapply play_sound|]. by apply IH.
  - exfalso. clear -Hp. by induction script.
Qed.

Definition opening : option CL :=
  '(_, m1) ← start_token 1 chief; '(t, m2) ← send_attempt (head_addr 0 m1) 0 m1;
  Some (Cluster m2 1 0 t 1 false [member 0; member 1]).
Definition one_token : list move := [Deliver 0; Infer 0; Deliver 1; Infer 1; Final].
Definition whole_session : option CL := opening ≫= plays (one_token ++ [Next] ++ one_token ++ [End]).

Lemma member_ready i : (i < 2)%nat → worker_ready 77 2 place i (member i).
Proof.
  intros Hi. assert (Hi' : i = 0%nat ∨ i = 1%nat) by lia.
  split; [|split; [|split; [done|]]].
  - split; [apply rpc_start_ok|]. split; [done|]. do 2 (split; [done|]). split; [by vm_compute|].
    split; [by destruct Hi' as [-> | ->]; vm_compute|]. split; [|done]. apply Forall_replicate. unfold is_byte. lia.
  - by destruct Hi' as [-> | ->].
  - intros pk h x Hpk. by apply not_elem_of_nil in Hpk.
Qed.

Lemma chief_ready :
  master_ready small_config (take 6 (weights id small_file)) (take 2 (drop 70 (weights id small_file))) 77 place 0 0 chief.
Proof.
  split; [|split; [|split; [done|split; [done|split; [done|]]]]].
  - split; [by split_and!|]. split; [apply msg_zero_ok|]. split; [by split|]. do 2 (split; [done|]). split; [|done].
    vm_compute. split; [reflexivity|discriminate].
  - done.
  - intros pk h x Hpk. by apply not_elem_of_nil in Hpk.
Qed.

Lemma opening_run cl : opening = Some cl → open_token 0 1 0 chief [member 0; member 1] cl.
Proof.
  unfold opening. intros E0. apply bind_Some in E0 as ([[] m1] & E1 & E0). apply bind_Some in E0 as ([t m2] & E2 & E0).
  injection E0 as <-. exists t, m1, m2. split; [exact E1|]. split; [exact E2|]. reflexivity.
Qed.

Lemma whole_session_run cl : whole_session = Some cl → ∃ cl0, open_token 0 1 0 chief [member 0; member 1] cl0 ∧ rtc step cl0 cl.
Proof.
  unfold whole_session. intros Hs. apply bind_Some in Hs as (cl0 & H0 & H1). exists cl0.
  split; [exact (opening_run _ H0)|exact (plays_sound _ _ _ H1)].
Qed.

Lemma whole_session_text : (λ cl, (finished cl, console (boss cl))) <$> whole_session = Some (true, [99]).
Proof. vm_compute. reflexivity. Qed.

Lemma small_bytes : is_bytes small_file.
Proof.
  apply Forall_forall. intros b Hb. apply list_elem_of_In in Hb.
  assert (Hf : forallb (λ b, (0 <=? b) && (b <? 256)) small_file = true) by (vm_compute; reflexivity).
  rewrite forallb_forall in Hf. specialize (Hf b Hb). unfold is_byte. lia.
Qed.

Lemma ring_prints_what_one_node_prints_witness :
  ∃ cl, whole_session = Some cl ∧ finished cl = true ∧ console (boss cl) = [99] ∧
    agrees (D := unit) (Pool false 1) [1; 2] 2 (λ _ e, (true, e)) lone_node 1 [] cl.
Proof.
  pose proof whole_session_text as Hv. destruct whole_session as [cl|] eqn:E1; [|discriminate Hv].
  exists cl. injection Hv as Hf Ht. split; [reflexivity|]. split; [exact Hf|]. split; [exact Ht|].
  destruct (whole_session_run cl E1) as (cl0 & Hop & Hrun).
  apply (ring_prints_what_one_node_prints 0 small_file small_config 0 (Pool false 1) (Pool false 1) (Pool false 1)
    (take 6 (weights id small_file)) (take 2 (drop 70 (weights id small_file)))
    (MkRunState [0; 0] [0; 0] [] [] [] [] [] [0; 0; 0] [] []) (new_run_state id small_config) tt tt tt tt
    77 place 0 [1; 2] 2 0 (λ _ e, (true, e)) lone_node 1 chief [member 0; member 1] cl0 cl).
  - apply calm_heap.
  - intros off n s bs Hoff Hn _ E. cbn in E. case_decide as Hle; [|discriminate E]. injection E as <-. split; [reflexivity|exact Hle].
  - exact small_bytes.
  - intros a b. apply u32_range.
  - reflexivity.
  - unfold cfg_fits. vm_compute. repeat split; discriminate.
  - unfold config_ok. vm_compute. repeat split. by exists 1%nat.
  - reflexivity.
  - reflexivity.
  - reflexivity.
  - reflexivity.
  - repeat split.
  - reflexivity.
  - vm_compute. reflexivity.
  - vm_compute. reflexivity.
  - repeat constructor; exists (Shard small_config small_config 0 0 [] 0 run_state_null false), tt, tt; vm_compute; reflexivity.
  - discriminate.
  - unfold is_u32. lia.
  - cbn. lia.
  - intros i j Hi Hj. cbn in Hi, Hj. by destruct i as [|[|[|]]], j as [|[|[|]]]; (lia || intros [=]).
  - intros i w Hi. destruct i as [|[|]]; [..|done]; injection Hi as <-; apply member_ready; lia.
  - exact chief_ready.
  - repeat split.
  - reflexivity.
  - vm_compute. split; [reflexivity|discriminate].
  - lia.
  - exact Hop.
  - exact Hrun.
Defined.
