(* ===== verification/Weights.v ===== *)
(** * The weight server (src/server/server.py)

    [LLMRFTPServer]: the file store, the handlers of the three requests and one
    turn of the main loop.  Bytes are integers of [0, 256).  A Python exception is
    a value of [exc]; a local variable is [None] until it is assigned.  The log is
    left out; [hashlib.sha256] is the digest of FIPS 180-4. *)
From S2P Require Import Prelude Sha256.

Module Rftp.
Definition MSG_META_REQ : Z := 1.
Definition MSG_META_RESP : Z := 2.
Definition MSG_DATA_RANGE_REQ : Z := 3.
Definition MSG_RETRANS_REQ : Z := 4.
Definition MSG_DATA_PACKET : Z := 5.
Definition MSG_ERROR : Z := 6.
Definition CHUNK_SIZE : Z := 512.
End Rftp.
Import Rftp.

Definition SERVER_MAX_RANGE : Z := 16.
Definition SERVER_MAX_RETRANS : Z := 32.

(** ** Files *)

Record FileStore := MkFileStore { fs_data : list Z; size : Z; total_chunks : Z; sha256 : list Z }.

Definition load_file (data : list Z) : FileStore :=
  MkFileStore data (len data) ((len data + CHUNK_SIZE - 1) / CHUNK_SIZE) (FIPS.sha256 data).

Definition get_chunk (f : FileStore) (chunk_idx : Z) : option (list Z) :=
  if (total_chunks f <=? chunk_idx) || (chunk_idx <? 0) then None
  else
    let start := chunk_idx * CHUNK_SIZE in
    let stop := Z.min (start + CHUNK_SIZE) (size f) in
    Some (slice start (stop - start) (fs_data f)).

(** ** The server *)

Record stats_t := Stats {
  packets_received : Z; meta_reqs : Z; data_range_reqs : Z; retrans_reqs : Z; packets_sent : Z; errors : Z;
}.

Definition inc_received (t : stats_t) : stats_t := Stats (packets_received t + 1) (meta_reqs t) (data_range_reqs t) (retrans_reqs t) (packets_sent t) (errors t).
Definition inc_meta (t : stats_t) : stats_t := Stats (packets_received t) (meta_reqs t + 1) (data_range_reqs t) (retrans_reqs t) (packets_sent t) (errors t).
Definition inc_range (t : stats_t) : stats_t := Stats (packets_received t) (meta_reqs t) (data_range_reqs t + 1) (retrans_reqs t) (packets_sent t) (errors t).
Definition inc_retrans (t : stats_t) : stats_t := Stats (packets_received t) (meta_reqs t) (data_range_reqs t) (retrans_reqs t + 1) (packets_sent t) (errors t).
Definition inc_sent (t : stats_t) : stats_t := Stats (packets_received t) (meta_reqs t) (data_range_reqs t) (retrans_reqs t) (packets_sent t + 1) (errors t).
Definition inc_errors (t : stats_t) : stats_t := Stats (packets_received t) (meta_reqs t) (data_range_reqs t) (retrans_reqs t) (packets_sent t) (errors t + 1).

(** The counters and the datagrams handed to the socket; the destination of each
    is the sender of the request. *)
Record server_t := Server { stats : stats_t; socket : list (list Z) }.

Inductive exc := StructError | UnboundLocalError.

(** A handler returns or raises. *)
Definition P (A : Type) : Type := server_t → (exc + A) * server_t.
Definition pret {A} (a : A) : P A := λ s, (inr a, s).
Definition raise {A} (e : exc) : P A := λ s, (inl e, s).
Definition pbind {A B} (m : P A) (k : A → P B) : P B :=
  λ s, match m s with (inr a, s') => k a s' | (inl e, s') => (inl e, s') end.
Definition pmodify (f : server_t → server_t) : P unit := λ s, (inr tt, f s).
Definition except {A} (m : P A) (h : P A) : P A :=
  λ s, match m s with (inr a, s') => (inr a, s') | (inl _, s') => h s' end.

Declare Scope py_scope.
Delimit Scope py_scope with py.
#[local] Open Scope py_scope.
Notation "'let!' x ':=' m 'in' k" := (pbind m (λ x, k))
  (at level 10, x pattern, m at level 100, k at level 200, format "'[v' 'let!'  x  ':='  m  'in' '/' k ']'") : py_scope.
Notation "m ';;!' k" := (pbind m (λ _, k))
  (at level 100, right associativity, format "'[v' m  ';;!' '/' k ']'") : py_scope.

Definition on_stats (f : stats_t → stats_t) : P unit := pmodify (λ s, Server (f (stats s)) (socket s)).
Definition sendto (pkt : list Z) : P unit := pmodify (λ s, Server (stats s) (socket s ++ [pkt])).

(** [struct.pack] of one field: [B], [H] and [I], big-endian; a value out of range
    raises. *)
Definition pack_B (v : Z) : P (list Z) := if (0 <=? v) && (v <? 256) then pret [v] else raise StructError.
Definition pack_H (v : Z) : P (list Z) := if (0 <=? v) && (v <? 2 ^ 16) then pret [u8 (v ≫ 8); u8 v] else raise StructError.
Definition pack_I (v : Z) : P (list Z) := if (0 <=? v) && (v <? 2 ^ 32) then pret (put_be32 v) else raise StructError.
Fixpoint pack (fields : list (P (list Z))) : P (list Z) :=
  match fields with
  | [] => pret []
  | f :: fields => let! b := f in let! bs := pack fields in pret (b ++ bs)
  end.

(** [struct.unpack('>H', data[i:i+2])] and ['>I'] on slices that are long enough. *)
Definition be16_at (l : list Z) (i : Z) : Z := Z.lor (byte_at l i ≪ 8) (byte_at l (i + 1)).

Section Server.
Context (files : Z → option FileStore).

Definition error_response (file_id error_code : Z) : P (list Z) :=
  on_stats inc_errors ;;!
  pack [pack_B MSG_ERROR; pack_B file_id; pack_H 0; pack_H error_code].

Definition data_packet (file_id chunk_idx : Z) (chunk_data : list Z) : P (list Z) :=
  let! header := pack [pack_B MSG_DATA_PACKET; pack_B file_id; pack_H 0; pack_I chunk_idx; pack_H (len chunk_data); pack_H 0] in
  pret (header ++ chunk_data).

(** The response, or [None] when there is none to send. *)
Definition handle_meta_req (data : list Z) : P (option (list Z)) :=
  on_stats inc_meta ;;!
  if len data <? 4 then let! r := error_response 0 2 in pret (Some r)
  else
    let file_id := byte_at data 1 in
    match files file_id with
    | None => let! r := error_response file_id 1 in pret (Some r)
    | Some f =>
        let! r := pack [pack_B MSG_META_RESP; pack_B file_id; pack_H 1; pack_I (size f); pack_I CHUNK_SIZE; pack_I (total_chunks f)] in
        pret (Some (r ++ sha256 f))
    end.

(** One chunk as a datagram. *)
Definition send_chunk (f : FileStore) (file_id i : Z) : P unit :=
  match get_chunk f i with
  | None => pret tt
  | Some chunk_data =>
      let! pkt := data_packet file_id i chunk_data in
      sendto pkt ;;!
      on_stats inc_sent
  end.

(** [for i in range(start, ...)], [n] iterations. *)
Fixpoint send_range (n : nat) (f : FileStore) (file_id i : Z) : P unit :=
  match n with
  | O => pret tt
  | S n => send_chunk f file_id i ;;! send_range n f file_id (i + 1)
  end.

Definition handle_data_range_req (data : list Z) : P (option (list Z)) :=
  on_stats inc_range ;;!
  if len data <? 12 then let! r := error_response 0 2 in pret (Some r)
  else
    let file_id := byte_at data 1 in
    let count := be16_at data 2 in
    let start_idx := be32_at data 8 in
    let count := if SERVER_MAX_RANGE <? count then SERVER_MAX_RANGE else count in
    match files file_id with
    | None => let! r := error_response file_id 1 in pret (Some r)
    | Some f =>
        if total_chunks f <=? start_idx then let! r := error_response file_id 2 in pret (Some r)
        else
          send_range (Z.to_nat (Z.min (start_idx + count) (total_chunks f) - start_idx)) f file_id start_idx ;;!
          pret None
    end.

(** The body of the loop reads [offset] before anything assigns it. *)
Fixpoint retrans_loop (n : nat) (f : FileStore) (file_id : Z) (data : list Z) (offset : option Z) : P unit :=
  match n with
  | O => pret tt
  | S n =>
      match offset with
      | None => raise UnboundLocalError
      | Some offset =>
          if len data <? offset + 4 then pret tt
          else
            let chunk_idx := be32_at data offset in
            (if (0 <=? chunk_idx) && (chunk_idx <? total_chunks f) then send_chunk f file_id chunk_idx else pret tt) ;;!
            retrans_loop n f file_id data (Some (offset + 4))
      end
  end.

Definition handle_retrans_req (data : list Z) : P (option (list Z)) :=
  on_stats inc_retrans ;;!
  if len data <? 4 then let! r := error_response 0 2 in pret (Some r)
  else
    let file_id := byte_at data 1 in
    let count := be16_at data 2 in
    let count := if SERVER_MAX_RETRANS <? count then SERVER_MAX_RETRANS else count in
    match files file_id with
    | None => let! r := error_response file_id 1 in pret (Some r)
    | Some f =>
        retrans_loop (Z.to_nat count) f file_id data None ;;!
        pret None
    end.

Definition handle_message (data : list Z) : P (option (list Z)) :=
  on_stats inc_received ;;!
  match data with
  | [] => pret None
  | msg_type :: _ =>
      except
        (if msg_type =? MSG_META_REQ then handle_meta_req data
         else if msg_type =? MSG_DATA_RANGE_REQ then handle_data_range_req data
         else if msg_type =? MSG_RETRANS_REQ then handle_retrans_req data
         else let! r := error_response 0 2 in pret (Some r))
        (on_stats inc_errors ;;!
         let! r := error_response 0 3 in pret (Some r))
  end.

(** One turn of the main loop. *)
Definition serve (data : list Z) : P unit :=
  let! r := handle_message data in
  match r with
  | Some ((_ :: _) as response) => sendto response
  | _ => pret tt
  end.
End Server.

(** ** What the server sends *)

Definition put_be16 (v : Z) : list Z := [u8 (v ≫ 8); u8 v].
Definition meta_resp (file_id : Z) (f : FileStore) : list Z :=
  [MSG_META_RESP; file_id; 0; 1] ++ put_be32 (size f) ++ put_be32 CHUNK_SIZE ++ put_be32 (total_chunks f) ++ sha256 f.
Definition data_pkt (file_id i : Z) (bs : list Z) : list Z :=
  [MSG_DATA_PACKET; file_id; 0; 0] ++ put_be32 i ++ put_be16 (len bs) ++ [0; 0] ++ bs.
Definition error_pkt (file_id code : Z) : list Z := [MSG_ERROR; file_id; 0; 0] ++ put_be16 code.

(** The datagrams about a file. *)
Inductive reply (files : Z → option FileStore) (file_id : Z) : list Z → Prop :=
  | reply_meta f : files file_id = Some f → reply files file_id (meta_resp file_id f)
  | reply_data f i bs : files file_id = Some f → is_u32 i → get_chunk f i = Some bs → reply files file_id (data_pkt file_id i bs)
  | reply_error id code : is_byte id → reply files file_id (error_pkt id code).

Lemma put_be16_bytes v : is_bytes (put_be16 v).
Proof. repeat constructor; apply u8_byte. Qed.
Lemma be16_range l i : is_bytes l → is_u16 (be16_at l i).
Proof.
  intros Hl. unfold be16_at. pose proof (byte_at_byte l i Hl). pose proof (byte_at_byte l (i + 1) Hl). unfold is_byte, is_u16 in *.
  rewrite lor_shiftl_add by lia. lia.
Qed.

Lemma pack_B_ok v s : is_byte v → pack_B v s = (inr [v], s).
Proof. unfold is_byte, pack_B. intros Hv. by rewrite (proj2 (Z.leb_le _ _)), (proj2 (Z.ltb_lt _ _)) by lia. Qed.
Lemma pack_H_ok v s : is_u16 v → pack_H v s = (inr (put_be16 v), s).
Proof. unfold is_u16, pack_H. intros Hv. by rewrite (proj2 (Z.leb_le _ _)), (proj2 (Z.ltb_lt _ _)) by lia. Qed.
Lemma pack_I_ok v s : is_u32 v → pack_I v s = (inr (put_be32 v), s).
Proof. unfold is_u32, pack_I. intros Hv. by rewrite (proj2 (Z.leb_le _ _)), (proj2 (Z.ltb_lt _ _)) by lia. Qed.

Lemma pbind_run {A B} (m : P A) (k : A → P B) s a s' : m s = (inr a, s') → pbind m k s = k a s'.
Proof. intros E. unfold pbind. by rewrite E. Qed.

Lemma pack_cons f fields s b bs : f s = (inr b, s) → pack fields s = (inr bs, s) → pack (f :: fields) s = (inr (b ++ bs), s).
Proof. intros E1 E2. cbn [pack]. rewrite (pbind_run _ _ _ _ _ E1), (pbind_run _ _ _ _ _ E2). done. Qed.

Ltac pack_fields :=
  repeat (apply pack_cons;
    [first [apply pack_B_ok|apply pack_H_ok|apply pack_I_ok]; first [done|unfold is_byte, is_u16, is_u32 in *; cbv; lia|unfold is_byte, is_u16, is_u32; lia]|]);
  reflexivity.

Lemma error_run file_id code s :
  is_byte file_id → is_u16 code →
  error_response file_id code s = (inr (error_pkt file_id code), Server (inc_errors (stats s)) (socket s)).
Proof.
  intros Hf Hc. unfold error_response. rewrite (pbind_run (on_stats inc_errors) _ s tt _ eq_refl). etrans; [pack_fields|reflexivity].
Qed.

Lemma data_packet_run file_id i bs s :
  is_byte file_id → is_u32 i → len bs < 2 ^ 16 → data_packet file_id i bs s = (inr (data_pkt file_id i bs), s).
Proof.
  intros Hf Hi Hl. pose proof (len_nonneg bs). unfold data_packet. erewrite pbind_run by pack_fields. reflexivity.
Qed.

(** A loaded file. *)
Section Loaded.
Context (d : list Z) (Hd : is_bytes d) (Hsize : len d < 2 ^ 32).
Abbreviation f := (load_file d).

Lemma chunk_bytes i bs : get_chunk f i = Some bs →
  0 ≤ i < total_chunks f ∧ bs = slice (i * CHUNK_SIZE) CHUNK_SIZE d ∧ len bs = Z.min CHUNK_SIZE (len d - i * CHUNK_SIZE) ∧ 0 < len bs.
Proof.
  unfold get_chunk, load_file, CHUNK_SIZE. cbn [total_chunks size fs_data]. pose proof (len_nonneg d) as Hl.
  destruct (Z.leb_spec ((len d + 512 - 1) / 512) i); [done|]. destruct (Z.ltb_spec i 0); [done|]. cbn [orb].
  intros [= <-]. assert (Hi : 512 * i < len d) by (Z.div_mod_to_equations; lia). split; [lia|].
  assert (E : slice (i * 512) (Z.min (i * 512 + 512) (len d) - i * 512) d = slice (i * 512) 512 d).
  { unfold slice, len in *. destruct (Z.min_spec (i * 512 + 512) (Z.of_nat (length d))) as [[Hm ->]|[Hm ->]]; [f_equal; lia|].
    etrans; [apply take_ge|symmetry; apply take_ge]; rewrite length_drop; lia. }
  rewrite E. split; [done|]. assert (len (slice (i * 512) 512 d) = Z.min 512 (len d - i * 512)) as ->.
  { unfold slice, len in *. rewrite length_take, length_drop. lia. }
  lia.
Qed.

Lemma chunk_some i : 0 ≤ i < total_chunks f → get_chunk f i = Some (slice (i * CHUNK_SIZE) CHUNK_SIZE d).
Proof.
  intros Hi. destruct (get_chunk f i) as [bs|] eqn:E.
  - by apply chunk_bytes in E as (_ & -> & _).
  - unfold get_chunk in E. destruct (Z.leb_spec (total_chunks f) i); [lia|]. destruct (Z.ltb_spec i 0); [lia|]. done.
Qed.

Lemma chunks_u32 : 0 ≤ total_chunks f < 2 ^ 32.
Proof. pose proof (len_nonneg d). unfold load_file, CHUNK_SIZE. cbn [total_chunks]. Z.div_mod_to_equations. lia. Qed.

Lemma send_chunk_run file_id i s :
  is_byte file_id → 0 ≤ i < total_chunks f →
  send_chunk f file_id i s =
    (inr tt, Server (inc_sent (stats s)) (socket s ++ [data_pkt file_id i (slice (i * CHUNK_SIZE) CHUNK_SIZE d)])).
Proof.
  intros Hf Hi. unfold send_chunk. rewrite chunk_some by done. pose proof chunks_u32.
  destruct (chunk_bytes i _ (chunk_some i Hi)) as (_ & _ & Hl & _).
  erewrite pbind_run by (apply data_packet_run; [done|unfold is_u32; lia|unfold CHUNK_SIZE in *; lia]). done.
Qed.

Lemma send_range_run n file_id i s :
  is_byte file_id → 0 ≤ i → i + Z.of_nat n ≤ total_chunks f →
  ∃ t, send_range n f file_id i s =
    (inr tt, Server t (socket s ++ map (λ j, let k := i + Z.of_nat j in data_pkt file_id k (slice (k * CHUNK_SIZE) CHUNK_SIZE d)) (seq 0 n))).
Proof.
  intros Hf. revert i s. induction n as [|n IH]; intros i s Hi Hn; cbn [send_range].
  - exists (stats s). cbn. rewrite app_nil_r. by destruct s.
  - rewrite (pbind_run _ _ _ _ _ (send_chunk_run file_id i s Hf ltac:(lia))).
    destruct (IH (i + 1) (Server (inc_sent (stats s)) (socket s ++ [data_pkt file_id i (slice (i * CHUNK_SIZE) CHUNK_SIZE d)])))
      as [t ->]; [lia|lia|]. exists t. cbn [socket seq map]. rewrite <- app_assoc. cbn [app]. rewrite Z.add_0_r.
    do 4 f_equal. rewrite <- seq_shift, map_map. apply map_ext. intros j. cbv beta zeta.
    by replace (i + 1 + Z.of_nat j) with (i + Z.of_nat (S j)) by lia.
Qed.
End Loaded.

Lemma serve_response files m data s r s1 :
  handle_message files data s = (inr (Some r), s1) → r ≠ [] → m = Server (stats s1) (socket s1 ++ [r]) →
  serve files data s = (inr tt, m).
Proof. intros E Hr ->. unfold serve. rewrite (pbind_run _ _ _ _ _ E). by destruct r. Qed.

Lemma serve_silent files data s s1 : handle_message files data s = (inr None, s1) → serve files data s = (inr tt, s1).
Proof. intros E. unfold serve. by rewrite (pbind_run _ _ _ _ _ E). Qed.

(** *** The replies to a request *)

Section Replies.
(** The files on disk. *)
Context (served : Z → option (list Z)) (Hserved : ∀ id d, served id = Some d → len d < 2 ^ 32).

Definition stores (id : Z) : option FileStore := load_file <$> served id.

Definition meta_req (file_id : Z) : list Z := [MSG_META_REQ; file_id; 0; 0].
Definition range_req (file_id start count : Z) : list Z := [MSG_DATA_RANGE_REQ; file_id] ++ put_be16 count ++ [0; 0; 0; 0] ++ put_be32 start.
Definition chunk_pkt (file_id : Z) (d : list Z) (i : Z) : list Z := data_pkt file_id i (slice (i * CHUNK_SIZE) CHUNK_SIZE d).

Lemma serve_meta file_id d s :
  is_byte file_id → served file_id = Some d →
  ∃ t, serve stores (meta_req file_id) s = (inr tt, Server t (socket s ++ [meta_resp file_id (load_file d)])).
Proof.
  intros Hf Hd. pose proof (Hserved _ _ Hd) as Hl. pose proof (len_nonneg d). pose proof (chunks_u32 d Hl).
  eexists. apply (serve_response _ _ _ _ (meta_resp file_id (load_file d)) (Server (inc_meta (inc_received (stats s))) (socket s)));
    [|done|reflexivity]. unfold handle_message, meta_req.
  rewrite (pbind_run (on_stats inc_received) _ s tt _ eq_refl). unfold except, handle_meta_req.
  change (MSG_META_REQ =? MSG_META_REQ) with true. cbv iota.
  erewrite pbind_run by reflexivity. change (len [MSG_META_REQ; file_id; 0; 0] <? 4) with false. cbv iota zeta.
  change (byte_at [MSG_META_REQ; file_id; 0; 0] 1) with file_id. unfold stores. rewrite Hd. cbn [fmap option_fmap option_map].
  erewrite pbind_run by (change (size (load_file d)) with (len d); pack_fields). reflexivity.
Qed.

Lemma be16_put (w : list Z) v r : is_u16 v → be16_at (w ++ put_be16 v ++ r) (len w) = v.
Proof.
  intros Hv. unfold be16_at. rewrite <- (Z.add_0_r (len w)) at 1. rewrite !byte_at_app_r by lia.
  change (byte_at (put_be16 v ++ r) 0) with (u8 (v ≫ 8)). change (byte_at (put_be16 v ++ r) 1) with (u8 v).
  rewrite lor_shiftl_add by (try lia; apply u8_byte). unfold is_u16, u8 in *. rewrite shiftr_div by lia.
  Z.div_mod_to_equations. lia.
Qed.

Lemma serve_range file_id d start count s :
  is_byte file_id → served file_id = Some d → 0 ≤ start < total_chunks (load_file d) → 0 ≤ count ≤ SERVER_MAX_RANGE →
  let n := Z.to_nat (Z.min count (total_chunks (load_file d) - start)) in
  ∃ t, serve stores (range_req file_id start count) s =
    (inr tt, Server t (socket s ++ map (λ j, chunk_pkt file_id d (start + Z.of_nat j)) (seq 0 n))).
Proof.
  intros Hf Hd Hs Hc n. pose proof (Hserved _ _ Hd) as Hl. pose proof (chunks_u32 d Hl). unfold SERVER_MAX_RANGE in *.
  set (req := range_req file_id start count).
  assert (E1 : be16_at req 2 = count).
  { apply (be16_put [MSG_DATA_RANGE_REQ; file_id] count ([0; 0; 0; 0] ++ put_be32 start)). unfold is_u16. lia. }
  assert (E2 : be32_at req 8 = start).
  { pose proof (be32_at_put ([MSG_DATA_RANGE_REQ; file_id] ++ put_be16 count ++ [0; 0; 0; 0]) start []) as E.
    rewrite app_nil_r, <- !app_assoc in E. change (len _) with 8 in E. rewrite u32_id in E by (unfold is_u32; lia). exact E. }
  set (s1 := Server (inc_range (inc_received (stats s))) (socket s)).
  destruct (send_range_run d Hl n file_id start s1) as [t Et]; [done|lia|lia|]. exists t. apply serve_silent.
  unfold handle_message. rewrite (pbind_run (on_stats inc_received) _ s tt _ eq_refl).
  change (match req with [] => _ | _ => _ end) with (except (handle_data_range_req stores req)
    (on_stats inc_errors ;;! (let! r := error_response 0 3 in pret (Some r)))).
  unfold except, handle_data_range_req. rewrite (pbind_run (on_stats inc_range) _ _ tt _ eq_refl).
  change (len req <? 12) with false. cbv iota zeta. rewrite E1, E2. change (byte_at req 1) with file_id.
  unfold stores. rewrite Hd. cbn [fmap option_fmap option_map].
  destruct (Z.ltb_spec SERVER_MAX_RANGE count); [unfold SERVER_MAX_RANGE in *; lia|].
  destruct (Z.leb_spec (total_chunks (load_file d)) start); [lia|].
  replace (Z.to_nat (Z.min (start + count) (total_chunks (load_file d)) - start)) with n by lia.
  by erewrite pbind_run by exact Et.
Qed.
(** *** Any request *)

(** A handler that never raises: what it sends and what it returns are datagrams
    about the file, at most sixteen of them. *)
Definition answers (id : Z) (m : P (option (list Z))) : Prop := ∀ s, ∃ r t pks,
  m s = (inr r, Server t (socket s ++ pks)) ∧ Forall (reply stores id) pks ∧
  match r with
  | None => (length pks ≤ 16)%nat
  | Some d => pks = [] ∧ reply stores id d ∧ d ≠ []
  end.

Lemma answers_stats id f m : answers id m → answers id (on_stats f ;;! m).
Proof.
  intros Hm s. destruct (Hm (Server (f (stats s)) (socket s))) as (r & t & pks & E & Hr).
  exists r, t, pks. split; [|done]. by rewrite (pbind_run (on_stats f) _ s tt _ eq_refl).
Qed.

Lemma answers_error id file_id code : is_byte file_id → is_u16 code → answers id (let! r := error_response file_id code in pret (Some r)).
Proof.
  intros Hf Hc s. exists (Some (error_pkt file_id code)), (inc_errors (stats s)), [].
  rewrite (pbind_run _ _ _ _ _ (error_run file_id code s Hf Hc)). rewrite app_nil_r. split; [done|]. split; [done|].
  split; [done|]. split; [by apply reply_error|done].
Qed.

Lemma answers_meta req : is_bytes req → answers (byte_at req 1) (handle_meta_req stores req).
Proof.
  intros Hb. pose proof (byte_at_byte req 1 Hb) as Hid. apply answers_stats.
  destruct (len req <? 4); [apply answers_error; unfold is_byte, is_u16; lia|]. cbv zeta.
  destruct (stores (byte_at req 1)) as [f|] eqn:Hf; [|apply answers_error; unfold is_u16; [done|lia]].
  intros s. exists (Some (meta_resp (byte_at req 1) f)), (stats s), []. unfold stores in Hf.
  destruct (served (byte_at req 1)) as [d|] eqn:Hd; [|done]. injection Hf as <-. pose proof (Hserved _ _ Hd). pose proof (len_nonneg d).
  pose proof (chunks_u32 d ltac:(done)).
  erewrite pbind_run by (change (size (load_file d)) with (len d); pack_fields).
  split; [destruct s; cbn [socket stats]; by rewrite (app_nil_r socket0)|].
  split; [done|]. split; [done|]. split; [|done]. apply reply_meta. unfold stores. by rewrite Hd.
Qed.

Lemma answers_range req : is_bytes req → answers (byte_at req 1) (handle_data_range_req stores req).
Proof.
  intros Hb. pose proof (byte_at_byte req 1 Hb) as Hid. apply answers_stats.
  destruct (len req <? 12); [apply answers_error; unfold is_byte, is_u16; lia|]. cbv zeta.
  destruct (stores (byte_at req 1)) as [f|] eqn:Hf; [|apply answers_error; unfold is_u16; [done|lia]]. unfold stores in Hf.
  destruct (served (byte_at req 1)) as [d|] eqn:Hd; [|done]. injection Hf as <-. pose proof (Hserved _ _ Hd) as Hl.
  destruct (Z.leb_spec (total_chunks (load_file d)) (be32_at req 8)) as [|Hlt]; [apply answers_error; unfold is_u16; [done|lia]|].
  set (count := if _ <? _ then _ else _). set (start := be32_at req 8) in *. pose proof (chunks_u32 d Hl).
  assert (Hc : count ≤ 16) by (unfold count, SERVER_MAX_RANGE; destruct (Z.ltb_spec 16 (be16_at req 2)); lia).
  assert (Hs : 0 ≤ start) by (apply be32_at_range; done).
  set (n := Z.to_nat _). intros s. destruct (send_range_run d Hl n (byte_at req 1) start s Hid Hs) as [t Et].
  { destruct (decide (0 < n)%nat); unfold n in *; lia. }
  eexists None, t, _. rewrite (pbind_run _ _ _ _ _ Et). split; [reflexivity|]. split; [|rewrite length_map, length_seq; unfold n; lia].
  apply Forall_forall. intros pk Hpk. apply list_elem_of_In, in_map_iff in Hpk as (j & <- & Hj). apply in_seq in Hj. cbv zeta.
  assert (Hj' : 0 ≤ start + Z.of_nat j < total_chunks (load_file d)) by (unfold n in Hj; lia).
  eapply reply_data; [unfold stores; by rewrite Hd|unfold is_u32; lia|by apply chunk_some].
Qed.

Lemma answers_retrans req : is_bytes req →
  answers (byte_at req 1) (except (handle_retrans_req stores req) (on_stats inc_errors ;;! (let! r := error_response 0 3 in pret (Some r)))).
Proof.
  intros Hb s. pose proof (byte_at_byte req 1 Hb) as Hid.
  set (s1 := Server (inc_retrans (stats s)) (socket s)). unfold except, handle_retrans_req. rewrite (pbind_run (on_stats inc_retrans) _ s tt s1 eq_refl).
  assert (He : ∀ file_id code, is_byte file_id → is_u16 code → ∃ r t pks,
    match (let! r := error_response file_id code in pret (Some r)) s1 with
    | (inl _, s') => (on_stats inc_errors ;;! (let! r := error_response 0 3 in pret (Some r))) s'
    | (inr a, s') => (inr a, s')
    end = (inr r, Server t (socket s ++ pks)) ∧ Forall (reply stores (byte_at req 1)) pks ∧
    match r with None => (length pks ≤ 16)%nat | Some d => pks = [] ∧ reply stores (byte_at req 1) d ∧ d ≠ [] end).
  { intros file_id code H1 H2. destruct (answers_error (byte_at req 1) file_id code H1 H2 s1) as (r & t & pks & E & Hr).
    exists r, t, pks. by rewrite E. }
  destruct (len req <? 4); [apply He; unfold is_byte, is_u16; lia|]. cbv zeta.
  destruct (stores (byte_at req 1)) as [f|] eqn:Hf; [|apply He; unfold is_u16; [done|lia]].
  destruct (Z.to_nat _) as [|n]; cbn [retrans_loop].
  - exists None, (stats s1), []. rewrite app_nil_r. split; [done|]. split; [done|]. cbn. lia.
  - destruct (answers_stats (byte_at req 1) inc_errors _ (answers_error (byte_at req 1) 0 3 ltac:(unfold is_byte; lia) ltac:(unfold is_u16; lia)) s1)
      as (r & t & pks & E & Hr). exists r, t, pks. split; [exact E|done].
Qed.

Lemma answers_except id m h : answers id m → answers id (except m h).
Proof. intros Hm s. destruct (Hm s) as (r & t & pks & E & Hr). exists r, t, pks. unfold except. by rewrite E. Qed.

Lemma answers_message req : is_bytes req → answers (byte_at req 1) (handle_message stores req).
Proof.
  intros Hb. apply answers_stats. destruct req as [|b req].
  { intros s. exists None, (stats s), []. rewrite app_nil_r. split; [by destruct s|]. split; [done|]. cbn. lia. }
  destruct (b =? MSG_META_REQ); [by apply answers_except, answers_meta|].
  destruct (b =? MSG_DATA_RANGE_REQ); [by apply answers_except, answers_range|].
  destruct (b =? MSG_RETRANS_REQ); [by apply answers_retrans|].
  apply answers_except, answers_error; unfold is_byte, is_u16; lia.
Qed.
End Replies.

(** The handler of a retransmission raises at the first index. *)
Lemma serve_retrans files (req : list Z) f (s : server_t) :
  4 ≤ len req → byte_at req 0 = MSG_RETRANS_REQ → files (byte_at req 1) = Some f → 0 < be16_at req 2 →
  ∃ t, serve files req s = (inr tt, Server t (socket s ++ [error_pkt 0 3])) ∧
    packets_sent t = packets_sent (stats s) ∧ errors t = errors (stats s) + 2.
Proof.
  intros Hl H0 Hf Hc. exists (inc_errors (inc_errors (inc_retrans (inc_received (stats s))))). split; [|by split; cbn; lia].
  destruct req as [|b req]; [by rewrite len_nil in Hl|]. change (b = MSG_RETRANS_REQ) in H0. subst b.
  apply (serve_response _ _ _ _ (error_pkt 0 3)
    (Server (inc_errors (inc_errors (inc_retrans (inc_received (stats s))))) (socket s))); [|done|reflexivity]. unfold handle_message.
  rewrite (pbind_run (on_stats inc_received) _ s tt _ eq_refl). unfold except.
  change (MSG_RETRANS_REQ =? MSG_META_REQ) with false. change (MSG_RETRANS_REQ =? MSG_DATA_RANGE_REQ) with false.
  change (MSG_RETRANS_REQ =? MSG_RETRANS_REQ) with true. cbv iota. unfold handle_retrans_req.
  rewrite (pbind_run (on_stats inc_retrans) _ _ tt _ eq_refl). destruct (Z.ltb_spec (len (MSG_RETRANS_REQ :: req)) 4); [lia|].
  cbv zeta. rewrite Hf. set (n := Z.to_nat _). destruct n as [|k] eqn:En.
  { exfalso. unfold n, SERVER_MAX_RETRANS in En. destruct (Z.ltb_spec 32 (be16_at (MSG_RETRANS_REQ :: req) 2)); lia. }
  cbn [retrans_loop]. unfold pbind at 1, raise. rewrite (pbind_run (on_stats inc_errors) _ _ tt _ eq_refl).
  erewrite pbind_run by (apply error_run; unfold is_byte, is_u16; lia). reflexivity.
Qed.

(** ** Properties *)

(** The server answers any datagram, and only with the truth.  Whatever bytes
    arrive, a turn of the main loop ends without an exception, sends at most
    sixteen datagrams, and each of them is the metadata of the file the request
    names, a chunk of it under its own index, or an error message. *)
Theorem server_answers_any_request (served : Z → option (list Z)) (req : list Z) (s : server_t) :
  (∀ id d, served id = Some d → len d < 2 ^ 32) → is_bytes req →
  ∃ t pks, serve (stores served) req s = (inr tt, Server t (socket s ++ pks)) ∧
    Forall (reply (stores served) (byte_at req 1)) pks ∧ (length pks ≤ 16)%nat.
Proof.
  intros Hserved Hb. destruct (answers_message served Hserved req Hb s) as (r & t & pks & E & Hf & Hr).
  unfold serve. rewrite (pbind_run _ _ _ _ _ E). destruct r as [[|b d]|].
  - by destruct Hr as (_ & _ & Hr).
  - destruct Hr as (-> & Hr & _). exists t, [b :: d]. cbn. rewrite app_nil_r. split; [done|]. split; [by repeat constructor|lia].
  - by exists t, pks.
Qed.

Lemma server_answers_any_request_witness :
  let req := range_req 1 0 9 in let served := λ id, if id =? 1 then Some (replicate 600 7) else None in
  ∃ t pks, serve (stores served) req (Server (Stats 0 0 0 0 0 0) []) = (inr tt, Server t pks) ∧
    Forall (reply (stores served) 1) pks ∧ (length pks ≤ 16)%nat.
Proof.
  intros req served. destruct (server_answers_any_request served req (Server (Stats 0 0 0 0 0 0) [])) as (t & pks & H).
  - unfold served. intros id d. destruct (id =? 1); [|discriminate]. intros [= <-]. reflexivity.
  - unfold req. repeat constructor; unfold is_byte; vm_compute; intuition discriminate.
  - exists t, pks. exact H.
Defined.
