(* ===== verification/Ftp.v ===== *)
(** * The file transfer client (src/xv6-riscv/user/ftpclient.c)

    A window of a file is fetched chunk by chunk over UDP: a request for its
    metadata, requests for ranges of chunks, and requests for the chunks that are
    still missing.  The destination is a buffer of the caller; an access outside
    it, or outside the bitmap of the transfer, is a fault of the model.  The
    metadata is awaited with a [recv] that may never return, which the functions
    report as the value [None].  The messages to the console are left out. *)
From S2P Require Import Prelude Kernel Sha256 Weights Shard.
Import Rftp.

Definition MAX_RANGE : Z := 8.
Definition MAX_RETRANS : Z := 16.
Definition MAX_RECEIVE_SPINS : Z := 100000.
Definition MAX_RETRY_ROUNDS : Z := 50.
Definition RETRANS_STALL_LIMIT : Z := 6.
Definition RECV_TIMEOUT_TICKS : Z := 2.
Definition MAX_IDLE_RECVS : Z := 3.
Definition FILE_WEIGHTS : Z := 1.
Definition FILE_TOKENIZER : Z := 2.

(** The system calls only this file makes. *)
Class FtpKernel (K : Type) := {
  sys_getpid : K → Z * K;
  (** Port and size of the buffer; waits for a datagram, without end ([None]) if
      none comes. *)
  sys_recv : Z → Z → K → option recv_t * K;
  sys_udp_bulk : Z → Z → K → Z * K;
}.

Class FtpLaws (K : Type) `{FtpKernel K} := {
  block_data port n k r : 0 ≤ n → fst (sys_recv port n k) = Some r →
    0 ≤ rc r → rc r = len (data r) ∧ rc r ≤ n ∧ is_bytes (data r);
}.

(** The static variables, and the kernel. *)
Record ftp_t (K : Type) := Ftp { fkern : K; g_server_ip : Z; g_server_port : Z; g_bulk_enabled : bool }.
Arguments Ftp {K}.
Arguments fkern {K}.
Arguments g_server_ip {K}.
Arguments g_server_port {K}.
Arguments g_bulk_enabled {K}.

Record transfer_ctx_t := Transfer {
  file_buf : list Z;
  received : list bool;
  file_size : Z;
  ctx_chunks : Z;
  win_off : Z;
  win_len : Z;
  first_chunk : Z;
  n_chunks : Z;
  file_sha256 : list Z;
}.

Definition set_buf (b : list Z) (c : transfer_ctx_t) : transfer_ctx_t :=
  Transfer b (received c) (file_size c) (ctx_chunks c) (win_off c) (win_len c) (first_chunk c) (n_chunks c) (file_sha256 c).
Definition set_received (r : list bool) (c : transfer_ctx_t) : transfer_ctx_t :=
  Transfer (file_buf c) r (file_size c) (ctx_chunks c) (win_off c) (win_len c) (first_chunk c) (n_chunks c) (file_sha256 c).

(** ** The bitmap *)

Definition all_chunks_received (c : transfer_ctx_t) : bool := forallb id (received c).
Definition count_received_chunks (c : transfer_ctx_t) : Z := Z.of_nat (length (filter (λ b, b = true) (received c))).

Definition chunk_in_window (c : transfer_ctx_t) (chunk_idx : Z) : bool :=
  (first_chunk c <=? chunk_idx) && (chunk_idx <? u32 (first_chunk c + n_chunks c)).

(** [received[i - first_chunk]], a fault outside the bitmap. *)
Definition flag (c : transfer_ctx_t) (i : Z) : option bool := received c !! Z.to_nat (u32 (i - first_chunk c)).

(** Whether chunk [i] is tracked and missing. *)
Definition is_missing (c : transfer_ctx_t) (i : Z) : option bool :=
  if chunk_in_window c i then negb <$> flag c i else Some false.

Fixpoint count_missing_loop (n : nat) (c : transfer_ctx_t) (i : Z) : option Z :=
  match n with
  | O => Some 0
  | S n =>
      m ← is_missing c i;
      k ← count_missing_loop n c (i + 1);
      Some (if m : bool then 1 + k else k)
  end.
Definition count_missing_in_range (c : transfer_ctx_t) (start stop : Z) : option Z :=
  count_missing_loop (Z.to_nat (stop - start)) c start.

(** At most [room] indices. *)
Fixpoint get_missing_loop (n room : nat) (c : transfer_ctx_t) (i : Z) : option (list Z) :=
  match n, room with
  | S n, S room' =>
      m ← is_missing c i;
      if m : bool then (cons i) <$> get_missing_loop n room' c (i + 1) else get_missing_loop n room c (i + 1)
  | _, _ => Some []
  end.
Definition get_missing_in_range (c : transfer_ctx_t) (start stop : Z) : option (list Z) :=
  get_missing_loop (Z.to_nat (stop - start)) (Z.to_nat MAX_RETRANS) c start.

(** [memcpy] of [bs] to [file_buf + off]. *)
Definition copy_to (off : Z) (bs : list Z) (c : transfer_ctx_t) : option transfer_ctx_t :=
  if off + len bs <=? len (file_buf c) then Some (set_buf (splice off bs (file_buf c)) c) else None.

(** The return value and the context; [n] is the length of the datagram. *)
Definition process_data_packet (c : transfer_ctx_t) (packet : list Z) (n : Z) : option (Z * transfer_ctx_t) :=
  if n <? 12 then Some (-1, c)
  else if negb (byte_at packet 0 =? MSG_DATA_PACKET) then Some (-1, c)
  else
    let chunk_idx := be32_at packet 4 in
    let payload_len := be16_at packet 8 in
    if u32 (ctx_chunks c) <=? chunk_idx then Some (-1, c)
    else if negb (chunk_in_window c chunk_idx) then Some (-1, c)
    else if n <? 12 + payload_len then Some (-1, c)
    else
      let chunk_start := u32 (chunk_idx * CHUNK_SIZE) in
      if u32 (file_size c) <? u32 (chunk_start + payload_len) then Some (-1, c)
      else
        got ← flag c chunk_idx;
        if got : bool then Some (0, c)
        else
          let chunk_end := u32 (chunk_start + payload_len) in
          let win_end := u32 (win_off c + win_len c) in
          let copy_start := if win_off c <? chunk_start then chunk_start else win_off c in
          let copy_end := if chunk_end <? win_end then chunk_end else win_end in
          c ← (if copy_start <? copy_end then
                 copy_to (u32 (copy_start - win_off c)) (slice (12 + (copy_start - chunk_start)) (copy_end - copy_start) packet) c
               else Some c);
          Some (1, set_received (<[Z.to_nat (u32 (chunk_idx - first_chunk c)) := true]> (received c)) c).

Definition verify_file_integrity (buf : list Z) (n : Z) (expected_hash : list Z) : bool :=
  bool_decide (sha256_hash buf (u32 n) = expected_hash).

(** ** The protocol *)

Section Client.
Context {K : Type} `{Kernel K} `{FtpKernel K}.
Abbreviation T := (M (ftp_t K)).

(** What [g_ftp_progress_hook] does, if it is set. *)
Context (hook : T unit).

Definition set_fkern (k : K) (s : ftp_t K) : ftp_t K := Ftp k (g_server_ip s) (g_server_port s) (g_bulk_enabled s).
Definition fsys {A} (f : K → A * K) : T A := zoom fkern set_fkern (λ k, Some (f k)).
Definition lift {A} (o : option A) : T A := λ s, (λ a, (a, s)) <$> o.

Definition llm_set_bulk (enabled : bool) : T unit :=
  modify (λ s, Ftp (fkern s) (g_server_ip s) (g_server_port s) enabled).
Definition llm_set_server (ip port : Z) : T unit :=
  modify (λ s, Ftp (fkern s) ip (if port =? 0 then g_server_port s else port) (g_bulk_enabled s)).
Definition llm_server_ip : T Z := gets g_server_ip.
Definition llm_server_port : T Z := gets g_server_port.

Definition client_port : T Z := let* pid := fsys sys_getpid in ret (u16 (10000 + Z.rem pid 1000)).

(** The length, or -1 with nothing in the buffer. *)
Definition recv_timed (port maxlen : Z) : T (Z * list Z) :=
  let* r := fsys (sys_recvtimeo port maxlen RECV_TIMEOUT_TICKS) in
  ret (if rc r <? 0 then (-1, []) else (rc r, data r)).

Definition send_server (port : Z) (req : list Z) : T Z :=
  let* s := get in
  fsys (sys_send (Packet port (g_server_ip s) (g_server_port s) req)).

(** File size, chunks and digest, or [Some None] for a failure.  [None] as a
    value, here and in the functions that call this one: the client waits in
    [recv], which takes no timeout, for an answer that never comes. *)
Definition llm_meta_request (file_id : Z) : T (option (option (Z * Z * list Z))) :=
  let* port := client_port in
  let* b := fsys (sys_bind port) in
  if b <? 0 then next None
  else
    let* sent := send_server port [MSG_META_REQ; u8 file_id; 0; 0] in
    if sent <? 0 then fsys (sys_unbind port) ;;* next None
    else
      let? r := fsys (sys_recv port 48) in
      let resp := data r in
      if (rc r <? 48) || negb (byte_at resp 0 =? MSG_META_RESP) then fsys (sys_unbind port) ;;* next None
      else
        fsys (sys_unbind port) ;;*
        next (Some (be32_at resp 4, be32_at resp 12, slice 16 32 resp)).

Definition llm_data_range_request (file_id start_idx count : Z) : T Z :=
  let* port := client_port in
  let* r := send_server port ([MSG_DATA_RANGE_REQ; u8 file_id; u8 (count ≫ 8); u8 count; 0; 0; 0; 0] ++ put_be32 start_idx) in
  ret (if r <? 0 then -1 else 0).

Definition llm_retrans_request (file_id : Z) (indices : list Z) : T Z :=
  let* port := client_port in
  let count := Z.of_nat (length indices) in
  let* ok := fsys (sys_malloc (4 + 4 * count)) in
  if negb ok then ret (-1)
  else
    let* r := send_server port ([MSG_RETRANS_REQ; u8 file_id; u8 (count ≫ 8); u8 count] ++ be_words indices) in
    ret (if r <? 0 then -1 else 0).

(** The receiving loop: until [done], three idle waits in a row, or the end of the
    spins.  The number of new chunks. *)
Fixpoint receive_loop (n : nat) (port : Z) (stop : transfer_ctx_t → option bool) (fresh idle : Z) (c : transfer_ctx_t)
    : T (Z * transfer_ctx_t) :=
  match n with
  | O => ret (fresh, c)
  | S n =>
      let* (l, buf) := recv_timed port (12 + CHUNK_SIZE) in
      let* (fresh, idle, c) :=
        (if 0 <? l then
           let* (r, c) := lift (process_data_packet c buf l) in
           ret (if r =? 1 then fresh + 1 else fresh, 0, c)
         else ret (fresh, idle + 1, c)) in
      if MAX_IDLE_RECVS <=? idle then ret (fresh, c)
      else
        let* enough := lift (stop c) in
        if enough : bool then ret (fresh, c) else receive_loop n port stop fresh idle c
  end.

Definition SPINS : nat := Z.to_nat (MAX_RECEIVE_SPINS / 10).

Definition request_chunk_range (c : transfer_ctx_t) (file_id start_idx count port : Z) : T (Z * transfer_ctx_t) :=
  let none_missing c := (λ k, k =? 0) <$> count_missing_in_range c start_idx (u32 (start_idx + count)) in
  let* nothing := lift (none_missing c) in
  if nothing : bool then ret (0, c)
  else
    let* r := llm_data_range_request file_id start_idx count in
    if r <? 0 then ret (0, c) else receive_loop SPINS port none_missing 0 0 c.

(** All the requested chunks have arrived. *)
Fixpoint none_missing_of (indices : list Z) (c : transfer_ctx_t) : option bool :=
  match indices with
  | [] => Some true
  | i :: indices => got ← flag c i; if got : bool then none_missing_of indices c else Some false
  end.

Fixpoint missing_loop (n : nat) (c : transfer_ctx_t) (file_id port start win_end total : Z) : T (Z * transfer_ctx_t) :=
  match n with
  | O => fault
  | S n =>
      if start <? win_end then
        let* missing := lift (get_missing_in_range c start (u32 (start + MAX_RETRANS))) in
        let* (total, c) :=
          match missing with
          | [] => ret (total, c)
          | _ =>
              let* r := llm_retrans_request file_id missing in
              if r =? 0 then receive_loop SPINS port (none_missing_of missing) total 0 c else ret (total, c)
          end in
        missing_loop n c file_id port (u32 (start + MAX_RETRANS)) win_end total
      else ret (total, c)
  end.

(** The window has fewer than 2^23 + 1 chunks, so the loop ends. *)
Definition handle_missing_chunks (c : transfer_ctx_t) (file_id port : Z) : T (Z * transfer_ctx_t) :=
  let win_end := u32 (first_chunk c + n_chunks c) in
  missing_loop (S (Z.to_nat (win_end - first_chunk c))) c file_id port (first_chunk c) win_end 0.

(** [start_idx += MAX_RANGE] until the end of the window. *)
Fixpoint range_loop (n : nat) (c : transfer_ctx_t) (file_id port start_idx win_end : Z) : T transfer_ctx_t :=
  match n with
  | O => fault
  | S n =>
      if start_idx <? win_end then
        let count := u16 (if win_end <? u32 (start_idx + MAX_RANGE) then win_end - start_idx else MAX_RANGE) in
        let* (_, c) := request_chunk_range c file_id start_idx count port in
        hook ;;*
        range_loop n c file_id port (u32 (start_idx + MAX_RANGE)) win_end
      else ret c
  end.

Fixpoint retry_loop (n : nat) (c : transfer_ctx_t) (file_id port stalled : Z) : T transfer_ctx_t :=
  match n with
  | O => ret c
  | S n =>
      if negb (all_chunks_received c) && (stalled <? RETRANS_STALL_LIMIT) then
        let before := count_received_chunks c in
        let* (_, c) := handle_missing_chunks c file_id port in
        let stalled := if before <? count_received_chunks c then 0 else stalled + 1 in
        hook ;;*
        retry_loop n c file_id port stalled
      else ret c
  end.

(** The return value, the destination and the size of the file ([dst] is not
    NULL). *)
Definition llm_fetch_window (file_id : Z) (dst : list Z) (byte_off byte_len : Z) : T (option (Z * list Z * option Z)) :=
  let* port := client_port in
  let? meta := llm_meta_request file_id in
  match meta with
  | None => next (-1, dst, None)
  | Some (fsize, chunks, expected_hash) =>
      let byte_len := if byte_len =? 0 then u32 (fsize - byte_off) else byte_len in
      if (fsize <=? byte_off) || (fsize <? u32 (byte_off + byte_len)) then next (-1, dst, Some fsize)
      else
        let first := byte_off / CHUNK_SIZE in
        let n := u32 (u32 (byte_off + byte_len + CHUNK_SIZE - 1) / CHUNK_SIZE - first) in
        let* ok := fsys (sys_malloc n) in
        if negb ok then next (-1, dst, Some fsize)
        else
          let c := Transfer dst (replicate (Z.to_nat n) false) (s32 fsize) (s32 chunks) byte_off byte_len first n expected_hash in
          let* b := fsys (sys_bind port) in
          if b <? 0 then next (-1, dst, Some fsize)
          else
            let* s := get in
            (if g_bulk_enabled s then fsys (sys_udp_bulk port (g_server_ip s)) ;;* ret tt else ret tt) ;;*
            let win_end := u32 (first + n) in
            let* c := range_loop (S (Z.to_nat (win_end - first))) c file_id port first win_end in
            let* c := retry_loop (Z.to_nat MAX_RETRY_ROUNDS) c file_id port 0 in
            fsys (sys_unbind port) ;;*
            if negb (all_chunks_received c) then next (-1, file_buf c, Some fsize)
            else if (byte_off =? 0) && (byte_len =? fsize) && negb (verify_file_integrity (file_buf c) (s32 fsize) expected_hash)
            then next (-1, file_buf c, Some fsize)
            else next (0, file_buf c, Some fsize)
  end.

Definition llm_fetch_range (file_id : Z) (dst : list Z) (byte_off byte_len : Z) : T (option (Z * list Z)) :=
  if byte_len =? 0 then next (-1, dst)
  else let? (r, dst, _) := llm_fetch_window file_id dst byte_off byte_len in next (r, dst).

(** The return value, the destination and [*size_out] if it was written. *)
Definition llm_fetch_file_into (file_id : Z) (dst : list Z) (dst_len : Z) : T (option (Z * list Z * option Z)) :=
  let? meta := llm_meta_request file_id in
  match meta with
  | None => next (-1, dst, None)
  | Some (fsize, _, _) =>
      if dst_len <? fsize then next (-1, dst, Some fsize)
      else let? (r, dst, _) := llm_fetch_window file_id dst 0 fsize in next (r, dst, Some fsize)
  end.

(** The buffer, whose contents [malloc] leaves open, and its size. *)
Definition llm_fetch_file (file_id : Z) (garbage : list Z) : T (option (option (list Z * Z))) :=
  let? meta := llm_meta_request file_id in
  match meta with
  | None => next None
  | Some (fsize, _, _) =>
      let* ok := fsys (sys_malloc fsize) in
      if negb ok then next None
      else
        let? (r, buf, _) := llm_fetch_window file_id (take (Z.to_nat fsize) garbage) 0 fsize in
        next (if r <? 0 then None else Some (buf, s32 fsize))
  end.

Definition fetch_model_weights : list Z → T (option (option (list Z * Z))) := llm_fetch_file FILE_WEIGHTS.
Definition fetch_tokenizer : list Z → T (option (option (list Z * Z))) := llm_fetch_file FILE_TOKENIZER.
End Client.

(** ** A transfer in progress *)

(** The bitmap has a flag for every chunk of the window, and the window fits the
    destination. *)
Record wf (c : transfer_ctx_t) : Prop := {
  wf_bitmap : length (received c) = Z.to_nat (n_chunks c);
  wf_chunks : is_u32 (n_chunks c) ∧ 0 ≤ first_chunk c ≤ 2 ^ 23 ∧ u32 (first_chunk c + n_chunks c) ≤ 2 ^ 23;
  wf_window : is_u32 (win_off c) ∧ is_u32 (win_len c) ∧ win_len c ≤ len (file_buf c);
}.

(** Only the window of the destination, and the bitmap, change. *)
Definition same_window (c c' : transfer_ctx_t) : Prop :=
  file_size c' = file_size c ∧ ctx_chunks c' = ctx_chunks c ∧ win_off c' = win_off c ∧ win_len c' = win_len c ∧
  first_chunk c' = first_chunk c ∧ n_chunks c' = n_chunks c ∧ length (received c') = length (received c) ∧
  length (file_buf c') = length (file_buf c) ∧
  drop (Z.to_nat (win_len c)) (file_buf c') = drop (Z.to_nat (win_len c)) (file_buf c).

Lemma same_window_refl c : same_window c c.
Proof. by repeat split. Qed.
Lemma same_window_trans c1 c2 c3 : same_window c1 c2 → same_window c2 c3 → same_window c1 c3.
Proof.
  intros (A1 & A2 & A3 & A4 & A5 & A6 & A7 & A8 & A9) (B1 & B2 & B3 & B4 & B5 & B6 & B7 & B8 & B9).
  rewrite A4 in B9. unfold same_window. repeat split; congruence.
Qed.
Lemma wf_same c c' : wf c → same_window c c' → wf c'.
Proof.
  intros [W1 W2 W3] (A1 & A2 & A3 & A4 & A5 & A6 & A7 & A8 & A9).
  split; unfold len; rewrite ?A3, ?A4, ?A5, ?A6, ?A7, ?A8; done.
Qed.

(** A chunk of the window has a flag. *)
Lemma in_window c i : wf c → chunk_in_window c i = true →
  first_chunk c ≤ i < 2 ^ 23 ∧ u32 (i - first_chunk c) = i - first_chunk c ∧ (Z.to_nat (i - first_chunk c) < length (received c))%nat.
Proof.
  intros [W1 (W2 & W3 & W4) _] Hi. apply andb_true_iff in Hi as [H1 H2]. apply Z.leb_le in H1. apply Z.ltb_lt in H2.
  assert (Hn : i - first_chunk c < n_chunks c). { unfold u32, is_u32 in *. Z.div_mod_to_equations. lia. }
  unfold is_u32 in W2. split; [lia|]. split; [apply u32_id; unfold is_u32; lia|]. rewrite W1. lia.
Qed.

Lemma flag_some c i : wf c → chunk_in_window c i = true → ∃ b, flag c i = Some b.
Proof.
  intros Hw Hi. destruct (in_window c i Hw Hi) as (_ & E & Hl). unfold flag. rewrite E. by apply lookup_lt_is_Some_2.
Qed.

Lemma missing_some c i : wf c → ∃ b, is_missing c i = Some b.
Proof.
  intros Hw. unfold is_missing. destruct (chunk_in_window c i) eqn:Hi; [|eauto].
  destruct (flag_some c i Hw Hi) as [b ->]. by eexists.
Qed.

Lemma count_missing_some c start stop : wf c → ∃ k, count_missing_in_range c start stop = Some k.
Proof.
  intros Hw. unfold count_missing_in_range. generalize (Z.to_nat (stop - start)). intros n. revert start.
  induction n as [|n IH]; intros start; cbn [count_missing_loop]; [eauto|].
  destruct (missing_some c start Hw) as [b ->]. destruct (IH (start + 1)) as [k ->]. by eexists.
Qed.

(** The missing chunks found are chunks of the window. *)
Lemma get_missing_some c start stop : wf c →
  ∃ l, get_missing_in_range c start stop = Some l ∧ Forall (λ i, chunk_in_window c i = true) l ∧ (length l ≤ Z.to_nat MAX_RETRANS)%nat.
Proof.
  intros Hw. unfold get_missing_in_range. generalize (Z.to_nat (stop - start)), (Z.to_nat MAX_RETRANS). intros n room. revert room start.
  induction n as [|n IH]; intros [|room] start; cbn [get_missing_loop]; [by eexists; split; [done|]; split; [done|cbn; lia]..|].
  unfold is_missing. destruct (chunk_in_window c start) eqn:Hi; cbn [mbind option_bind].
  - destruct (flag_some c start Hw Hi) as [[] ->]; cbn.
    + apply IH.
    + destruct (IH room (start + 1)) as (l & -> & Hl & Hlen). eexists. split; [done|]. split; [by constructor|cbn; lia].
  - apply IH.
Qed.

Lemma none_missing_some c l : wf c → Forall (λ i, chunk_in_window c i = true) l → ∃ b, none_missing_of l c = Some b.
Proof.
  intros Hw Hl. induction Hl as [|i l Hi Hl IH]; cbn; [eauto|]. destruct (flag_some c i Hw Hi) as [[] ->]; cbn; eauto.
Qed.

Lemma in_window_same c c' i : same_window c c' → chunk_in_window c' i = chunk_in_window c i.
Proof. intros (_ & _ & _ & _ & A5 & A6 & _). unfold chunk_in_window. by rewrite A5, A6. Qed.

(** *** A chunk arrives *)

(** The bytes of the file a chunk with [p] bytes brings to the window. *)
Definition span (c : transfer_ctx_t) (i p : Z) : Z * Z :=
  let chunk_start := u32 (i * CHUNK_SIZE) in
  let chunk_end := u32 (chunk_start + p) in
  let win_end := u32 (win_off c + win_len c) in
  (if win_off c <? chunk_start then chunk_start else win_off c, if chunk_end <? win_end then chunk_end else win_end).

Lemma span_room c i p : wf c → 0 ≤ i < 2 ^ 23 → 0 ≤ p < 2 ^ 16 →
  let '(a, b) := span c i p in a < b →
  a = Z.max (win_off c) (512 * i) ∧ b = Z.min (512 * i + p) (win_off c + win_len c) ∧
  u32 (i * CHUNK_SIZE) = 512 * i ∧ win_off c + win_len c < 2 ^ 32.
Proof.
  intros [_ _ (W1 & W2 & W3)] Hi Hp. unfold span, CHUNK_SIZE, is_u32 in *. rewrite (u32_id (i * 512)) by (unfold is_u32; lia).
  unfold u32. set (x := (i * 512 + p) mod 2 ^ 32). set (y := (win_off c + win_len c) mod 2 ^ 32).
  destruct (Z.ltb_spec (win_off c) (i * 512)), (Z.ltb_spec x y); intros Hab.
  all: assert (y = win_off c + win_len c ∧ win_off c + win_len c < 2 ^ 32 ∨ y < win_off c) by (unfold y; Z.div_mod_to_equations; lia).
  all: assert (x = i * 512 + p ∨ x < i * 512) by (unfold x; Z.div_mod_to_equations; lia).
  all: clearbody x y; lia.
Qed.

Definition put_chunk (c : transfer_ctx_t) (pkt : list Z) (i p : Z) : transfer_ctx_t :=
  let '(a, b) := span c i p in
  set_received (<[Z.to_nat (i - first_chunk c) := true]> (received c))
    (if a <? b then set_buf (splice (a - win_off c) (slice (12 + (a - 512 * i)) (b - a) pkt) (file_buf c)) c else c).

Lemma splice_in off (bs l : list Z) :
  0 ≤ off → off + len bs ≤ len l →
  length (splice off bs l) = length l ∧
  ∀ q, splice off bs l !! q = if decide (Z.to_nat off ≤ q < Z.to_nat off + length bs)%nat then bs !! (q - Z.to_nat off)%nat else l !! q.
Proof.
  intros Ho Hl. unfold splice, len in *. split.
  - rewrite !length_app, length_take, length_drop. lia.
  - intros q. destruct (decide (q < Z.to_nat off)%nat) as [Hq|Hq].
    { rewrite decide_False by lia. rewrite lookup_app_l by (rewrite length_take; lia). by rewrite lookup_take_lt. }
    rewrite lookup_app_r by (rewrite length_take; lia). rewrite length_take, Nat.min_l by lia. case_decide as Hd.
    + by rewrite lookup_app_l by lia.
    + rewrite lookup_app_r by lia. rewrite lookup_drop. f_equal. lia.
Qed.

(** The destination outside the window stays. *)
Lemma put_chunk_received c pkt i p : received (put_chunk c pkt i p) = <[Z.to_nat (i - first_chunk c) := true]> (received c).
Proof. unfold put_chunk. destruct (span c i p) as [a b]. done. Qed.

Lemma put_chunk_same c pkt i p :
  wf c → 0 ≤ i < 2 ^ 23 → 0 ≤ p < 2 ^ 16 → same_window c (put_chunk c pkt i p).
Proof.
  intros Hw Hi Hp. pose proof (span_room c i p Hw Hi Hp) as Hs. pose proof Hw as [_ _ (W1 & W2 & W3)].
  unfold put_chunk. destruct (span c i p) as [a b] eqn:Es. destruct (Z.ltb_spec a b) as [Hab|Hab].
  2: { repeat split; try done. cbn. by rewrite length_insert. }
  destruct (Hs Hab) as (-> & -> & _ & H32). set (a := Z.max _ _) in *. set (b := Z.min _ _) in *.
  assert (Hsl : len (slice (12 + (a - 512 * i)) (b - a) pkt) ≤ b - a) by (unfold slice, len; rewrite length_take; lia).
  destruct (splice_in (a - win_off c) (slice (12 + (a - 512 * i)) (b - a) pkt) (file_buf c)) as [E1 E2]; [lia|lia|].
  do 6 (split; [done|]). split; [cbn; by rewrite length_insert|]. split; [done|]. cbn.
  apply list_eq. intros q. rewrite !lookup_drop, E2. unfold len, is_u32 in *. by rewrite decide_False by lia.
Qed.

(** The bytes of the window afterwards. *)
Lemma put_chunk_buf c pkt i p q :
  wf c → 0 ≤ i → 0 ≤ p < 2 ^ 16 → 512 * i + p < 2 ^ 32 → 12 + p ≤ len pkt → win_off c + win_len c < 2 ^ 32 → Z.of_nat q < win_len c →
  file_buf (put_chunk c pkt i p) !! q =
    if decide (512 * i ≤ win_off c + Z.of_nat q < 512 * i + p)
    then pkt !! Z.to_nat (12 + (win_off c + Z.of_nat q - 512 * i)) else file_buf c !! q.
Proof.
  intros [_ _ (W1 & W2 & W3)] Hi Hp H32 Hl Hwin Hq. unfold put_chunk, span, CHUNK_SIZE, is_u32 in *.
  rewrite (u32_id (i * 512)), (u32_id (i * 512 + p)), (u32_id (win_off c + win_len c)) by (unfold is_u32; lia).
  set (a := if win_off c <? i * 512 then _ else _). set (b := if i * 512 + p <? _ then _ else _).
  assert (Ha : a = Z.max (win_off c) (512 * i)) by (unfold a; destruct (Z.ltb_spec (win_off c) (i * 512)); lia).
  assert (Hb : b = Z.min (512 * i + p) (win_off c + win_len c)).
  { unfold b. destruct (Z.ltb_spec (i * 512 + p) (win_off c + win_len c)); lia. }
  clearbody a b. cbn [set_received file_buf]. destruct (Z.ltb_spec a b) as [Hab|Hab]; cbn [set_buf file_buf].
  - assert (Hsl : len (slice (12 + (a - 512 * i)) (b - a) pkt) = b - a) by (apply len_slice; lia).
    destruct (splice_in (a - win_off c) (slice (12 + (a - 512 * i)) (b - a) pkt) (file_buf c)) as [_ E2]; [lia|lia|].
    rewrite E2. unfold len in Hsl. destruct (decide (_ ≤ q < _)%nat) as [Hd|Hd].
    + rewrite decide_True by lia. unfold slice. rewrite lookup_take_lt by lia. rewrite lookup_drop. f_equal. lia.
    + by rewrite decide_False by lia.
  - by rewrite decide_False by lia.
Qed.

(** A datagram is ignored, or is a chunk of the window that was missing. *)
Lemma process_cases c pkt : wf c → is_bytes pkt →
  (∃ r, process_data_packet c pkt (len pkt) = Some (r, c) ∧ r ≠ 1) ∨
  let i := be32_at pkt 4 in let p := be16_at pkt 8 in
  byte_at pkt 0 = MSG_DATA_PACKET ∧ chunk_in_window c i = true ∧ flag c i = Some false ∧ 12 + p ≤ len pkt ∧
  process_data_packet c pkt (len pkt) = Some (1, put_chunk c pkt i p).
Proof.
  intros Hw Hb. unfold process_data_packet. destruct (Z.ltb_spec (len pkt) 12); [left; by eexists|].
  destruct (Z.eqb_spec (byte_at pkt 0) MSG_DATA_PACKET) as [H0|]; [|left; by eexists]. cbn [negb]. cbv zeta.
  set (i := be32_at pkt 4). set (p := be16_at pkt 8). pose proof (be16_range pkt 8 Hb) as Hp. fold p in Hp. unfold is_u16 in Hp.
  destruct (Z.leb_spec (u32 (ctx_chunks c)) i); [left; by eexists|].
  destruct (chunk_in_window c i) eqn:Hin; [|left; by eexists]. cbn [negb].
  destruct (Z.ltb_spec (len pkt) (12 + p)); [left; by eexists|].
  destruct (u32 (file_size c) <? u32 (u32 (i * CHUNK_SIZE) + p)); [left; by eexists|].
  destruct (in_window c i Hw Hin) as (Hi & Ei & Hidx). destruct (flag_some c i Hw Hin) as [[] Hfl]; rewrite Hfl; [left; by eexists|].
  right. do 4 (split; [done|]). cbn [mbind option_bind]. pose proof (span_room c i p Hw ltac:(destruct Hw as [_ ? _]; lia) Hp) as Hs.
  pose proof Hw as [_ _ (W1 & W2 & W3)]. unfold put_chunk. unfold span in *. cbv zeta in *.
  set (a := if win_off c <? _ then _ else _) in *. set (b := if _ <? u32 (win_off c + _) then _ else _) in *.
  destruct (Z.ltb_spec a b) as [Hab|Hab]; [|cbn [mbind option_bind]; by rewrite Ei].
  destruct (Hs Hab) as (Ha & Hb' & Est & H32). unfold is_u32 in *. rewrite Est, u32_id by (unfold is_u32; lia). unfold copy_to.
  rewrite (proj2 (Z.leb_le _ _)); [cbn [mbind option_bind set_buf first_chunk received]; by rewrite Ei|].
  assert (len (slice (12 + (a - 512 * i)) (b - a) pkt) ≤ b - a) by (unfold slice, len; rewrite length_take; lia). lia.
Qed.

(** ** The transfer returns *)

(** The client has sent its META_REQ and waits in [recv] for ever. *)
Definition waiting {K : Type} `{Kernel K} `{!FtpKernel K} (fid : Z) (s s' : ftp_t K) : Prop :=
  ∃ port k, let send := sys_send (Packet port (g_server_ip s) (g_server_port s) [MSG_META_REQ; u8 fid; 0; 0]) k in
    0 ≤ fst send ∧ fst (sys_recv port 48 (snd send)) = None ∧ fkern s' = snd (sys_recv port 48 (snd send)).

(** How a transfer ends: with a return value and a destination, unless the
    answer to its META_REQ never comes. *)
Definition returns_or_waits {K : Type} `{Kernel K} `{!FtpKernel K} (fid : Z) (s s' : ftp_t K)
    (o : option (Z * list Z * option Z)) (P : Z → list Z → Prop) : Prop :=
  match o with Some (r, dst', _) => P r dst' | None => waiting fid s s' end.

Section Runs.
Context {K : Type} `{KernelLaws K} `{!FtpKernel K} `{!FtpLaws K}.
Context (hook : M (ftp_t K) unit) (Hhook : ∀ s, wp hook (λ _ _, True) s).
(** The datagrams that can arrive, and a property of the transfer that they keep. *)
Context (genuine : list Z → Prop) (I : transfer_ctx_t → Prop).
Context (Hrecv : ∀ port n t k, 48 ≤ n → let r := fst (sys_recvtimeo port n t k) in 0 ≤ rc r → genuine (data r)).
Context (Hblock : ∀ port n k r, 48 ≤ n → fst (sys_recv port n k) = Some r → 0 ≤ rc r → genuine (data r)).
Context (Hnone : ∀ c, Forall (eq false) (received c) → I c).
Context (Hput : ∀ c pkt, let i := be32_at pkt 4 in let p := be16_at pkt 8 in
  wf c → is_bytes pkt → genuine pkt → I c → byte_at pkt 0 = MSG_DATA_PACKET → chunk_in_window c i = true → 12 + p ≤ len pkt →
  I (put_chunk c pkt i p)).

Definition goes (c c' : transfer_ctx_t) : Prop := wf c' ∧ same_window c c' ∧ I c'.

Lemma goes_refl c : wf c → I c → goes c c.
Proof. intros Hw Hi. split; [done|]. split; [apply same_window_refl|done]. Qed.
Lemma goes_trans c1 c2 c3 : goes c1 c2 → goes c2 c3 → goes c1 c3.
Proof. intros (_ & A & _) (W & B & J). split; [done|]. split; [by eapply same_window_trans|done]. Qed.

Lemma wp_fsys {A} (f : K → A * K) Q (s : ftp_t K) : Q (fst (f (fkern s))) (set_fkern (snd (f (fkern s))) s) → wp (fsys f) Q s.
Proof. intros HQ. unfold fsys, zoom. destruct (f (fkern s)) as [a k] eqn:E. exists a, (set_fkern k s). by rewrite E. Qed.
Lemma wp_lift {A} (o : option A) a Q (s : ftp_t K) : o = Some a → Q a s → wp (lift o) Q s.
Proof. intros -> HQ. by exists a, s. Qed.

Lemma process_goes c pkt : wf c → I c → is_bytes pkt → genuine pkt →
  ∃ r c', process_data_packet c pkt (len pkt) = Some (r, c') ∧ goes c c'.
Proof.
  intros Hw Hi Hb Hg. destruct (process_cases c pkt Hw Hb) as [(r & E & _)|(Hty & Hin & Hf & Hl & E)].
  - exists r, c. split; [done|by apply goes_refl].
  - eexists _, _. split; [exact E|]. assert (Hs : same_window c (put_chunk c pkt (be32_at pkt 4) (be16_at pkt 8))).
    { destruct (in_window c _ Hw Hin) as (Hi' & _). pose proof (wf_chunks c Hw). pose proof (be16_range pkt 8 Hb).
      apply put_chunk_same; [done|lia|done]. }
    split; [by eapply wf_same|]. split; [done|]. by apply Hput.
Qed.

Lemma receive_loop_runs n port stop fresh idle c s :
  wf c → I c → (∀ c', goes c c' → ∃ b, stop c' = Some b) →
  wp (receive_loop n port stop fresh idle c) (λ r _, goes c (snd r)) s.
Proof.
  revert fresh idle c s. induction n as [|n IH]; intros fresh idle c s Hw Hi Hstop; cbn [receive_loop].
  { apply wp_ret. by apply goes_refl. }
  apply wp_bind. unfold recv_timed. apply wp_bind, wp_fsys. set (r := fst _). apply wp_ret.
  assert (Hnext : ∀ fresh' idle' c' s', goes c c' →
    wp (if MAX_IDLE_RECVS <=? idle' then ret (fresh', c')
        else let* enough := lift (stop c') in if enough : bool then ret (fresh', c') else receive_loop n port stop fresh' idle' c')
      (λ r _, goes c (snd r)) s').
  { intros fresh' idle' c' s' Hg. destruct (MAX_IDLE_RECVS <=? idle'); [by apply wp_ret|].
    destruct (Hstop c' Hg) as [b Hb]. apply wp_bind. eapply wp_lift; [exact Hb|]. destruct b; [by apply wp_ret|].
    eapply wp_mono; [apply IH; [apply Hg|apply Hg|]|]; cbv beta.
    - intros c2 Hg2. apply Hstop. by eapply goes_trans.
    - intros x s2 Hg2. by eapply goes_trans. }
  destruct (Z.ltb_spec (rc r) 0) as [Hneg|Hpos].
  { apply wp_bind. change (0 <? -1) with false. cbv iota. apply wp_ret. apply Hnext. by apply goes_refl. }
  apply wp_bind. destruct (Z.ltb_spec 0 (rc r)); [|apply wp_ret; apply Hnext; by apply goes_refl].
  destruct (recv_data port (12 + CHUNK_SIZE) RECV_TIMEOUT_TICKS (fkern s)) as (Hlen & _ & Hbytes); [done|done|].
  fold r in Hlen, Hbytes. destruct (process_goes c (data r) Hw Hi Hbytes) as (v & c' & E & Hg).
  { by apply (Hrecv port (12 + CHUNK_SIZE) RECV_TIMEOUT_TICKS (fkern s)). }
  apply wp_bind. rewrite Hlen. eapply wp_lift; [exact E|]. apply wp_ret. by apply Hnext.
Qed.

Lemma send_server_runs port req (s : ftp_t K) : wp (send_server port req) (λ _ _, True) s.
Proof. unfold send_server. apply wp_bind, wp_get, wp_fsys. done. Qed.
Lemma client_port_runs (s : ftp_t K) : wp client_port (λ _ _, True) s.
Proof. unfold client_port. apply wp_bind, wp_fsys, wp_ret. done. Qed.

Lemma range_request_runs file_id start count (s : ftp_t K) : wp (llm_data_range_request file_id start count) (λ _ _, True) s.
Proof.
  unfold llm_data_range_request. apply wp_bind. eapply wp_mono; [apply client_port_runs|]. intros port s1 _.
  apply wp_bind. eapply wp_mono; [apply send_server_runs|]. intros r s2 _. by apply wp_ret.
Qed.
Lemma retrans_request_runs file_id l (s : ftp_t K) : wp (llm_retrans_request file_id l) (λ _ _, True) s.
Proof.
  unfold llm_retrans_request. apply wp_bind. eapply wp_mono; [apply client_port_runs|]. intros port s1 _.
  apply wp_bind, wp_fsys. destruct (fst _); cbn [negb]; [|by apply wp_ret].
  apply wp_bind. eapply wp_mono; [apply send_server_runs|]. intros r s2 _. by apply wp_ret.
Qed.

Lemma request_range_runs c file_id start count port s :
  wf c → I c → wp (request_chunk_range c file_id start count port) (λ r _, goes c (snd r)) s.
Proof.
  intros Hw Hi. unfold request_chunk_range. destruct (count_missing_some c start (u32 (start + count)) Hw) as [k Hk].
  apply wp_bind. eapply wp_lift; [by rewrite Hk|]. destruct (k =? 0); [apply wp_ret; by apply goes_refl|].
  apply wp_bind. eapply wp_mono; [apply range_request_runs|]. intros r s1 _. destruct (r <? 0); [apply wp_ret; by apply goes_refl|].
  apply receive_loop_runs; [done|done|]. intros c' (Hw' & _). destruct (count_missing_some c' start (u32 (start + count)) Hw') as [k' ->].
  by eexists.
Qed.

(** Enough fuel for a loop over the window in steps. *)
Definition fuel (n : nat) (start win_end : Z) : Prop := (0 < n)%nat ∧ win_end - start < Z.of_nat n ∧ 0 ≤ start ∧ win_end ≤ 2 ^ 23.

Lemma fuel_step n start win_end step :
  fuel (S n) start win_end → start < win_end → 1 ≤ step ≤ 16 → u32 (start + step) = start + step ∧ fuel n (start + step) win_end.
Proof. intros (F1 & F2 & F3 & F4) Hlt Hs. split; [apply u32_id; unfold is_u32; lia|]. split; [lia|]. lia. Qed.

Lemma fuel_start c : wf c →
  fuel (S (Z.to_nat (u32 (first_chunk c + n_chunks c) - first_chunk c))) (first_chunk c) (u32 (first_chunk c + n_chunks c)).
Proof. intros [_ (W1 & W2 & W3) _]. split; [lia|]. lia. Qed.

Lemma missing_loop_runs n c file_id port start win_end total s :
  wf c → I c → fuel n start win_end → wp (missing_loop n c file_id port start win_end total) (λ r _, goes c (snd r)) s.
Proof.
  revert c start total s. induction n as [|n IH]; intros c start total s Hw Hi Hf; [destruct Hf; lia|]. cbn [missing_loop].
  destruct (Z.ltb_spec start win_end) as [Hlt|Hge]; [|apply wp_ret; by apply goes_refl].
  destruct (fuel_step _ _ _ MAX_RETRANS Hf Hlt) as [Eu Hf']; [done|]. rewrite Eu.
  destruct (get_missing_some c start (start + MAX_RETRANS) Hw) as (l & El & Hl & _). apply wp_bind. eapply wp_lift; [exact El|].
  assert (Hnext : ∀ total' c' s', goes c c' → wp (missing_loop n c' file_id port (start + MAX_RETRANS) win_end total') (λ r _, goes c (snd r)) s').
  { intros total' c' s' Hg. eapply wp_mono; [apply IH; [apply Hg|apply Hg|done]|]. cbv beta. intros r s2 Hg2. by eapply goes_trans. }
  apply wp_bind. destruct l as [|i l]; [apply wp_ret; apply Hnext; by apply goes_refl|]. cbv iota.
  apply wp_bind. eapply wp_mono; [apply retrans_request_runs|]. intros r s1 _.
  destruct (r =? 0); [|apply wp_ret; apply Hnext; by apply goes_refl].
  eapply wp_mono; [apply receive_loop_runs; [done|done|]|].
  - intros c' (Hw' & Hs & _). apply none_missing_some; [done|]. eapply Forall_impl; [exact Hl|]. intros j Hj. cbv beta in *.
    by rewrite (in_window_same c).
  - intros [total' c'] s2 Hg. by apply Hnext.
Qed.

Lemma range_loop_runs n c file_id port start win_end s :
  wf c → I c → fuel n start win_end → wp (range_loop hook n c file_id port start win_end) (λ c' _, goes c c') s.
Proof.
  revert c start s. induction n as [|n IH]; intros c start s Hw Hi Hf; [destruct Hf; lia|]. cbn [range_loop].
  destruct (Z.ltb_spec start win_end) as [Hlt|Hge]; [|apply wp_ret; by apply goes_refl].
  destruct (fuel_step _ _ _ MAX_RANGE Hf Hlt) as [Eu Hf']; [done|]. cbv zeta. rewrite Eu.
  apply wp_bind. eapply wp_mono; [by apply request_range_runs|]. intros [k c'] s1 Hg. cbn [snd] in Hg.
  apply wp_bind. eapply wp_mono; [apply Hhook|]. intros [] s2 _.
  eapply wp_mono; [apply IH; [apply Hg|apply Hg|done]|]. intros c2 s3 Hg2. by eapply goes_trans.
Qed.

Lemma retry_loop_runs n c file_id port stalled s :
  wf c → I c → wp (retry_loop hook n c file_id port stalled) (λ c' _, goes c c') s.
Proof.
  revert c stalled s. induction n as [|n IH]; intros c stalled s Hw Hi; cbn [retry_loop]; [apply wp_ret; by apply goes_refl|].
  destruct (_ && _); [|apply wp_ret; by apply goes_refl]. apply wp_bind. unfold handle_missing_chunks.
  eapply wp_mono; [apply missing_loop_runs; [done|done|by apply fuel_start]|]. intros [k c'] s1 Hg. cbn [snd] in Hg.
  apply wp_bind. eapply wp_mono; [apply Hhook|]. intros [] s2 _.
  eapply wp_mono; [apply IH; apply Hg|]. intros c2 s3 Hg2. by eapply goes_trans.
Qed.

(** What the metadata says: a genuine answer, if one comes. *)
Lemma meta_request_runs file_id (s : ftp_t K) :
  wp (llm_meta_request file_id) (λ r s',
    match r with
    | None => waiting file_id s s'
    | Some None => True
    | Some (Some (fsize, chunks, hash)) =>
        ∃ d, genuine d ∧ is_bytes d ∧ len d = 48 ∧ byte_at d 0 = MSG_META_RESP ∧ fsize = be32_at d 4 ∧ chunks = be32_at d 12 ∧
             hash = slice 16 32 d
    end) s.
Proof.
  unfold llm_meta_request, client_port. apply wp_bind, wp_bind, wp_fsys, wp_ret. set (port := u16 _).
  apply wp_bind, wp_fsys. destruct (_ <? 0); [by apply wp_ret|].
  apply wp_bind. unfold send_server. apply wp_bind, wp_get, wp_fsys. cbn [fkern set_fkern g_server_ip g_server_port].
  set (k := snd (sys_bind _ _)). set (pk := Packet _ _ _ _). destruct (Z.ltb_spec (fst (sys_send pk k)) 0) as [|Hsend].
  { apply wp_bind, wp_fsys, wp_ret. done. }
  apply wp_try, wp_fsys. cbn [fkern set_fkern]. set (k1 := snd (sys_send _ k)). destruct (fst (sys_recv port 48 k1)) as [a|] eqn:Ea.
  2: { exists port, k. split; [done|]. by split. }
  cbv zeta. destruct (Z.ltb_spec (rc a) 48) as [|Hrc]; [apply wp_bind, wp_fsys, wp_ret; done|].
  destruct (Z.eqb_spec (byte_at (data a) 0) MSG_META_RESP) as [Hty|]; cbn [orb negb]; apply wp_bind, wp_fsys, wp_ret; [|done].
  destruct (block_data port 48 k1 a) as (Hl & Hle & Hb); [done|done|lia|].
  exists (data a). split; [apply (Hblock port 48 k1 a); [done|done|lia]|]. split; [done|]. split; [lia|]. done.
Qed.

(** The window of a completed transfer. *)
Definition completed (off n : Z) (dst' : list Z) : Prop :=
  ∃ d c, genuine d ∧ is_bytes d ∧ len d = 48 ∧ byte_at d 0 = MSG_META_RESP ∧ off < be32_at d 4 ∧ u32 (off + n) ≤ be32_at d 4 ∧
    wf c ∧ I c ∧ forallb Datatypes.id (received c) = true ∧ file_buf c = dst' ∧ win_off c = off ∧ win_len c = n ∧ first_chunk c = off / CHUNK_SIZE ∧
    n_chunks c = u32 (u32 (off + n + CHUNK_SIZE - 1) / CHUNK_SIZE - off / CHUNK_SIZE).

Lemma fetch_window_runs file_id dst off n s :
  is_u32 off → is_u32 n → 0 < n ≤ len dst →
  wp (llm_fetch_window hook file_id dst off n) (λ o s', returns_or_waits file_id s s' o (λ r dst',
    length dst' = length dst ∧ drop (Z.to_nat n) dst' = drop (Z.to_nat n) dst ∧ (r = -1 ∨ r = 0 ∧ completed off n dst'))) s.
Proof.
  intros Ho Hn Hl. unfold llm_fetch_window, client_port. apply wp_bind, wp_bind, wp_fsys, wp_ret. set (port := u16 _).
  apply wp_try. eapply wp_mono; [apply meta_request_runs|]. intros [[[[fsize chunks] hash]|]|] s2 Hm; [|apply wp_ret; cbn; by auto|].
  2: { exact Hm. }
  destruct Hm as (d & Hg & Hb & Hd & Hty & -> & -> & ->). rewrite (proj2 (Z.eqb_neq n 0)) by lia. cbv zeta.
  destruct (Z.leb_spec (be32_at d 4) off) as [|Hoff]; [apply wp_ret; cbn; by auto|].
  destruct (Z.ltb_spec (be32_at d 4) (u32 (off + n))) as [|Hsum]; cbn [orb]; [apply wp_ret; cbn; by auto|].
  set (first := off / CHUNK_SIZE). set (m := u32 (_ / CHUNK_SIZE - first)).
  apply wp_bind, wp_fsys. destruct (fst (sys_malloc m _)); cbn [negb]; [|apply wp_ret; cbn; by auto].
  set (c := Transfer dst _ _ _ _ _ _ _ _). apply wp_bind, wp_fsys. destruct (_ <? 0); [apply wp_ret; cbn; by auto|].
  apply wp_bind, wp_get. apply wp_bind.
  assert (Hw : wf c).
  { split; cbn [c received n_chunks first_chunk win_off win_len file_buf].
    - by rewrite length_replicate.
    - split; [apply u32_range|]. unfold first, CHUNK_SIZE, is_u32 in *. split; [Z.div_mod_to_equations; lia|].
      pose proof (u32_range (off + n + 512 - 1)). unfold m, first, CHUNK_SIZE, u32, is_u32 in *. rewrite Zplus_mod_idemp_r.
      Z.div_mod_to_equations. lia.
    - split; [done|]. split; [done|lia]. }
  assert (Hi : I c) by (apply Hnone; cbn [c received]; by apply Forall_replicate).
  assert (Hrest : ∀ s', wp (let win_end := u32 (first + m) in
      let* c := range_loop hook (S (Z.to_nat (win_end - first))) c file_id port first win_end in
      let* c := retry_loop hook (Z.to_nat MAX_RETRY_ROUNDS) c file_id port 0 in
      fsys (sys_unbind port) ;;*
      if negb (all_chunks_received c) then next (-1, file_buf c, Some (be32_at d 4))
      else if (off =? 0) && (n =? be32_at d 4) && negb (verify_file_integrity (file_buf c) (s32 (be32_at d 4)) (slice 16 32 d))
      then next (-1, file_buf c, Some (be32_at d 4)) else next (0, file_buf c, Some (be32_at d 4))) (λ o s', returns_or_waits file_id s s' o (λ r dst',
    length dst' = length dst ∧ drop (Z.to_nat n) dst' = drop (Z.to_nat n) dst ∧ (r = -1 ∨ r = 0 ∧ completed off n dst'))) s').
  { intros s'. cbv zeta. apply wp_bind. eapply wp_mono; [apply range_loop_runs; [exact Hw|exact Hi|exact (fuel_start c Hw)]|].
    intros c1 s3 Hg1. apply wp_bind. eapply wp_mono; [apply retry_loop_runs; apply Hg1|]. intros c2 s4 Hg2.
    pose proof (goes_trans _ _ _ Hg1 Hg2) as (Hw2 & (_ & _ & F3 & F4 & F5 & F6 & _ & F8 & F9) & Hi2).
    apply wp_bind, wp_fsys. destruct (all_chunks_received c2) eqn:Hall; cbn [negb]; [|apply wp_ret; cbn; by auto].
    destruct (_ && _); apply wp_ret; cbn; [by auto|]. split; [done|]. split; [done|]. right. split; [done|].
    exists d, c2. do 6 (split; [done|]). by repeat (split; [done|]). }
  destruct (g_bulk_enabled _); [apply wp_bind, wp_fsys, wp_ret|apply wp_ret]; apply Hrest.
Qed.
End Runs.

(** ** Against the server *)

Section Honest.
Context (served : Z → option (list Z)) (fid : Z) (f : list Z) (Hf : served fid = Some f) (Hsize : len f + 511 < 2 ^ 32).

(** A datagram of the server about the file, in a buffer of at least 48 bytes. *)
Definition genuine (d : list Z) : Prop := ∃ n pk, (48 ≤ n)%nat ∧ reply (stores served) fid pk ∧ d = take n pk.

Definition right (c : transfer_ctx_t) : Prop :=
  win_off c + win_len c < 2 ^ 32 → ∀ j q,
  received c !! j = Some true → Z.of_nat q < win_len c → win_off c + Z.of_nat q < len f →
  (win_off c + Z.of_nat q) / CHUNK_SIZE = first_chunk c + Z.of_nat j →
  file_buf c !! q = f !! Z.to_nat (win_off c + Z.of_nat q).

Lemma reply_cases pk : reply (stores served) fid pk →
  pk = meta_resp fid (load_file f) ∨
  (∃ i, 0 ≤ i ∧ 512 * i < len f ∧ pk = chunk_pkt fid f i) ∨ byte_at pk 0 = MSG_ERROR.
Proof.
  unfold stores. intros [g Hg|g i bs Hg Hi Hc|id code]; rewrite ?Hf in *; [injection Hg as <-; by left| |by do 2 right].
  injection Hg as <-. right. left. apply (chunk_bytes f) in Hc as (H1 & -> & H2 & H3). exists i. unfold CHUNK_SIZE in *.
  split; [lia|]. split; [lia|done].
Qed.

(** The fields of a chunk's datagram. *)
Lemma chunk_fields n i : (48 ≤ n)%nat → 0 ≤ i → 512 * i < len f →
  let pk := chunk_pkt fid f i in let p := Z.min 512 (len f - 512 * i) in
  byte_at (take n pk) 0 = MSG_DATA_PACKET ∧ be32_at (take n pk) 4 = i ∧ be16_at (take n pk) 8 = p ∧ len pk = 12 + p ∧
  ∀ q, (q < Z.to_nat p)%nat → pk !! (12 + q)%nat = f !! (Z.to_nat (512 * i) + q)%nat.
Proof.
  intros Hn Hi Hlt pk p. set (bs := slice (i * CHUNK_SIZE) CHUNK_SIZE f).
  assert (Hbs : len bs = p). { unfold bs, slice, len, CHUNK_SIZE in *. rewrite length_take, length_drop. lia. }
  set (h := [MSG_DATA_PACKET; fid; 0; 0] ++ put_be32 i ++ put_be16 (len bs) ++ [0; 0]).
  assert (Epk : pk = h ++ bs) by done. assert (Eh : length h = 12%nat) by done.
  assert (Et : take n pk = h ++ take (n - 12) bs) by (rewrite Epk, take_app, Eh, take_ge by (rewrite Eh; lia); done).
  split; [by rewrite Et|]. split.
  { rewrite Et. unfold h. rewrite <- !app_assoc. pose proof (be32_at_put [MSG_DATA_PACKET; fid; 0; 0] i
      (put_be16 (len bs) ++ [0; 0] ++ take (n - 12) bs)) as E. change (len [MSG_DATA_PACKET; fid; 0; 0]) with 4 in E.
    rewrite u32_id in E by (unfold is_u32; lia). exact E. }
  split.
  { rewrite Et, <- Hbs. unfold h. rewrite <- !app_assoc. apply (be16_put ([MSG_DATA_PACKET; fid; 0; 0] ++ put_be32 i)). rewrite Hbs.
    unfold is_u16. lia. }
  split; [rewrite Epk, len_app, Hbs; done|]. intros q Hq. rewrite Epk, lookup_app_r by lia. rewrite Eh.
  replace (12 + q - 12)%nat with q by lia. unfold bs, slice, CHUNK_SIZE. rewrite lookup_take_lt by lia. rewrite lookup_drop. f_equal. lia.
Qed.

Lemma right_none c : Forall (eq false) (received c) → right c.
Proof. intros Hn _ j q Hj. exfalso. pose proof (Forall_lookup_1 _ _ _ _ Hn Hj). done. Qed.

Lemma right_put c pkt :
  let i := be32_at pkt 4 in let p := be16_at pkt 8 in
  wf c → is_bytes pkt → genuine pkt → right c → byte_at pkt 0 = MSG_DATA_PACKET → chunk_in_window c i = true → 12 + p ≤ len pkt →
  right (put_chunk c pkt i p).
Proof.
  intros i p Hw Hb (n & pk & Hn & Hr & Ed) Hright Hty Hin Hl.
  destruct (reply_cases pk Hr) as [->|[(k & Hk & Hlt & ->)|He]].
  { exfalso. subst pkt. destruct n; [lia|]. discriminate Hty. }
  2: { exfalso. subst pkt. destruct pk as [|b pk]; [discriminate He|]. destruct n; [lia|]. change (b = MSG_DATA_PACKET) in Hty.
       change (b = MSG_ERROR) in He. by subst b. }
  destruct (chunk_fields n k Hn Hk Hlt) as (_ & Ei & Ep & Elen & Hbytes). rewrite <- Ed in Ei, Ep.
  assert (Epkt : pkt = chunk_pkt fid f k). { rewrite Ed. apply take_ge. fold p in Ep. rewrite Ed in Hl. unfold len in *. rewrite length_take in Hl. lia. }
  fold i in Ei. fold p in Ep. rewrite Ei, Ep in *. clear i p Ei Ep. set (p := Z.min 512 (len f - 512 * k)) in *.
  destruct (in_window c k Hw Hin) as (Hwin & _ & Hidx). pose proof (wf_chunks c Hw) as (_ & Hfc & _).
  pose proof (put_chunk_same c pkt k p Hw ltac:(lia) ltac:(lia)) as (_ & _ & F3 & F4 & F5 & _).
  unfold right. rewrite F3, F4, F5. intros H32 j q Hj Hq Hqf Hidx'. unfold CHUNK_SIZE in *.
  rewrite put_chunk_buf; [|done|lia|lia|lia|rewrite Epkt; lia|done|done].
  case_decide as Hd.
  - rewrite Epkt. replace (Z.to_nat (12 + (win_off c + Z.of_nat q - 512 * k))) with (12 + Z.to_nat (win_off c + Z.of_nat q - 512 * k))%nat by lia.
    rewrite Hbytes by lia. f_equal. lia.
  - apply (Hright H32 j); [|done|done|done].
    assert (Hjk : j ≠ Z.to_nat (k - first_chunk c)).
    { intros ->. apply Hd. unfold p. Z.div_mod_to_equations. lia. }
    revert Hj. unfold put_chunk. destruct (span c k p) as [a b]. cbn [set_received received]. by rewrite list_lookup_insert_ne.
Qed.

Lemma completed_slice off n dst' :
  is_u32 off → 0 < n → off + n < 2 ^ 32 → completed genuine right off n dst' → off + n ≤ len f ∧ take (Z.to_nat n) dst' = slice off n f.
Proof.
  intros Ho Hn H32 (d & c & (k & pk & Hk & Hr & Ed) & Hb & Hd & Hty & Hoff & Hsum & Hw & Hright & Hall & Ebuf & Eoff & Elen & Efirst & Echunks).
  assert (Emeta : be32_at d 4 = len f).
  { destruct (reply_cases pk Hr) as [->|[(i & Hi & Hlt & ->)|He]].
    - rewrite Ed. unfold meta_resp. set (rest := put_be32 CHUNK_SIZE ++ _).
      assert (Et : take k ([MSG_META_RESP; fid; 0; 1] ++ put_be32 (len f) ++ rest) = [MSG_META_RESP; fid; 0; 1] ++ put_be32 (len f) ++ take (k - 8) rest).
      { rewrite app_assoc, take_app. change (length ([MSG_META_RESP; fid; 0; 1] ++ put_be32 (len f))) with 8%nat.
        rewrite (take_ge ([MSG_META_RESP; fid; 0; 1] ++ put_be32 (len f)) k) by (change (8 ≤ k)%nat; lia). by rewrite <- app_assoc. }
      change (size (load_file f)) with (len f). rewrite Et. pose proof (len_nonneg f).
      pose proof (be32_at_put [MSG_META_RESP; fid; 0; 1] (len f) (take (k - 8) rest)) as E.
      rewrite u32_id in E by (unfold is_u32; lia). exact E.
    - exfalso. destruct (chunk_fields k i Hk Hi Hlt) as (E & _). rewrite <- Ed, Hty in E. discriminate E.
    - exfalso. subst d. destruct pk as [|b pk]; [discriminate He|]. destruct k; [lia|]. change (b = MSG_META_RESP) in Hty.
      change (b = MSG_ERROR) in He. by subst b. }
  rewrite u32_id in Hsum by (unfold is_u32 in *; lia). rewrite Emeta in *. split; [done|].
  assert (Hlb : n ≤ len dst') by (rewrite <- Ebuf, <- Elen; apply Hw).
  unfold right in Hright. rewrite Eoff, Elen, Efirst, Ebuf in Hright.
  pose proof (wf_bitmap c Hw) as Hbm. rewrite Echunks in Hbm. unfold is_u32, CHUNK_SIZE in *.
  rewrite (u32_id (off + n + 512 - 1)) in Hbm by (unfold is_u32; lia).
  rewrite u32_id in Hbm by (unfold is_u32; Z.div_mod_to_equations; lia).
  apply list_eq. intros q. unfold slice. destruct (decide (q < Z.to_nat n)%nat) as [Hq|Hq]; [|by rewrite !lookup_take_ge by lia].
  rewrite !lookup_take_lt, lookup_drop by done. replace (Z.to_nat off + q)%nat with (Z.to_nat (off + Z.of_nat q)) by lia.
  set (j := Z.to_nat ((off + Z.of_nat q) / 512 - off / 512)).
  assert (Hj : (j < length (received c))%nat) by (unfold j; rewrite Hbm; Z.div_mod_to_equations; lia).
  destruct (lookup_lt_is_Some_2 _ _ Hj) as [b Eb]. assert (b = true) as ->.
  { rewrite forallb_forall in Hall. apply Hall. apply list_elem_of_In. by eapply list_elem_of_lookup_2. }
  apply (Hright H32 j q Eb); [lia|lia|]. unfold j. rewrite Z2Nat.id by (Z.div_mod_to_equations; lia). lia.
Qed.
End Honest.

(** The network delivers to the client what the server sent about the file, and
    nothing else. *)
Definition honest (K : Type) `{Kernel K} `{FtpKernel K} (served : Z → option (list Z)) (fid : Z) : Prop :=
  (∀ port n t k, 48 ≤ n → let r := fst (sys_recvtimeo port n t k) in 0 ≤ rc r → genuine served fid (data r)) ∧
  (∀ port n k r, 48 ≤ n → fst (sys_recv port n k) = Some r → 0 ≤ rc r → genuine served fid (data r)).

(** ** The loaders' view

    [llm_fetch_range] into a fresh buffer as the transfer of [ShardEnv], one that
    waits for ever among those that bring nothing; the other calls are those of
    [E]. *)
Definition ftp_env {K E : Type} `{Kernel K} `{FtpKernel K} (base : ShardEnv E) (hook : M (ftp_t K) unit) : ShardEnv (E * ftp_t K) := {|
  env_shmget name n s := let '(r, e) := env_shmget name n (fst s) in (r, (e, snd s));
  env_shmat i s := let '(r, e) := env_shmat i (fst s) in (r, (e, snd s));
  env_shmdt s := (env_shmdt (fst s), snd s);
  env_fetch fid off n s :=
    match llm_fetch_range hook fid (replicate (Z.to_nat n) 0) off n (snd s) with
    | Some (Some (r, dst), s') => (if r <? 0 then None else Some dst, (fst s, s'))
    | Some (None, s') => (None, (fst s, s'))
    | None => (None, s)
    end;
  env_calloc s := let '(r, e) := env_calloc (fst s) in (r, (e, snd s));
  env_malloc n s := let '(r, e) := env_malloc n (fst s) in (r, (e, snd s)) |}.

Section Loader.
Context {K E : Type} `{KernelLaws K} `{!FtpKernel K} `{!FtpLaws K} (base : ShardEnv E).
Context (hook : M (ftp_t K) unit) (Hhook : ∀ s, wp hook (λ _ _, True) s).
Context (served : Z → option (list Z)) (fid : Z) (f : list Z) (Hf : served fid = Some f) (Hsize : len f + 511 < 2 ^ 32).
Context (Hhonest : honest K served fid).

Lemma window_exact dst off n s :
  is_u32 off → 0 < n ≤ len dst → off + n < 2 ^ 32 →
  wp (llm_fetch_window hook fid dst off n) (λ o s', returns_or_waits fid s s' o (λ r dst',
    length dst' = length dst ∧ drop (Z.to_nat n) dst' = drop (Z.to_nat n) dst ∧
    (r = -1 ∨ r = 0 ∧ off + n ≤ len f ∧ take (Z.to_nat n) dst' = slice off n f))) s.
Proof.
  intros Ho Hn H32. eapply wp_mono; [apply (fetch_window_runs hook Hhook (genuine served fid) (right f)); try done|].
  - apply Hhonest.
  - apply Hhonest.
  - apply right_none.
  - by apply right_put.
  - unfold is_u32 in *. lia.
  - intros [[[r dst'] sz]|] s'; [|done]. intros (E1 & E2 & Hr). split; [done|]. split; [done|]. destruct Hr as [Hr|[Hr Hc]]; [by left|right].
    split; [done|]. apply (completed_slice served fid f Hf Hsize off n dst'); [done|lia|done|done].
Qed.

(** What the loaders assume of a transfer. *)
Lemma ftp_faithful : @fetch_faithful _ (ftp_env base hook) fid f.
Proof.
  intros off n s bs Ho Hn H32 Er. cbn [env_fetch ftp_env] in Er. unfold llm_fetch_range in Er.
  destruct (Z.eqb_spec n 0) as [->|Hne]; [discriminate Er|].
  destruct (window_exact (replicate (Z.to_nat n) 0) off n (snd s)) as (o & s' & E1 & Ho').
  { unfold is_u32. lia. }
  { unfold len. rewrite length_replicate. lia. }
  { done. }
  destruct o as [[[r dst'] sz]|]; [|rewrite (try_fail _ _ _ _ E1) in Er; discriminate Er].
  destruct Ho' as (Hlen & _ & Hr). rewrite (try_next _ _ _ _ _ E1) in Er. cbn in Er. destruct Hr as [-> | (-> & Hle & Hs)]; [discriminate Er|].
  cbn in Er. injection Er as <-. split; [|done]. rewrite <- Hs. rewrite length_replicate in Hlen. symmetry. apply take_ge. lia.
Qed.
End Loader.
