(* ===== verification/Transfer.v ===== *)
(** * A transfer between the client and the server
    (src/xv6-riscv/user/ftpclient.c, src/server/server.py)

    The client of Ftp.v against the server of Weights.v over a network that
    delivers the server's datagrams in order, but for those it is told to lose.
    A [recv] with nothing to deliver never returns. *)
From S2P Require Import Prelude Kernel Sha256 Llama Checkpoint Shard Weights Ftp.
Import Rftp.

(** ** The network *)

Section Lan.
Context (served : Z → option (list Z)) (fid : Z) (f : list Z).
Context (Hserved : ∀ id d, served id = Some d → len d < 2 ^ 32).
Context (Hf : served fid = Some f) (Hfid : is_byte fid) (Hbytes : is_bytes f) (Hsize : len f + 511 < 2 ^ 32).

(** The datagrams on their way to the client, the server and the datagrams of the
    client.  [losses] says which of the next datagrams of the server get lost. *)
Record lan := Lan { box : list (list Z); srv : stats_t; lan_out : list packet; losses : list bool }.

Fixpoint transmit (pks : list (list Z)) (ls : list bool) : list (list Z) * list bool :=
  match pks, ls with
  | pk :: pks, l :: ls => let '(r, ls) := transmit pks ls in (if l : bool then r else pk :: r, ls)
  | _, _ => (pks, ls)
  end.

Definition lan_send (p : packet) (k : lan) : Z * lan :=
  let s := snd (serve (stores served) (contents p) (Server (srv k) [])) in
  let '(r, ls) := transmit (socket s) (losses k) in
  (len (contents p), Lan (box k ++ r) (stats s) (lan_out k ++ [p]) ls).

(** The datagrams of the server about the file. *)
Definition authentic (d : list Z) : bool :=
  forallb (λ b, (0 <=? b) && (b <? 256)) d &&
  (bool_decide (d = meta_resp fid (load_file f)) ||
   bool_decide (d = error_pkt (byte_at d 1) (be16_at d 4)) ||
   (let i := be32_at d 4 in (0 <=? i) && (i <? total_chunks (load_file f)) && bool_decide (d = chunk_pkt fid f i))).

Definition lan_recv (n : Z) (k : lan) : recv_t * lan :=
  match box k with
  | [] => (Recv (-2) 0 0 [], k)
  | d :: rest =>
      (if authentic d then let b := take (Z.to_nat n) d in Recv (len b) 0 0 b else Recv (-2) 0 0 [],
       Lan rest (srv k) (lan_out k) (losses k))
  end.

#[local] Instance lan_kernel : Kernel lan := {
  sys_malloc _ k := (true, k);
  sys_bind _ k := (0, k);
  sys_unbind _ k := (0, k);
  sys_send := lan_send;
  sys_recvtimeo _ n _ k := lan_recv n k;
  sys_getentropy _ k := (None, k);
  sys_uptime k := (0, k);
  sys_ip k := (0, k);
  sent := lan_out;
}.
#[local] Instance lan_ftp : FtpKernel lan := {
  sys_getpid k := (3, k);
  sys_recv _ n k := match box k with [] => (None, k) | _ => let '(r, k') := lan_recv n k in (Some r, k') end;
  sys_udp_bulk _ _ k := (0, k);
}.

Lemma authentic_bytes d : authentic d = true → is_bytes d.
Proof.
  intros Ha. apply andb_true_iff in Ha as [Ha _]. apply Forall_forall. intros b Hb. apply list_elem_of_In in Hb.
  rewrite forallb_forall in Ha. specialize (Ha b Hb). unfold is_byte. lia.
Qed.

Lemma authentic_reply d : authentic d = true → reply (stores served) fid d.
Proof.
  intros Ha. pose proof (authentic_bytes d Ha) as Hb. apply andb_true_iff in Ha as [_ Ha]. assert (Es : stores served fid = Some (load_file f)) by (unfold stores; by rewrite Hf).
  apply orb_true_iff in Ha as [Ha|Ha]; [apply orb_true_iff in Ha as [Ha|Ha]; apply bool_decide_eq_true in Ha|].
  - rewrite Ha. by apply reply_meta.
  - rewrite Ha. by apply reply_error, byte_at_byte.
  - apply andb_true_iff in Ha as [Hi Ha]. apply bool_decide_eq_true in Ha. rewrite Ha. pose proof (chunks_u32 f ltac:(lia)).
    apply (reply_data _ _ (load_file f)); [done|unfold is_u32; lia|apply chunk_some; lia].
Qed.

Lemma lan_recv_cases n k :
  (rc (fst (lan_recv n k)) = -2 ∧ data (fst (lan_recv n k)) = []) ∨
  ∃ d, authentic d = true ∧ data (fst (lan_recv n k)) = take (Z.to_nat n) d ∧ rc (fst (lan_recv n k)) = len (take (Z.to_nat n) d).
Proof.
  unfold lan_recv. destruct (box k) as [|d rest]; [by left|]. cbn [fst]. destruct (authentic d) eqn:Ha; [|by left]. right. by exists d.
Qed.

Lemma lan_recv_data n k : 0 ≤ n → 0 ≤ rc (fst (lan_recv n k)) →
  rc (fst (lan_recv n k)) = len (data (fst (lan_recv n k))) ∧ rc (fst (lan_recv n k)) ≤ n ∧ is_bytes (data (fst (lan_recv n k))).
Proof.
  intros Hn Hr. destruct (lan_recv_cases n k) as [[E _]|(d & Ha & E1 & E2)]; [lia|]. rewrite E1, E2.
  split; [done|]. split; [unfold len; rewrite length_take; lia|]. by apply Forall_take, authentic_bytes.
Qed.

Lemma lan_recv_out n k : lan_out (snd (lan_recv n k)) = lan_out k.
Proof. unfold lan_recv. by destruct (box k). Qed.

(** A [recv] that returns gives what the box has. *)
Lemma lan_waits n k r :
  fst (match box k with [] => (None, k) | _ => let '(r, k') := lan_recv n k in (Some r, k') end) = Some r → r = fst (lan_recv n k).
Proof. destruct (box k); [done|]. destruct (lan_recv n k) as [r' k']. by intros [= ->]. Qed.

#[local] Instance lan_laws : KernelLaws lan.
Proof.
  split; try done; cbn.
  - intros _ n _ k Hn. by apply lan_recv_data.
  - intros _ n _ k Hr. destruct (lan_recv_cases n k) as [[_ E]|(d & _ & _ & E)]; [done|].
    pose proof (len_nonneg (take (Z.to_nat n) d)). lia.
  - intros _ n _ k. unfold lan_recv. destruct (box k) as [|d rest]; [done|]. cbn. by destruct (authentic d).
  - intros _ n _ k. apply lan_recv_out.
  - intros p k. unfold lan_send. destruct (transmit _ _) as [r ls]. cbn. pose proof (len_nonneg (contents p)).
    destruct (Z.ltb_spec (len (contents p)) 0); [lia|done].
Qed.
#[local] Instance lan_ftp_laws : FtpLaws lan.
Proof. split. intros port n k r Hn Er. rewrite (lan_waits _ _ _ Er). by apply lan_recv_data. Qed.

Lemma lan_honest : honest lan served fid.
Proof.
  assert (Hg : ∀ n k, 48 ≤ n → 0 ≤ rc (fst (lan_recv n k)) → genuine served fid (data (fst (lan_recv n k)))).
  { intros n k Hn Hr. destruct (lan_recv_cases n k) as [[E _]|(d & Ha & E1 & E2)]; [lia|]. rewrite E1.
    exists (Z.to_nat n), d. split; [lia|]. split; [by apply authentic_reply|done]. }
  split; [intros port n t k Hn; by apply Hg|]. intros port n k r Hn Er. rewrite (lan_waits _ _ _ Er). by apply Hg.
Qed.

(** ** A transfer without losses *)

Abbreviation total := (total_chunks (load_file f)).

Lemma bytes_check d : is_bytes d → forallb (λ b, (0 <=? b) && (b <? 256)) d = true.
Proof.
  intros Hd. apply forallb_forall. intros b Hb. apply list_elem_of_In in Hb. unfold is_bytes in Hd. rewrite Forall_forall in Hd.
  specialize (Hd b Hb). unfold is_byte in Hd. lia.
Qed.

Lemma header_bytes t a b : is_byte t → is_byte a → is_byte b → is_bytes [t; fid; a; b].
Proof. intros. unfold is_bytes. rewrite !Forall_cons, Forall_nil. done. Qed.

Lemma authentic_meta : authentic (meta_resp fid (load_file f)) = true.
Proof.
  apply andb_true_iff. split; [|by rewrite bool_decide_true]. apply bytes_check. unfold meta_resp.
  repeat apply Forall_app_2; try apply put_be32_bytes; [apply header_bytes; unfold is_byte, MSG_META_RESP; lia|apply fips_bytes].
Qed.

Lemma chunk_index i : 0 ≤ i → 512 * i < len f → be32_at (chunk_pkt fid f i) 4 = i.
Proof.
  intros Hi Hlt. destruct (chunk_fields fid f Hsize (48 + length (chunk_pkt fid f i)) i) as (_ & E & _); [lia|done|done|].
  by rewrite take_ge in E by lia.
Qed.

Lemma in_file i : 0 ≤ i < total → 512 * i < len f.
Proof. unfold load_file, CHUNK_SIZE. cbn [total_chunks]. Z.div_mod_to_equations. lia. Qed.

Lemma authentic_chunk i : 0 ≤ i < total → authentic (chunk_pkt fid f i) = true.
Proof.
  intros Hi. apply andb_true_iff. split.
  - apply bytes_check. unfold chunk_pkt, data_pkt. repeat apply Forall_app_2.
    + apply header_bytes; unfold is_byte, MSG_DATA_PACKET; lia.
    + apply put_be32_bytes.
    + apply put_be16_bytes.
    + repeat constructor; unfold is_byte; lia.
    + by apply Forall_take, Forall_drop.
  - apply orb_true_iff. right. rewrite chunk_index by (pose proof (in_file i Hi); lia). cbv zeta.
    rewrite bool_decide_true by done. rewrite (proj2 (Z.leb_le _ _)), (proj2 (Z.ltb_lt _ _)) by lia. done.
Qed.

(** The first [m] chunks of the window have arrived. *)
Record arrived (c : transfer_ctx_t) (m : nat) : Prop := {
  ar_wf : wf c;
  ar_right : right f c;
  ar_window : 0 < win_len c ∧ win_off c + win_len c ≤ len f;
  ar_chunks : first_chunk c = win_off c / 512 ∧ n_chunks c = (win_off c + win_len c + 511) / 512 - first_chunk c;
  ar_file : file_size c = s32 (len f) ∧ ctx_chunks c = s32 total;
  ar_flags : received c = replicate m true ++ replicate (Z.to_nat (n_chunks c) - m) false ∧ (m ≤ Z.to_nat (n_chunks c))%nat;
}.

Lemma arrived_bounds c m : arrived c m → 0 ≤ first_chunk c ∧ 0 < n_chunks c ∧ first_chunk c + n_chunks c ≤ total ∧ total ≤ 2 ^ 23 ∧
  u32 (first_chunk c + n_chunks c) = first_chunk c + n_chunks c.
Proof.
  intros [Hw _ (A1 & A2) (A3 & A4) _ _]. pose proof (wf_window c Hw) as (W1 & W2 & W3). unfold is_u32 in *.
  assert (total ≤ 2 ^ 23) by (unfold load_file, CHUNK_SIZE; cbn [total_chunks]; Z.div_mod_to_equations; lia).
  assert (first_chunk c + n_chunks c ≤ total).
  { rewrite A4. unfold load_file, CHUNK_SIZE. cbn [total_chunks]. Z.div_mod_to_equations. lia. }
  assert (0 ≤ first_chunk c ∧ 0 < n_chunks c) by (rewrite A4, A3; Z.div_mod_to_equations; lia).
  split; [lia|]. split; [lia|]. split; [lia|]. split; [lia|]. apply u32_id. unfold is_u32. lia.
Qed.

Lemma arrived_flag c m i : arrived c m → first_chunk c ≤ i < first_chunk c + n_chunks c →
  chunk_in_window c i = true ∧ flag c i = Some (bool_decide (i < first_chunk c + Z.of_nat m)).
Proof.
  intros Ha Hi. pose proof (arrived_bounds c m Ha) as (B1 & B2 & B3 & B4 & B5). destruct (ar_flags c m Ha) as [Hr Hm].
  unfold chunk_in_window, flag. rewrite B5, (proj2 (Z.leb_le _ _)), (proj2 (Z.ltb_lt _ _)) by lia. split; [done|].
  rewrite u32_id by (unfold is_u32; lia). rewrite Hr. case_bool_decide as Hd.
  - rewrite lookup_app_l by (rewrite length_replicate; lia). apply lookup_replicate_2. lia.
  - rewrite lookup_app_r by (rewrite length_replicate; lia). rewrite length_replicate. apply lookup_replicate_2. lia.
Qed.

Lemma u32_s32 x : u32 (s32 x) = u32 x.
Proof. unfold u32, s32. Z.div_mod_to_equations. lia. Qed.

Lemma flags_step (n m : nat) : (m < n)%nat →
  <[m := true]> (replicate m true ++ replicate (n - m) false) = replicate (S m) true ++ replicate (n - S m) false.
Proof.
  intros Hm. replace (n - m)%nat with (S (n - S m)) by lia. cbn [replicate].
  rewrite insert_app_r_alt by (rewrite length_replicate; lia). rewrite length_replicate, Nat.sub_diag. cbn.
  change (true :: replicate (n - S m) false) with ([true] ++ replicate (n - S m) false). rewrite app_assoc, <- replicate_cons_app. done.
Qed.

Lemma process_chunk c m : arrived c m → (m < Z.to_nat (n_chunks c))%nat →
  let i := first_chunk c + Z.of_nat m in
  ∃ c', process_data_packet c (chunk_pkt fid f i) (len (chunk_pkt fid f i)) = Some (1, c') ∧ arrived c' (S m) ∧ same_window c c'.
Proof.
  intros Ha Hm i. pose proof (arrived_bounds c m Ha) as (B1 & B2 & B3 & B4 & B5).
  pose proof (in_file i ltac:(lia)) as Hif. set (pk := chunk_pkt fid f i).
  destruct (chunk_fields fid f Hsize (48 + length pk) i) as (E1 & E2 & E3 & E4 & _); [lia|lia|done|]. fold pk in E1, E2, E3, E4.
  rewrite take_ge in E1, E2, E3 by lia. set (p := Z.min 512 (len f - 512 * i)) in *.
  destruct (arrived_flag c m i Ha ltac:(lia)) as [Hin Hfl]. rewrite bool_decide_false in Hfl by lia.
  assert (Hb : is_bytes pk) by (apply authentic_bytes, authentic_chunk; lia).
  assert (Eproc : process_data_packet c pk (len pk) = Some (1, put_chunk c pk i p)).
  { destruct (process_cases c pk (ar_wf c m Ha) Hb) as [(r & E & Hr)|(_ & _ & _ & _ & E)]; [|by rewrite E2, E3 in E].
    exfalso. revert E. unfold process_data_packet. rewrite E1, E2, E3, E4, Hin, Hfl. unfold CHUNK_SIZE.
    destruct (ar_file c m Ha) as [-> ->]. pose proof (len_nonneg f). rewrite !u32_s32, (u32_id total), (u32_id (len f)), (u32_id (i * 512)),
      (u32_id (i * 512 + p)) by (unfold is_u32; lia).
    rewrite (proj2 (Z.ltb_ge (12 + p) 12)), (proj2 (Z.leb_gt total i)), (proj2 (Z.ltb_ge (12 + p) (12 + p))),
      (proj2 (Z.ltb_ge (len f) (i * 512 + p))) by lia. cbn [negb Z.eqb Pos.eqb]. change (MSG_DATA_PACKET =? MSG_DATA_PACKET) with true.
    cbn [negb]. intros E. apply bind_Some in E as (b & [= <-] & E). apply bind_Some in E as (c2 & _ & [= <- _]). done. }
  exists (put_chunk c pk i p). split; [done|].
  assert (Hsame : same_window c (put_chunk c pk i p)) by (apply put_chunk_same; [apply Ha|lia|lia]).
  split; [|done]. pose proof Hsame as (F1 & F2 & F3 & F4 & F5 & F6 & _). destruct Ha as [Hw Hr A1 A2 A3 [A4 A5]].
  split; rewrite ?F1, ?F2, ?F3, ?F4, ?F5, ?F6; try done.
  - by eapply wf_same.
  - rewrite <- E2, <- E3. apply (right_put served fid f Hf Hsize); try done; rewrite ?E2, ?E3; try done; [|lia].
    exists (48 + length pk)%nat, pk. split; [lia|]. split; [|by rewrite take_ge by lia]. apply authentic_reply, authentic_chunk. lia.
  - split; [|lia]. unfold put_chunk. destruct (span c i p) as [a b]. cbn [set_received received]. rewrite A4.
    replace (Z.to_nat (i - first_chunk c)) with m by lia. by apply flags_step.
Qed.
(** *** The bitmap *)

Lemma missing_zero n c i : (∀ j, (j < n)%nat → is_missing c (i + Z.of_nat j) = Some false) → count_missing_loop n c i = Some 0.
Proof.
  revert i. induction n as [|n IH]; intros i Hm; cbn [count_missing_loop]; [done|].
  pose proof (Hm 0%nat ltac:(lia)) as Hz. rewrite Z.add_0_r in Hz. rewrite Hz. cbn. rewrite IH; [done|].
  intros j Hj. replace (i + 1 + Z.of_nat j) with (i + Z.of_nat (S j)) by lia. apply Hm. lia.
Qed.

Lemma missing_pos n c i j : wf c → (j < n)%nat → is_missing c (i + Z.of_nat j) = Some true →
  ∃ k, count_missing_loop n c i = Some k ∧ 0 < k.
Proof.
  intros Hw. assert (Hk : ∀ n i, ∃ k, count_missing_loop n c i = Some k ∧ 0 ≤ k).
  { intros n'. induction n' as [|n' IH]; intros i'; cbn [count_missing_loop]; [by exists 0|].
    destruct (missing_some c i' Hw) as [b ->]. destruct (IH (i' + 1)) as (k & -> & Hk). cbn. destruct b; eexists; (split; [done|lia]). }
  revert i j. induction n as [|n IH]; intros i j Hj Hm; [lia|]. cbn [count_missing_loop]. destruct j as [|j].
  - rewrite Z.add_0_r in Hm. rewrite Hm. destruct (Hk n (i + 1)) as (k & -> & Hk0). cbn. eexists. split; [done|lia].
  - destruct (missing_some c i Hw) as [b ->]. destruct (IH (i + 1) j) as (k & -> & Hk0); [lia| |].
    { by replace (i + 1 + Z.of_nat j) with (i + Z.of_nat (S j)) by lia. }
    cbn. destruct b; eexists; (split; [done|lia]).
Qed.

(** The test that ends a batch. *)
Lemma batch_done c m start stop : arrived c m → first_chunk c ≤ start < stop → stop ≤ first_chunk c + n_chunks c →
  (λ k, k =? 0) <$> count_missing_in_range c start stop = Some (bool_decide (stop ≤ first_chunk c + Z.of_nat m)).
Proof.
  intros Ha Hs He. unfold count_missing_in_range.
  assert (Hmis : ∀ i, first_chunk c ≤ i < stop → is_missing c i = Some (negb (bool_decide (i < first_chunk c + Z.of_nat m)))).
  { intros i Hi. destruct (arrived_flag c m i Ha ltac:(lia)) as [Hin Hfl]. unfold is_missing. by rewrite Hin, Hfl. }
  case_bool_decide as Hd.
  - rewrite missing_zero; [done|]. intros j Hj. rewrite Hmis by lia. by rewrite bool_decide_true by lia.
  - destruct (missing_pos (Z.to_nat (stop - start)) c start (Z.to_nat (stop - start) - 1)) as (k & -> & Hk); [apply Ha|lia| |].
    + rewrite Hmis by lia. by rewrite bool_decide_false by lia.
    + cbn. by rewrite (proj2 (Z.eqb_neq k 0)) by lia.
Qed.

(** *** A batch *)

Definition on_the_way (i : Z) (r : nat) : list (list Z) := map (λ j, chunk_pkt fid f (i + Z.of_nat j)) (seq 0 r).

Lemma on_the_way_S i r : on_the_way i (S r) = chunk_pkt fid f i :: on_the_way (i + 1) r.
Proof.
  unfold on_the_way. cbn [seq map]. rewrite Z.add_0_r. f_equal. rewrite <- seq_shift, map_map. apply map_ext. intros j.
  by replace (i + 1 + Z.of_nat j) with (i + Z.of_nat (S j)) by lia.
Qed.

Lemma lan_delivers i rest st out ls :
  0 ≤ i < total → let pk := chunk_pkt fid f i in
  lan_recv (12 + CHUNK_SIZE) (Lan (pk :: rest) st out ls) = (Recv (len pk) 0 0 pk, Lan rest st out ls) ∧ 0 < len pk.
Proof.
  intros Hi pk. pose proof (in_file i Hi).
  destruct (chunk_fields fid f Hsize (48 + length pk) i) as (_ & _ & _ & E4 & _); [lia|lia|done|]. fold pk in E4.
  unfold lan_recv. cbn [box srv lan_out losses]. unfold pk at 1. rewrite authentic_chunk by done. fold pk. cbv zeta.
  rewrite take_ge by (unfold CHUNK_SIZE, len in *; lia). split; [done|lia].
Qed.

Lemma receive_all r n port stop fresh c m (s : ftp_t lan) :
  arrived c m → (0 < r ≤ n)%nat → (m + r ≤ Z.to_nat (n_chunks c))%nat →
  box (fkern s) = on_the_way (first_chunk c + Z.of_nat m) r →
  (∀ c' m', same_window c c' → arrived c' m' → stop c' = Some (bool_decide (m + r ≤ m')%nat)) →
  wp (receive_loop n port stop fresh 0 c) (λ '(_, c') s', arrived c' (m + r) ∧ same_window c c' ∧
    box (fkern s') = [] ∧ losses (fkern s') = losses (fkern s)) s.
Proof.
  revert n fresh c m s. induction r as [|r IH]; intros n fresh c m s Ha Hr Hm Hbox Hstop; [lia|].
  destruct n as [|n]; [lia|]. cbn [receive_loop]. rewrite on_the_way_S in Hbox.
  pose proof (arrived_bounds c m Ha) as (B1 & B2 & B3 & B4 & B5).
  destruct s as [[bx st out ls] a p g]. cbn [fkern box] in Hbox. subst bx.
  destruct (lan_delivers (first_chunk c + Z.of_nat m) (on_the_way (first_chunk c + Z.of_nat m + 1) r) st out ls) as [Er Hlen]; [lia|].
  apply wp_bind. unfold recv_timed. apply wp_bind, wp_fsys. cbn [fkern sys_recvtimeo lan_kernel]. rewrite Er. cbn [fst snd rc data].
  set (pk := chunk_pkt fid f _) in *. rewrite (proj2 (Z.ltb_ge (len pk) 0)) by lia. apply wp_ret. apply wp_bind.
  rewrite (proj2 (Z.ltb_lt 0 (len pk))) by done. destruct (process_chunk c m Ha ltac:(lia)) as (c' & Ep & Ha' & Hs'). fold pk in Ep.
  apply wp_bind. eapply wp_lift; [exact Ep|]. apply wp_ret. change (MAX_IDLE_RECVS <=? 0) with false. cbv iota.
  apply wp_bind. eapply wp_lift; [by apply (Hstop c' (S m))|]. pose proof Hs' as (_ & _ & _ & _ & F5 & F6 & _).
  case_bool_decide as Hd; cbv iota.
  - assert (r = 0%nat) as -> by lia. apply wp_ret. replace (m + 1)%nat with (S m) by lia. done.
  - eapply wp_mono; [apply (IH n _ c' (S m)); [done|lia|by rewrite F6; lia| |]|].
    + cbn [fkern set_fkern box]. rewrite F5. f_equal. lia.
    + intros c2 m2 Hs2 Ha2. rewrite (Hstop c2 m2) by (done || by eapply same_window_trans). f_equal. apply bool_decide_ext. lia.
    + intros [k c2] s2 (G1 & G2 & G3 & G4). replace (m + S r)%nat with (S m + r)%nat by lia.
      split; [done|]. split; [by eapply same_window_trans|]. split; [done|]. by rewrite G4.
Qed.

Definition idle (s : ftp_t lan) : Prop := box (fkern s) = [] ∧ losses (fkern s) = [].

Lemma transmit_all pks : transmit pks [] = (pks, []).
Proof. by destruct pks. Qed.

Lemma range_request_sends start count (s : ftp_t lan) :
  0 ≤ start → start + count ≤ total → 0 < count ≤ 16 →
  let tr := transmit (on_the_way start (Z.to_nat count)) (losses (fkern s)) in
  wp (llm_data_range_request fid start count) (λ r s', r = 0 ∧ box (fkern s') = box (fkern s) ++ fst tr ∧ losses (fkern s') = snd tr) s.
Proof.
  intros Hs He Hc tr. unfold llm_data_range_request, client_port. apply wp_bind, wp_bind, wp_fsys, wp_ret, wp_bind.
  unfold send_server. apply wp_bind, wp_get, wp_fsys, wp_ret. cbn [fkern set_fkern sys_send lan_kernel].
  rewrite (u8_id fid Hfid). set (p := Packet _ _ _ _). assert (Ep : contents p = range_req fid start count) by done.
  destruct (serve_range served Hserved fid f start count (Server (srv (fkern s)) [])) as [t Et];
    [done|done|lia|unfold SERVER_MAX_RANGE; lia|].
  unfold lan_send. cbn [sys_getpid lan_ftp snd fkern set_fkern]. rewrite Ep, Et. cbn [snd socket app].
  rewrite Z.min_l by lia. fold (on_the_way start (Z.to_nat count)). fold tr. destruct tr as [r ls].
  cbn [fst snd box losses]. split; [by destruct (_ <? 0) eqn:E|done].
Qed.

Lemma request_batch c m count port (s : ftp_t lan) :
  arrived c m → idle s → 0 < count ≤ 16 → Z.of_nat m + count ≤ n_chunks c →
  wp (request_chunk_range c fid (first_chunk c + Z.of_nat m) count port) (λ '(_, c') s',
    arrived c' (m + Z.to_nat count) ∧ same_window c c' ∧ idle s') s.
Proof.
  intros Ha Hi Hc Hm. pose proof (arrived_bounds c m Ha) as (B1 & B2 & B3 & B4 & B5). unfold request_chunk_range.
  set (start := first_chunk c + Z.of_nat m). cbv zeta. rewrite (u32_id (start + count)) by (unfold is_u32; lia).
  apply wp_bind. eapply wp_lift; [by apply (batch_done c m); [|lia|lia]|]. rewrite bool_decide_false by lia. cbv iota.
  apply wp_bind. eapply wp_mono; [apply range_request_sends; lia|]. intros r s1 (-> & Hbox & Hls).
  destruct Hi as [Hb Hl]. rewrite Hl, transmit_all in Hbox, Hls. rewrite Hb in Hbox. cbn in Hbox, Hls. change (0 <? 0) with false. cbv iota. eapply wp_mono; [apply (receive_all (Z.to_nat count) _ _ _ _ c m); [done| |lia|exact Hbox|]|].
  - change SPINS with (Z.to_nat 10000). lia.
  - intros c' m' Hs' Ha'. pose proof Hs' as (_ & _ & _ & _ & F5 & F6 & _).
    rewrite (batch_done c' m') by (done || lia). f_equal. apply bool_decide_ext. lia.
  - intros [k c'] s2 (G1 & G2 & G3 & G4). split; [done|]. split; [done|]. split; [done|]. by rewrite G4.
Qed.

Lemma ranges_arrive n c m port (s : ftp_t lan) :
  arrived c m → idle s → fuel n (first_chunk c + Z.of_nat m) (first_chunk c + n_chunks c) →
  wp (range_loop (ret tt) n c fid port (first_chunk c + Z.of_nat m) (first_chunk c + n_chunks c)) (λ c' s',
    arrived c' (Z.to_nat (n_chunks c)) ∧ same_window c c' ∧ idle s') s.
Proof.
  revert c m s. induction n as [|n IH]; intros c m s Ha Hi Hfu; [destruct Hfu; lia|]. cbn [range_loop].
  pose proof (ar_flags c m Ha) as [_ Hm]. destruct (Z.ltb_spec (first_chunk c + Z.of_nat m) (first_chunk c + n_chunks c)) as [Hlt|Hge].
  2: { apply wp_ret. replace (Z.to_nat (n_chunks c)) with m by lia. split; [done|]. split; [apply same_window_refl|done]. }
  destruct (fuel_step _ _ _ MAX_RANGE Hfu Hlt) as [Eu Hfu']; [done|]. cbv zeta. rewrite Eu.
  set (count := if _ <? _ then _ else _). assert (Hc : count = Z.min 8 (n_chunks c - Z.of_nat m)).
  { unfold count, MAX_RANGE in *. destruct (Z.ltb_spec (first_chunk c + n_chunks c) (first_chunk c + Z.of_nat m + 8)); lia. }
  clearbody count. rewrite u16_id by (unfold is_u16; lia). apply wp_bind.
  eapply wp_mono; [apply request_batch; [done|done|lia|lia]|]. intros [k c'] s1 (Ha' & Hs' & Hi').
  apply wp_bind, wp_ret. pose proof Hs' as (_ & _ & _ & _ & F5 & F6 & _).
  destruct (decide (n_chunks c - Z.of_nat m < 8)) as [Hlast|Hmore].
  - destruct n as [|n]; [destruct Hfu'; lia|]. cbn [range_loop]. rewrite (proj2 (Z.ltb_ge _ _)) by (unfold MAX_RANGE; lia).
    apply wp_ret. replace (Z.to_nat (n_chunks c)) with (m + Z.to_nat count)%nat by lia. done.
  - replace (first_chunk c + Z.of_nat m + MAX_RANGE) with (first_chunk c' + Z.of_nat (m + Z.to_nat count)) by (rewrite F5; unfold MAX_RANGE; lia).
    rewrite <- F5, <- F6. eapply wp_mono; [apply IH; [done|done|]|].
    + rewrite F5, F6. unfold fuel, MAX_RANGE in *. lia.
    + intros c2 s2 (G1 & G2 & G3). split; [done|]. split; [by eapply same_window_trans|done].
Qed.

(** The fields of the metadata. *)
Lemma meta_fields : let d := meta_resp fid (load_file f) in
  length d = 48%nat ∧ be32_at d 4 = len f ∧ be32_at d 12 = total ∧ slice 16 32 d = FIPS.sha256 f.
Proof.
  intros d. pose proof (len_nonneg f). pose proof (chunks_u32 f ltac:(lia)). set (h := [MSG_META_RESP; fid; 0; 1]). split.
  { unfold d, meta_resp. rewrite !length_app. cbn [length put_be32 load_file sha256]. rewrite fips_length. done. }
  split.
  { etrans; [apply (be32_at_put h (len f) (put_be32 CHUNK_SIZE ++ put_be32 total ++ FIPS.sha256 f))|]. apply u32_id. unfold is_u32. lia. }
  split.
  { etrans; [apply (be32_at_put (h ++ put_be32 (len f) ++ put_be32 CHUNK_SIZE) total (FIPS.sha256 f))|]. by apply u32_id. }
  pose proof (slice_app (h ++ put_be32 (len f) ++ put_be32 CHUNK_SIZE ++ put_be32 total) (FIPS.sha256 f) [] 32) as E.
  rewrite app_nil_r in E. apply E. unfold len. by rewrite fips_length.
Qed.

Lemma meta_arrives (s : ftp_t lan) :
  box (fkern s) = [] → losses (fkern s) = [] ∨ head (losses (fkern s)) = Some false →
  wp (llm_meta_request fid) (λ r s', r = Some (Some (len f, total, FIPS.sha256 f)) ∧ box (fkern s') = [] ∧ losses (fkern s') = tail (losses (fkern s))) s.
Proof.
  intros Hb Hl. unfold llm_meta_request, client_port. apply wp_bind, wp_bind, wp_fsys, wp_ret, wp_bind, wp_fsys.
  change (fst (sys_bind _ _) <? 0) with false. cbv iota. apply wp_bind. unfold send_server. apply wp_bind, wp_get, wp_fsys.
  cbn [fkern set_fkern sys_send lan_kernel sys_bind sys_getpid lan_ftp snd fst]. rewrite (u8_id fid Hfid). unfold lan_send. cbn [contents].
  destruct (serve_meta served Hserved fid f (Server (srv (fkern s)) []) Hfid Hf) as [t Et]. fold (meta_req fid). rewrite Et, Hb.
  cbn [snd socket app].
  assert (Etr : transmit [meta_resp fid (load_file f)] (losses (fkern s)) = ([meta_resp fid (load_file f)], tail (losses (fkern s)))).
  { by destruct Hl as [->|Hl]; [|destruct (losses (fkern s)) as [|[] ls]]. }
  rewrite Etr. cbn [fst snd]. change (len (meta_req fid) <? 0) with false. cbv iota.
  apply wp_try, wp_fsys. cbn [fkern set_fkern sys_recv lan_ftp snd box]. unfold lan_recv. cbn [box]. rewrite authentic_meta. cbn [fst snd].
  destruct meta_fields as (Hd & E1 & E2 & E3). set (d := meta_resp fid (load_file f)) in *. cbv zeta. cbn [data rc].
  rewrite take_ge by (rewrite Hd; lia). unfold len at 1. rewrite Hd. change (Z.of_nat 48 <? 48) with false.
  change (byte_at d 0 =? MSG_META_RESP) with true. cbn [negb orb]. apply wp_bind, wp_fsys, wp_ret. split; [|done]. by rewrite E1, E2, E3.
Qed.

(** The answer to the META_REQ is lost: the client never returns. *)
Lemma lost_metadata_waits dst off n ls (s : ftp_t lan) :
  box (fkern s) = [] → losses (fkern s) = true :: ls →
  wp (llm_fetch_window (ret tt) fid dst off n) (λ o _, o = None) s.
Proof.
  intros Hb Hl. unfold llm_fetch_window, llm_meta_request, client_port. apply wp_bind, wp_bind, wp_fsys, wp_ret, wp_try.
  apply wp_bind, wp_bind, wp_fsys, wp_ret, wp_bind, wp_fsys. change (fst (sys_bind _ _) <? 0) with false. cbv iota.
  apply wp_bind. unfold send_server. apply wp_bind, wp_get, wp_fsys.
  cbn [fkern set_fkern sys_send lan_kernel sys_bind sys_getpid lan_ftp snd fst]. rewrite (u8_id fid Hfid). unfold lan_send. cbn [contents].
  destruct (serve_meta served Hserved fid f (Server (srv (fkern s)) []) Hfid Hf) as [t Et]. fold (meta_req fid). rewrite Et, Hb, Hl.
  cbn [snd fst socket app transmit]. change (len (meta_req fid) <? 0) with false. cbv iota. by apply wp_try, wp_fsys.
Qed.

Lemma slice_whole : slice 0 (len f) f = f.
Proof. unfold slice. rewrite to_nat_len, drop_0. by apply take_ge. Qed.

(** All chunks in: the window holds the bytes of the file. *)
Lemma all_in c off n :
  arrived c (Z.to_nat (n_chunks c)) → win_off c = off → win_len c = n →
  all_chunks_received c = true ∧ take (Z.to_nat n) (file_buf c) = slice off n f.
Proof.
  intros Ha Eo En. destruct (ar_flags c _ Ha) as [Hr _]. rewrite Nat.sub_diag, app_nil_r in Hr.
  assert (Hall : all_chunks_received c = true).
  { unfold all_chunks_received. rewrite Hr. apply forallb_forall. intros b Hb. apply list_elem_of_In, elem_of_replicate in Hb. by destruct Hb. }
  split; [done|]. destruct (ar_window c _ Ha) as [W1 W2]. pose proof (wf_window c (ar_wf c _ Ha)) as (W3 & W4 & _).
  destruct (ar_chunks c _ Ha) as [C1 C2]. destruct meta_fields as (Hd & E1 & E2 & E3). rewrite Eo, En in *. unfold is_u32 in *.
  apply (completed_slice served fid f Hf Hsize off n (file_buf c)); [done|lia|lia|].
  exists (meta_resp fid (load_file f)), c. rewrite E1.
  split; [exists 48%nat, (meta_resp fid (load_file f)); split; [lia|]; split; [by apply authentic_reply, authentic_meta|by rewrite take_ge by lia]|].
  split; [apply authentic_bytes, authentic_meta|]. split; [unfold len; by rewrite Hd|]. split; [done|]. split; [lia|].
  split; [rewrite u32_id by (unfold is_u32; lia); lia|]. split; [apply Ha|]. split; [apply Ha|]. do 4 (split; [done|]).
  split; [done|]. unfold CHUNK_SIZE. rewrite C2, C1. rewrite (u32_id (off + n + 512 - 1)) by (unfold is_u32; lia).
  rewrite u32_id by (unfold is_u32; Z.div_mod_to_equations; lia). do 2 f_equal. lia.
Qed.

(** The transfer of a window of the file once the metadata is in. *)
Definition fresh (dst : list Z) (off n : Z) : transfer_ctx_t :=
  let first := off / 512 in let m := (off + n + 511) / 512 - first in
  Transfer dst (replicate (Z.to_nat m) false) (s32 (len f)) (s32 total) off n first m (FIPS.sha256 f).

Definition proceed (dst : list Z) (off n : Z) : M (ftp_t lan) (option (Z * list Z * option Z)) :=
  let c := fresh dst off n in let port := u16 (10000 + Z.rem 3 1000) in let win_end := first_chunk c + n_chunks c in
  let* c := range_loop (ret tt) (S (Z.to_nat (win_end - first_chunk c))) c fid port (first_chunk c) win_end in
  let* c := retry_loop (ret tt) (Z.to_nat MAX_RETRY_ROUNDS) c fid port 0 in
  fsys (sys_unbind port) ;;*
  if negb (all_chunks_received c) then next (-1, file_buf c, Some (len f))
  else if (off =? 0) && (n =? len f) && negb (verify_file_integrity (file_buf c) (s32 (len f)) (FIPS.sha256 f))
  then next (-1, file_buf c, Some (len f)) else next (0, file_buf c, Some (len f)).

Lemma window_starts dst off n Q (s : ftp_t lan) :
  box (fkern s) = [] → losses (fkern s) = [] ∨ head (losses (fkern s)) = Some false → 0 ≤ off → 0 < n → off + n ≤ len f →
  (∀ s', box (fkern s') = [] → losses (fkern s') = tail (losses (fkern s)) → wp (proceed dst off n) Q s') →
  wp (llm_fetch_window (ret tt) fid dst off n) Q s.
Proof.
  intros Hb Hl Ho Hn Hle HQ. unfold llm_fetch_window. apply wp_bind. unfold client_port at 1. apply wp_bind, wp_fsys, wp_ret.
  apply wp_try. eapply wp_mono; [by apply meta_arrives|]. intros r s1 (-> & Hb1 & Hl1).
  rewrite (proj2 (Z.eqb_neq n 0)) by lia. cbv zeta. rewrite (u32_id (off + n)) by (unfold is_u32; lia).
  rewrite (proj2 (Z.leb_gt (len f) off)), (proj2 (Z.ltb_ge (len f) (off + n))) by lia. cbn [orb].
  unfold CHUNK_SIZE. rewrite (u32_id (off + n + 512 - 1)) by (unfold is_u32; lia). replace (off + n + 512 - 1) with (off + n + 511) by lia.
  rewrite (u32_id (_ - _ / 512)) by (unfold is_u32; Z.div_mod_to_equations; lia).
  apply wp_bind, wp_fsys. cbn [fst sys_malloc lan_kernel negb]. fold (fresh dst off n).
  apply wp_bind, wp_fsys. change (fst (sys_bind _ _) <? 0) with false. cbv iota. apply wp_bind, wp_get, wp_bind.
  rewrite (u32_id (_ / 512 + _)) by (unfold is_u32; Z.div_mod_to_equations; lia).
  destruct (g_bulk_enabled _); [apply wp_bind, wp_fsys, wp_ret|apply wp_ret]; by apply HQ.
Qed.

Lemma fresh_arrived dst off n : 0 ≤ off → 0 < n ≤ len dst → off + n ≤ len f → arrived (fresh dst off n) 0.
Proof.
  intros Ho Hn Hle. unfold fresh. set (first := off / 512). set (m := _ - first).
  assert (Hm : 0 < m ∧ 0 ≤ first ∧ first + m ≤ 2 ^ 23) by (unfold m, first; Z.div_mod_to_equations; lia). cbv zeta.
  split; cbn [file_buf received file_size ctx_chunks win_off win_len first_chunk n_chunks].
  - split; cbn [file_buf received win_off win_len first_chunk n_chunks].
    + by rewrite length_replicate.
    + unfold is_u32. rewrite u32_id by (unfold is_u32; lia). lia.
    + unfold is_u32. lia.
  - apply right_none. by apply Forall_replicate.
  - lia.
  - done.
  - done.
  - split; [by rewrite Nat.sub_0_r|lia].
Qed.

(** The digest of the whole file matches. *)
Lemma digest_matches buf dst :
  is_bytes dst → take (Z.to_nat (len f)) buf = f → drop (Z.to_nat (len f)) buf = drop (Z.to_nat (len f)) dst → len f ≤ len buf →
  verify_file_integrity buf (s32 (len f)) (FIPS.sha256 f) = true.
Proof.
  intros Hdst Ht Hd Hl. pose proof (len_nonneg f). unfold verify_file_integrity. apply bool_decide_eq_true.
  rewrite u32_s32, u32_id by (unfold is_u32; lia).
  assert (Eb : buf = f ++ drop (Z.to_nat (len f)) dst) by (by rewrite <- Hd, <- (take_drop (Z.to_nat (len f)) buf), Ht at 1).
  rewrite hash_fips; [by rewrite Ht|rewrite Eb; apply Forall_app; split; [done|by apply Forall_drop]|lia|lia].
Qed.

Lemma proceed_completes dst off n (s : ftp_t lan) :
  idle s → 0 ≤ off → 0 < n ≤ len dst → off + n ≤ len f → is_bytes dst →
  wp (proceed dst off n) (λ o s', o = Some (0, slice off n f ++ drop (Z.to_nat n) dst, Some (len f)) ∧ idle s') s.
Proof.
  intros Hi Ho Hn Hle Hdst. pose proof (fresh_arrived dst off n Ho Hn Hle) as Ha. unfold proceed. cbv zeta.
  pose proof (arrived_bounds _ _ Ha) as (B1 & B2 & B3 & B4 & B5). apply wp_bind.
  eapply wp_mono; [pose proof (ranges_arrive (S (Z.to_nat (first_chunk (fresh dst off n) + n_chunks (fresh dst off n) - first_chunk (fresh dst off n))))
    _ 0 (u16 (10000 + Z.rem 3 1000)) s Ha Hi) as R; rewrite Z.add_0_r in R; apply R; unfold fuel; lia|].
  intros c s2 (Ha1 & Hs1 & Hi2). pose proof Hs1 as (_ & _ & F3 & F4 & _ & F6 & _ & F8 & F9). cbn [fresh win_off win_len file_buf] in F3, F4, F8, F9.
  rewrite <- F6 in Ha1. destruct (all_in c off n Ha1 F3 F4) as [Hall Hbuf].
  apply wp_bind. change (Z.to_nat MAX_RETRY_ROUNDS) with 50%nat. cbn [retry_loop]. rewrite Hall. cbn [negb andb]. apply wp_ret.
  apply wp_bind, wp_fsys. rewrite Hall. cbn [negb].
  assert (Hv : (off =? 0) && (n =? len f) && negb (verify_file_integrity (file_buf c) (s32 (len f)) (FIPS.sha256 f)) = false).
  { destruct (Z.eqb_spec off 0) as [->|]; [|done]. destruct (Z.eqb_spec n (len f)) as [->|]; [|done]. cbn [andb]. apply negb_false_iff.
    apply (digest_matches _ dst); [done|by rewrite Hbuf, slice_whole|done|unfold len in *; lia]. }
  rewrite Hv. apply wp_ret. split; [|done]. by rewrite <- Hbuf, <- F9, take_drop.
Qed.

(** ** Losses *)

(** The chunks that are in, or on their way to the client. *)
Definition is_data (d : list Z) : bool := byte_at d 0 =? MSG_DATA_PACKET.
Definition potential (c : transfer_ctx_t) (k : lan) : Z :=
  count_received_chunks c + Z.of_nat (length (List.filter is_data (box k))).

Lemma transmit_data pks ls : Forall (λ d, is_data d = true) pks →
  let tr := transmit pks ls in
  (length (List.filter is_data (fst tr)) ≤ length pks)%nat ∧ snd tr = drop (length pks) ls ∧
  (true ∈ take (length pks) ls → (length (List.filter is_data (fst tr)) < length pks)%nat).
Proof.
  intros HP. revert ls. induction HP as [|pk pks Hpk HP IH]; intros ls; cbv zeta.
  { destruct ls; (split; [done|]; split; [done|]); cbn; by rewrite elem_of_nil. }
  destruct ls as [|l ls]; cbn [transmit].
  { cbn. rewrite Hpk, elem_of_nil. cbn. specialize (IH []) as (I1 & _). rewrite transmit_all in I1. cbn in I1. split; [lia|done]. }
  specialize (IH ls). destruct (transmit pks ls) as [r ls']. cbn [fst snd length take drop] in *. destruct IH as (I1 & I2 & I3).
  destruct l; cbn; rewrite ?Hpk; cbn [length]; (split; [lia|]; split; [done|]).
  - lia.
  - intros [|Hin]%elem_of_cons; [done|]. specialize (I3 Hin). lia.
Qed.

Lemma count_flag l j : l !! j = Some false → length (filter (λ b, b = true) (<[j := true]> l)) = S (length (filter (λ b, b = true) l)).
Proof.
  revert j. induction l as [|b l IH]; intros [|j] Hj; [done|done|by injection Hj as ->|].
  change (<[S j := true]> (b :: l)) with (b :: <[j := true]> l). rewrite !filter_cons. specialize (IH j Hj).
  destruct (decide (b = true)); cbn [length]; by rewrite IH.
Qed.

(** The transfer goes on, and no chunk comes from nowhere. *)
Definition wanes (c : transfer_ctx_t) (k : lan) (c' : transfer_ctx_t) (k' : lan) : Prop :=
  wf c' ∧ same_window c c' ∧ potential c' k' ≤ potential c k.

Lemma wanes_refl c k : wf c → wanes c k c k.
Proof. intros Hw. split; [done|]. split; [apply same_window_refl|done]. Qed.
Lemma wanes_trans c1 k1 c2 k2 c3 k3 : wanes c1 k1 c2 k2 → wanes c2 k2 c3 k3 → wanes c1 k1 c3 k3.
Proof.
  intros (_ & A & P1) (W & B & P2). split; [done|]. split; [by eapply same_window_trans|lia].
Qed.

Lemma receive_wanes n port stop fresh idle c (s : ftp_t lan) :
  wf c → (∀ c', same_window c c' → wf c' → ∃ b, stop c' = Some b) →
  wp (receive_loop n port stop fresh idle c) (λ r s', wanes c (fkern s) (snd r) (fkern s') ∧ losses (fkern s') = losses (fkern s)) s.
Proof.
  revert fresh idle c s. induction n as [|n IH]; intros fresh idle c s Hw Hstop; cbn [receive_loop].
  { apply wp_ret. by split; [apply wanes_refl|]. }
  apply wp_bind. unfold recv_timed. apply wp_bind, wp_fsys. set (r := fst _). set (s1 := set_fkern _ s). apply wp_ret.
  assert (Hls : losses (fkern s1) = losses (fkern s)) by (subst s1; cbn; unfold lan_recv; by destruct (box (fkern s))).
  assert (Hnext : ∀ fresh' idle' c', wanes c (fkern s) c' (fkern s1) →
    wp (if MAX_IDLE_RECVS <=? idle' then ret (fresh', c')
        else let* enough := lift (stop c') in if enough : bool then ret (fresh', c') else receive_loop n port stop fresh' idle' c')
      (λ r s', wanes c (fkern s) (snd r) (fkern s') ∧ losses (fkern s') = losses (fkern s)) s1).
  { intros fresh' idle' c' Hg. destruct (MAX_IDLE_RECVS <=? idle'); [by apply wp_ret|]. pose proof Hg as (Hw' & Hs' & _).
    destruct (Hstop c' Hs' Hw') as [b Hb]. apply wp_bind. eapply wp_lift; [exact Hb|]. destruct b; [by apply wp_ret|].
    eapply wp_mono; [apply IH; [done|]|]; cbv beta.
    - intros c2 Hs2. apply Hstop. by eapply same_window_trans.
    - intros x s2 [Hg2 Hl2]. split; [by eapply wanes_trans|congruence]. }
  assert (Hr : wanes c (fkern s) c (fkern s1) ∧ (rc r = -2 ∨ rc r = len (data r) ∧ is_bytes (data r) ∧
    (is_data (data r) = true → potential c (fkern s1) + 1 ≤ potential c (fkern s)))).
  { subst r s1. cbn [sys_recvtimeo lan_kernel fkern set_fkern]. unfold wanes, potential, lan_recv. destruct (box (fkern s)) as [|d rest] eqn:Eb; cbn.
    { rewrite Eb. split; [split; [done|]; split; [apply same_window_refl|done]|by left]. }
    split; [split; [done|]; split; [apply same_window_refl|]; destruct (is_data d); cbn; lia|].
    destruct (authentic d) eqn:Ha; [right|by left]. split; [done|]. split; [by apply Forall_take, authentic_bytes|].
    intros Hd. assert (is_data d = true) as -> by (by destruct d). cbn. lia. }
  destruct Hr as [Hsame [->|(El & Hbs & Hty)]].
  { apply wp_bind. change (-2 <? 0) with true. change (0 <? -1) with false. cbv iota. by apply wp_ret, Hnext. }
  rewrite El. pose proof (len_nonneg (data r)). rewrite (proj2 (Z.ltb_ge _ _)) by lia. apply wp_bind.
  destruct (0 <? len (data r)); [|by apply wp_ret, Hnext].
  destruct (process_cases c (data r) Hw Hbs) as [(v & E & _)|(Ht & Hin & Hfl & Hl & E)]; apply wp_bind;
    (eapply wp_lift; [exact E|]); apply wp_ret, Hnext; [done|].
  destruct (in_window c _ Hw Hin) as (Hi' & Eu & Hj). pose proof (wf_chunks c Hw). pose proof (be16_range (data r) 8 Hbs).
  assert (Hs : same_window c (put_chunk c (data r) (be32_at (data r) 4) (be16_at (data r) 8))) by (apply put_chunk_same; [done|lia|done]).
  split; [by eapply wf_same|]. split; [done|]. specialize (Hty (proj2 (Z.eqb_eq _ _) Ht)).
  unfold potential, count_received_chunks in *. rewrite put_chunk_received.
  unfold flag in Hfl. rewrite Eu in Hfl. rewrite (count_flag _ _ Hfl). lia.
Qed.

(** A request for chunks again brings an error message, or nothing. *)
Lemma retrans_wanes c i l (s : ftp_t lan) :
  wf c → (length (i :: l) ≤ Z.to_nat MAX_RETRANS)%nat →
  wp (llm_retrans_request fid (i :: l)) (λ _ s', wanes c (fkern s) c (fkern s')) s.
Proof.
  intros Hw Hl. unfold llm_retrans_request, client_port. apply wp_bind, wp_bind, wp_fsys, wp_ret, wp_bind, wp_fsys.
  cbn [fst sys_malloc lan_kernel negb]. apply wp_bind. unfold send_server. apply wp_bind, wp_get, wp_fsys, wp_ret.
  cbn [fkern set_fkern sys_send lan_kernel sys_malloc sys_getpid lan_ftp snd]. unfold lan_send. cbn [contents].
  set (n := Z.of_nat (length (i :: l))). assert (Hn : 0 < n ≤ 16) by (change MAX_RETRANS with 16 in Hl; unfold n in *; cbn [length] in *; lia).
  set (req := _ ++ be_words _). assert (E1 : be16_at req 2 = n).
  { change req with ([MSG_RETRANS_REQ; u8 fid] ++ put_be16 n ++ be_words (i :: l)). apply (be16_put [MSG_RETRANS_REQ; u8 fid]). unfold is_u16. lia. }
  destruct (serve_retrans (stores served) req (load_file f) (Server (srv (fkern s)) [])) as (t & Et & _).
  - unfold req. rewrite len_app. pose proof (len_nonneg (be_words (i :: l))). change (len [_; _; _; _]) with 4. lia.
  - done.
  - change (byte_at req 1) with (u8 fid). rewrite u8_id by done. unfold stores. by rewrite Hf.
  - lia.
  - rewrite Et. cbn [snd socket app stats]. split; [done|]. split; [apply same_window_refl|].
    unfold potential. assert (Hnil : List.filter is_data (fst (transmit [error_pkt 0 3] (losses (fkern s)))) = [])
      by (by destruct (losses (fkern s)) as [|[] ls]).
    destruct (transmit _ _) as [r ls]. cbn [box fst snd fkern set_fkern] in *. rewrite List.filter_app, Hnil, app_nil_r. done.
Qed.

Lemma missing_wanes n c port start win_end tot (s : ftp_t lan) :
  wf c → fuel n start win_end → wp (missing_loop n c fid port start win_end tot) (λ r s', wanes c (fkern s) (snd r) (fkern s')) s.
Proof.
  revert c start tot s. induction n as [|n IH]; intros c start tot s Hw Hfu; [destruct Hfu; lia|]. cbn [missing_loop].
  destruct (Z.ltb_spec start win_end) as [Hlt|Hge]; [|by apply wp_ret, wanes_refl].
  destruct (fuel_step _ _ _ MAX_RETRANS Hfu Hlt) as [Eu Hfu']; [done|]. rewrite Eu.
  destruct (get_missing_some c start (start + MAX_RETRANS) Hw) as (l & El & Hl & Hlen). apply wp_bind. eapply wp_lift; [exact El|].
  apply wp_bind. destruct l as [|i l]; [by apply wp_ret, IH|]. cbv iota.
  apply wp_bind. eapply wp_mono; [by apply (retrans_wanes c)|]. intros r s1 Hg1. cbv beta in Hg1.
  assert (Hnext : ∀ tot' c' s', wanes c (fkern s) c' (fkern s') →
    wp (missing_loop n c' fid port (start + MAX_RETRANS) win_end tot') (λ r s', wanes c (fkern s) (snd r) (fkern s')) s').
  { intros tot' c' s' Hg. eapply wp_mono; [apply IH; [apply Hg|done]|]. cbv beta. intros x s2 Hg2. by eapply wanes_trans. }
  destruct (r =? 0); [|by apply wp_ret, Hnext]. eapply wp_mono; [apply receive_wanes; [done|]|].
  - intros c' Hs Hw'. apply none_missing_some; [done|]. eapply Forall_impl; [exact Hl|]. intros j Hj. cbv beta in *. by rewrite (in_window_same c).
  - intros [k c'] s2 [Hg2 _]. apply Hnext. by eapply wanes_trans.
Qed.

Lemma retry_wanes n c port stalled (s : ftp_t lan) :
  wf c → wp (retry_loop (ret tt) n c fid port stalled) (λ c' s', wanes c (fkern s) c' (fkern s')) s.
Proof.
  revert c stalled s. induction n as [|n IH]; intros c stalled s Hw; cbn [retry_loop]; [by apply wp_ret, wanes_refl|].
  destruct (_ && _); [|by apply wp_ret, wanes_refl]. apply wp_bind. unfold handle_missing_chunks.
  eapply wp_mono; [apply missing_wanes; [done|by apply fuel_start]|]. intros [k c'] s1 Hg. cbn [snd] in Hg.
  apply wp_bind, wp_ret. eapply wp_mono; [apply IH, Hg|]. intros c2 s2 Hg2. by eapply wanes_trans.
Qed.

(** [m] chunks of the window have been asked for: they are not all in or on their
    way, or one of those still to come will be lost. *)
Definition short (c : transfer_ctx_t) (m : nat) (k : lan) : Prop :=
  potential c k ≤ Z.of_nat m ∧ (potential c k < Z.of_nat m ∨ true ∈ take (Z.to_nat (n_chunks c) - m) (losses k)).

Lemma range_short c m count port (s : ftp_t lan) :
  wf c → short c m (fkern s) → 0 < count ≤ 16 → Z.of_nat m + count ≤ n_chunks c → first_chunk c + n_chunks c ≤ total →
  wp (request_chunk_range c fid (first_chunk c + Z.of_nat m) count port) (λ '(_, c') s',
    wf c' ∧ same_window c c' ∧ short c' (m + Z.to_nat count) (fkern s')) s.
Proof.
  intros Hw [Hp Hlost] Hc Hm Ht. pose proof (wf_chunks c Hw) as (W1 & W2 & W3). unfold request_chunk_range. cbv zeta.
  destruct (count_missing_some c (first_chunk c + Z.of_nat m) (u32 (first_chunk c + Z.of_nat m + count)) Hw) as [k Hk].
  apply wp_bind. eapply wp_lift; [by rewrite Hk|]. destruct (k =? 0).
  { apply wp_ret. split; [done|]. split; [apply same_window_refl|]. split; [lia|left; lia]. }
  apply wp_bind. eapply wp_mono; [apply range_request_sends; lia|]. intros r s1 (-> & Hbox & Hls).
  change (0 <? 0) with false. cbv iota. eapply wp_mono; [apply receive_wanes; [done|]|].
  { intros c' _ Hw'. destruct (count_missing_some c' (first_chunk c + Z.of_nat m) (u32 (first_chunk c + Z.of_nat m + count)) Hw') as [k' ->].
    by eexists. }
  intros [k' c'] s2 [(Hw' & Hs' & Hp') Hl2]. cbn [snd] in Hw', Hs', Hp'. split; [done|]. split; [done|].
  set (pks := on_the_way _ _) in *. assert (Hpks : Forall (λ d, is_data d = true) pks).
  { unfold pks, on_the_way. apply Forall_forall. intros d Hd. apply list_elem_of_In, in_map_iff in Hd as (j & <- & _). done. }
  assert (Hlen : length pks = Z.to_nat count) by (unfold pks, on_the_way; by rewrite length_map, length_seq).
  destruct (transmit_data pks (losses (fkern s)) Hpks) as (T1 & T2 & T3). rewrite Hlen in T1, T2, T3.
  unfold short, potential in *. rewrite Hbox, List.filter_app, length_app in Hp'. rewrite Hl2, Hls, T2.
  pose proof Hs' as (_ & _ & _ & _ & _ & -> & _). split; [lia|].
  destruct Hlost as [Hlt|Hin]; [left; lia|]. set (ls := losses (fkern s)) in *.
  rewrite <- (take_drop (Z.to_nat count) ls) in Hin. rewrite take_app, length_take in Hin. apply elem_of_app in Hin as [Hin|Hin].
  - left. rewrite take_take in Hin. enough (true ∈ take (Z.to_nat count) ls) as Hin' by (specialize (T3 Hin'); lia).
    by rewrite Nat.min_r in Hin by lia.
  - right. destruct (decide (length ls ≤ Z.to_nat count)%nat) as [Hle|Hgt].
    + rewrite (drop_ge ls) in Hin by done. rewrite take_nil in Hin. by apply not_elem_of_nil in Hin.
    + rewrite Nat.min_l in Hin by lia. by rewrite Nat.sub_add_distr.
Qed.

Lemma ranges_short n c m port (s : ftp_t lan) :
  wf c → short c m (fkern s) → Z.of_nat m ≤ n_chunks c → first_chunk c + n_chunks c ≤ total →
  fuel n (first_chunk c + Z.of_nat m) (first_chunk c + n_chunks c) →
  wp (range_loop (ret tt) n c fid port (first_chunk c + Z.of_nat m) (first_chunk c + n_chunks c)) (λ c' s',
    wf c' ∧ same_window c c' ∧ potential c' (fkern s') < n_chunks c) s.
Proof.
  revert c m s. induction n as [|n IH]; intros c m s Hw Hsh Hm Ht Hfu; [destruct Hfu; lia|]. cbn [range_loop].
  destruct (Z.ltb_spec (first_chunk c + Z.of_nat m) (first_chunk c + n_chunks c)) as [Hlt|Hge].
  2: { apply wp_ret. split; [done|]. split; [apply same_window_refl|]. destruct Hsh as [_ [Hsh|Hsh]]; [lia|].
       replace (Z.to_nat (n_chunks c) - m)%nat with 0%nat in Hsh by lia. by apply not_elem_of_nil in Hsh. }
  destruct (fuel_step _ _ _ MAX_RANGE Hfu Hlt) as [Eu Hfu']; [done|]. cbv zeta. rewrite Eu.
  set (count := if _ <? _ then _ else _). assert (Hc : count = Z.min 8 (n_chunks c - Z.of_nat m)).
  { unfold count, MAX_RANGE in *. destruct (Z.ltb_spec (first_chunk c + n_chunks c) (first_chunk c + Z.of_nat m + 8)); lia. }
  clearbody count. rewrite u16_id by (unfold is_u16; lia). apply wp_bind.
  eapply wp_mono; [apply range_short; [done|done|lia|lia|done]|]. intros [k c'] s1 (Hw' & Hs' & Hsh').
  apply wp_bind, wp_ret. pose proof Hs' as (_ & _ & _ & _ & F5 & F6 & _).
  destruct (decide (n_chunks c - Z.of_nat m < 8)) as [Hlast|Hmore].
  - destruct n as [|n]; [destruct Hfu'; lia|]. cbn [range_loop]. rewrite (proj2 (Z.ltb_ge _ _)) by (unfold MAX_RANGE; lia).
    apply wp_ret. split; [done|]. split; [done|]. destruct Hsh' as [_ [Hsh'|Hsh']]; [lia|].
    rewrite F6 in Hsh'. replace (_ - (m + _))%nat with 0%nat in Hsh' by lia. by apply not_elem_of_nil in Hsh'.
  - replace (first_chunk c + Z.of_nat m + MAX_RANGE) with (first_chunk c' + Z.of_nat (m + Z.to_nat count)) by (rewrite F5; unfold MAX_RANGE; lia).
    rewrite <- F5, <- F6. eapply wp_mono; [apply IH; [done|done|lia|lia|]|].
    + rewrite F5, F6. unfold fuel, MAX_RANGE in *. lia.
    + intros c2 s2 (G1 & G2 & G3). split; [done|]. split; [by eapply same_window_trans|done].
Qed.

Lemma few_received c k : wf c → potential c k < n_chunks c → all_chunks_received c = false.
Proof.
  intros Hw Hp. destruct (all_chunks_received c) eqn:E; [|done]. exfalso. unfold potential, count_received_chunks, all_chunks_received in *.
  assert (Hall : ∀ l, forallb Datatypes.id l = true → length (filter (λ b, b = true) l) = length l).
  { induction l as [|[] l IH]; [done| |done]. intros Hl. rewrite filter_cons_True by done. cbn [length]. by rewrite IH. }
  rewrite (Hall _ E), (wf_bitmap c Hw) in Hp. pose proof (wf_chunks c Hw) as (W & _). unfold is_u32 in W. lia.
Qed.

Lemma proceed_fails dst off n (s : ftp_t lan) :
  box (fkern s) = [] → 0 ≤ off → 0 < n ≤ len dst → off + n ≤ len f →
  true ∈ take (Z.to_nat (n_chunks (fresh dst off n))) (losses (fkern s)) →
  wp (proceed dst off n) (λ o _, ∃ dst' sz, o = Some (-1, dst', sz)) s.
Proof.
  intros Hb Ho Hn Hle Hin. pose proof (fresh_arrived dst off n Ho Hn Hle) as Ha. unfold proceed. cbv zeta.
  pose proof (arrived_bounds _ _ Ha) as (B1 & B2 & B3 & B4 & B5). set (c := fresh dst off n) in *. apply wp_bind.
  assert (Hp : short c 0 (fkern s)).
  { unfold short, potential. rewrite Hb, Nat.sub_0_r. assert (count_received_chunks c = 0) as ->.
    { unfold count_received_chunks, c, fresh. cbn [received]. generalize (Z.to_nat ((off + n + 511) / 512 - off / 512)). by intros k; induction k. }
    split; [done|by right]. }
  eapply wp_mono; [pose proof (ranges_short (S (Z.to_nat (first_chunk c + n_chunks c - first_chunk c))) c 0
    (u16 (10000 + Z.rem 3 1000)) s (ar_wf _ _ Ha) Hp) as R; rewrite Z.add_0_r in R; apply R; unfold fuel; lia|].
  intros c1 s1 (Hw1 & Hs1 & Hp1). apply wp_bind. eapply wp_mono; [by apply retry_wanes|]. intros c2 s2 (Hw2 & Hs2 & Hp2).
  apply wp_bind, wp_fsys. rewrite (few_received c2 (fkern s2)); [apply wp_ret; by eauto|done|].
  pose proof Hs1 as (_ & _ & _ & _ & _ & F6 & _). pose proof Hs2 as (_ & _ & _ & _ & _ & -> & _). lia.
Qed.

(** ** Properties *)

(** C11: A transfer over a network that loses nothing succeeds.  For any file the
    server holds (below 2^32 - 511 bytes) and any window of it that is not empty and
    fits the destination, with a network that keeps the order and a hook that does
    nothing, the client's
    requests and the server's answers lead [llm_fetch_window] to return 0 with
    exactly the bytes of the window in front of the destination, the rest of
    which is untouched, and the size of the file; for a window of the whole file
    the client's check of the digest passes. *)
Theorem transfer_completes dst off n (s : ftp_t lan) :
  idle s → 0 ≤ off → 0 < n ≤ len dst → off + n ≤ len f → is_bytes dst →
  wp (llm_fetch_window (ret tt) fid dst off n) (λ o s',
    o = Some (0, slice off n f ++ drop (Z.to_nat n) dst, Some (len f)) ∧ idle s') s.
Proof.
  intros Hi Ho Hn Hle Hdst. apply window_starts; [apply Hi|left; apply Hi|done|lia|done|]. intros s' Hb Hl.
  apply proceed_completes; try done. split; [done|]. by rewrite Hl, (proj2 Hi).
Qed.

(** C13: One lost chunk is fatal.  If the network delivers the metadata and loses
    any one of the datagrams that carry the chunks of the window, whatever else
    it loses or delivers, the client's rounds of retransmission recover nothing,
    since the server answers every one with an error, and [llm_fetch_window]
    returns -1. *)
Theorem lost_chunk_is_fatal dst off n ls (s : ftp_t lan) :
  box (fkern s) = [] → losses (fkern s) = false :: ls →
  0 ≤ off → 0 < n ≤ len dst → off + n ≤ len f → true ∈ take (Z.to_nat ((off + n + 511) / 512 - off / 512)) ls →
  wp (llm_fetch_window (ret tt) fid dst off n) (λ o _, ∃ dst' sz, o = Some (-1, dst', sz)) s.
Proof.
  intros Hb Hl Ho Hn Hle Hin. apply window_starts; [done|right; by rewrite Hl|done|lia|done|]. intros s' Hb' Hl'.
  rewrite Hl in Hl'. apply proceed_fails; try done. by rewrite Hl'.
Qed.
End Lan.


(** C14: A worker that loads its layers from the server holds the layers of the
    file.  With [llm_fetch_range] as the transfer of the loader, in any network
    that delivers only datagrams of the server, a [shard_load] that returns 0 has
    read exactly the layers of its range: at each layer and position the shard
    computes what the model in the file computes. *)
Theorem shard_from_server {F : Type} `{FloatOps F} (fbits : Z → F) {K E : Type} `{KernelLaws K} `{!FtpKernel K} `{!FtpLaws K}
    (base : ShardEnv E) (hook : M (ftp_t K) unit) (served : Z → option (list Z)) fid f c l0 l1 max_seq sh :
  (∀ s, wp hook (λ _ _, True) s) → served fid = Some f → len f + 511 < 2 ^ 32 → honest K served fid →
  cfg_fits c → config_ok c → 28 + 4 * (model_floats c + dim c) < 2 ^ 32 →
  @loaded_from F fbits _ (ftp_env base hook) fid c max_seq (l0, l1) sh →
  0 ≤ l0 < l1 ∧ l1 ≤ n_layers c ∧ length (layers sh) = Z.to_nat (l1 - l0) ∧
  serves c (layer_at (weights fbits f) c true) (clamp_seq c max_seq) (Z.to_nat l0) sh.
Proof.
  intros Hhook Hf Hsize Hh Hfit Hok H32 Hl. pose proof (ftp_faithful base hook Hhook served fid f Hf Hsize Hh) as Hff.
  by apply (loaded_serves (H0 := ftp_env base hook) fbits fid f Hff c Hfit Hok H32).
Qed.

(** *** A file of three chunks *)

Definition sample : list Z := map (λ i, Z.of_nat i mod 251) (seq 0 1100).
Definition samples (id : Z) : option (list Z) := if id =? 1 then Some sample else None.
Definition quiet_start (ls : list bool) : ftp_t lan :=
  Ftp (Lan [] (Stats 0 0 0 0 0 0) [] ls) 0 0 false.

Lemma sample_bytes : is_bytes sample.
Proof.
  apply Forall_forall. intros b Hb. apply list_elem_of_In, in_map_iff in Hb as (i & <- & _). unfold is_byte. Z.div_mod_to_equations. lia.
Qed.
Lemma samples_small id d : samples id = Some d → len d < 2 ^ 32.
Proof. unfold samples. destruct (id =? 1); [|done]. intros [= <-]. reflexivity. Qed.

Lemma transfer_completes_witness :
  wp (@llm_fetch_window lan (lan_kernel samples 1 sample) (lan_ftp 1 sample) (ret tt) 1 (replicate 800 0) 500 550)
    (λ o _, o = Some (0, slice 500 550 sample ++ replicate 250 0, Some 1100)) (quiet_start []).
Proof.
  eapply wp_mono; [apply (transfer_completes samples 1 sample samples_small);
    [reflexivity|unfold is_byte; lia|exact sample_bytes|reflexivity|split; reflexivity|lia|vm_compute; split; [reflexivity|discriminate]|vm_compute; discriminate|]|].
  - apply Forall_replicate. unfold is_byte. lia.
  - intros o s' (-> & _). reflexivity.
Defined.

Lemma lost_chunk_is_fatal_witness :
  wp (@llm_fetch_window lan (lan_kernel samples 1 sample) (lan_ftp 1 sample) (ret tt) 1 (replicate 1100 0) 0 1100)
    (λ o _, ∃ dst' sz, o = Some (-1, dst', sz)) (quiet_start [false; false; true]).
Proof.
  apply (lost_chunk_is_fatal samples 1 sample samples_small) with (ls := [false; true]);
    [reflexivity|unfold is_byte; lia|reflexivity|reflexivity|reflexivity|lia|vm_compute; split; [reflexivity|discriminate]|vm_compute; discriminate|].
  apply elem_of_cons. right. apply elem_of_cons. left. reflexivity.
Defined.


#[local] Existing Instances int_floats small_env.

Definition small_shelf (_ : Z) : option (list Z) := Some small_file.
Definition lan_env : ShardEnv (unit * ftp_t lan) :=
  @ftp_env lan unit (lan_kernel small_shelf 0 small_file) (lan_ftp 0 small_file) small_env (ret tt).
Definition no_shard : shard_t Z := Shard small_config small_config 0 0 [] 0 run_state_null false.
Definition fetched : option (Z * shard_t Z * (unit * ftp_t lan)) :=
  Eval vm_compute in @shard_load Z id _ lan_env no_shard 0 small_config 1 2 0 (tt, quiet_start []).
Definition shard_of (r : option (Z * shard_t Z * (unit * ftp_t lan))) : shard_t Z := default no_shard (snd ∘ fst <$> r).
Definition after (r : option (Z * shard_t Z * (unit * ftp_t lan))) : unit * ftp_t lan := default (tt, quiet_start []) (snd <$> r).

Lemma shard_from_server_witness :
  length (layers (shard_of fetched)) = 1%nat ∧
  serves small_config (layer_at (weights id small_file) small_config true) 4 1 (shard_of fetched).
Proof.
  destruct (@shard_from_server Z _ id lan unit (lan_kernel small_shelf 0 small_file) (lan_laws small_shelf 0 small_file)
    (lan_ftp 0 small_file) (lan_ftp_laws 0 small_file) small_env (ret tt) small_shelf 0 small_file small_config 1 2 0
    (shard_of fetched)) as (_ & _ & Hlen & Hs).
  - intros s. apply wp_ret. exact I.
  - reflexivity.
  - reflexivity.
  - apply lan_honest; reflexivity.
  - unfold cfg_fits. vm_compute. repeat split; discriminate.
  - unfold config_ok. vm_compute. repeat split. exists 1%nat. reflexivity.
  - reflexivity.
  - exists no_shard, (tt, quiet_start []), (after fetched). vm_compute. reflexivity.
  - split; [exact Hlen|exact Hs].
Defined.
