(* ===== verification/Peer.v ===== *)
(** * The host's peer of the RPC layer (src/server/rpc_proto.py)

    The Python mirror of the wire format: the codec of the RPC header, the payload
    structures, the two proofs of a registration, and [RpcPeer.call].  A function
    that can raise returns an option, [None] for the exception; [hashlib] and
    [hmac] are the algorithms of FIPS 180-4 and RFC 2104.  A slice is cut to the
    buffer. *)
From S2P Require Import Prelude Struct Sha256 Auth RpcMsg Kernel Rpc Registry Master.

Module Py.

Import Struct.

(** ** Identity *)

Definition DISTINF_PSK : list Z :=
  [100; 105; 115; 116; 105; 110; 102; 45; 115; 104; 97; 114; 101; 100; 45; 112; 115; 107; 45; 118; 49]. (* distinf-shared-psk-v1 *)

Definition psk_commitment : list Z := FIPS.sha256 DISTINF_PSK.

Definition cap_identity (nonce : Z) : list Z := RFC2104.hmac DISTINF_PSK (put_le32 (Z.land nonce 0xFFFFFFFF)).

(** ** Payloads *)

Definition pack_worker_info (worker_id ip port ram : Z) (psk_hash : option (list Z)) (next_ip prev_ip : Z) : option (list Z) :=
  let psk_hash := default psk_commitment psk_hash in
  pack [pack_le_I worker_id; pack_le_I ip; pack_le_H port; Some [0; 0]; pack_le_I ram; Some (ljust32 psk_hash);
        pack_le_I next_ip; pack_le_I prev_ip].

(** [for _ in range(pages)] *)
Fixpoint probe_loop (pages : nat) (x s : Z) : Z :=
  match pages with
  | O => s
  | S pages =>
      let x := Z.land (x * 1103515245 + 12345) 0xFFFFFFFF in
      let s := Z.land (s + x) 0xFFFFFFFF in
      probe_loop pages x s
  end.
Definition cap_probe_checksum (seed pages : Z) : Z := probe_loop (Z.to_nat pages) (Z.land seed 0xFFFFFFFF) 0.

Definition pack_cap_ack (probe_nonce checksum : Z) (identity : option (list Z)) : option (list Z) :=
  let identity := default (cap_identity probe_nonce) identity in
  pack [pack_le_I probe_nonce; pack_le_I (Z.land checksum 0xFFFFFFFF); Some (ljust32 identity)].

Definition unpack_auth_hello_reply (payload : list Z) : option auth_hello_reply_t :=
  if 16 <=? len payload then Some (AuthHelloReply (le32_at payload 0) (le32_at payload 4) (le32_at payload 8) (le32_at payload 12)) else None.
Definition pack_auth_hello_reply (status probe_data probe_seed probe_pages : Z) : option (list Z) :=
  pack [pack_le_I status; pack_le_I probe_data; pack_le_I probe_seed; pack_le_I probe_pages].

Definition unpack_set_neighbor (payload : list Z) : option set_neighbor_t :=
  if 16 <=? len payload then Some (SetNeighbor (le32_at payload 0) (le16_at payload 4) (le32_at payload 8) (le16_at payload 12)) else None.
Definition pack_set_neighbor (prev_ip prev_port next_ip next_port : Z) : option (list Z) :=
  pack [pack_le_I prev_ip; pack_le_H prev_port; Some [0; 0]; pack_le_I next_ip; pack_le_H next_port; Some [0; 0]].

(** ** The RPC header *)

Definition encode_call (xid proc : Z) (payload : list Z) (prog vers rpcvers : Z) : option (list Z) :=
  hdr ← pack [pack_I xid; pack_I MSG_CALL; pack_I rpcvers; pack_I prog; pack_I vers; pack_I proc];
  cred ← pack [pack_I AUTH_NONE; pack_I 0];
  verf ← pack [pack_I AUTH_NONE; pack_I 0];
  Some (hdr ++ cred ++ verf ++ payload).

Definition encode_reply (xid accept_stat : Z) (payload : list Z) : option (list Z) :=
  hdr ← pack [pack_I xid; pack_I MSG_REPLY; pack_I MSG_ACCEPTED];
  verf ← pack [pack_I AUTH_NONE; pack_I 0];
  stat ← pack [pack_I accept_stat];
  Some (hdr ++ verf ++ stat ++ payload).

Definition skip_opaque_auth (buf : list Z) (off : Z) : option Z :=
  _ ← unpack_I buf off;
  body_len ← unpack_I buf (off + 4);
  let off := off + 8 in
  Some (if body_len =? 0 then off else off + Z.land (body_len + 3) (Z.lnot 3)).

(** The dictionary [decode] returns. *)
Record msg := Msg { d_xid : Z; d_view : rpc_view; d_payload : list Z }.

Definition decode (buf : list Z) : option msg :=
  if len buf <? 8 then None
  else
    xid ← unpack_I buf 0;
    mtype ← unpack_I buf 4;
    let off := 8 in
    '(view, off) ←
      (if mtype =? MSG_CALL then
         rpcvers ← unpack_I buf off;
         prog ← unpack_I buf (off + 4);
         vers ← unpack_I buf (off + 8);
         proc ← unpack_I buf (off + 12);
         off ← skip_opaque_auth buf (off + 16);
         off ← skip_opaque_auth buf off;
         Some (VCall prog vers proc, off)
       else if mtype =? MSG_REPLY then
         reply_stat ← unpack_I buf off;
         let off := off + 4 in
         if reply_stat =? MSG_ACCEPTED then
           off ← skip_opaque_auth buf off;
           accept_stat ← unpack_I buf off;
           let off := off + 4 in
           Some (VAccepted accept_stat, if accept_stat =? PROG_MISMATCH then off + 8 else off)
         else
           reject_stat ← unpack_I buf off;
           Some (VDenied reject_stat, off + 4 + 8)
       else None);
    Some (Msg xid view (drop (Z.to_nat off) buf)).

(** ** A call

    The datagrams that arrive before the time-out, in order. *)
Record peer := Peer { p_xid : Z; p_inbox : list (list Z); p_sent : list (list Z) }.

Definition is_reply_to (xid : Z) (m : msg) : bool :=
  match d_view m with
  | VCall _ _ _ => false
  | _ => d_xid m =? xid
  end.

(** [None] for an exception, [Some None] for no answer. *)
Fixpoint await (n : nat) (xid : Z) (p : peer) : option (option msg * peer) :=
  match n with
  | O => Some (None, p)
  | S n =>
      match p_inbox p with
      | [] => Some (None, p)
      | d :: rest =>
          m ← decode d;
          let p := Peer (p_xid p) rest (p_sent p) in
          if is_reply_to xid m then Some (Some m, p) else await n xid p
      end
  end.

Definition call (proc : Z) (payload : list Z) (prog vers rpcvers : Z) (p : peer) : option (option msg * peer) :=
  let xid := p_xid p in
  d ← encode_call xid proc payload prog vers rpcvers;
  await 8 xid (Peer (xid + 1) (p_inbox p) (p_sent p ++ [d])).
End Py.

(** ** Correspondence *)

Lemma py_land_u32 x : Z.land x 0xFFFFFFFF = u32 x.
Proof. change 0xFFFFFFFF with (Z.ones 32). rewrite Z.land_ones by lia. done. Qed.
Lemma py_commitment_agrees : Py.psk_commitment = expect_hash.
Proof.
  unfold Py.psk_commitment, expect_hash. rewrite hash_fips; [done| |done|done].
  repeat constructor; unfold is_byte; lia.
Qed.

Lemma py_identity_agrees nonce : is_u32 nonce → Py.cap_identity nonce = cap_identity nonce.
Proof.
  intros Hn. unfold Py.cap_identity, cap_identity. rewrite hmac_rfc2104; [|repeat constructor; unfold is_byte; lia|repeat constructor; apply u8_byte|done..].
  rewrite py_land_u32, u32_id by done. done.
Qed.

Lemma py_probe_agrees seed pages : is_u32 seed → Py.cap_probe_checksum seed pages = cap_probe_checksum seed pages.
Proof.
  intros Hs. unfold Py.cap_probe_checksum, cap_probe_checksum. rewrite py_land_u32, u32_id by done. generalize (Z.to_nat pages), 0. intros n.
  clear Hs. revert seed. induction n as [|n IH]; intros x s; [done|]. cbn [Py.probe_loop checksum_loop]. rewrite !py_land_u32. apply IH.
Qed.

(** The fields [opaque_auth] of the message are empty, as both sides send them. *)
Definition plain (d : list Z) (v : rpc_view) : Prop :=
  match v with
  | VCall _ _ _ => word d 28 = Some 0 ∧ word d 36 = Some 0
  | VAccepted _ => word d 16 = Some 0
  | VDenied _ => False
  end.

Lemma skip_plain d p q : word d (p + 4) = Some 0 → parse_auth d p = Parsed q → Py.skip_opaque_auth d p = Some q ∧ q = p + 8.
Proof.
  intros H0. unfold parse_auth, Py.skip_opaque_auth. change Struct.unpack_I with word. rewrite H0. destruct (word d p); [|done]. cbn. by intros [= <-].
Qed.

Lemma py_decode_agrees d x v args : is_bytes d → rpc_parse d = Parsed (x, v, args) → plain d v → Py.decode d = Some (Py.Msg x v args).
Proof.
  intros Hd. unfold rpc_parse, Py.decode. change Struct.unpack_I with word. destruct (word d 0) as [x'|]; [|done].
  destruct (word d 4) as [t|] eqn:W4; [|done]. destruct (word_some d Hd _ _ W4) as (_ & Hlen & _). rewrite (proj2 (Z.ltb_ge _ _)) by lia. cbn [mbind option_bind].
  unfold parse_body. destruct (t =? MSG_CALL).
  - unfold parse_call. change (8 + 4) with 12. change (8 + 8) with 16. change (8 + 12) with 20. change (8 + 16) with 24.
    destruct (word d 8) as [rv|]; [|done]. destruct (word d 12) as [pg|]; [|done]. destruct (word d 16) as [vs|]; [|done].
    destruct (word d 20) as [pc|]; [|done]. destruct (negb (rv =? RPC_VERSION)); [done|].
    destruct (parse_auth d 24) as [| |q] eqn:E1; [done|done|]. destruct (parse_auth d q) as [| |r] eqn:E2; [done|done|]. cbn [fst snd].
    destruct (_ <? _); [done|]. intros [= -> <- <-] [P1 P2]. destruct (skip_plain d 24 q P1 E1) as [S1 ->].
    destruct (skip_plain d 32 r P2 E2) as [S2 ->]. cbn [mbind option_bind]. rewrite S1. cbn [mbind option_bind]. change (24 + 8) with 32. by rewrite S2.
  - destruct (t =? MSG_REPLY); [|done]. change (8 + 4) with 12. destruct (word d 8) as [rs|]; [|done]. cbn [mbind option_bind].
    destruct (rs =? MSG_ACCEPTED).
    + unfold parse_accepted. destruct (parse_auth d 12) as [| |q] eqn:E1; [done|done|]. destruct (word d q) as [st|] eqn:Wq; [|done].
      intros Hp Hplain. assert (Hv : ∃ s, v = VAccepted s).
      { destruct (st =? PROG_MISMATCH); [destruct (_ <? _); [done|]|]; cbn [fst snd] in Hp; destruct (_ <? _); try done; injection Hp as _ <- _; by eexists. }
      destruct Hv as [s ->]. destruct (skip_plain d 12 q Hplain E1) as [S1 ->]. rewrite S1. cbn [mbind option_bind]. rewrite Wq. cbn [mbind option_bind].
      destruct (st =? PROG_MISMATCH); [destruct (_ <? _); [done|]|]; cbn [fst snd] in Hp; destruct (_ <? _); try done; by injection Hp as -> -> <-.
    + unfold parse_denied. destruct (word d 12) as [st|]; [|done]. destruct (_ <? _); [done|]. cbn [fst snd]. destruct (_ <? _); [done|].
      by intros [= _ <- _].
Qed.

Lemma py_encode_call_wire m :
  call_u32 m → rpcvers (call m) = RPC_VERSION →
  Py.encode_call (xid m) (proc (call m)) (args_of m) (prog (call m)) (vers (call m)) (rpcvers (call m)) = Some (call_wire m).
Proof.
  intros (Hx & Hp & Hv & Hc) Hr. unfold Py.encode_call, call_wire. cbn [Struct.pack]. rewrite Hr, !pack_I_some by (done || by unfold is_u32).
  reflexivity.
Qed.

Lemma py_encode_reply_wire x bs : is_u32 x → Py.encode_reply x SUCCESS bs = Some (reply_wire x SUCCESS bs (len bs)).
Proof.
  intros Hx. unfold Py.encode_reply, reply_wire. cbn [Struct.pack]. rewrite !pack_I_some by (done || by unfold is_u32). cbn [mbind option_bind Struct.pack].
  f_equal. unfold auth_none_wire. rewrite !app_nil_r, <- !app_assoc. cbn [Z.eqb SUCCESS]. by rewrite to_nat_len, firstn_all.
Qed.

Lemma py_hello_wire i : 
  is_u32 (worker_id i) → is_u32 (info_ip i) → is_u16 (info_port i) → is_u32 (RAM i) → psk_hash i = expect_hash →
  is_u32 (info_next_ip i) → is_u32 (info_prev_ip i) →
  Py.pack_worker_info (worker_id i) (info_ip i) (info_port i) (RAM i) None (info_next_ip i) (info_prev_ip i) = Some (write_worker_info i).
Proof.
  intros H1 H2 H3 H4 H5 H6 H7. unfold Py.pack_worker_info, write_worker_info. cbn [default Struct.pack].
  rewrite !pack_le_I_some, pack_le_H_some by done. cbn [mbind option_bind Struct.pack]. f_equal.
  rewrite py_commitment_agrees, ljust_full, H5, !app_nil_r; [done|]. destruct expect_hash_ok as [_ Hl]. unfold len in Hl. lia.
Qed.

Lemma py_ack_wire nonce seed pages : is_u32 nonce → is_u32 seed →
  Py.pack_cap_ack nonce (Py.cap_probe_checksum seed pages) None =
    Some (write_cap_ack (CapAck nonce (cap_probe_checksum seed pages) (cap_identity nonce))).
Proof.
  intros Hn Hs. assert (Hc : is_u32 (cap_probe_checksum seed pages)) by (apply checksum_loop_range; unfold is_u32; lia).
  unfold Py.pack_cap_ack, write_cap_ack. cbn [default Struct.pack]. rewrite py_probe_agrees, py_land_u32, u32_id by done.
  rewrite !pack_le_I_some by done. cbn [mbind option_bind Struct.pack probe_nonce checksum identity].
  rewrite py_identity_agrees by done. rewrite ljust_full by apply cap_identity_length. by rewrite app_nil_r.
Qed.

(** A reply the call waits for, or none. *)
Lemma await_reply n x p r p' : Py.await n x p = Some (r, p') →
  Py.p_xid p' = Py.p_xid p ∧ Py.p_sent p' = Py.p_sent p ∧
  match r with
  | Some m => ∃ d, d ∈ Py.p_inbox p ∧ Py.decode d = Some m ∧ Py.is_reply_to x m = true
  | None => True
  end.
Proof.
  revert p. induction n as [|n IH]; intros p; cbn [Py.await]; [by intros [= <- <-]|]. destruct (Py.p_inbox p) as [|d rest] eqn:Ei; [by intros [= <- <-]|].
  destruct (Py.decode d) as [m|] eqn:Ed; [|done]. cbn [mbind option_bind]. destruct (Py.is_reply_to x m) eqn:Er.
  - intros [= <- <-]. split; [done|]. split; [done|]. exists d. split; [left|done].
  - intros E. apply IH in E as (H1 & H2 & H3). split; [done|]. split; [done|]. destruct r as [m'|]; [|done].
    destruct H3 as (d' & Hd' & H3). exists d'. split; [by right|done].
Qed.

(** ** Properties *)

(** The two implementations of the protocol put the same bytes on the wire.  For
    every call, and every successful reply, the datagram the Python peer builds
    is the one the C encoder writes to its buffer. *)
Theorem peer_sends_what_c_sends (m : rpc_msg_t) x (bs : list Z) buf :
  call_u32 m → rpcvers (call m) = RPC_VERSION → 0 ≤ payload_len m ≤ RPC_PAYLOAD_MAX → len (payload m) = RPC_PAYLOAD_MAX →
  is_u32 x → len bs ≤ RPC_PAYLOAD_MAX → len buf = RPC_PAYLOAD_MAX + 256 →
  (∃ w, Py.encode_call (xid m) (proc (call m)) (args_of m) (prog (call m)) (vers (call m)) (rpcvers (call m)) = Some w ∧
     rpc_encode_call true buf (len buf) m = Some (len w, w ++ drop (length w) buf)) ∧
  (∃ w, Py.encode_reply x SUCCESS bs = Some w ∧
     rpc_encode_reply true buf (len buf) x SUCCESS bs (len bs) = Some (len w, w ++ drop (length w) buf)).
Proof.
  intros Hu Hv Hp Hl Hx Hbs Hb. pose proof (len_nonneg bs). unfold RPC_PAYLOAD_MAX in *. split.
  - exists (call_wire m). split; [by apply py_encode_call_wire|]. destruct (encode_call_run buf (len buf) m) as [E _]; [done|done|done|lia|lia|].
    rewrite len_call_wire by lia. apply E. lia.
  - exists (reply_wire x SUCCESS bs (len bs)). split; [by apply py_encode_reply_wire|].
    destruct (encode_reply_run buf (len buf) x SUCCESS bs (len bs)) as [E _]; [unfold RPC_PAYLOAD_MAX; lia|lia|lia|lia|].
    apply E. rewrite len_reply_wire by lia. cbn. lia.
Qed.

Lemma peer_sends_what_c_sends_witness :
  (∃ w, Py.encode_call 9 (proc (call msg_sample)) (args_of msg_sample) (prog (call msg_sample)) (vers (call msg_sample)) 2 = Some w) ∧
  ∃ w, Py.encode_reply 7 SUCCESS [1; 2] = Some w.
Proof.
  destruct (peer_sends_what_c_sends msg_sample 7 [1; 2] (replicate 4352 0)) as [(w1 & E1 & _) (w2 & E2 & _)].
  - repeat split; done.
  - reflexivity.
  - vm_compute. split; discriminate.
  - reflexivity.
  - unfold is_u32. lia.
  - vm_compute. discriminate.
  - reflexivity.
  - split; [exists w1; exact E1|exists w2; exact E2].
Defined.

(** C19: The Python peer reads what the C node reads.  Every datagram the C decoder
    accepts, other than a rejection and with the empty authentication fields both
    sides send, the Python decoder decodes to the same transaction id, the same
    kind and fields, and the same payload; and a call of the peer returns only a
    reply with its own transaction id among those that arrived. *)
Theorem peer_reads_what_c_reads (d rest : list Z) (m m' : rpc_msg_t) :
  is_bytes d → len d < 2 ^ 31 → msg_ok m → rpc_decode_msg true (d ++ rest) (len d) m = Some (RPC_OK, m') → plain d (view_of m') →
  Py.decode d = Some (Py.Msg (xid m') (view_of m') (args_of m')) ∧
  ∀ pc bs pg vs rv p r p', Py.call pc bs pg vs rv p = Some (Some r, p') →
    Py.is_reply_to (Py.p_xid p) r = true ∧ ∃ d', d' ∈ Py.p_inbox p ∧ Py.decode d' = Some r.
Proof.
  intros Hd Hl Hm E Hplain. split.
  - pose proof (decode_parse d rest m Hd Hl Hm) as H. destruct (rpc_parse d) as [| |[[x v] args]] eqn:Ep.
    + by rewrite E in H.
    + destruct H as (m2 & E2 & _). rewrite E in E2. by injection E2.
    + destruct H as (m2 & E2 & _ & Hx & Hv & Ha & _). rewrite E in E2. injection E2 as <-. rewrite Hx, Hv, Ha. apply py_decode_agrees; [done|done|by rewrite <- Hv].
  - intros pc bs pg vs rv p r p'. unfold Py.call. destruct (Py.encode_call _ _ _ _ _ _) as [w|]; [|done]. cbn [mbind option_bind].
    intros Ea. apply await_reply in Ea as (_ & _ & d' & H1 & H2 & H3). split; [done|]. by exists d'.
Qed.

Lemma peer_reads_what_c_reads_witness : Py.decode (be_words [7; 1; 0; 0; 0; 0; 42]) = Some (Py.Msg 7 (VAccepted 0) (put_be32 42)).
Proof.
  destruct (decode_parse (be_words [7; 1; 0; 0; 0; 0; 42]) [255] msg_zero (be_words_bytes _) eq_refl msg_zero_ok) as (m' & E & _ & Hx & Hv & Ha & _).
  destruct (peer_reads_what_c_reads (be_words [7; 1; 0; 0; 0; 0; 42]) [255] msg_zero m') as [Hd _].
  - apply be_words_bytes.
  - reflexivity.
  - exact msg_zero_ok.
  - exact E.
  - rewrite Hv. reflexivity.
  - rewrite Hx, Hv, Ha in Hd. exact Hd.
Defined.

(** What a conforming worker answers the master's challenge with. *)
Definition worker_answer (reply : list Z) : option (list Z) :=
  ch ← Py.unpack_auth_hello_reply reply;
  Py.pack_cap_ack (probe_data ch) (Py.cap_probe_checksum (rep_probe_seed ch) (rep_probe_pages ch)) None.

Lemma py_answer_wire ch rest :
  is_u32 (status ch) → is_u32 (probe_data ch) → is_u32 (rep_probe_seed ch) → is_u32 (rep_probe_pages ch) →
  worker_answer (write_auth_hello_reply ch ++ rest) =
    Some (write_cap_ack (CapAck (probe_data ch) (cap_probe_checksum (rep_probe_seed ch) (rep_probe_pages ch)) (cap_identity (probe_data ch)))).
Proof.
  intros H1 H2 H3 H4. unfold worker_answer, Py.unpack_auth_hello_reply.
  change (AuthHelloReply _ _ _ _) with (read_auth_hello_reply (write_auth_hello_reply ch ++ rest)).
  rewrite read_write_auth_hello_reply, (proj2 (Z.leb_le _ _)) by (done || (rewrite len_app; pose proof (len_nonneg rest); change (len (write_auth_hello_reply ch)) with 16; lia)).
  cbn [mbind option_bind]. by apply py_ack_wire.
Qed.

Lemma py_neighbor_wire n rest :
  is_u32 (nb_prev_ip n) → is_u16 (nb_prev_port n) → is_u32 (nb_next_ip n) → is_u16 (nb_next_port n) →
  Py.unpack_set_neighbor (write_set_neighbor n ++ rest) = Some n.
Proof.
  intros H1 H2 H3 H4. unfold Py.unpack_set_neighbor. change (SetNeighbor _ _ _ _) with (read_set_neighbor (write_set_neighbor n ++ rest)).
  rewrite read_write_set_neighbor, (proj2 (Z.leb_le _ _)) by (done || (rewrite len_app; pose proof (len_nonneg rest); change (len (write_set_neighbor n)) with 16; lia)). done.
Qed.

(** The message's arguments. *)
Definition has_args (m : rpc_msg_t) (bs : list Z) : Prop := (∃ r, payload m = bs ++ r) ∧ payload_len m = len bs.

(** The Python peer reads the reply to a registration. *)
Lemma py_reads_reply x ch : is_u32 x →
  Py.decode (reply_wire x SUCCESS (write_auth_hello_reply ch) 16) = Some (Py.Msg x (VAccepted SUCCESS) (write_auth_hello_reply ch)).
Proof.
  intros Hx. apply py_decode_agrees.
  - apply reply_wire_bytes. unfold write_auth_hello_reply. repeat (apply Forall_app; split); apply put_le32_bytes.
  - rewrite parse_reply_wire by (done || (unfold is_u32, RPC_PAYLOAD_MAX; vm_compute; split; congruence)). reflexivity.
  - cbn [plain]. set (ws := [x; MSG_REPLY; MSG_ACCEPTED; 0; 0; SUCCESS]). change (reply_wire x SUCCESS _ 16) with (be_words ws ++ write_auth_hello_reply ch).
    by apply (word_words ws _ 4).
Qed.

(** The acknowledgement of the challenge in [slot]. *)
Lemma ack_admits {K : Type} `{KernelLaws K} (m : rpc_msg_t) src now (s : master_t K) slot nonce seed pages :
  heap_available K → no_overrun K → rpc_ok (rpc s) → length (registry s) = MAX_WORKERS →
  registry_find_ip_port (registry s) (ip src) (port src) = Some slot → is_u32 nonce →
  state (registry s !!! slot) = WORKER_PENDING →
  cap_ack_expected (registry s !!! slot) = CapAck nonce (cap_probe_checksum seed pages) (replicate 32 0) →
  has_args m (write_cap_ack (CapAck nonce (cap_probe_checksum seed pages) (cap_identity nonce))) →
  ∃ c s', handle_cap_ack m src now s = Some (c, s') ∧
    info (registry s' !!! slot) = info (registry s !!! slot) ∧ state (registry s' !!! slot) = WORKER_ACTIVE.
Proof.
  intros Hh Hn Hok Hlen Hfind Hnon Hst Hexp [[r Hpay] Hpl]. set (c := cap_probe_checksum _ _) in *. set (e := registry s !!! slot) in *.
  assert (Hread : read_cap_ack (payload m) = CapAck nonce c (cap_identity nonce)).
  { rewrite Hpay. apply read_write_cap_ack; [done|apply checksum_loop_range; unfold is_u32; lia|]. cbn [identity]. apply cap_identity_len. }
  destruct (ack_run m src now s slot) as (r' & s' & E & _ & (Hi & _ & Ha & _) & _); [exact Hh|exact Hn|exact Hok|exact Hlen|exact Hfind| |by exists r', s'].
  apply first_slot_some in Hfind as (_ & [Hip%Z.eqb_eq Hpt%Z.eqb_eq]%andb_true_iff & _).
  fold e. unfold ack_proves, addr_of. rewrite Hread, Hexp. cbn [probe_nonce checksum identity]. split.
  { rewrite Hpl. unfold write_cap_ack. rewrite !len_app. cbn [identity]. rewrite cap_identity_len. vm_compute. discriminate. }
  split; [unfold e; by rewrite Hip, Hpt|]. split; [exact Hst|]. split; [reflexivity|]. split; reflexivity.
Qed.

(** C18: A Python worker registers with the C master and is admitted.  The AUTH_HELLO it
    packs, handled by the master, takes the worker's slot and leaves a challenge
    there; the kernel is called to send a datagram back that the Python peer decodes;
    the CAP_ACK it packs from the challenge in it, handled by the master, makes the
    slot ACTIVE with the worker's data; and it reads the neighbours the master
    sends.  Conditions: the worker sends from the address it registers, no earlier
    slot has that address, the master has a slot for it and draws a nonce and a seed
    that are not 0, the stream records can be allocated and no datagram received
    meanwhile is an [Overrun]. *)
Theorem python_worker_admitted {K : Type} `{KernelLaws K} (i : worker_info_t) (m : rpc_msg_t) src now (s : master_t K)
    slot nonce seed r1 r2 :
  is_u32 (worker_id i) → is_u32 (info_ip i) → is_u16 (info_port i) → is_u32 (RAM i) → psk_hash i = expect_hash →
  is_u32 (info_next_ip i) → is_u32 (info_prev_ip i) → (info_ip i, info_port i) = (ip src, port src) → is_u32 (xid m) →
  heap_available K → no_overrun K → rpc_ok (rpc s) → length (registry s) = MAX_WORKERS →
  hello_slot (registry s) (worker_id i) slot → (∀ j, (j < slot)%nat → addr_of (registry s !!! j) ≠ (ip src, port src)) →
  create_probe_data (rpc s) = Some (nonce, r1) → create_probe_data r1 = Some (seed, r2) → nonce ≠ 0 → seed ≠ 0 →
  (∃ hello, Py.pack_worker_info (worker_id i) (info_ip i) (info_port i) (RAM i) None (info_next_ip i) (info_prev_ip i) = Some hello ∧
     (has_args m hello →
      ∃ c1 s1 d p ack, handle_auth_hello m src now s = Some (c1, s1) ∧
        handed (Packet (u16 (g_port (rpc s))) (ip src) (port src) d) (kern (rpc s)) (kern (rpc s1)) ∧
        Py.decode d = Some (Py.Msg (xid m) (VAccepted SUCCESS) p) ∧ worker_answer p = Some ack ∧
        ∀ m2 now2, has_args m2 ack →
          ∃ c2 s2, handle_cap_ack m2 src now2 s1 = Some (c2, s2) ∧
            info (registry s2 !!! slot) = i ∧ state (registry s2 !!! slot) = WORKER_ACTIVE)) ∧
  (∀ n rest, is_u32 (nb_prev_ip n) → is_u16 (nb_prev_port n) → is_u32 (nb_next_ip n) → is_u16 (nb_next_port n) →
     Py.unpack_set_neighbor (write_set_neighbor n ++ rest) = Some n).
Proof.
  intros H1 H2 H3 H4 H5 H6 H7 Haddr Hx Hh Hn Hok Hlen Hslot Hfirst E1 E2 Hn0 Hs0. split; [|intros n rest; apply py_neighbor_wire].
  exists (write_worker_info i). split; [by apply py_hello_wire|]. intros [[r Hpay] Hpl]. destruct expect_hash_ok as [Hhb Hhl].
  assert (Hread : read_worker_info (payload m) = i) by (rewrite Hpay; apply read_write_worker_info; try done; by rewrite H5).
  assert (Hsize : SIZEOF_WORKER_INFO ≤ payload_len m).
  { rewrite Hpl. unfold write_worker_info. rewrite !len_app, H5, Hhl. vm_compute. discriminate. }
  pose proof (hello_select m src now s slot Hsize) as Hsel. rewrite Hread in Hsel. specialize (Hsel H5 Hslot).
  destruct (register_with_entropy slot i src (xid m) now s nonce seed r1 r2 Hh Hok E1 E2 Hn0 Hs0) as (Hnu & Hsu & c1 & s1 & Ereg & Hok1 & Hreg & Hk).
  destruct (hello_slot_free _ _ _ Hslot) as [Hlt _]. set (pages := challenge_pages (RAM i)) in *.
  assert (Hpg : is_u32 pages) by (pose proof (challenge_pages_range (RAM i) (proj1 H4)); unfold is_u32, pages; lia).
  assert (He : registry s1 !!! slot = set_probe seed pages (CapAck nonce (cap_probe_checksum seed pages) (replicate 32 0)) (set_registered i now (registry s !!! slot))).
  { rewrite Hreg. apply update_eq. by rewrite Hlen. }
  assert (Hfind : registry_find_ip_port (registry s1) (ip src) (port src) = Some slot).
  { apply find_ip_port_first; [done|by rewrite He|]. intros j Hj. rewrite Hreg, update_ne by lia. by apply Hfirst. }
  eexists c1, s1, _, _, _. split; [by rewrite Hsel|]. split; [exact Hk|]. split; [by apply py_reads_reply|]. split.
  { rewrite <- (app_nil_r (write_auth_hello_reply _)). by apply py_answer_wire. }
  cbn [probe_data rep_probe_seed rep_probe_pages]. intros m2 now2 Hm2.
  destruct (ack_admits m2 src now2 s1 slot nonce seed pages) as (c2 & s2 & Eack & Hi & Hst); try done.
  - by rewrite Hreg, length_update.
  - by rewrite He.
  - by rewrite He.
  - exists c2, s2. split; [exact Eack|]. split; [by rewrite Hi, He|exact Hst].
Qed.

Lemma python_worker_admitted_witness :
  let s := Master (rpc_start (Calm (Script [] [Some 5; Some 6] [] 9 true []))) registry_zero buckets_zero (Drops 0 0 0 0) in
  ∃ c1 s1 ack c2 s2, handle_auth_hello sample_hello (RpcAddr 10 5001) 3 s = Some (c1, s1) ∧
    handle_cap_ack (msg_with PROC_CAP_ACK ack) (RpcAddr 10 5001) 4 s1 = Some (c2, s2) ∧
    state (registry s2 !!! 0%nat) = WORKER_ACTIVE.
Proof.
  intros s. set (r1 := match create_probe_data (rpc s) with Some (_, r) => r | None => rpc s end).
  destruct (python_worker_admitted sample_info sample_hello (RpcAddr 10 5001) 3 s 0 5 6 r1
    (match create_probe_data r1 with Some (_, r) => r | None => r1 end)) as [(hello & Ehello & Hrun) _].
  1-9: first [reflexivity | unfold is_u32, is_u16; vm_compute; split; congruence].
  - exact calm_heap.
  - exact calm_no_overrun.
  - exact (rpc_start_ok _).
  - reflexivity.
  - right. split; reflexivity.
  - intros j Hj. lia.
  - reflexivity.
  - reflexivity.
  - discriminate.
  - discriminate.
  - destruct Hrun as (c1 & s1 & d & p & ack & Eh & _ & _ & _ & Hack).
    + rewrite py_hello_wire in Ehello by (reflexivity || (unfold is_u32, is_u16; vm_compute; split; congruence)). injection Ehello as <-.
      split; [exists (replicate (4096 - length (write_worker_info sample_info)) 0); reflexivity|reflexivity].
    + destruct (Hack (msg_with PROC_CAP_ACK ack) 4) as (c2 & s2 & E2 & _ & Hst).
      * split; [exists (replicate (4096 - length ack) 0); reflexivity|reflexivity].
      * exists c1, s1, ack, c2, s2. split; [exact Eh|split; [exact E2|exact Hst]].
Defined.
