(* ===== verification/Switch.v ===== *)
(** * The switch of the host (src/server/mcast_switch.py)

    The weight server on a multicast segment without a network stack of its own:
    the switch answers ARP, takes the requests out of Ethernet/IPv4/UDP frames,
    hands them to the handlers of server.py and wraps what they send.  A guest's
    address, a string in the source, is its four bytes.  The log and the set-up
    of the socket are left out. *)
From stdpp Require Import gmap.
From S2P Require Import Prelude Sha256 Struct Weights.
Import Rftp Struct.

Definition SERVER_IP_BYTES : list Z := [10; 0; 0; 1].
Definition SERVER_MAC_BYTES : list Z := [0x52; 0x54; 0; 0xaa; 0xbb; 0xcc].
Definition RFTP_PORT : Z := 9999.
Definition ETH_HDR : Z := 14.
Definition IP_HDR : Z := 20.
Definition UDP_HDR : Z := 8.
Definition L2L3L4 : Z := ETH_HDR + IP_HDR + UDP_HDR.
Definition ETHERTYPE_IPV4 : Z := 0x0800.
Definition ETHERTYPE_ARP : Z := 0x0806.
Definition IPPROTO_UDP : Z := 17.

(** ** Frames *)

(** [for i in range(0, len(data), 2)] *)
Fixpoint sum_words (data : list Z) (total : Z) : Z :=
  match data with
  | hi :: lo :: rest => sum_words rest (total + Z.lor (hi ≪ 8) lo)
  | _ => total
  end.

Definition inet_checksum (data : list Z) : Z :=
  let data := if Z.odd (len data) then data ++ [0] else data in
  let total := sum_words data 0 in
  let total := Z.land total 0xffff + total ≫ 16 in
  let total := Z.land total 0xffff + total ≫ 16 in
  Z.land (Z.lnot total) 0xffff.

Definition build_frame (dst_mac src_mac src_ip dst_ip : list Z) (sport dport : Z) (payload : list Z) : option (list Z) :=
  let udp_len := UDP_HDR + len payload in
  let ip_len := IP_HDR + udp_len in
  p ← pack [pack_B 0; pack_B IPPROTO_UDP; pack_H udp_len];
  let pseudo := src_ip ++ dst_ip ++ p in
  udp_no_ck ← pack [pack_H sport; pack_H dport; pack_H udp_len; pack_H 0];
  let ck := inet_checksum (pseudo ++ udp_no_ck ++ payload) in
  let udp_ck := if ck =? 0 then 0xffff else ck in
  udp_hdr ← pack [pack_H sport; pack_H dport; pack_H udp_len; pack_H udp_ck];
  let udp := udp_hdr ++ payload in
  ip0 ← pack [pack_B 0x45; pack_B 0; pack_H ip_len; pack_H 0; pack_H 0; pack_B 64; pack_B IPPROTO_UDP; pack_H 0];
  let ip_ck := inet_checksum (ip0 ++ src_ip ++ dst_ip) in
  ip1 ← pack [pack_B 0x45; pack_B 0; pack_H ip_len; pack_H 0; pack_H 0; pack_B 64; pack_B IPPROTO_UDP; pack_H ip_ck];
  let ip := ip1 ++ src_ip ++ dst_ip in
  ty ← pack [pack_H ETHERTYPE_IPV4];
  let eth := dst_mac ++ src_mac ++ ty in
  Some (eth ++ ip ++ udp).

(** ** The switch *)

(** The table, the counters of the server and the frames put on the segment. *)
Record switch_t := MkSwitch { arp_table : gmap (list Z) (list Z); rftp : stats_t; wire : list (list Z) }.

Definition tx (frame : list Z) (s : switch_t) : switch_t := MkSwitch (arp_table s) (rftp s) (wire s ++ [frame]).
Definition learn (ip mac : list Z) (s : switch_t) : switch_t := MkSwitch (<[ip := mac]> (arp_table s)) (rftp s) (wire s).
Definition set_stats (t : stats_t) (s : switch_t) : switch_t := MkSwitch (arp_table s) t (wire s).

(** An operation returns or raises. *)
Definition outcome (A : Type) : Type := ((exc + A) * switch_t)%type.

(** [FrameSocket.sendto] *)
Definition frame_sendto (payload : list Z) (ip : list Z) (port : Z) (s : switch_t) : outcome Z :=
  match arp_table s !! ip with
  | None => (inr 0, s)
  | Some mac =>
      match build_frame mac SERVER_MAC_BYTES SERVER_IP_BYTES ip RFTP_PORT port payload with
      | None => (inl StructError, s)
      | Some frame => (inr (len payload), tx frame s)
      end
  end.

(** The datagrams a handler of the server sends, one after the other. *)
Fixpoint frame_sendto_all (pks : list (list Z)) (ip : list Z) (port : Z) (s : switch_t) : outcome unit :=
  match pks with
  | [] => (inr tt, s)
  | pk :: pks =>
      match frame_sendto pk ip port s with
      | (inl e, s) => (inl e, s)
      | (inr _, s) => frame_sendto_all pks ip port s
      end
  end.

Definition send_arp_reply (dst_mac target_ip target_mac : list Z) (s : switch_t) : outcome unit :=
  match
    arp ← pack [pack_H 1; pack_H ETHERTYPE_IPV4; pack_B 6; pack_B 4; pack_H 2];
    ty ← pack [pack_H ETHERTYPE_ARP];
    Some (dst_mac ++ SERVER_MAC_BYTES ++ ty ++ arp ++ SERVER_MAC_BYTES ++ SERVER_IP_BYTES ++ target_mac ++ target_ip)
  with
  | None => (inl StructError, s)
  | Some frame => (inr tt, tx frame s)
  end.

Section Switch.
Context (files : Z → option FileStore).

(** The end of [handle]: the request goes to the server, whose socket is the
    [FrameSocket]. *)
Definition deliver (src_mac src_ip : list Z) (sport : Z) (payload : list Z) (s : switch_t) : outcome unit :=
  let s := learn src_ip src_mac s in
  let '(resp, sv) := handle_message files payload (Server (rftp s) []) in
  match frame_sendto_all (socket sv) src_ip sport (set_stats (stats sv) s) with
  | (inl e, s) => (inl e, s)
  | (inr _, s) =>
      match resp with
      | inl e => (inl e, s)
      | inr (Some ((_ :: _) as resp)) =>
          match frame_sendto resp src_ip sport s with
          | (inl e, s) => (inl e, s)
          | (inr _, s) => (inr tt, s)
          end
      | inr _ => (inr tt, s)
      end
  end.

Definition handle (raw : list Z) (s : switch_t) : outcome unit :=
  if len raw <? ETH_HDR then (inr tt, s)
  else
    let src_mac := slice 6 6 raw in
    if bool_decide (src_mac = SERVER_MAC_BYTES) then (inr tt, s)
    else
      let ethertype := be16_at raw 12 in
      let dst_mac := slice 0 6 raw in
      if ethertype =? ETHERTYPE_ARP then
        let arp := slice ETH_HDR 28 raw in
        if len arp <? 28 then (inr tt, s)
        else
          let op := be16_at arp 6 in
          let sender_mac := slice 8 6 arp in
          let sender_ip := slice 14 4 arp in
          let target_ip := slice 24 4 arp in
          if (op =? 1) && bool_decide (target_ip = SERVER_IP_BYTES) then
            send_arp_reply sender_mac sender_ip sender_mac (learn sender_ip sender_mac s)
          else (inr tt, s)
      else if negb (ethertype =? ETHERTYPE_IPV4) || negb (bool_decide (dst_mac = SERVER_MAC_BYTES)) then (inr tt, s)
      else if len raw <? L2L3L4 then (inr tt, s)
      else if negb (byte_at raw (ETH_HDR + 9) =? IPPROTO_UDP) then (inr tt, s)
      else
        let dst_ip := slice (ETH_HDR + 16) 4 raw in
        if negb (bool_decide (dst_ip = SERVER_IP_BYTES)) then (inr tt, s)
        else
          let src_ip := slice (ETH_HDR + 12) 4 raw in
          let udp := ETH_HDR + IP_HDR in
          let sport := be16_at raw udp in
          let dport := be16_at raw (udp + 2) in
          if negb (dport =? RFTP_PORT) then (inr tt, s)
          else
            let udp_len := be16_at raw (udp + 4) in
            let payload := slice L2L3L4 (udp_len - UDP_HDR) raw in
            deliver src_mac src_ip sport payload s.

(** One turn of [run]: an exception is logged. *)
Definition run_step (raw : list Z) (s : switch_t) : switch_t := snd (handle raw s).
End Switch.

(** ** The Internet checksum *)

(** RFC 1071: the one's complement sum of the 16-bit words, an odd byte padded
    with zero on the right; a header with a right checksum sums to 0xffff. *)
Module RFC1071.
Definition add (a b : Z) : Z := if a + b <? 65536 then a + b else a + b - 65535.
Fixpoint words (d : list Z) : list Z :=
  match d with
  | hi :: lo :: d => 256 * hi + lo :: words d
  | [hi] => [256 * hi]
  | [] => []
  end.
Definition sum (d : list Z) : Z := foldl add 0 (words d).
End RFC1071.

Lemma pairs_ind (Q : list Z → Prop) : Q [] → (∀ a, Q [a]) → (∀ a b l, Q l → Q (a :: b :: l)) → ∀ l, Q l.
Proof. intros H0 H1 H2. refine (fix F l := match l with [] => H0 | [a] => H1 a | a :: b :: l => H2 a b l (F l) end). Qed.

(** The plain sum of the words. *)
Definition total (d : list Z) : Z := foldr Z.add 0 (RFC1071.words d).

Lemma total_cons a b d : total (a :: b :: d) = 256 * a + b + total d.
Proof. done. Qed.

Lemma total_app d1 d2 : Z.even (len d1) = true → total (d1 ++ d2) = total d1 + total d2.
Proof.
  revert d1. apply (pairs_ind (λ d1, Z.even (len d1) = true → total (d1 ++ d2) = total d1 + total d2)); [done|done|].
  intros a b l IH He. cbn [app]. rewrite !total_cons, IH; [lia|]. rewrite !len_cons in He.
  by replace (1 + (1 + len l)) with (len l + 2) in He by lia; rewrite Z.even_add in He; destruct (Z.even (len l)).
Qed.

Lemma total_range d : is_bytes d → 0 ≤ total d ∧ 2 * total d ≤ 65535 * (len d + 1).
Proof.
  revert d. apply (pairs_ind (λ d, is_bytes d → 0 ≤ total d ∧ 2 * total d ≤ 65535 * (len d + 1))).
  - intros _. rewrite len_nil. unfold total. cbn [RFC1071.words foldr]. lia.
  - intros a Ha. apply Forall_cons in Ha as [Ha _]. unfold is_byte, total in *. cbn [RFC1071.words foldr]. rewrite len_cons, len_nil. lia.
  - intros a b l IH Hl. apply Forall_cons in Hl as [Ha Hl]. apply Forall_cons in Hl as [Hb Hl]. specialize (IH Hl). unfold is_byte in *.
    rewrite total_cons, !len_cons. lia.
Qed.

Lemma sum_words_total d t : is_bytes d → sum_words (if Z.odd (len d) then d ++ [0] else d) t = t + total d.
Proof.
  revert d t. apply (pairs_ind (λ d, ∀ t, is_bytes d → sum_words (if Z.odd (len d) then d ++ [0] else d) t = t + total d)).
  - intros t _. change (t = t + 0). lia.
  - intros a t _. change (t + Z.lor (a ≪ 8) 0 = t + (256 * a + 0)). rewrite Z.lor_0_r, Z.shiftl_mul_pow2 by lia. lia.
  - intros a b l IH t Hl. apply Forall_cons in Hl as [Ha Hl]. apply Forall_cons in Hl as [Hb Hl]. rewrite total_cons, !len_cons.
    replace (1 + (1 + len l)) with (len l + 2) by lia. rewrite Z.odd_add. change (Z.odd 2) with false. rewrite xorb_false_r.
    specialize (IH (t + Z.lor (a ≪ 8) b) Hl). rewrite lor_shiftl_add in IH by (unfold is_byte in *; lia).
    destruct (Z.odd (len l)); cbn [app sum_words]; rewrite lor_shiftl_add by (unfold is_byte in *; lia); lia.
Qed.

(** The end-around carry, done twice, is enough below 2^32. *)
Lemma fold_carry t : 0 ≤ t < 2 ^ 32 →
  let t1 := Z.land t 0xffff + t ≫ 16 in let t2 := Z.land t1 0xffff + t1 ≫ 16 in
  0 ≤ t2 ≤ 65535 ∧ (∃ k, t = t2 + 65535 * k ∧ 0 ≤ k) ∧ (t2 = 0 → t = 0).
Proof.
  intros Ht t1 t2. unfold t2, t1. clear t1 t2. change 0xffff with (Z.ones 16). rewrite !Z.land_ones, !Z.shiftr_div_pow2 by lia. change (Z.ones 16) with 65535.
  set (t1 := t mod 2 ^ 16 + t / 2 ^ 16). assert (H1 : t = t1 + 65535 * (t / 2 ^ 16)) by (unfold t1; Z.div_mod_to_equations; lia).
  assert (H2 : 0 ≤ t / 2 ^ 16 ≤ 65535) by (Z.div_mod_to_equations; lia). assert (H3 : 0 ≤ t1 ≤ 131070) by (unfold t1; Z.div_mod_to_equations; lia).
  assert (H0 : t1 = 0 → t = 0) by (unfold t1; Z.div_mod_to_equations; lia). clearbody t1.
  split; [Z.div_mod_to_equations; lia|]. split; [|intros E; apply H0; Z.div_mod_to_equations; lia].
  exists (t / 2 ^ 16 + t1 / 2 ^ 16). split; [|Z.div_mod_to_equations; lia].
  rewrite H1 at 1. generalize (t / 2 ^ 16). intros q. Z.div_mod_to_equations. lia.
Qed.

Lemma checksum_total d : is_bytes d → total d < 2 ^ 32 →
  ∃ k, inet_checksum d = 65535 - (total d - 65535 * k) ∧ 0 ≤ inet_checksum d ≤ 65535 ∧ 0 ≤ k ∧ (inet_checksum d = 65535 → total d = 0).
Proof.
  intros Hd Ht. pose proof (total_range d Hd) as [Hr _]. destruct (fold_carry (total d)) as (H1 & (k & H2 & H3) & H4); [lia|].
  assert (E : inet_checksum d = 65535 - (total d - 65535 * k)).
  { unfold inet_checksum. rewrite sum_words_total, Z.add_0_l by done. cbv zeta. set (t2 := Z.land (_ + _) _ + _) in *.
    replace (total d - 65535 * k) with t2 by lia. change (Z.land (Z.lnot t2) (Z.ones 16) = 65535 - t2).
    rewrite Z.land_ones by lia. symmetry. apply (Z.mod_unique_pos _ _ (-1)); unfold Z.lnot; lia. }
  exists k. rewrite E. split; [done|]. split; [lia|]. split; [done|]. intros Hz. apply H4. lia.
Qed.

Lemma add_carry a b : 0 ≤ a ≤ 65535 → 0 ≤ b ≤ 65535 →
  0 ≤ RFC1071.add a b ≤ 65535 ∧ (∃ k, a + b = RFC1071.add a b + 65535 * k) ∧ (RFC1071.add a b = 0 → a + b = 0).
Proof. intros Ha Hb. unfold RFC1071.add. destruct (Z.ltb_spec (a + b) 65536); (split; [lia|]; split; [|lia]); [exists 0|exists 1]; lia. Qed.

Lemma sum_spec d : is_bytes d → 0 ≤ RFC1071.sum d ≤ 65535 ∧ (∃ k, total d = RFC1071.sum d + 65535 * k) ∧ (RFC1071.sum d = 0 → total d = 0).
Proof.
  intros Hd. unfold RFC1071.sum, total. assert (Hw : Forall (λ w, 0 ≤ w ≤ 65535) (RFC1071.words d)).
  { revert d Hd. apply (pairs_ind (λ d, is_bytes d → Forall (λ w, 0 ≤ w ≤ 65535) (RFC1071.words d))); [constructor|..]; unfold is_byte.
    - intros a Ha. apply Forall_cons in Ha as [Ha _]. constructor; [unfold is_byte in Ha; lia|constructor].
    - intros a b l IH Hl. apply Forall_cons in Hl as [Ha Hl]. apply Forall_cons in Hl as [Hb Hl]. unfold is_byte in *. constructor; [lia|by apply IH]. }
  assert (H : ∀ ws a, 0 ≤ a ≤ 65535 → Forall (λ w, 0 ≤ w ≤ 65535) ws → 0 ≤ foldl RFC1071.add a ws ≤ 65535 ∧
    (∃ k, a + foldr Z.add 0 ws = foldl RFC1071.add a ws + 65535 * k) ∧ (foldl RFC1071.add a ws = 0 → a + foldr Z.add 0 ws = 0)).
  { induction ws as [|w ws IH]; intros a Ha Hws; cbn [foldl foldr]; [split; [done|]; split; [exists 0|]; lia|].
    apply Forall_cons in Hws as [Hw1 Hws]. destruct (add_carry a w Ha Hw1) as (H1 & [k H2] & H3).
    destruct (IH _ H1 Hws) as (H4 & [k' H5] & H6). split; [done|]. split; [exists (k + k'); lia|]. intros Hz. specialize (H6 Hz).
    assert (0 ≤ foldr Z.add 0 ws) by (clear - Hws; induction Hws; cbn; lia). lia. }
  destruct (H (RFC1071.words d) 0 ltac:(lia) Hw) as (H1 & [k H2] & H3). split; [done|]. split; [exists k; lia|]. intros Hz. specialize (H3 Hz). lia.
Qed.

(** Putting the checksum in its field makes the sum right, also when zero is
    sent as 0xffff. *)
Lemma checksum_verifies pre post ck :
  is_bytes pre → is_bytes post → Z.even (len pre) = true → total (pre ++ [0; 0] ++ post) < 2 ^ 32 →
  ck = inet_checksum (pre ++ [0; 0] ++ post) ∨ ck = 65535 ∧ inet_checksum (pre ++ [0; 0] ++ post) = 0 →
  RFC1071.sum (pre ++ [u8 (ck ≫ 8); u8 ck] ++ post) = 0xffff ∧ is_u16 ck.
Proof.
  intros Hpre Hpost He Ht Hck. assert (Hb : is_bytes (pre ++ [0; 0] ++ post)).
  { apply Forall_app. split; [done|]. repeat constructor; [..|done]; unfold is_byte; lia. }
  destruct (checksum_total _ Hb Ht) as (k & E1 & E2 & E3 & E4). assert (Hc : 0 ≤ ck ≤ 65535) by lia.
  split; [|unfold is_u16; lia]. destruct (sum_spec (pre ++ [u8 (ck ≫ 8); u8 ck] ++ post)) as (S1 & [k' S2] & S3).
  { apply Forall_app. split; [done|]. repeat constructor; try apply u8_byte. done. }
  assert (Et : total (pre ++ [u8 (ck ≫ 8); u8 ck] ++ post) = total (pre ++ [0; 0] ++ post) + ck).
  { rewrite !total_app by done. cbn [app]. rewrite !total_cons. unfold u8. rewrite Z.shiftr_div_pow2 by lia.
    generalize (total pre), (total post). intros. Z.div_mod_to_equations. lia. }
  pose proof (total_range _ Hb) as [Hn _]. rewrite Et in *. set (T := total (pre ++ [0; 0] ++ post)) in *. set (R := RFC1071.sum _) in *.
  clearbody T R. assert (Hm : ∃ j, T + ck = 65535 * j).
  { destruct Hck as [-> | [-> Hz]]; [exists (k + 1); lia|exists (k + 2); lia]. }
  destruct Hm as [j Hj]. assert (Hpos : 0 < T + ck) by (destruct Hck as [-> | [-> Hz]]; lia).
  assert (R = 65535 * (j - k')) by lia. assert (R ≠ 0) by (intros Hz; specialize (S3 Hz); lia). nia.
Qed.

(** ** What a frame holds *)

Definition ip_head (ip_len ck : Z) : list Z := [0x45; 0] ++ put_be16 ip_len ++ [0; 0; 0; 0; 64; IPPROTO_UDP] ++ put_be16 ck.
Definition udp_head (sport dport udp_len ck : Z) : list Z := put_be16 sport ++ put_be16 dport ++ put_be16 udp_len ++ put_be16 ck.
Definition frame_of (dst_mac src_mac src_ip dst_ip : list Z) (sport dport : Z) (payload : list Z) (ip_ck udp_ck : Z) : list Z :=
  dst_mac ++ src_mac ++ [8; 0] ++ ip_head (28 + len payload) ip_ck ++ src_ip ++ dst_ip ++ udp_head sport dport (8 + len payload) udp_ck ++ payload.

(** The checks of a receiver: IPv4 without options (RFC 791), both lengths, the
    header's checksum, and a UDP checksum that is present and right over the
    pseudo-header (RFC 768). *)
Definition verifies (f : list Z) : Prop :=
  be16_at f 12 = ETHERTYPE_IPV4 ∧ byte_at f 14 = 0x45 ∧ byte_at f 23 = IPPROTO_UDP ∧
  be16_at f 16 = len f - ETH_HDR ∧ be16_at f 38 = len f - ETH_HDR - IP_HDR ∧
  RFC1071.sum (slice 14 20 f) = 0xffff ∧ be16_at f 40 ≠ 0 ∧
  RFC1071.sum (slice 26 8 f ++ [0; IPPROTO_UDP] ++ slice 38 2 f ++ drop 34 f) = 0xffff.

Definition is_mac (m : list Z) : Prop := length m = 6%nat ∧ is_bytes m.
Definition is_ip (a : list Z) : Prop := length a = 4%nat ∧ is_bytes a.

Lemma be16_pair v : is_u16 v → Z.lor (u8 (v ≫ 8) ≪ 8) (u8 v) = v.
Proof. intros Hv. exact (be16_put [] v [] Hv). Qed.

Ltac bytes := repeat first [apply Forall_app; split | apply put_be16_bytes | assumption | constructor | apply u8_byte | (unfold is_byte; cbv; intuition discriminate)].

Lemma pseudo_pack l : is_u16 l → pack [pack_B 0; pack_B IPPROTO_UDP; pack_H l] = Some ([0; IPPROTO_UDP] ++ put_be16 l).
Proof. intros Hl. cbn [pack]. rewrite pack_H_some by done. done. Qed.
Lemma udp_pack sport dport l ck :
  is_u16 sport → is_u16 dport → is_u16 l → is_u16 ck → pack [pack_H sport; pack_H dport; pack_H l; pack_H ck] = Some (udp_head sport dport l ck).
Proof. intros. cbn [pack]. rewrite !pack_H_some by done. done. Qed.
Lemma ip_pack l ck : is_u16 l → is_u16 ck →
  pack [pack_B 0x45; pack_B 0; pack_H l; pack_H 0; pack_H 0; pack_B 64; pack_B IPPROTO_UDP; pack_H ck] = Some (ip_head l ck).
Proof. intros. cbn [pack]. rewrite (pack_H_some l), (pack_H_some ck) by done. done. Qed.

Lemma build_frame_run dst_mac src_mac src_ip dst_ip sport dport payload :
  is_ip src_ip → is_ip dst_ip → is_u16 sport → is_u16 dport → is_bytes payload → len payload ≤ 65507 →
  ∃ ip_ck udp_ck, build_frame dst_mac src_mac src_ip dst_ip sport dport payload =
      Some (frame_of dst_mac src_mac src_ip dst_ip sport dport payload ip_ck udp_ck) ∧
    is_u16 udp_ck ∧ udp_ck ≠ 0 ∧
    RFC1071.sum (ip_head (28 + len payload) ip_ck ++ src_ip ++ dst_ip) = 0xffff ∧
    RFC1071.sum (src_ip ++ dst_ip ++ [0; IPPROTO_UDP] ++ put_be16 (8 + len payload) ++ udp_head sport dport (8 + len payload) udp_ck ++ payload) = 0xffff.
Proof.
  intros [Ls Hs] [Ld Hd] Hsp Hdp Hp Hl. pose proof (len_nonneg payload) as Hn. set (n := len payload) in *.
  set (pre := src_ip ++ dst_ip ++ [0; IPPROTO_UDP] ++ put_be16 (8 + n) ++ put_be16 sport ++ put_be16 dport ++ put_be16 (8 + n)).
  set (ipre := [0x45; 0] ++ put_be16 (28 + n) ++ [0; 0; 0; 0; 64; IPPROTO_UDP]).
  set (c := inet_checksum (pre ++ [0; 0] ++ payload)). set (uck := if c =? 0 then 0xffff else c).
  set (ick := inet_checksum (ipre ++ [0; 0] ++ src_ip ++ dst_ip)).
  assert (Lpre : len pre = 18) by (unfold pre, len; rewrite !length_app, Ls, Ld; done).
  assert (Bpre : is_bytes pre) by (unfold pre; bytes). assert (Bipre : is_bytes ipre) by (unfold ipre; bytes).
  assert (Hbody : is_bytes (src_ip ++ dst_ip)) by (by apply Forall_app).
  destruct (checksum_verifies pre payload uck) as [Vu Hu]; [done|done|by rewrite Lpre| | |].
  { pose proof (total_range (pre ++ [0; 0] ++ payload) ltac:(bytes)) as [_ Ht]. rewrite !len_app, Lpre in Ht. change (len [0; 0]) with 2 in Ht. fold n in Ht. lia. }
  { unfold uck, c. destruct (Z.eqb_spec (inet_checksum (pre ++ [0; 0] ++ payload)) 0); [by right|by left]. }
  destruct (checksum_verifies ipre (src_ip ++ dst_ip) ick) as [Vi Hi]; [done|done|done| |by left|].
  { pose proof (total_range (ipre ++ [0; 0] ++ src_ip ++ dst_ip) ltac:(bytes)) as [_ Ht]. unfold len in Ht. rewrite !length_app, Ls, Ld in Ht.
    change (length ipre) with 10%nat in Ht. cbn [length] in Ht. lia. }
  assert (Hz : uck ≠ 0) by (unfold uck; by destruct (Z.eqb_spec c 0)). assert (Hn8 : is_u16 (8 + n)) by (unfold is_u16; lia).
  assert (Hn28 : is_u16 (28 + n)) by (unfold is_u16; lia). assert (H0 : is_u16 0) by done.
  exists ick, uck. split; [|split; [done|]; split; [done|]; split].
  - unfold build_frame. cbv zeta. fold n. change (UDP_HDR + n) with (8 + n). replace (IP_HDR + (8 + n)) with (28 + n) by (unfold IP_HDR; lia).
    rewrite pseudo_pack, (udp_pack _ _ _ 0) by done. cbn [mbind option_bind].
    replace ((src_ip ++ dst_ip ++ [0; IPPROTO_UDP] ++ put_be16 (8 + n)) ++ udp_head sport dport (8 + n) 0 ++ payload) with (pre ++ [0; 0] ++ payload)
      by (unfold pre, udp_head; rewrite <- !app_assoc; reflexivity).
    fold c. fold uck. rewrite udp_pack, (ip_pack _ 0) by done. cbn [mbind option_bind].
    change (ip_head (28 + n) 0 ++ src_ip ++ dst_ip) with (ipre ++ [0; 0] ++ src_ip ++ dst_ip). fold ick. rewrite ip_pack by done. cbn [mbind option_bind].
    change (pack [pack_H ETHERTYPE_IPV4]) with (Some [8; 0]). cbn [mbind option_bind]. f_equal. unfold frame_of. fold n. by rewrite <- !app_assoc.
  - exact Vi.
  - rewrite <- Vu. f_equal. unfold pre, udp_head. rewrite <- !app_assoc. reflexivity.
Qed.

(** The fields of such a frame. *)
Lemma frame_fields dst_mac src_mac src_ip dst_ip sport dport payload ip_ck udp_ck :
  length dst_mac = 6%nat → length src_mac = 6%nat → length src_ip = 4%nat → length dst_ip = 4%nat →
  is_u16 sport → is_u16 dport → is_u16 udp_ck → len payload ≤ 65507 →
  let f := frame_of dst_mac src_mac src_ip dst_ip sport dport payload ip_ck udp_ck in
  len f = 42 + len payload ∧ slice 0 6 f = dst_mac ∧ slice 6 6 f = src_mac ∧ be16_at f 12 = ETHERTYPE_IPV4 ∧
  byte_at f 14 = 0x45 ∧ byte_at f 23 = IPPROTO_UDP ∧ be16_at f 16 = 28 + len payload ∧
  slice 14 20 f = ip_head (28 + len payload) ip_ck ++ src_ip ++ dst_ip ∧
  slice 26 4 f = src_ip ∧ slice 30 4 f = dst_ip ∧ slice 26 8 f = src_ip ++ dst_ip ∧
  be16_at f 34 = sport ∧ be16_at f 36 = dport ∧ be16_at f 38 = 8 + len payload ∧ slice 38 2 f = put_be16 (8 + len payload) ∧
  be16_at f 40 = udp_ck ∧ drop 34 f = udp_head sport dport (8 + len payload) udp_ck ++ payload ∧ slice 42 (len payload) f = payload.
Proof.
  intros L1 L2 L3 L4 Hsp Hdp Hu Hl f. pose proof (len_nonneg payload) as Hn.
  destruct dst_mac as [|d0 [|d1 [|d2 [|d3 [|d4 [|d5 [|]]]]]]]; try done.
  destruct src_mac as [|s0 [|s1 [|s2 [|s3 [|s4 [|s5 [|]]]]]]]; try done.
  destruct src_ip as [|a0 [|a1 [|a2 [|a3 [|]]]]]; try done. destruct dst_ip as [|b0 [|b1 [|b2 [|b3 [|]]]]]; try done.
  assert (Hp : slice 42 (len payload) f = payload).
  { unfold slice. rewrite to_nat_len. change (drop (Z.to_nat 42) f) with payload. apply firstn_all. }
  assert (E8 : be16_at f 38 = 8 + len payload) by (apply be16_pair; unfold is_u16; lia).
  assert (E28 : be16_at f 16 = 28 + len payload) by (apply be16_pair; unfold is_u16; lia).
  assert (E34 : be16_at f 34 = sport) by (by apply be16_pair). assert (E36 : be16_at f 36 = dport) by (by apply be16_pair).
  assert (E40 : be16_at f 40 = udp_ck) by (by apply be16_pair).
  assert (Elen : len f = 42 + len payload) by (unfold f, frame_of, len; rewrite !length_app; cbn [length]; unfold ip_head, udp_head; cbn [length app put_be16]; lia).
  repeat (split; [first [assumption|reflexivity]|]). exact Hp.
Qed.

Lemma frame_verifies dst_mac src_mac src_ip dst_ip sport dport payload :
  is_mac dst_mac → is_mac src_mac → is_ip src_ip → is_ip dst_ip → is_u16 sport → is_u16 dport → is_bytes payload → len payload ≤ 65507 →
  ∃ f, build_frame dst_mac src_mac src_ip dst_ip sport dport payload = Some f ∧ verifies f ∧
    slice 0 6 f = dst_mac ∧ slice 6 6 f = src_mac ∧ slice 26 4 f = src_ip ∧ slice 30 4 f = dst_ip ∧
    be16_at f 34 = sport ∧ be16_at f 36 = dport ∧ drop 42 f = payload.
Proof.
  intros [L1 _] [L2 _] Hs Hd Hsp Hdp Hp Hl. destruct (build_frame_run dst_mac src_mac src_ip dst_ip sport dport payload) as (i & u & E & Hu & Hz & Vi & Vu); try done.
  eexists. split; [exact E|]. destruct Hs as [L3 _], Hd as [L4 _].
  destruct (frame_fields dst_mac src_mac src_ip dst_ip sport dport payload i u) as (F0 & F1 & F2 & F3 & F4 & F5 & F6 & F7 & F8 & F9 & F10 & F11 & F12 & F13 & F14 & F15 & F16 & F17); try done.
  split; [|repeat (split; [assumption|])].
  - unfold verifies, ETH_HDR, IP_HDR. rewrite F0, F3, F4, F5, F6, F7, F10, F13, F14, F15, F16. repeat (split; [first [done|lia]|]). rewrite <- Vu, <- !app_assoc. done.
  - change 42%nat with (34 + 8)%nat. rewrite <- drop_drop, F16. done.
Qed.

(** ** The switch *)

Section Serving.
Context (served : Z → option (list Z)) (Hserved : ∀ id d, served id = Some d → is_bytes d ∧ len d < 2 ^ 32).

Lemma served_size id d : served id = Some d → len d < 2 ^ 32.
Proof. intros E. by destruct (Hserved id d E). Qed.

Lemma reply_payload id pk : is_byte id → reply (stores served) id pk → is_bytes pk ∧ len pk ≤ 524.
Proof.
  unfold stores. intros Hid [f Hf|f i bs Hf Hi Hc|e code He].
  - destruct (served id) as [d|]; [|done]. injection Hf as <-. unfold meta_resp. cbn [load_file sha256].
    pose proof (fips_bytes d) as Hb. pose proof (fips_length d) as Hl. generalize dependent (FIPS.sha256 d). intros h Hb Hl. split.
    + bytes; apply put_be32_bytes.
    + rewrite !len_app, !len_put_be32. unfold len at 2. rewrite Hl. cbv. congruence.
  - destruct (served id) as [d|] eqn:Ed; [|done]. injection Hf as <-. destruct (Hserved id d Ed) as [Hd _].
    destruct (chunk_bytes d i bs Hc) as (_ & -> & Hl & _). unfold CHUNK_SIZE in *. split.
    + unfold data_pkt. assert (is_bytes (slice (i * 512) 512 d)) by (by apply Forall_take, Forall_drop). bytes; apply put_be32_bytes.
    + unfold data_pkt. rewrite !len_app, len_put_be32, Hl. change (len [MSG_DATA_PACKET; id; 0; 0]) with 4. change (len [0; 0]) with 2.
      change (len (put_be16 _)) with 2. lia.
  - split; [|cbv; congruence]. unfold error_pkt. bytes.
Qed.

(** The frame in which a datagram of the server goes to a guest. *)
Definition carries (mac ip : list Z) (port : Z) (pk f : list Z) : Prop :=
  build_frame mac SERVER_MAC_BYTES SERVER_IP_BYTES ip RFTP_PORT port pk = Some f ∧ verifies f ∧
  slice 0 6 f = mac ∧ slice 6 6 f = SERVER_MAC_BYTES ∧ slice 30 4 f = ip ∧ drop 42 f = pk.

Lemma server_addresses : is_mac SERVER_MAC_BYTES ∧ is_ip SERVER_IP_BYTES ∧ is_u16 RFTP_PORT.
Proof. split; [split; [done|bytes]|]. split; [split; [done|bytes]|]. done. Qed.

Lemma frame_sendto_run pk mac ip port s :
  is_mac mac → is_ip ip → is_u16 port → is_bytes pk ∧ len pk ≤ 524 → arp_table s !! ip = Some mac →
  ∃ f, carries mac ip port pk f ∧ frame_sendto pk ip port s = (inr (len pk), tx f s).
Proof.
  intros Hm Hi Hp [Hb Hl] Ht. destruct server_addresses as (A1 & A2 & A3).
  destruct (frame_verifies mac SERVER_MAC_BYTES SERVER_IP_BYTES ip RFTP_PORT port pk) as (f & E & V & F1 & F2 & _ & F4 & _ & _ & F3); try done; [lia|].
  exists f. split; [done|]. unfold frame_sendto. by rewrite Ht, E.
Qed.

Lemma frame_sendto_all_run pks mac ip port s :
  is_mac mac → is_ip ip → is_u16 port → Forall (λ pk, is_bytes pk ∧ len pk ≤ 524) pks → arp_table s !! ip = Some mac →
  ∃ fs, Forall2 (carries mac ip port) pks fs ∧ frame_sendto_all pks ip port s = (inr tt, MkSwitch (arp_table s) (rftp s) (wire s ++ fs)).
Proof.
  intros Hm Hi Hp Hpks. revert s. induction Hpks as [|pk pks Hpk Hpks IH]; intros s Ht; cbn [frame_sendto_all].
  - exists []. split; [constructor|]. rewrite app_nil_r. by destruct s.
  - destruct (frame_sendto_run pk mac ip port s) as (f & Hf & ->); try done. destruct (IH (tx f s) Ht) as (fs & Hfs & ->).
    exists (f :: fs). split; [by constructor|]. cbn [wire tx arp_table rftp]. by rewrite <- app_assoc.
Qed.

Lemma deliver_run src_mac src_ip sport payload s :
  is_mac src_mac → is_ip src_ip → is_u16 sport → is_bytes payload →
  ∃ t pks fs, serve (stores served) payload (Server (rftp s) []) = (inr tt, Server t pks) ∧ (length pks ≤ 16)%nat ∧
    Forall2 (carries src_mac src_ip sport) pks fs ∧
    deliver (stores served) src_mac src_ip sport payload s = (inr tt, MkSwitch (<[src_ip := src_mac]> (arp_table s)) t (wire s ++ fs)).
Proof.
  intros Hm Hi Hp Hb. pose proof (byte_at_byte payload 1 Hb) as Hid.
  destruct (answers_message served served_size payload Hb (Server (rftp s) [])) as (r & t & pks & E & Hpks & Hr). cbn [socket app] in E.
  assert (Hok : Forall (λ pk, is_bytes pk ∧ len pk ≤ 524) pks) by (eapply Forall_impl; [exact Hpks|intros pk; by apply reply_payload]).
  unfold deliver, serve. cbv zeta. cbn [rftp learn]. rewrite (pbind_run _ _ _ _ _ E), E. cbn [socket stats].
  set (s1 := set_stats t (learn src_ip src_mac s)). assert (Hl : arp_table s1 !! src_ip = Some src_mac) by (apply lookup_insert_eq).
  destruct (frame_sendto_all_run pks src_mac src_ip sport s1) as (fs & Hfs & ->); try done. cbn [arp_table rftp wire s1 set_stats learn].
  destruct r as [[|b d]|]; [by destruct Hr as (_ & _ & Hr)| |by exists t, pks, fs]. destruct Hr as (-> & Hr & _).
  inversion Hfs; subst fs. rewrite app_nil_r.
  destruct (frame_sendto_run (b :: d) src_mac src_ip sport (MkSwitch (<[src_ip:=src_mac]> (arp_table s)) t (wire s))) as (f & Hf & ->); try done.
  { by apply (reply_payload (byte_at payload 1)). }
  exists t, [b :: d], [f]. split; [done|]. split; [cbn; lia|]. split; [constructor; [exact Hf|exact Hfs]|done].
Qed.

Lemma echo_ignored f s : slice 6 6 f = SERVER_MAC_BYTES → handle (stores served) f s = (inr tt, s).
Proof. intros Hf. unfold handle. destruct (_ <? _); [done|]. cbv zeta. by rewrite bool_decide_true. Qed.

(** The answer to an ARP request. *)
Definition arp_frame (mac ip : list Z) : list Z :=
  mac ++ SERVER_MAC_BYTES ++ [8; 6; 0; 1; 8; 0; 6; 4; 0; 2] ++ SERVER_MAC_BYTES ++ SERVER_IP_BYTES ++ mac ++ ip.

Lemma arp_reply_run mac ip s : send_arp_reply mac ip mac s = (inr tt, tx (arp_frame mac ip) s).
Proof. reflexivity. Qed.

(** A frame of the switch: from its own address, to a guest of the table. *)
Definition sound_frame (s : switch_t) (f : list Z) : Prop :=
  slice 6 6 f = SERVER_MAC_BYTES ∧
  ((∃ mac ip, f = arp_frame mac ip ∧ arp_table s !! ip = Some mac) ∨
   (verifies f ∧ arp_table s !! slice 30 4 f = Some (slice 0 6 f))).

Definition arp_ok (m : gmap (list Z) (list Z)) : Prop := map_Forall (λ ip mac, is_ip ip ∧ is_mac mac) m.

(** What a call of [handle] may do. *)
Definition handled (s : switch_t) (o : outcome unit) : Prop := ∃ t m fs,
  o = (inr tt, MkSwitch m t (wire s ++ fs)) ∧ (length fs ≤ 16)%nat ∧ arp_ok m ∧ Forall (sound_frame (MkSwitch m t (wire s ++ fs))) fs.

Lemma handled_nothing s : arp_ok (arp_table s) → handled s (inr tt, s).
Proof. intros Hs. exists (rftp s), (arp_table s), []. rewrite app_nil_r. split; [by destruct s|]. split; [cbn; lia|]. by split. Qed.

Lemma slice_bytes a n l : is_bytes l → is_bytes (slice a n l).
Proof. intros Hl. by apply Forall_take, Forall_drop. Qed.

Lemma slice_field a n l : is_bytes l → 0 ≤ a → 0 ≤ n → a + n ≤ len l → length (slice a n l) = Z.to_nat n ∧ is_bytes (slice a n l).
Proof. intros Hl H1 H2 H3. split; [|by apply slice_bytes]. pose proof (len_slice a n l H1 H2 H3) as Hs. unfold len in Hs. lia. Qed.

Lemma handle_any raw s : is_bytes raw → arp_ok (arp_table s) → handled s (handle (stores served) raw s).
Proof.
  intros Hb Hs. pose proof (handled_nothing s Hs) as Hno. unfold handle. destruct (Z.ltb_spec (len raw) ETH_HDR); [exact Hno|]. cbv zeta.
  destruct (bool_decide _); [exact Hno|]. destruct (_ =? ETHERTYPE_ARP).
  { destruct (Z.ltb_spec (len (slice ETH_HDR 28 raw)) 28) as [|Hl]; [exact Hno|]. set (arp := slice ETH_HDR 28 raw) in *.
    destruct (_ && _); [|exact Hno]. rewrite arp_reply_run. set (mac := slice 8 6 arp). set (ip := slice 14 4 arp).
    assert (Hm : is_mac mac) by (apply slice_field; [by apply slice_bytes|lia..]).
    assert (Hi : is_ip ip) by (apply slice_field; [by apply slice_bytes|lia..]).
    exists (rftp s), (<[ip := mac]> (arp_table s)), [arp_frame mac ip]. split; [done|]. split; [cbn; lia|].
    split; [by apply map_Forall_insert_2|]. constructor; [|constructor]. split.
    - destruct Hm as [Lm _]. destruct mac as [|d0 [|d1 [|d2 [|d3 [|d4 [|d5 [|]]]]]]]; done.
    - left. exists mac, ip. split; [done|]. apply lookup_insert_eq. }
  destruct (_ || _); [exact Hno|]. destruct (Z.ltb_spec (len raw) L2L3L4) as [|Hl]; [exact Hno|]. unfold L2L3L4, ETH_HDR, IP_HDR, UDP_HDR in Hl.
  destruct (negb _); [exact Hno|]. destruct (negb _); [exact Hno|]. destruct (negb _); [exact Hno|].
  set (mac := slice 6 6 raw). set (ip := slice (ETH_HDR + 12) 4 raw). set (port := be16_at raw (ETH_HDR + IP_HDR)).
  assert (Hm : is_mac mac) by (apply slice_field; [done|lia..]). assert (Hi : is_ip ip) by (apply slice_field; [done|unfold ETH_HDR; lia..]).
  destruct (deliver_run mac ip port (slice L2L3L4 (be16_at raw (ETH_HDR + IP_HDR + 4) - UDP_HDR) raw) s) as (t & pks & fs & _ & Hn & Hfs & ->);
    [done|done|by apply be16_range|by apply slice_bytes|].
  exists t, (<[ip := mac]> (arp_table s)), fs. split; [done|]. split; [by rewrite <- (Forall2_length _ _ _ Hfs)|].
  split; [by apply map_Forall_insert_2|]. clear Hn. induction Hfs as [|pk f pks fs (_ & Hv & H0 & H6 & H30 & _) _ IH]; constructor.
  - split; [done|]. right. split; [done|]. cbn [arp_table]. rewrite H0, H30. apply lookup_insert_eq.
  - eapply Forall_impl; [exact IH|]. done.
Qed.
End Serving.

Lemma be16_at_app_l w l i : 0 ≤ i → i + 2 ≤ len w → be16_at (w ++ l) i = be16_at w i.
Proof. intros H1 H2. unfold be16_at. rewrite !byte_at_app_l by lia. done. Qed.

(** A guest's request, padded by its card or not. *)
Lemma handle_request files mac ip sport req f pad s :
  is_mac mac → mac ≠ SERVER_MAC_BYTES → is_ip ip → is_u16 sport → is_bytes req → len req ≤ 65507 →
  build_frame SERVER_MAC_BYTES mac ip SERVER_IP_BYTES sport RFTP_PORT req = Some f →
  handle files (f ++ pad) s = deliver files mac ip sport req s.
Proof.
  intros [Lm Hm] Hne Hi Hp Hb Hl E. destruct server_addresses as ([A1 _] & A2 & A3). pose proof (len_nonneg req). pose proof (len_nonneg pad).
  destruct (build_frame_run SERVER_MAC_BYTES mac ip SERVER_IP_BYTES sport RFTP_PORT req) as (i & u & E' & Hu & _); try done.
  rewrite E' in E. injection E as <-. destruct Hi as [Li _], A2 as [La _].
  destruct (frame_fields SERVER_MAC_BYTES mac ip SERVER_IP_BYTES sport RFTP_PORT req i u)
    as (F0 & F1 & F2 & F3 & F4 & F5 & F6 & F7 & F8 & F9 & F10 & F11 & F12 & F13 & F14 & F15 & F16 & F17); try done.
  set (f := frame_of _ _ _ _ _ _ _ _ _) in *. unfold handle, L2L3L4, ETH_HDR, IP_HDR, UDP_HDR. cbv zeta.
  change (14 + 20 + 8) with 42. change (14 + 20 + 2) with 36. change (14 + 20 + 4) with 38. change (14 + 20) with 34.
  change (14 + 9) with 23. change (14 + 16) with 30. change (14 + 12) with 26.
  rewrite len_app, (proj2 (Z.ltb_ge _ _)) by lia. rewrite !slice_app_l, !be16_at_app_l by lia. rewrite F1, F2, F3, F8, F9, F11, F12, F13.
  rewrite bool_decide_false by done. change (ETHERTYPE_IPV4 =? ETHERTYPE_ARP) with false. cbv iota. rewrite bool_decide_true by done.
  change (negb (ETHERTYPE_IPV4 =? ETHERTYPE_IPV4) || negb true) with false. cbv iota. rewrite (proj2 (Z.ltb_ge _ _)) by lia.
  rewrite byte_at_app_l by lia. rewrite F5. rewrite bool_decide_true by done. rewrite !Z.eqb_refl. cbn [negb].
  replace (8 + len req - 8) with (len req) by lia. rewrite slice_app_l, F17 by lia. done.
Qed.

(** ** Properties *)

(** A frame the switch builds passes the checks of a receiver.  For every
    payload an IPv4 datagram can hold, the frame carries the addresses, ports and
    payload it was given, both its lengths are right, the IPv4 header's checksum
    verifies, and the UDP checksum is present (never zero) and verifies over the
    pseudo-header; a longer payload raises. *)
Theorem built_frames_verify dst_mac src_mac src_ip dst_ip sport dport payload :
  is_mac dst_mac → is_mac src_mac → is_ip src_ip → is_ip dst_ip → is_u16 sport → is_u16 dport → is_bytes payload →
  match build_frame dst_mac src_mac src_ip dst_ip sport dport payload with
  | Some f => len payload ≤ 65507 ∧ verifies f ∧ slice 0 6 f = dst_mac ∧ slice 6 6 f = src_mac ∧ slice 26 4 f = src_ip ∧ slice 30 4 f = dst_ip ∧
      be16_at f 34 = sport ∧ be16_at f 36 = dport ∧ drop 42 f = payload
  | None => 65507 < len payload
  end.
Proof.
  intros H1 H2 H3 H4 H5 H6 H7. destruct (Z.le_gt_cases (len payload) 65507) as [Hl|Hl].
  { by destruct (frame_verifies dst_mac src_mac src_ip dst_ip sport dport payload) as (f & -> & Hf). }
  destruct (build_frame _ _ _ _ _ _ _) as [f|] eqn:E; [|done]. exfalso. unfold build_frame in E. cbv zeta in E.
  destruct (pack [pack_B 0; _; _]); [|done]. cbn [mbind option_bind] in E. do 2 (destruct (pack [pack_H _; _; _; _]); [|done]; cbn [mbind option_bind] in E).
  cbn [pack] in E. replace (pack_H (IP_HDR + (UDP_HDR + len payload))) with (@None (list Z)) in E; [done|].
  unfold pack_H, IP_HDR, UDP_HDR. rewrite (proj2 (Z.leb_le _ _)), (proj2 (Z.ltb_ge _ _)) by lia. done.
Qed.

(** C15: The switch serves what the server serves.  A guest's request that arrives in
    a frame, with or without padding, is answered with exactly the datagrams the
    server sends on its own socket for that request, in the same order, each in a
    frame to the guest that verifies; the guest's address is learnt, and nothing
    else changes. *)
Theorem switch_serves_requests served mac ip sport req f pad s :
  (∀ id d, served id = Some d → is_bytes d ∧ len d < 2 ^ 32) →
  is_mac mac → mac ≠ SERVER_MAC_BYTES → is_ip ip → is_u16 sport → is_bytes req → len req ≤ 65507 →
  build_frame SERVER_MAC_BYTES mac ip SERVER_IP_BYTES sport RFTP_PORT req = Some f →
  ∃ t pks fs, serve (stores served) req (Server (rftp s) []) = (inr tt, Server t pks) ∧
    Forall2 (carries mac ip sport) pks fs ∧
    handle (stores served) (f ++ pad) s = (inr tt, MkSwitch (<[ip := mac]> (arp_table s)) t (wire s ++ fs)).
Proof.
  intros Hserved Hm Hne Hi Hp Hb Hl E. rewrite (handle_request _ mac ip sport req f pad s) by done.
  destruct (deliver_run served Hserved mac ip sport req s) as (t & pks & fs & H1 & _ & H2 & H3); [done..|]. by exists t, pks, fs.
Qed.

(** C16: No frame can stop the switch or make it flood the segment.  Whatever bytes
    arrive, [handle] ends without an exception and puts at most sixteen frames on
    the segment, all from its own address to a guest of its table: ARP replies or
    datagrams that verify.  The table keeps only well-formed addresses, and each
    of these frames, echoed back, is ignored. *)
Theorem switch_survives_any_frame served raw s :
  (∀ id d, served id = Some d → is_bytes d ∧ len d < 2 ^ 32) → is_bytes raw → arp_ok (arp_table s) →
  ∃ fs, let s' := run_step (stores served) raw s in
    fst (handle (stores served) raw s) = inr tt ∧ wire s' = wire s ++ fs ∧ (length fs ≤ 16)%nat ∧ arp_ok (arp_table s') ∧
    Forall (λ f, sound_frame s' f ∧ run_step (stores served) f s' = s') fs.
Proof.
  intros Hserved Hb Hs. unfold run_step. destruct (handle_any served Hserved raw s Hb Hs) as (t & m & fs & E & Hn & Hm & Hfs). rewrite E.
  exists fs. cbn [fst snd wire arp_table]. repeat (split; [done|]). eapply Forall_impl; [exact Hfs|]. intros f Hf. split; [exact Hf|].
  destruct Hf as [Hf _]. by rewrite echo_ignored.
Qed.

(** A guest at 10.0.0.2 and a small file. *)
Definition guest_mac : list Z := [0x52; 0x54; 0; 0; 0; 2].
Definition guest_ip : list Z := [10; 0; 0; 2].
Definition guest_file (id : Z) : option (list Z) := if id =? 1 then Some (replicate 600 7) else None.
Definition switch_zero : switch_t := MkSwitch ∅ (Stats 0 0 0 0 0 0) [].
Definition guest_frame : list Z := default [] (build_frame SERVER_MAC_BYTES guest_mac guest_ip SERVER_IP_BYTES 4000 RFTP_PORT (range_req 1 0 9)).

Lemma guest_file_ok id d : guest_file id = Some d → is_bytes d ∧ len d < 2 ^ 32.
Proof.
  unfold guest_file. destruct (id =? 1); [|done]. intros E. assert (Hd : replicate 600 7 = d) by congruence. rewrite <- Hd.
  split; [|done]. apply Forall_replicate. unfold is_byte. lia.
Qed.

Lemma built_frames_verify_witness :
  ∃ f, build_frame guest_mac SERVER_MAC_BYTES SERVER_IP_BYTES guest_ip RFTP_PORT 4000 [1; 2; 3] = Some f ∧ verifies f.
Proof.
  pose proof (built_frames_verify guest_mac SERVER_MAC_BYTES SERVER_IP_BYTES guest_ip RFTP_PORT 4000 [1; 2; 3]) as H.
  destruct (build_frame guest_mac SERVER_MAC_BYTES SERVER_IP_BYTES guest_ip RFTP_PORT 4000 [1; 2; 3]) as [f|] eqn:E; [|vm_compute in E; discriminate].
  exists f. split; [reflexivity|]. apply H; first [reflexivity|split; [reflexivity|bytes]|bytes|split; [lia|reflexivity]].
Defined.

Lemma switch_serves_requests_witness :
  ∃ t fs, handle (stores guest_file) guest_frame switch_zero = (inr tt, MkSwitch (<[guest_ip := guest_mac]> ∅) t fs) ∧ length fs = 2%nat.
Proof.
  destruct (switch_serves_requests guest_file guest_mac guest_ip 4000 (range_req 1 0 9) guest_frame [] switch_zero) as (t & pks & fs & E1 & E2 & E3).
  - exact guest_file_ok.
  - split; [reflexivity|bytes].
  - vm_compute. discriminate.
  - split; [reflexivity|bytes].
  - split; [lia|reflexivity].
  - bytes.
  - vm_compute. discriminate.
  - reflexivity.
  - exists t, fs. rewrite app_nil_r in E3. split; [exact E3|]. rewrite <- (Forall2_length _ _ _ E2).
    assert (Hp : length (socket (snd (serve (stores guest_file) (range_req 1 0 9) (Server (rftp switch_zero) [])))) = 2%nat) by reflexivity.
    rewrite E1 in Hp. exact Hp.
Defined.

Lemma switch_survives_any_frame_witness :
  fst (handle (stores guest_file) (SERVER_MAC_BYTES ++ guest_mac ++ [8; 0; 1; 2; 3]) switch_zero) = inr tt.
Proof.
  destruct (switch_survives_any_frame guest_file (SERVER_MAC_BYTES ++ guest_mac ++ [8; 0; 1; 2; 3]) switch_zero) as (fs & H & _).
  - exact guest_file_ok.
  - bytes.
  - intros i x Hx. vm_compute in Hx. discriminate.
  - exact H.
Defined.
