(* ===== verification/Malloc.v ===== *)
(** * The user-space allocator (src/xv6-riscv/user/umalloc.c)

    The allocator of Kernighan and Ritchie: a circular list of free blocks in the
    order of their addresses, searched from where the last search ended.  Memory
    is seen through the two fields of a header: [m_ptr] and [m_size] map the
    addresses at which they have been written to their values, and reading a field
    that was never written is a fault.  A client may overwrite everything in its
    own blocks. *)
From stdpp Require Import gmap sorting.
From S2P Require Import Prelude.

(** [sizeof(Header)]. *)
Definition HEADER : Z := 16.
(** [(char * )-1] *)
Definition SBRK_ERROR : Z := 2 ^ 64 - 1.

(** [sbrk]: the start of the new memory, or [SBRK_ERROR].  The break grows by at
    least what was asked for and stays below 64 GiB. *)
Class SbrkKernel (K : Type) := { sys_sbrk : Z → K → Z * K; brk_of : K → Z }.
Class SbrkLaws (K : Type) `{SbrkKernel K} := {
  sbrk_grows n k : 0 ≤ n → let '(p, k') := sys_sbrk n k in
    p = SBRK_ERROR ∧ brk_of k ≤ brk_of k' ∨ brk_of k ≤ p ∧ p + n ≤ brk_of k';
  brk_bound k : brk_of k < 2 ^ 36;
}.

Section Allocator.
Context {K : Type} `{SbrkKernel K}.

Record umalloc_t := Umalloc { m_ptr : gmap Z Z; m_size : gmap Z Z; freep : Z; ukern : K }.

(** The address of the static header. *)
Context (base : Z).

Definition get_ptr (p : Z) : M umalloc_t Z := λ s, (λ v, (v, s)) <$> m_ptr s !! p.
Definition get_size (p : Z) : M umalloc_t Z := λ s, (λ v, (v, s)) <$> m_size s !! p.
Definition set_ptr (p v : Z) : M umalloc_t unit := modify (λ s, Umalloc (<[p := v]> (m_ptr s)) (m_size s) (freep s) (ukern s)).
Definition set_size (p v : Z) : M umalloc_t unit := modify (λ s, Umalloc (m_ptr s) (<[p := v]> (m_size s)) (freep s) (ukern s)).
Definition set_freep (p : Z) : M umalloc_t unit := modify (λ s, Umalloc (m_ptr s) (m_size s) p (ukern s)).
Definition sbrk (n : Z) : M umalloc_t Z :=
  λ s, let '(p, k) := sys_sbrk n (ukern s) in Some (p, Umalloc (m_ptr s) (m_size s) (freep s) k).

(** The block goes between [p] and its successor [n]. *)
Definition fits_between (bp p n : Z) : bool :=
  (p <? bp) && (bp <? n) || (n <=? p) && ((p <? bp) || (bp <? n)).

Fixpoint free_loop (fuel : nat) (bp p : Z) : M umalloc_t Z :=
  match fuel with
  | O => fault
  | S fuel =>
      let* n := get_ptr p in
      if fits_between bp p n then ret p else free_loop fuel bp n
  end.

(** There are no more free blocks than sizes written. *)
Definition free (ap : Z) : M umalloc_t unit :=
  let bp := ap - HEADER in
  let* fuel := gets (λ s, S (size (m_size s))) in
  let* f := gets freep in
  let* p := free_loop fuel bp f in
  let* bs := get_size bp in
  let* n := get_ptr p in
  (if bp + HEADER * bs =? n then
     let* ns := get_size n in
     set_size bp (u32 (bs + ns)) ;;*
     let* nn := get_ptr n in
     set_ptr bp nn
   else set_ptr bp n) ;;*
  let* ps := get_size p in
  (if p + HEADER * ps =? bp then
     let* bs := get_size bp in
     set_size p (u32 (ps + bs)) ;;*
     let* bn := get_ptr bp in
     set_ptr p bn
   else set_ptr p bp) ;;*
  set_freep p.

(** The argument of [sbrk] is an [int]. *)
Definition morecore (nu : Z) : M umalloc_t Z :=
  let nu := if nu <? 4096 then 4096 else nu in
  let* p := sbrk (s32 (nu * HEADER)) in
  if p =? SBRK_ERROR then ret 0
  else
    set_size p nu ;;*
    free (p + HEADER) ;;*
    gets freep.

Fixpoint malloc_loop (fuel : nat) (nunits prevp p : Z) : M umalloc_t Z :=
  match fuel with
  | O => fault
  | S fuel =>
      let* sz := get_size p in
      if nunits <=? sz then
        let* p :=
          (if sz =? nunits then
             let* n := get_ptr p in
             set_ptr prevp n ;;*
             ret p
           else
             let sz := u32 (sz - nunits) in
             set_size p sz ;;*
             let p := p + HEADER * sz in
             set_size p nunits ;;*
             ret p) in
        set_freep prevp ;;*
        ret (p + HEADER)
      else
        let* f := gets freep in
        if p =? f then
          let* p := morecore nunits in
          if p =? 0 then ret 0
          else let* n := get_ptr p in malloc_loop fuel nunits p n
        else let* n := get_ptr p in malloc_loop fuel nunits p n
  end.

Definition units_for (nbytes : Z) : Z := u32 ((nbytes + HEADER - 1) / HEADER + 1).

(** Two rounds of the list, the second with one block more, find a block. *)
Definition malloc (nbytes : Z) : M umalloc_t Z :=
  let nunits := units_for nbytes in
  let* f := gets freep in
  let* prevp :=
    (if f =? 0 then
       set_freep base ;;*
       set_ptr base base ;;*
       set_size base 0 ;;*
       ret base
     else ret f) in
  let* fuel := gets (λ s, 2 * size (m_size s) + 2)%nat in
  let* p := get_ptr prevp in
  malloc_loop fuel nunits prevp p.
End Allocator.
Arguments umalloc_t : clear implicits.

(** ** The layout of the heap

    A ghost view: all blocks in the order of their addresses, free and live. *)

Record blk := Blk { b_addr : Z; b_units : Z; b_free : bool }.
Definition b_end (b : blk) : Z := b_addr b + HEADER * b_units b.

Fixpoint tiled (lo : Z) (bl : list blk) (hi : Z) : Prop :=
  match bl with
  | [] => lo ≤ hi
  | b :: bl => lo ≤ b_addr b ∧ 0 < b_units b ∧ tiled (b_end b) bl hi
  end.
Definition stop_of (lo : Z) (bl : list blk) : Z := foldl (λ _ b, b_end b) lo bl.

(** No two free blocks touch; [e] is the end of the block before if it is free. *)
Fixpoint coalesced (e : option Z) (bl : list blk) : Prop :=
  match bl with
  | [] => True
  | b :: bl => (b_free b = true → e ≠ Some (b_addr b)) ∧ coalesced (if b_free b then Some (b_end b) else None) bl
  end.
Definition free_end (e : option Z) (bl : list blk) : option Z := foldl (λ _ b, if b_free b then Some (b_end b) else None) e bl.

Definition frees (bl : list blk) : list Z := b_addr <$> filter (λ b, b_free b = true) bl.
Definition lives (bl : list blk) : list blk := filter (λ b, b_free b = false) bl.

(** A chain of pointers through [l] that ends at [e]. *)
Fixpoint linked (P : gmap Z Z) (l : list Z) (e : Z) : Prop :=
  match l with
  | [] => True
  | a :: l => P !! a = Some (hd e l) ∧ linked P l e
  end.

Lemma tiled_app lo l1 l2 hi : tiled lo (l1 ++ l2) hi ↔ tiled lo l1 (stop_of lo l1) ∧ tiled (stop_of lo l1) l2 hi.
Proof. revert lo. induction l1 as [|b l1 IH]; intros lo; cbn; [intuition lia|]. rewrite IH. tauto. Qed.
Lemma tiled_le lo bl hi : tiled lo bl hi → lo ≤ hi.
Proof. revert lo. induction bl as [|b bl IH]; intros lo; cbn; [done|]. intros (H1 & H2 & H3). apply IH in H3. unfold b_end, HEADER in *. lia. Qed.
Lemma tiled_weaken lo bl hi hi' : tiled lo bl hi → hi ≤ hi' → tiled lo bl hi'.
Proof. revert lo. induction bl as [|b bl IH]; intros lo; cbn; [lia|]. intros (H1 & H2 & H3) Hh. auto. Qed.
Lemma tiled_in lo bl hi b : tiled lo bl hi → b ∈ bl → lo ≤ b_addr b ∧ 0 < b_units b ∧ b_end b ≤ hi.
Proof.
  intros Ht Hb. apply list_elem_of_split in Hb as (l1 & l2 & ->). apply tiled_app in Ht as (H1 & H2 & H3 & H4).
  apply tiled_le in H1, H4. lia.
Qed.
Lemma coalesced_app e l1 l2 : coalesced e (l1 ++ l2) ↔ coalesced e l1 ∧ coalesced (free_end e l1) l2.
Proof. revert e. induction l1 as [|b l1 IH]; intros e; cbn; [tauto|]. rewrite IH. tauto. Qed.
Lemma frees_app l1 l2 : frees (l1 ++ l2) = frees l1 ++ frees l2.
Proof. unfold frees. by rewrite filter_app, fmap_app. Qed.
Lemma lives_app l1 l2 : lives (l1 ++ l2) = lives l1 ++ lives l2.
Proof. unfold lives. by rewrite filter_app. Qed.
Lemma frees_free a n bl : frees (Blk a n true :: bl) = a :: frees bl.
Proof. done. Qed.
Lemma frees_live a n bl : frees (Blk a n false :: bl) = frees bl.
Proof. done. Qed.
Lemma elem_frees a bl : a ∈ frees bl ↔ ∃ n, Blk a n true ∈ bl.
Proof.
  unfold frees. rewrite list_elem_of_fmap. split.
  - intros ([a' n []] & -> & Hb); apply list_elem_of_filter in Hb as [? ?]; [by eexists|done].
  - intros [n Hn]. exists (Blk a n true). split; [done|]. by apply list_elem_of_filter.
Qed.

Lemma linked_app P l1 l2 e : linked P (l1 ++ l2) e ↔ linked P l1 (hd e l2) ∧ linked P l2 e.
Proof.
  induction l1 as [|a l1 IH]; cbn; [tauto|]. rewrite IH. destruct l1; cbn; tauto.
Qed.
Lemma linked_insert P l e a v : a ∉ l → linked P l e → linked (<[a := v]> P) l e.
Proof.
  induction l as [|b l IH]; cbn; [done|]. intros Ha [H1 H2]. apply not_elem_of_cons in Ha as [Hab Ha].
  split; [by rewrite lookup_insert_ne by congruence|auto].
Qed.

(** The free list is ascending. *)
Lemma frees_above lo bl hi a : tiled lo bl hi → a ∈ frees bl → lo ≤ a < hi.
Proof.
  intros Ht Ha. apply elem_frees in Ha as [n Ha]. apply (tiled_in _ _ _ _ Ht) in Ha. unfold b_end, HEADER in Ha. cbn in Ha. lia.
Qed.
Lemma frees_sorted lo bl hi : tiled lo bl hi → StronglySorted Z.lt (frees bl).
Proof.
  revert lo. induction bl as [|[a n []] bl IH]; intros lo Ht; [constructor| |].
  - rewrite frees_free. destruct Ht as (H1 & H2 & H3). constructor; [by eapply IH|]. apply Forall_forall. intros x Hx.
    apply (frees_above _ _ _ _ H3) in Hx. unfold b_end, HEADER in *. cbn in *. lia.
  - rewrite frees_live. destruct Ht as (_ & _ & H3). by eapply IH.
Qed.
Lemma ring_sorted base bl hi : tiled (base + HEADER) bl hi → StronglySorted Z.lt (base :: frees bl).
Proof.
  intros Ht. constructor; [by eapply frees_sorted|]. apply Forall_forall. intros a Ha. apply (frees_above _ _ _ _ Ht) in Ha.
  unfold HEADER in Ha. lia.
Qed.
Lemma sorted_nodup l : StronglySorted Z.lt l → NoDup l.
Proof.
  induction 1 as [|a l Hs IH Ha]; constructor; [|done]. intros Hin. rewrite Forall_forall in Ha. specialize (Ha a Hin). lia.
Qed.

(** ** Walking round the list *)

(** The list as seen from [f]. *)
Lemma ring_rotate P b l f : linked P (b :: l) b → f ∈ b :: l →
  ∃ r, linked P (f :: r) f ∧ Permutation (f :: r) (b :: l).
Proof.
  intros HL Hf. apply list_elem_of_split in Hf as (X & Y & E). rewrite E in HL. apply linked_app in HL as [H1 H2]. cbn in H1.
  exists (Y ++ X). split; [|rewrite E; by rewrite app_comm_cons, Permutation_app_comm].
  rewrite app_comm_cons. apply linked_app. destruct X as [|x X]; [injection E as -> ->; done|]. injection E as -> E. cbn [hd]. done.
Qed.

Lemma nodes_bound (Z_ : gmap Z Z) l : NoDup l → (∀ a, a ∈ l → is_Some (Z_ !! a)) → (length l ≤ size Z_)%nat.
Proof.
  intros Hn Hl. rewrite <- size_dom, <- (size_list_to_set (C := gset Z) l Hn). apply subseteq_size. intros a Ha.
  apply elem_of_list_to_set in Ha. by apply elem_of_dom, Hl.
Qed.

Section Proofs.
Context {K : Type} `{SbrkLaws K} (base : Z) (Hbase : 0 < base).
Implicit Types s : umalloc_t K.

Lemma wp_get_ptr p v Q s : m_ptr s !! p = Some v → Q v s → wp (get_ptr p) Q s.
Proof. intros E HQ. exists v, s. unfold get_ptr. by rewrite E. Qed.
Lemma wp_get_size p v Q s : m_size s !! p = Some v → Q v s → wp (get_size p) Q s.
Proof. intros E HQ. exists v, s. unfold get_size. by rewrite E. Qed.

(** The state and its layout. *)
Record laid s (bl : list blk) : Prop := {
  l_tiled : tiled (base + HEADER) bl (brk_of (ukern s));
  l_coalesced : coalesced None bl;
  l_ring : linked (m_ptr s) (base :: frees bl) base;
  l_base : m_size s !! base = Some 0;
  l_sizes : Forall (λ b, m_size s !! b_addr b = Some (b_units b)) bl;
  l_freep : freep s ∈ base :: frees bl;
}.

Lemma laid_nodes s bl : laid s bl → (length (base :: frees bl) ≤ size (m_size s))%nat.
Proof.
  intros [Ht _ _ Hb Hs _]. apply nodes_bound; [eapply sorted_nodup, ring_sorted, Ht|].
  intros a [->|Ha]%elem_of_cons; [by eexists|]. apply elem_frees in Ha as [n Ha]. rewrite Forall_forall in Hs.
  specialize (Hs _ Ha). by eexists.
Qed.

Lemma walk_free bp t n l r e fuel s :
  linked (m_ptr s) (l ++ t :: r) e → (∀ a n, a ∈ l → m_ptr s !! a = Some n → fits_between bp a n = false) →
  m_ptr s !! t = Some n → fits_between bp t n = true → (length l < fuel)%nat → wp (free_loop fuel bp (hd t l)) (λ p s', p = t ∧ s' = s) s.
Proof.
  intros HL Hno Ht Hyes. revert l HL Hno. induction fuel as [|fuel IH]; intros l HL Hno Hf; [lia|]. cbn [free_loop].
  destruct l as [|a l]; cbn [hd].
  { apply wp_bind. eapply wp_get_ptr; [exact Ht|]. rewrite Hyes. by apply wp_ret. }
  destruct HL as [Ha HL]. apply wp_bind. eapply wp_get_ptr; [exact Ha|]. rewrite (Hno a _ ltac:(left) Ha).
  replace (hd e (l ++ t :: r)) with (hd t l) by (by destruct l). apply IH; [done| |cbn in Hf; lia].
  intros b m Hb. apply Hno. by right.
Qed.

(** The loop finds the neighbour below the block. *)
Lemma free_search bp t A1 A2 F fuel s :
  base :: F = A1 ++ t :: A2 → StronglySorted Z.lt (base :: F) → linked (m_ptr s) (base :: F) base →
  freep s ∈ base :: F → Forall (λ a, a < bp) (A1 ++ [t]) → Forall (λ a, bp < a) A2 → (length (base :: F) ≤ fuel)%nat →
  wp (free_loop fuel bp (freep s)) (λ p s', p = t ∧ s' = s) s.
Proof.
  intros EA Hsort HL Hfp Hlo Hhi Hfu. rewrite Forall_forall in Hlo, Hhi.
  assert (Hb : base < bp) by (apply Hlo; destruct A1; injection EA as -> ->; left).
  pose proof HL as HL'. rewrite EA in HL'. apply linked_app in HL' as [HL1 [HLt HL2]]. cbn [hd] in HL1.
  assert (Hno : ∀ a n, a ∈ base :: F → a ≠ t → m_ptr s !! a = Some n → fits_between bp a n = false).
  { intros a n Ha Hat Hn. rewrite EA in Ha, Hsort. apply elem_of_app in Ha as [Ha|Ha].
    - pose proof (Hlo a ltac:(apply elem_of_app; by left)) as Halo. apply list_elem_of_split in Ha as (u & v & ->).
      apply linked_app in HL1 as [_ [HLa _]]. rewrite Hn in HLa. injection HLa as ->.
      assert (Hv : hd t v ∈ v ++ [t]) by (destruct v; left). pose proof (Hlo (hd t v)) as Hv1.
      assert (a < hd t v ∧ hd t v < bp) as [? ?].
      { split.
        - apply (StronglySorted_app_1_elem_of _ (u ++ [a]) (v ++ t :: A2)); [by rewrite <- app_assoc in *| |].
          + apply elem_of_app. right. left.
          + destruct v; [left|left].
        - apply Hv1. rewrite <- app_assoc. apply elem_of_app. right. cbn. by right. }
      unfold fits_between. lia.
    - apply elem_of_cons in Ha as [->|Ha]; [done|]. pose proof (Hhi a Ha) as Hahi. apply list_elem_of_split in Ha as (u & v & ->).
      apply linked_app in HL2 as [_ [HLa _]]. rewrite Hn in HLa. injection HLa as ->. destruct v as [|v0 v]; cbn [hd].
      + unfold fits_between. lia.
      + assert (a < v0).
        { apply (StronglySorted_app_1_elem_of _ (A1 ++ t :: u ++ [a]) (v0 :: v)); [|apply elem_of_app; right; right; apply elem_of_app; right; left|left].
          by rewrite <- app_assoc, <- app_comm_cons, <- app_assoc. }
        unfold fits_between. lia. }
  assert (Htlo : t < bp) by (apply Hlo, elem_of_app; right; left).
  assert (Hyes : fits_between bp t (hd base A2) = true).
  { unfold fits_between. destruct A2 as [|x A2]; cbn [hd]; [|specialize (Hhi x ltac:(left)); lia].
    assert (base ≤ t); [|lia]. destruct A1 as [|x A1]; injection EA as -> ->; [lia|]. apply Z.lt_le_incl.
    inversion Hsort as [|? ? _ HF]; subst. rewrite Forall_forall in HF. apply HF, elem_of_app. right. left. }
  destruct (ring_rotate _ _ _ _ HL Hfp) as (r & HLr & Hperm).
  assert (Ht : t ∈ freep s :: r) by (rewrite Hperm, EA; apply elem_of_app; right; left).
  apply list_elem_of_split_l in Ht as (l & r' & El & Htl). rewrite El in HLr.
  assert (Ef : freep s = hd t l) by (destruct l; by injection El).
  rewrite Ef at 1. eapply walk_free; [exact HLr| |exact HLt|exact Hyes|].
  - intros a n Ha. apply Hno; [|by intros ->]. rewrite <- Hperm, El. apply elem_of_app. by left.
  - apply Permutation_length in Hperm. rewrite El, length_app in Hperm. cbn [length] in Hperm, Hfu. lia.
Qed.

Definition sized (Z_ : gmap Z Z) (bl : list blk) : Prop := Forall (λ b, Z_ !! b_addr b = Some (b_units b)) bl.

Lemma sized_insert Z_ bl a v : (∀ b, b ∈ bl → b_addr b ≠ a) → sized Z_ bl → sized (<[a := v]> Z_) bl.
Proof.
  intros Hne Hs. unfold sized in *. rewrite Forall_forall in Hs |- *. intros b Hb. rewrite lookup_insert_ne by (by apply not_eq_sym, Hne). auto.
Qed.

(** The blocks on both sides of a block are elsewhere. *)
Lemma tiled_apart lo L a n f R hi : tiled lo (L ++ Blk a n f :: R) hi →
  (∀ b, b ∈ L → b_end b ≤ a) ∧ (∀ b, b ∈ R → a + HEADER * n ≤ b_addr b) ∧ 0 < n ∧ lo ≤ a ∧ a + HEADER * n ≤ hi.
Proof.
  intros Ht. apply tiled_app in Ht as [HL (H1 & H2 & HR)]. cbn in H1, H2. pose proof (tiled_le _ _ _ HL). pose proof (tiled_le _ _ _ HR).
  change (b_end (Blk a n f)) with (a + HEADER * n) in *.
  split; [intros b Hb; apply (tiled_in _ _ _ _ HL) in Hb; lia|]. split; [intros b Hb; apply (tiled_in _ _ _ _ HR) in Hb; lia|]. lia.
Qed.

Lemma touch_next lo R hi : base < lo → tiled lo R hi → hd base (frees R) = lo → ∃ m R', R = Blk lo m true :: R'.
Proof.
  intros Hb Ht Hh. destruct R as [|[a m []] R]; [cbn in Hh; lia| |].
  - rewrite frees_free in Hh. cbn in Hh. subst a. by eexists _, _.
  - exfalso. rewrite frees_live in Hh. destruct Ht as (H1 & H2 & H3). unfold b_end, HEADER in *. cbn in H1, H2, H3.
    destruct (frees R) as [|x F] eqn:EF; cbn in Hh; [lia|]. subst x.
    assert (Hx : lo ∈ frees R) by (rewrite EF; left). apply (frees_above _ _ _ _ H3) in Hx. lia.
Qed.

Lemma touch_prev L a A1 p ps hi Z_ :
  tiled (base + HEADER) L hi → hi ≤ a → base :: frees L = A1 ++ [p] → sized Z_ L → Z_ !! base = Some 0 → Z_ !! p = Some ps →
  p + HEADER * ps = a → ∃ L', L = L' ++ [Blk p ps true] ∧ A1 = base :: frees L'.
Proof.
  intros Ht Hhi EA Hs Hb Hp Htouch. unfold HEADER in *. unfold sized in Hs. rewrite Forall_forall in Hs. pose proof (tiled_le _ _ _ Ht).
  destruct (decide (p = base)) as [->|Hpb]; [rewrite Hb in Hp; injection Hp as <-; lia|].
  destruct L as [|x L' _] using rev_ind; [destruct A1 as [|? [|]]; injection EA as ->; done|].
  assert (Hx : Z_ !! b_addr x = Some (b_units x)) by (apply Hs, elem_of_app; right; left).
  apply tiled_app in Ht as [HtL (Hx1 & Hx2 & Hx3)]. pose proof (tiled_le _ _ _ Hx3). rewrite frees_app in EA. destruct x as [xa xn []]; cbn in *.
  - change (frees [Blk xa xn true]) with [xa] in EA. rewrite app_comm_cons in EA. apply app_inj_tail in EA as [EA1 EA2]. subst. cbn in *. rewrite Hx in Hp. injection Hp as <-. by exists L'.
  - exfalso. change (frees [Blk xa xn false]) with (@nil Z) in EA. rewrite app_nil_r in EA.
    assert (Hin : p ∈ base :: frees L') by (rewrite EA; apply elem_of_app; right; left).
    apply elem_of_cons in Hin as [->|Hin]; [done|]. apply elem_frees in Hin as [k Hk].
    pose proof (Hs _ ltac:(apply elem_of_app; left; exact Hk)) as Hk'. cbn in Hk'. rewrite Hp in Hk'. injection Hk' as <-.
    apply (tiled_in _ _ _ _ HtL) in Hk. unfold b_end, HEADER in *. cbn in *. lia.
Qed.

Lemma join_next L a n R A1 p s :
  tiled (base + HEADER) (L ++ Blk a n false :: R) (brk_of (ukern s)) → coalesced None R →
  linked (m_ptr s) A1 p → m_size s !! base = Some 0 → sized (m_size s) (L ++ Blk a n false :: R) →
  linked (m_ptr s) (frees R) base → a ∉ A1 →
  wp (if a + HEADER * n =? hd base (frees R) then
        let* ns := get_size (hd base (frees R)) in
        set_size a (u32 (n + ns)) ;;*
        let* nn := get_ptr (hd base (frees R)) in
        set_ptr a nn
      else set_ptr a (hd base (frees R)))
    (λ _ s', ∃ n1 R1, n ≤ n1 ∧ (lives R1 = lives R ∧ (length (frees R1) ≤ length (frees R))%nat) ∧ tiled (base + HEADER) (L ++ Blk a n1 true :: R1) (brk_of (ukern s')) ∧
      coalesced (Some (a + HEADER * n1)) R1 ∧ linked (m_ptr s') A1 p ∧ m_size s' !! base = Some 0 ∧
      sized (m_size s') (L ++ Blk a n1 true :: R1) ∧ linked (m_ptr s') (a :: frees R1) base ∧ ukern s' = ukern s) s.
Proof.
  intros Ht Hc HA Hb Hs HR Ha. destruct (tiled_apart _ _ _ _ _ _ _ Ht) as (HL & HRa & Hn & Hlo & Hhi).
  pose proof (brk_bound (ukern s)) as Hbrk. unfold HEADER in Hlo.
  assert (HaR : ∀ x, x ∈ frees R → a < x).
  { intros x Hx. apply elem_frees in Hx as [k Hk]. apply HRa in Hk. unfold HEADER in Hk. cbn in Hk. lia. }
  apply tiled_app in Ht as [HtL (H1 & _ & HtR)]. change (b_end _) with (a + HEADER * n) in HtR.
  apply Forall_app in Hs as [HsL HsR]. inversion HsR as [|? ? Hsa HsR']; subst. cbn in Hsa.
  destruct (Z.eqb_spec (a + HEADER * n) (hd base (frees R))) as [Htouch|Hno].
  - destruct (touch_next (a + HEADER * n) R (brk_of (ukern s))) as (m & R' & ->); [unfold HEADER in *; lia|done|done|].
    rewrite frees_free in *. cbn [hd] in *. destruct HtR as (_ & Hm & HtR). cbn in Hm. destruct HR as [Hq HR].
    inversion HsR' as [|? ? Hsq HsR'']; subst. cbn in Hsq. pose proof (tiled_le _ _ _ HtR) as Hle.
    change (b_end (Blk (a + HEADER * n) m true)) with (a + HEADER * n + HEADER * m) in HtR, Hle.
    apply wp_bind. eapply wp_get_size; [exact Hsq|]. apply wp_bind, wp_modify, wp_bind. eapply wp_get_ptr; [exact Hq|]. apply wp_modify.
    cbn [m_ptr m_size ukern freep]. rewrite u32_id by (unfold is_u32, HEADER in *; lia).
    exists (n + m), R'. split; [lia|]. split; [split; [done|cbn [length]; lia]|]. split.
    { apply tiled_app. split; [done|]. split; [done|]. split; [cbn; lia|].
      change (b_end _) with (a + HEADER * (n + m)). by replace (a + HEADER * (n + m)) with (a + HEADER * n + HEADER * m) by lia. }
    split. { destruct Hc as [_ Hc]. cbn in Hc. change (b_end _) with (a + HEADER * n + HEADER * m) in Hc. by replace (a + HEADER * (n + m)) with (a + HEADER * n + HEADER * m) by lia. }
    split; [by apply linked_insert|]. split; [rewrite lookup_insert_ne by lia; done|]. split.
    { apply Forall_app. split; [apply sized_insert; [|done]; intros b Hbl; pose proof (HL b Hbl); pose proof (tiled_in _ _ _ _ HtL Hbl); unfold b_end, HEADER in *; lia|].
      constructor; [by rewrite lookup_insert_eq|]. apply sized_insert; [|done]. intros b Hbl. pose proof (HRa b ltac:(by right)). unfold HEADER in *. lia. }
    split; [|done]. split; [by rewrite lookup_insert_eq|]. apply linked_insert; [|done]. intros Hin. specialize (HaR a ltac:(by right)). lia.
  - apply wp_modify. cbn [m_ptr m_size ukern freep]. exists n, R. split; [lia|]. split; [split; [done|lia]|]. split.
    { apply tiled_app. split; [done|]. by split; [|split]. }
    split. { destruct R as [|[b m []] R]; [done| |]; cbn in Hc |- *; [|by destruct Hc]. split; [|by destruct Hc]. intros _ [= E]. by apply Hno. }
    split; [by apply linked_insert|]. split; [done|]. split; [apply Forall_app; by split; [|constructor]|]. split; [|done].
    split; [by rewrite lookup_insert_eq|]. apply linked_insert; [|done]. intros Hin. specialize (HaR a Hin). lia.
Qed.

Lemma join_prev L a n1 R1 A1 p ps s :
  tiled (base + HEADER) (L ++ Blk a n1 true :: R1) (brk_of (ukern s)) → coalesced None L → coalesced (Some (a + HEADER * n1)) R1 →
  base :: frees L = A1 ++ [p] → linked (m_ptr s) A1 p → m_size s !! base = Some 0 → m_size s !! p = Some ps →
  sized (m_size s) (L ++ Blk a n1 true :: R1) → linked (m_ptr s) (a :: frees R1) base →
  wp ((if p + HEADER * ps =? a then
         let* bs := get_size a in
         set_size p (u32 (ps + bs)) ;;*
         let* bn := get_ptr a in
         set_ptr p bn
       else set_ptr p a) ;;* set_freep p)
    (λ _ s', ukern s' = ukern s ∧ ∃ bl, laid s' bl ∧
      (lives bl = lives L ++ lives R1 ∧ (length (frees bl) ≤ S (length (frees L) + length (frees R1)))%nat) ∧ ∃ x, x ∈ bl ∧ b_free x = true ∧ n1 ≤ b_units x) s.
Proof.
  intros Ht HcL HcR EA HA Hb Hp Hs [Haq HR]. destruct (tiled_apart _ _ _ _ _ _ _ Ht) as (HL & HRa & Hn & Hlo & Hhi).
  pose proof (brk_bound (ukern s)) as Hbrk. pose proof (ring_sorted base _ _ Ht) as Hsort. rewrite frees_app, frees_free, app_comm_cons, EA in Hsort.
  assert (HpA : (p ∉ A1) ∧ p ≠ a ∧ p ∉ frees R1).
  { apply sorted_nodup in Hsort. rewrite <- app_assoc in Hsort. apply NoDup_app in Hsort as (_ & H1 & H2). cbn in H1, H2.
    apply NoDup_cons in H2 as [H2 _]. apply not_elem_of_cons in H2 as [? ?]. split; [|done]. intros Hin. apply (H1 p Hin). left. }
  destruct HpA as (HpA & Hpa & HpR). apply tiled_app in Ht as [HtL (H1 & _ & HtR)]. cbn in H1. change (b_end _) with (a + HEADER * n1) in HtR.
  apply Forall_app in Hs as [HsL HsR]. inversion HsR as [|? ? Hsa HsR']; subst. cbn in Hsa. apply wp_bind.
  destruct (Z.eqb_spec (p + HEADER * ps) a) as [Htouch|Hno].
  - destruct (touch_prev L a A1 p ps _ _ HtL H1 EA HsL Hb Hp Htouch) as (L' & -> & ->).
    apply tiled_app in HtL as [HtL' (H2 & H3 & H4)]. cbn in H2, H3. apply Forall_app in HsL as [HsL' _].
    apply wp_bind. eapply wp_get_size; [exact Hsa|]. apply wp_bind, wp_modify, wp_bind. eapply wp_get_ptr; [exact Haq|]. apply wp_modify, wp_modify.
    cbn [m_ptr m_size ukern freep]. rewrite u32_id by (pose proof (tiled_le _ _ _ HtL'); unfold is_u32, HEADER in *; lia).
    assert (Eend : p + HEADER * (ps + n1) = a + HEADER * n1) by lia. split; [done|].
    exists (L' ++ Blk p (ps + n1) true :: R1). split; [|split].
    + split; cbn [m_ptr m_size ukern freep].
      * apply tiled_app. split; [done|]. split; [done|]. split; [cbn; lia|]. change (b_end _) with (p + HEADER * (ps + n1)). by rewrite Eend.
      * apply coalesced_app in HcL as [Hc1 [Hc2 _]]. apply coalesced_app. split; [done|]. split; [done|].
        change (b_end _) with (p + HEADER * (ps + n1)). by rewrite Eend.
      * rewrite frees_app, frees_free, app_comm_cons. apply linked_app. split; [by apply linked_insert|].
        split; [by rewrite lookup_insert_eq|by apply linked_insert].
      * rewrite lookup_insert_ne; [done|]. intros ->. by apply HpA; left.
      * apply Forall_app. split; [apply sized_insert; [|done]|constructor; [by rewrite lookup_insert_eq|apply sized_insert; [|done]]].
        -- intros b Hbl. pose proof (tiled_in _ _ _ _ HtL' Hbl). unfold b_end, HEADER in *. lia.
        -- intros b Hbl. pose proof (HRa b Hbl). unfold HEADER in *. lia.
      * rewrite frees_app, frees_free, app_comm_cons. apply elem_of_app. right. left.
    + split; [rewrite !lives_app; change (lives [Blk p ps true]) with (@nil blk); by rewrite app_nil_r|].
      rewrite !frees_app, frees_free, !length_app. cbn [length]. lia.
    + exists (Blk p (ps + n1) true). split; [apply elem_of_app; right; left|]. split; [done|]. cbn. lia.
  - apply wp_modify, wp_modify. cbn [m_ptr m_size ukern freep]. split; [done|]. exists (L ++ Blk a n1 true :: R1). split; [|split].
    + split; cbn [m_ptr m_size ukern freep].
      * apply tiled_app. split; [done|]. by split; [|split].
      * apply coalesced_app. split; [done|]. split; [|done]. intros _ E. apply Hno. clear -E EA HsL Hp.
        destruct L as [|x L _] using rev_ind; [done|]. unfold free_end in E. rewrite foldl_snoc in E. destruct x as [xa xn []]; [|done].
        injection E as E. rewrite frees_app in EA. change (frees [Blk xa xn true]) with [xa] in EA. rewrite app_comm_cons in EA. apply app_inj_tail in EA as [_ <-].
        apply Forall_app in HsL as [_ HsL]. inversion HsL as [|? ? Hx _]; subst. cbn in Hx. rewrite Hx in Hp. injection Hp as <-. done.
      * rewrite frees_app, frees_free, app_comm_cons, EA, <- app_assoc. apply linked_app. split; [by apply linked_insert|].
        split; [by rewrite lookup_insert_eq|]. split; [by rewrite lookup_insert_ne|by apply linked_insert].
      * done.
      * apply Forall_app. by split; [|constructor].
      * rewrite frees_app, app_comm_cons, EA. apply elem_of_app. left. apply elem_of_app. right. left.
    + split; [by rewrite lives_app|]. rewrite frees_app, frees_free, length_app. cbn [length]. lia.
    + exists (Blk a n1 true). split; [apply elem_of_app; right; left|]. split; [done|]. cbn. lia.
Qed.

(** [free] of a live block. *)
Lemma free_ok L a n R s :
  laid s (L ++ Blk a n false :: R) →
  wp (free (a + HEADER)) (λ _ s', ukern s' = ukern s ∧ ∃ bl, laid s' bl ∧
    (lives bl = lives L ++ lives R ∧ (length (frees bl) ≤ S (length (frees L) + length (frees R)))%nat) ∧ ∃ x, x ∈ bl ∧ b_free x = true ∧ n ≤ b_units x) s.
Proof.
  intros Hl. pose proof (laid_nodes _ _ Hl) as Hfu. destruct Hl as [Ht Hc HL Hb Hs Hf].
  rewrite frees_app, frees_live in HL, Hf, Hfu. destruct (tiled_apart _ _ _ _ _ _ _ Ht) as (HLa & HRa & Hn & Hlo & Hhi).
  pose proof (ring_sorted base _ _ Ht) as Hsort. rewrite frees_app, frees_live in Hsort.
  destruct (exists_last (l := base :: frees L) ltac:(done)) as (A1 & p & EA).
  assert (EAR : base :: frees L ++ frees R = A1 ++ p :: frees R) by (by rewrite app_comm_cons, EA, <- app_assoc).
  assert (Hlow : Forall (λ x, x < a) (A1 ++ [p])).
  { rewrite <- EA. apply Forall_forall. intros x [->|Hx]%elem_of_cons; [unfold HEADER in Hlo; lia|]. apply elem_frees in Hx as [k Hk].
    pose proof (HLa _ Hk). apply tiled_app in Ht as [Ht _]. apply (tiled_in _ _ _ _ Ht) in Hk. unfold b_end, HEADER in *. cbn in *. lia. }
  assert (Hhigh : Forall (λ x, a < x) (frees R)).
  { apply Forall_forall. intros x Hx. apply elem_frees in Hx as [k Hk]. apply HRa in Hk. unfold HEADER in *. cbn in *. lia. }
  unfold free. replace (a + HEADER - HEADER) with a by lia. apply wp_bind, wp_gets, wp_bind, wp_gets, wp_bind.
  eapply wp_mono; [apply (free_search a p A1 (frees R) (frees L ++ frees R)); try done; lia|]. intros p' s' [-> ->].
  rewrite EAR in HL. apply linked_app in HL as [HL1 [HLp HLR]]. cbn [hd] in HL1.
  apply Forall_app in Hs as HS. destruct HS as [HsL HsR]. inversion HsR as [|? ? Hsa HsR']; subst. cbn in Hsa.
  apply wp_bind. eapply wp_get_size; [exact Hsa|]. apply wp_bind. eapply wp_get_ptr; [exact HLp|].
  apply coalesced_app in Hc as [HcL [_ HcR]]. cbn in HcR.
  assert (HaA : a ∉ A1). { intros Hin. rewrite Forall_forall in Hlow. specialize (Hlow a ltac:(apply elem_of_app; by left)). lia. }
  apply wp_bind. eapply wp_mono; [eapply (join_next L a n R A1 p); [exact Ht|exact HcR|exact HL1|exact Hb|exact Hs|exact HLR|exact HaA]|]. intros [] s1 (n1 & R1 & Hn1 & [HlR HfR] & Ht1 & Hc1 & HA1 & Hb1 & Hs1 & HR1 & Hk1).
  assert (Hps : ∃ ps, m_size s1 !! p = Some ps).
  { assert (Hp : p ∈ base :: frees L) by (rewrite EA; apply elem_of_app; right; left). apply elem_of_cons in Hp as [->|Hp]; [by eexists|].
    apply elem_frees in Hp as [k Hk]. apply Forall_app in Hs1 as [Hs1 _]. rewrite Forall_forall in Hs1. specialize (Hs1 _ Hk). by eexists. }
  destruct Hps as [ps Hps]. apply wp_bind. eapply wp_get_size; [exact Hps|].
  eapply wp_mono; [by eapply join_prev|]. intros [] s2 (Hk2 & bl & Hbl & [Hlv Hfv] & x & Hx1 & Hx2 & Hx3). split; [congruence|].
  exists bl. split; [done|]. split; [split; [by rewrite Hlv, HlR|lia]|]. exists x. split; [done|]. split; [done|lia].
Qed.

(** ** Allocation *)

Lemma succ_in P l e x y : linked P l e → x ∈ l → P !! x = Some y → y ∈ tail l ∨ y = e.
Proof.
  induction l as [|a l IH]; [by intros _ Hx; apply not_elem_of_nil in Hx|]. intros [Ha HL] [->|Hx]%elem_of_cons Hy.
  - rewrite Ha in Hy. injection Hy as <-. destruct l as [|c l]; [by right|left; left].
  - destruct (IH HL Hx Hy) as [Hin| ->]; [|by right]. left. destruct l; [done|]. by right.
Qed.
Lemma linked_inj P l e x x' y :
  linked P l e → NoDup l → e ∉ tail l → x ∈ l → x' ∈ l → P !! x = Some y → P !! x' = Some y → x = x'.
Proof.
  induction l as [|a l IH]; [by intros _ _ _ Hx; apply not_elem_of_nil in Hx|]. cbn [tail]. intros [Ha HL] [Hal Hnd]%NoDup_cons He.
  assert (Hfirst : ∀ z, z ∈ l → P !! a = Some y → P !! z = Some y → False).
  { intros z Hz Hy Hy'. rewrite Ha in Hy. injection Hy as <-. destruct l as [|c l]; [by apply not_elem_of_nil in Hz|]. cbn [hd] in Hy'.
    apply NoDup_cons in Hnd as [Hc _]. destruct (succ_in _ _ _ _ _ HL Hz Hy') as [Hin| ->]; [done|]. apply He. left. }
  intros [->|Hx]%elem_of_cons [->|Hx']%elem_of_cons Hy Hy'; [done|exfalso; by eapply Hfirst|exfalso; by eapply Hfirst|].
  apply IH; try done. intros Hin. apply He. destruct l; [done|]. by right.
Qed.

Lemma coalesced_none e bl : coalesced e bl → coalesced None bl.
Proof. destruct bl as [|b bl]; [done|]. intros [_ Hc]. by split. Qed.

(** A block for the caller came out of the layout. *)
Definition granted (bl : list blk) (nunits : Z) (r : Z) s : Prop :=
  ∃ a bl' l1 l2, r = a + HEADER ∧ laid s bl' ∧ lives bl = l1 ++ l2 ∧ lives bl' = l1 ++ Blk a nunits false :: l2.

Lemma take_fit bl nunits prevp p sz s :
  laid s bl → 0 < nunits → prevp ∈ base :: frees bl → m_ptr s !! prevp = Some p → p ∈ base :: frees bl →
  m_size s !! p = Some sz → nunits ≤ sz →
  wp (let* p :=
        (if sz =? nunits then
           let* n := get_ptr p in
           set_ptr prevp n ;;*
           ret p
         else
           let sz := u32 (sz - nunits) in
           set_size p sz ;;*
           let p := p + HEADER * sz in
           set_size p nunits ;;*
           ret p) in
      set_freep prevp ;;*
      ret (p + HEADER)) (granted bl nunits) s.
Proof.
  intros [Ht Hc HL Hb Hs Hf] Hn Hprev Hpp Hp Hsz Hfit.
  assert (Hp' : p ∈ frees bl). { apply elem_of_cons in Hp as [->|Hp]; [|done]. rewrite Hb in Hsz. injection Hsz as <-. lia. }
  apply elem_frees in Hp' as [k Hk]. apply list_elem_of_split in Hk as (L & R & ->).
  destruct (tiled_apart _ _ _ _ _ _ _ Ht) as (HLa & HRa & Hk & Hlo & Hhi). pose proof (brk_bound (ukern s)) as Hbrk.
  pose proof (ring_sorted base _ _ Ht) as Hsort. pose proof (sorted_nodup _ Hsort) as Hnd.
  assert (E : k = sz). { apply Forall_app in Hs as [_ Hs]. inversion Hs as [|? ? Hx _]; subst. cbn in Hx. rewrite Hx in Hsz. by injection Hsz. }
  subst k. rewrite frees_app, frees_free in HL, Hprev, Hf, Hnd.
  destruct (exists_last (l := base :: frees L) ltac:(done)) as (A1 & q & EA).
  assert (Hring : base :: frees L ++ p :: frees R = A1 ++ q :: p :: frees R) by (by rewrite app_comm_cons, EA, <- app_assoc).
  pose proof HL as HL'. rewrite Hring in HL'. apply linked_app in HL' as [HLA [HLq [HLp HLR]]]. cbn [hd] in HLA, HLq.
  assert (Eq : prevp = q).
  { eapply (linked_inj _ _ _ prevp q p HL Hnd); [by apply NoDup_cons in Hnd as [? _]|done| |done|exact HLq].
    rewrite Hring. apply elem_of_app. right. left. }
  subst q. rewrite Hring in Hnd. apply NoDup_app in Hnd as (_ & HndA & HndB). apply NoDup_cons in HndB as [HndB _].
  apply not_elem_of_cons in HndB as [Hqp HqR].
  assert (HqA : prevp ∉ A1) by (intros Hin; apply (HndA prevp Hin); left).
  apply coalesced_app in Hc as [HcL [Hcp HcR]]. cbn in Hcp, HcR. apply coalesced_none in HcR.
  apply tiled_app in Ht as [HtL (Ht1 & _ & HtR)]. change (b_end (Blk p sz true)) with (p + HEADER * sz) in HtR. cbn in Ht1.
  apply Forall_app in Hs as [HsL HsR]. inversion HsR as [|? ? _ HsR']; subst.
  unfold HEADER in Hlo. apply wp_bind. destruct (Z.eqb_spec sz nunits) as [->|Hne].
  - apply wp_bind. eapply wp_get_ptr; [exact HLp|]. apply wp_bind, wp_modify, wp_ret, wp_bind, wp_modify, wp_ret.
    exists p, (L ++ Blk p nunits false :: R), (lives L), (lives R). split; [done|]. split; [|by rewrite !lives_app].
    split; cbn [m_ptr m_size ukern freep].
    + apply tiled_app. split; [done|]. by split; [|split].
    + apply coalesced_app. split; [done|]. by split.
    + rewrite frees_app, frees_live, app_comm_cons, EA, <- app_assoc. apply linked_app. split; [by apply linked_insert|].
      split; [by rewrite lookup_insert_eq|by apply linked_insert].
    + done.
    + apply Forall_app. split; [done|]. by constructor.
    + rewrite frees_app, frees_live, app_comm_cons, EA. apply elem_of_app. left. apply elem_of_app. right. left.
  - cbv zeta. rewrite u32_id by (unfold is_u32, HEADER in *; lia).
    apply wp_bind, wp_modify, wp_bind, wp_modify, wp_ret, wp_bind, wp_modify, wp_ret.
    set (p2 := p + HEADER * (sz - nunits)). exists p2, (L ++ Blk p (sz - nunits) true :: Blk p2 nunits false :: R), (lives L), (lives R).
    split; [done|]. split; [|by rewrite !lives_app].
    assert (Hp2 : p < p2 ∧ p2 + HEADER * nunits = p + HEADER * sz) by (unfold p2, HEADER; lia).
    split; cbn [m_ptr m_size ukern freep].
    + apply tiled_app. split; [done|]. split; [done|]. split; [cbn; lia|]. split; [cbn; unfold b_end; cbn; lia|]. split; [cbn; lia|].
      change (b_end _) with (p2 + HEADER * nunits). by rewrite (proj2 Hp2).
    + apply coalesced_app. split; [done|]. split; [done|]. by split.
    + by rewrite frees_app, frees_free, frees_live.
    + rewrite !lookup_insert_ne by lia. done.
    + apply Forall_app. split; [|constructor; [cbn; rewrite lookup_insert_ne, lookup_insert_eq by lia; done|constructor; [by rewrite lookup_insert_eq|]]];
        repeat (apply sized_insert); try done; intros b Hbl.
      * pose proof (HLa b Hbl). pose proof (tiled_in _ _ _ _ HtL Hbl). unfold b_end, HEADER in *. lia.
      * pose proof (HLa b Hbl). pose proof (tiled_in _ _ _ _ HtL Hbl). unfold b_end, HEADER in *. lia.
      * pose proof (HRa b Hbl). unfold HEADER in *. lia.
      * pose proof (HRa b Hbl). unfold HEADER in *. lia.
    + by rewrite frees_app, frees_free.
Qed.

(** The kernel refuses the memory for the request. *)
Definition refused (nunits : Z) (k : K) : Prop := fst (sys_sbrk (Z.max nunits 4096 * HEADER) k) = SBRK_ERROR.

Lemma morecore_ok bl nu s :
  laid s bl → 0 < nu → HEADER * nu < 2 ^ 31 →
  wp (morecore nu) (λ r s',
    r = 0 ∧ laid s' bl ∧ refused nu (ukern s) ∨
    r ≠ 0 ∧ r = freep s' ∧ ∃ bl', laid s' bl' ∧ (lives bl' = lives bl ∧ (length (frees bl') ≤ S (length (frees bl)))%nat) ∧
      ∃ x, x ∈ bl' ∧ b_free x = true ∧ nu ≤ b_units x) s.
Proof.
  intros [Ht Hc HL Hb Hs Hf] Hnu Hsz. unfold morecore. set (nu' := if _ <? _ then _ else _).
  assert (Hnu' : nu' = Z.max nu 4096 ∧ nu ≤ nu' ∧ 0 < nu' * HEADER < 2 ^ 31).
  { unfold nu', HEADER in *. destruct (Z.ltb_spec nu 4096); lia. }
  clearbody nu'. rewrite s32_id by lia.
  apply wp_bind. unfold sbrk. pose proof (sbrk_grows (nu' * HEADER) (ukern s) ltac:(lia)) as Hg.
  destruct (sys_sbrk (nu' * HEADER) (ukern s)) as [p k] eqn:Ek. eexists p, _. rewrite Ek. split; [done|].
  pose proof (brk_bound k) as Hbrk. pose proof (tiled_le _ _ _ Ht) as Hle0.
  destruct (Z.eqb_spec p SBRK_ERROR) as [->|Hp].
  { apply wp_ret. left. split; [done|]. destruct Hg as [[_ Hg]|[Hg1 Hg2]]; [|unfold SBRK_ERROR, HEADER in *; lia].
    split; [|unfold refused; rewrite <- (proj1 Hnu'), Ek; done]. split; cbn [m_ptr m_size ukern freep]; [by eapply tiled_weaken|done..]. }
  destruct Hg as [[Hg _]|[Hg1 Hg2]]; [done|]. apply wp_bind, wp_modify. cbn [m_ptr m_size ukern freep].
  assert (Hold : ∀ b, b ∈ bl → b_addr b ≠ p).
  { intros b Hbl. apply (tiled_in _ _ _ _ Ht) in Hbl. unfold b_end, HEADER in *. lia. }
  set (s1 := Umalloc _ _ _ _). assert (Hl1 : laid s1 (bl ++ [Blk p nu' false])).
  { split; cbn [s1 m_ptr m_size ukern freep].
    - apply tiled_app. pose proof (proj1 (tiled_app (base + HEADER) bl [] (brk_of (ukern s)))) as Ha. rewrite app_nil_r in Ha. destruct (Ha Ht) as [Ht1 Ht2]. cbn in Ht2.
      split; [done|]. cbn. unfold b_end, HEADER in *. cbn. lia.
    - apply coalesced_app. by split.
    - rewrite frees_app, frees_live, app_nil_r. done.
    - rewrite lookup_insert_ne; [done|]. unfold HEADER in *. lia.
    - apply Forall_app. split; [by apply sized_insert|]. constructor; [by rewrite lookup_insert_eq|constructor].
    - rewrite frees_app, frees_live, app_nil_r. done. }
  apply wp_bind. eapply wp_mono; [apply (free_ok bl p nu' [] s1 Hl1)|]. intros [] s2 (_ & bl' & Hl2 & [Hlv Hfr] & x & Hx1 & Hx2 & Hx3).
  apply wp_gets. right. pose proof (l_freep _ _ Hl2) as Hfp. split.
  { apply elem_of_cons in Hfp as [->|Hfp]; [lia|]. apply (frees_above _ _ _ _ (l_tiled _ _ Hl2)) in Hfp. unfold HEADER in *. lia. }
  split; [done|]. exists bl'. split; [done|]. split.
  { split; [by rewrite Hlv, app_nil_r|]. cbn in Hfr. lia. }
  exists x. split; [done|]. split; [done|lia].
Qed.

(** From [prevp] through [l] to the node where the search began. *)
Lemma malloc_walk bl nunits l prevp fuel (Q : Z → umalloc_t K → Prop) s :
  laid s bl → 0 < nunits → prevp ∈ base :: frees bl → linked (m_ptr s) (prevp :: l) (freep s) → freep s ∉ l →
  (∀ x, x ∈ l → x ∈ base :: frees bl) → (∀ r s', granted bl nunits r s' → Q r s') →
  ((∀ x sz, x ∈ l ++ [freep s] → m_size s !! x = Some sz → sz < nunits) →
   wp (let* p := morecore nunits in
       if p =? 0 then ret 0 else let* n := get_ptr p in malloc_loop fuel nunits p n) Q s) →
  wp (malloc_loop (length l + S fuel) nunits prevp (hd (freep s) l)) Q s.
Proof.
  intros Hl Hn. revert prevp. induction l as [|x l IH]; intros prevp Hprev [HLp HL] Hfl Hin HQ Hnone.
  - cbn [length Nat.add hd malloc_loop] in *. pose proof (l_freep _ _ Hl) as Hfp.
    assert (Hsz : ∃ sz, m_size s !! freep s = Some sz).
    { pose proof Hfp as Hfp'. apply elem_of_cons in Hfp' as [->|Hfp']; [exists 0; apply Hl|]. apply elem_frees in Hfp' as [k Hk].
      pose proof (l_sizes _ _ Hl) as Hs. rewrite Forall_forall in Hs. specialize (Hs _ Hk). by eexists. }
    destruct Hsz as [sz Hsz]. apply wp_bind. eapply wp_get_size; [exact Hsz|]. destruct (Z.leb_spec nunits sz) as [Hfit|Hsmall].
    + eapply wp_mono; [by eapply take_fit|]. exact HQ.
    + apply wp_bind, wp_gets. rewrite Z.eqb_refl. apply Hnone. intros x sz' [Hx|Hx%list_elem_of_singleton]%elem_of_app; [by apply not_elem_of_nil in Hx|].
      subst x. rewrite Hsz. intros [= <-]. done.
  - cbn [length Nat.add hd malloc_loop] in *. assert (Hxr : x ∈ base :: frees bl) by (apply Hin; left).
    assert (Hsz : ∃ sz, m_size s !! x = Some sz).
    { pose proof Hxr as Hfp'. apply elem_of_cons in Hfp' as [->|Hfp']; [exists 0; apply Hl|]. apply elem_frees in Hfp' as [k Hk].
      pose proof (l_sizes _ _ Hl) as Hs. rewrite Forall_forall in Hs. specialize (Hs _ Hk). by eexists. }
    destruct Hsz as [sz Hsz]. apply wp_bind. eapply wp_get_size; [exact Hsz|]. destruct (Z.leb_spec nunits sz) as [Hfit|Hsmall].
    + eapply wp_mono; [by eapply take_fit|]. exact HQ.
    + apply wp_bind, wp_gets. apply not_elem_of_cons in Hfl as [Hxf Hfl]. rewrite (proj2 (Z.eqb_neq x (freep s))) by congruence.
      apply wp_bind. eapply wp_get_ptr; [exact (proj1 HL)|]. apply IH; [done|done|done| |done|].
      * intros y Hy. apply Hin. by right.
      * intros Hsm. apply Hnone. intros y sz' [->|Hy]%elem_of_cons; [rewrite Hsz; intros [= <-]; done|by apply Hsm].
Qed.

(** No free block is large enough. *)
Definition exhausted (bl : list blk) (nunits : Z) : Prop := ∀ b, b ∈ bl → b_free b = true → b_units b < nunits.

Lemma malloc_loop_ok bl nunits fuel s n :
  laid s bl → 0 < nunits → HEADER * nunits < 2 ^ 31 → (2 * length (base :: frees bl) + 1 ≤ fuel)%nat → m_ptr s !! freep s = Some n →
  wp (malloc_loop fuel nunits (freep s) n) (λ r s', r = 0 ∧ laid s' bl ∧ exhausted bl nunits ∧ refused nunits (ukern s) ∨ r ≠ 0 ∧ granted bl nunits r s') s.
Proof.
  intros Hl Hn Hsz Hfu Hnext.
  assert (Hgr : ∀ bl0, lives bl0 = lives bl → ∀ r s', granted bl0 nunits r s' → r = 0 ∧ laid s' bl ∧ exhausted bl nunits ∧ refused nunits (ukern s) ∨ r ≠ 0 ∧ granted bl nunits r s').
  { intros bl0 E r s' (a & bl' & l1 & l2 & -> & Hl' & E1 & E2). right. split.
    - assert (Hin : Blk a nunits false ∈ bl').
      { assert (Hin : Blk a nunits false ∈ lives bl') by (rewrite E2; apply elem_of_app; right; left). by apply list_elem_of_filter in Hin as [_ ?]. }
      apply (tiled_in _ _ _ _ (l_tiled _ _ Hl')) in Hin. unfold HEADER in *. cbn in Hin. lia.
    - exists a, bl', l1, l2. split; [done|]. split; [done|]. split; [congruence|done]. }
  assert (Hround : ∀ bl0 s0 (Hl0 : laid s0 bl0) n0, m_ptr s0 !! freep s0 = Some n0 → ∃ r,
    linked (m_ptr s0) (freep s0 :: r) (freep s0) ∧ Permutation (freep s0 :: r) (base :: frees bl0) ∧ n0 = hd (freep s0) r ∧ freep s0 ∉ r).
  { intros bl0 s0 Hl0 n0 Hn0. destruct (ring_rotate _ _ _ _ (l_ring _ _ Hl0) (l_freep _ _ Hl0)) as (r & HLr & Hperm). exists r.
    split; [done|]. split; [done|]. destruct HLr as [HLr _]. rewrite Hn0 in HLr. injection HLr as ->. split; [done|].
    pose proof (sorted_nodup _ (ring_sorted base _ _ (l_tiled _ _ Hl0))) as Hnd. rewrite <- Hperm in Hnd. by apply NoDup_cons in Hnd as [? _]. }
  destruct (Hround _ _ Hl _ Hnext) as (r & HLr & Hperm & -> & Hfr). pose proof (Permutation_length Hperm) as Hlen. cbn [length] in Hlen, Hfu.
  replace fuel with (length r + S (fuel - length r - 1))%nat by lia.
  apply (malloc_walk bl); [done|done|apply Hl|done|done| |by apply Hgr|].
  { intros x Hx. rewrite <- Hperm. by right. }
  intros Hsmall. apply wp_bind. eapply wp_mono; [by apply (morecore_ok bl)|]. intros p s1 [(-> & Hl1 & Href)|(Hp & -> & bl1 & Hl1 & [Hlv Hfr1] & x & Hx1 & Hx2 & Hx3)].
  { apply wp_ret. left. split; [done|]. split; [done|]. split; [|done]. intros [a k []] Hb Hfree; [|done]. cbn.
    apply (Hsmall a k).
    - assert (Ha : a ∈ base :: frees bl) by (right; apply elem_frees; by exists k). rewrite <- Hperm in Ha. apply elem_of_app.
      apply elem_of_cons in Ha as [->|Ha]; [right; left|by left].
    - pose proof (l_sizes _ _ Hl) as Hs. rewrite Forall_forall in Hs. apply (Hs _ Hb). }
  rewrite (proj2 (Z.eqb_neq (freep s1) 0)) by done.
  assert (Hn1 : ∃ n1, m_ptr s1 !! freep s1 = Some n1).
  { destruct (ring_rotate _ _ _ _ (l_ring _ _ Hl1) (l_freep _ _ Hl1)) as (r1 & [HLr1 _] & _). by eexists. }
  destruct Hn1 as [n1 Hn1]. apply wp_bind. eapply wp_get_ptr; [exact Hn1|].
  destruct (Hround _ _ Hl1 _ Hn1) as (r1 & HLr1 & Hperm1 & -> & Hfr1'). pose proof (Permutation_length Hperm1) as Hlen1. cbn [length] in Hlen1.
  replace (fuel - length r - 1)%nat with (length r1 + S (fuel - length r - 1 - length r1 - 1))%nat by lia.
  apply (malloc_walk bl1); [done|done|apply Hl1|done|done| |by apply Hgr|].
  { intros y Hy. rewrite <- Hperm1. by right. }
  intros Hsmall1. exfalso. destruct x as [a k []]; [|done]. cbn in Hx3.
  assert (Ha : a ∈ base :: frees bl1) by (right; apply elem_frees; by exists k). rewrite <- Hperm1 in Ha.
  pose proof (l_sizes _ _ Hl1) as Hs1. rewrite Forall_forall in Hs1. specialize (Hs1 _ Hx1). cbn in Hs1.
  specialize (Hsmall1 a k). apply Hsmall1 in Hs1; [lia|]. apply elem_of_app. apply elem_of_cons in Ha as [->|Ha]; [right; left|by left].
Qed.

(** Before the first allocation the list does not exist. *)
Definition ready s (bl : list blk) : Prop := laid s bl ∨ freep s = 0 ∧ bl = [] ∧ base + HEADER ≤ brk_of (ukern s).

Lemma malloc_ok bl nbytes s :
  ready s bl → 0 ≤ nbytes < 2 ^ 31 - 2 * HEADER →
  wp (malloc base nbytes) (λ r s', r = 0 ∧ laid s' bl ∧ exhausted bl (units_for nbytes) ∧ refused (units_for nbytes) (ukern s) ∨ r ≠ 0 ∧ granted bl (units_for nbytes) r s') s.
Proof.
  intros Hr Hn. assert (Hu : units_for nbytes = (nbytes + 15) / 16 + 1).
  { unfold units_for, HEADER in *. rewrite u32_id by (unfold is_u32; Z.div_mod_to_equations; lia). f_equal. f_equal. lia. }
  assert (Hub : 0 < units_for nbytes ∧ HEADER * units_for nbytes < 2 ^ 31) by (rewrite Hu; unfold HEADER in *; Z.div_mod_to_equations; lia).
  unfold malloc. set (nunits := units_for nbytes) in *. clearbody nunits. cbv zeta. apply wp_bind, wp_gets.
  assert (Hgo : ∀ s0, laid s0 bl → ukern s0 = ukern s → wp (let* fuel := gets (λ s, 2 * size (m_size s) + 2)%nat in let* p := get_ptr (freep s0) in malloc_loop fuel nunits (freep s0) p)
    (λ r s', r = 0 ∧ laid s' bl ∧ exhausted bl nunits ∧ refused nunits (ukern s) ∨ r ≠ 0 ∧ granted bl nunits r s') s0).
  { intros s0 Hl Hk0. rewrite <- Hk0. pose proof (laid_nodes _ _ Hl) as Hnodes. apply wp_bind, wp_gets.
    destruct (ring_rotate _ _ _ _ (l_ring _ _ Hl) (l_freep _ _ Hl)) as (r & [HLr _] & _). apply wp_bind. eapply wp_get_ptr; [exact HLr|].
    apply malloc_loop_ok; [done|lia|lia|lia|done]. }
  destruct Hr as [Hl|(Hf & -> & Hb)].
  - assert (freep s ≠ 0).
    { pose proof (l_freep _ _ Hl) as Hfp. apply elem_of_cons in Hfp as [->|Hfp]; [lia|].
      apply (frees_above _ _ _ _ (l_tiled _ _ Hl)) in Hfp. unfold HEADER in *. lia. }
    rewrite (proj2 (Z.eqb_neq (freep s) 0)) by done. apply wp_bind, wp_ret. by apply Hgo.
  - rewrite Hf. cbn [Z.eqb]. apply wp_bind, wp_bind, wp_modify, wp_bind, wp_modify, wp_bind, wp_modify, wp_ret. cbn [m_ptr m_size ukern freep].
    set (s1 := Umalloc _ _ _ _). apply (Hgo s1); [|done]. split; cbn [s1 m_ptr m_size ukern freep frees fmap list_fmap filter list_filter].
    + exact Hb.
    + done.
    + split; [by rewrite lookup_insert_eq|done].
    + by rewrite lookup_insert_eq.
    + constructor.
    + left.
Qed.

(** ** Clients *)

Lemma tiled_disjoint lo bl hi b c : tiled lo bl hi → b ∈ bl → c ∈ bl → b = c ∨ b_end b ≤ b_addr c ∨ b_end c ≤ b_addr b.
Proof.
  intros Ht Hb Hc. apply list_elem_of_split in Hb as (L & R & ->). destruct b as [a n f].
  destruct (tiled_apart _ _ _ _ _ _ _ Ht) as (HL & HR & _). apply elem_of_app in Hc as [Hc|[->|Hc]%elem_of_cons]; [|by left|].
  - right. right. by apply HL.
  - right. left. by apply HR.
Qed.

Lemma tiled_nodup lo bl hi : tiled lo bl hi → NoDup bl.
Proof.
  revert lo. induction bl as [|b bl IH]; intros lo Ht; [constructor|]. destruct Ht as (H1 & H2 & H3). constructor; [|by eapply IH].
  intros Hb. apply (tiled_in _ _ _ _ H3) in Hb. unfold b_end, HEADER in *. lia.
Qed.

Lemma linked_ext P P' l e : (∀ a, a ∈ l → P' !! a = P !! a) → linked P l e → linked P' l e.
Proof.
  induction l as [|a l IH]; [done|]. intros Heq [H1 H2]. split; [by rewrite Heq by left|]. apply IH; [|done]. intros b Hb. apply Heq. by right.
Qed.

(** A pointer a client holds, with the size it asked for. *)
Definition block_of (x : Z * Z) : blk := Blk (fst x - HEADER) (units_for (snd x)) false.
Definition held s (live : list (Z * Z)) (bl : list blk) : Prop :=
  ready s bl ∧ Permutation (lives bl) (map block_of live) ∧ Forall (λ x, 0 ≤ snd x < 2 ^ 31 - 2 * HEADER) live.

Lemma units_bounds n : 0 ≤ n < 2 ^ 31 - 2 * HEADER → n + HEADER ≤ HEADER * units_for n.
Proof.
  intros Hn. unfold units_for, HEADER in *. rewrite u32_id by (unfold is_u32; Z.div_mod_to_equations; lia). Z.div_mod_to_equations. lia.
Qed.

Lemma held_in s live bl x : held s live bl → x ∈ live → block_of x ∈ bl.
Proof.
  intros (_ & Hp & _) Hx. assert (Hin : block_of x ∈ lives bl).
  { rewrite Hp. apply list_elem_of_In, in_map, list_elem_of_In, Hx. }
  by apply list_elem_of_filter in Hin as [_ ?].
Qed.
Lemma held_laid s live bl x : held s live bl → x ∈ live → laid s bl.
Proof. intros Hh Hx. pose proof (held_in _ _ _ _ Hh Hx) as Hin. destruct Hh as ([Hl|(_ & -> & _)] & _); [done|]. by apply not_elem_of_nil in Hin. Qed.

(** The header at [a] lies outside the memory of the clients. *)
Definition outside (live : list (Z * Z)) (a : Z) : Prop := ∀ x, x ∈ live → a + HEADER ≤ fst x ∨ fst x + snd x ≤ a.

(** What clients do: allocate, release a block they hold, write to their blocks. *)
Inductive ustep : umalloc_t K * list (Z * Z) → umalloc_t K * list (Z * Z) → Prop :=
  | u_malloc s live n r s' :
      0 ≤ n < 2 ^ 31 - 2 * HEADER → malloc base n s = Some (r, s') →
      ustep (s, live) (s', if r =? 0 then live else (r, n) :: live)
  | u_free s l1 r n l2 s' : free r s = Some (tt, s') → ustep (s, l1 ++ (r, n) :: l2) (s', l1 ++ l2)
  | u_write s live P Z_ :
      (∀ a, outside live a → P !! a = m_ptr s !! a ∧ Z_ !! a = m_size s !! a) →
      ustep (s, live) (Umalloc P Z_ (freep s) (ukern s), live).

Lemma free_held s l1 r n l2 bl : held s (l1 ++ (r, n) :: l2) bl →
  wp (free r) (λ _ s', ∃ bl', held s' (l1 ++ l2) bl') s.
Proof.
  intros Hh. assert (Hx : (r, n) ∈ l1 ++ (r, n) :: l2) by (apply elem_of_app; right; left).
  pose proof (held_laid _ _ _ _ Hh Hx) as Hl. pose proof (held_in _ _ _ _ Hh Hx) as Hin. destruct Hh as (_ & Hp & Hsz).
  apply list_elem_of_split in Hin as (L & R & ->). unfold block_of in *. cbn [fst snd] in *.
  replace r with (r - HEADER + HEADER) at 1 by lia. eapply wp_mono; [by eapply free_ok|]. intros [] s' (_ & bl' & Hl' & [Hlv _] & _).
  exists bl'. split; [by left|]. split.
  - rewrite Hlv. rewrite lives_app, map_app in Hp. cbn [map] in Hp.
    change (lives (Blk (r - HEADER) (units_for n) false :: R)) with (Blk (r - HEADER) (units_for n) false :: lives R) in Hp.
    rewrite map_app. apply (Permutation_cons_inv (a := Blk (r - HEADER) (units_for n) false)). by rewrite !Permutation_middle.
  - apply Forall_app in Hsz as [? Hsz]. inversion Hsz; subst. by apply Forall_app.
Qed.

Lemma malloc_held s live n bl : held s live bl → 0 ≤ n < 2 ^ 31 - 2 * HEADER →
  wp (malloc base n) (λ r s', ∃ bl', held s' (if r =? 0 then live else (r, n) :: live) bl') s.
Proof.
  intros (Hr & Hp & Hsz) Hn. eapply wp_mono; [by apply malloc_ok|]. intros r s' [(-> & Hl & _)|(Hr0 & a & bl' & l1 & l2 & -> & Hl & E1 & E2)].
  - exists bl. cbn. split; [by left|done].
  - rewrite (proj2 (Z.eqb_neq _ 0)) by done. exists bl'. split; [by left|]. split; [|by constructor].
    cbn [map]. rewrite <- Hp, E2, E1. unfold block_of. cbn [fst snd]. replace (a + HEADER - HEADER) with a by lia. by rewrite Permutation_middle.
Qed.

Lemma write_held s live bl P Z_ : held s live bl →
  (∀ a, outside live a → P !! a = m_ptr s !! a ∧ Z_ !! a = m_size s !! a) → held (Umalloc P Z_ (freep s) (ukern s)) live bl.
Proof.
  intros Hh Hout. pose proof Hh as ([Hl|Hl] & Hp & Hsz); [|by split; [right|]]. split; [left|done].
  assert (Hhdr : ∀ b, b ∈ bl → outside live (b_addr b)).
  { intros b Hb x Hx. pose proof (held_in _ _ _ _ Hh Hx) as Hin. rewrite Forall_forall in Hsz. pose proof (units_bounds _ (Hsz x Hx)).
    destruct (tiled_in _ _ _ _ (l_tiled _ _ Hl) Hb) as (_ & Hpos & _).
    destruct (tiled_disjoint _ _ _ _ _ (l_tiled _ _ Hl) Hb Hin) as [->|[Hd|Hd]]; unfold b_end, block_of, HEADER in *; cbn in *; lia. }
  assert (Hbase' : outside live base).
  { intros x Hx. pose proof (held_in _ _ _ _ Hh Hx) as Hin. apply (tiled_in _ _ _ _ (l_tiled _ _ Hl)) in Hin. unfold block_of, HEADER in *. cbn in *. lia. }
  destruct Hl as [Ht Hc HL Hb Hs Hf]. split; cbn [m_ptr m_size ukern freep]; [done|done| | | |done].
  - eapply linked_ext; [|exact HL]. intros a [->|Ha]%elem_of_cons; [by apply Hout|]. apply elem_frees in Ha as [k Hk]. by apply Hout, (Hhdr _ Hk).
  - by rewrite (proj2 (Hout base Hbase')).
  - rewrite Forall_forall in Hs |- *. intros b Hb'. rewrite (proj2 (Hout _ (Hhdr b Hb'))). by apply Hs.
Qed.

(** Nothing has been allocated. *)
Definition untouched s : Prop := freep s = 0 ∧ base + HEADER ≤ brk_of (ukern s).

Lemma reachable_held s0 x : untouched s0 → rtc ustep (s0, []) x → ∃ bl, held (fst x) (snd x) bl.
Proof.
  intros [H1 H2] Hr. remember (s0, []) as y eqn:Ey.
  assert (Hinit : ∃ bl, held (fst y) (snd y) bl) by (subst y; exists []; split; [by right|done]). clear Ey.
  induction Hr as [y|y z x Hstep _ IH]; [done|]. apply IH. destruct Hinit as [bl Hh]. destruct Hstep as [s live n r s' Hn E|s l1 r n l2 s' E|s live P Z_ Hout]; cbn [fst snd] in *.
  - destruct (malloc_held _ _ _ _ Hh Hn) as (r' & s'' & E' & bl' & Hh'). rewrite E in E'. injection E' as <- <-. by exists bl'.
  - destruct (free_held _ _ _ _ _ _ Hh) as ([] & s'' & E' & bl' & Hh'). rewrite E in E'. injection E' as <-. by exists bl'.
  - exists bl. by apply write_held.
Qed.

(** The blocks on the free list. *)
Definition on_list s (a : Z) : Prop := rtc (λ p q, m_ptr s !! p = Some q) (freep s) a.

Lemma on_list_ring s bl a : laid s bl → on_list s a → a ∈ base :: frees bl.
Proof.
  intros Hl Ha. pose proof (l_freep _ _ Hl) as Hf. unfold on_list in Ha. induction Ha as [|p q r Hpq _ IH]; [done|]. apply IH.
  destruct (succ_in _ _ _ _ _ (l_ring _ _ Hl) Hf Hpq) as [Hin| ->]; [by right|left].
Qed.

Lemma frees_apart lo bl hi a b n : tiled lo bl hi → coalesced None bl → Blk a n true ∈ bl → b ∈ frees bl → b ≠ a + HEADER * n.
Proof.
  intros Ht Hc Ha Hb ->. apply list_elem_of_split in Ha as (L & R & ->). destruct (tiled_apart _ _ _ _ _ _ _ Ht) as (HL & _ & Hn & _).
  rewrite frees_app, frees_free in Hb. apply tiled_app in Ht as [HtL (_ & _ & HtR)]. change (b_end (Blk a n true)) with (a + HEADER * n) in HtR.
  apply elem_of_app in Hb as [Hb|[Hb|Hb]%elem_of_cons]; [| unfold HEADER in *; lia|].
  - apply elem_frees in Hb as [k Hk]. pose proof (HL _ Hk). apply (tiled_in _ _ _ _ HtL) in Hk. unfold b_end, HEADER in *. cbn in *. lia.
  - apply coalesced_app in Hc as [_ [_ Hc]]. cbn in Hc. change (b_end (Blk a n true)) with (a + HEADER * n) in Hc.
    destruct R as [|[c k f] R]; [by apply not_elem_of_nil in Hb|]. destruct HtR as (H1 & H2 & H3). destruct Hc as [Hc _]. cbn in H1, H2, Hc. destruct f.
    + rewrite frees_free in Hb. apply elem_of_cons in Hb as [Hb|Hb]; [by apply Hc; [|congruence]|].
      apply (frees_above _ _ _ _ H3) in Hb. unfold b_end, HEADER in *. cbn in *. lia.
    + rewrite frees_live in Hb. apply (frees_above _ _ _ _ H3) in Hb. unfold b_end, HEADER in *. cbn in *. lia.
Qed.

(** ** Properties *)

(** C17: The allocator keeps its clients apart.  After any sequence of allocations
    of less than 2^31 - 32 bytes, releases of blocks that are held, and writes of the
    clients to their own blocks, in any order and whether or not [sbrk] grants memory:
    every block that is held lies
    above the static header and below the break, no two of them overlap, neither
    [malloc] of such a request nor the [free] of a held block can fault or loop, and
    no two blocks of the free list touch.  [sbrk] is assumed to do what its
    documentation says ([SbrkLaws]: it fails, or returns memory between the old break
    and the new one, never moves the break back, and stays below 2^36); [huge_request_granted_without_memory] shows
    that the bound on the requests is needed. *)
Theorem allocator_safe s0 s (live : list (Z * Z)) :
  untouched s0 → rtc ustep (s0, []) (s, live) →
  (∀ r n, (r, n) ∈ live → base + HEADER < r ∧ r + n ≤ brk_of (ukern s)) ∧
  (∀ l1 r n l2 r' n', live = l1 ++ (r, n) :: l2 → (r', n') ∈ l1 ++ l2 → r + n < r' ∨ r' + n' < r) ∧
  (∀ n, 0 ≤ n < 2 ^ 31 - 2 * HEADER → ∃ r s', malloc base n s = Some (r, s')) ∧
  (∀ r n, (r, n) ∈ live → ∃ s', free r s = Some (tt, s')) ∧
  (freep s ≠ 0 → ∀ a b sz, on_list s a → on_list s b → m_size s !! a = Some sz → 0 < sz → b ≠ a + HEADER * sz).
Proof.
  intros Hu Hr. destruct (reachable_held _ _ Hu Hr) as [bl Hh]. cbn [fst snd] in Hh. pose proof Hh as (_ & Hp & Hsz). rewrite Forall_forall in Hsz.
  split; [|split; [|split; [|split]]].
  - intros r n Hx. pose proof (held_laid _ _ _ _ Hh Hx) as Hl. pose proof (held_in _ _ _ _ Hh Hx) as Hin.
    apply (tiled_in _ _ _ _ (l_tiled _ _ Hl)) in Hin. pose proof (units_bounds _ (Hsz _ Hx)). unfold block_of, b_end, HEADER in *. cbn in *. lia.
  - intros l1 r n l2 r' n' -> Hx'. assert (Hx : (r, n) ∈ l1 ++ (r, n) :: l2) by (apply elem_of_app; right; left).
    pose proof (held_laid _ _ _ _ Hh Hx) as Hl. assert (Hx2 : (r', n') ∈ l1 ++ (r, n) :: l2) by (apply elem_of_app; apply elem_of_app in Hx' as [?|?]; [by left|by right; right]).
    assert (Hne : block_of (r, n) ≠ block_of (r', n')).
    { pose proof (NoDup_filter _ _ (tiled_nodup _ _ _ (l_tiled _ _ Hl)) : NoDup (lives bl)) as Hnd. rewrite Hp, map_app in Hnd. cbn [map] in Hnd.
      intros E. rewrite <- Permutation_middle in Hnd. apply NoDup_cons in Hnd as [Hnd _]. apply Hnd. rewrite <- map_app, E.
      apply list_elem_of_In, in_map, list_elem_of_In, Hx'. }
    pose proof (units_bounds _ (Hsz _ Hx)). pose proof (units_bounds _ (Hsz _ Hx2)).
    destruct (tiled_disjoint _ _ _ _ _ (l_tiled _ _ Hl) (held_in _ _ _ _ Hh Hx) (held_in _ _ _ _ Hh Hx2)) as [E|Hd]; [done|].
    unfold block_of, b_end, HEADER in *. cbn in *. lia.
  - intros n Hn. destruct (malloc_held _ _ _ _ Hh Hn) as (r & s' & E & _). by exists r, s'.
  - intros r n (l1 & l2 & ->)%list_elem_of_split. destruct (free_held _ _ _ _ _ _ Hh) as ([] & s' & E & _). by exists s'.
  - intros Hf a b sz Ha Hb Ea Hpos. destruct Hh as ([Hl|(E & _)] & _); [|done]. pose proof (on_list_ring _ _ _ Hl Ha) as Ha'.
    pose proof (on_list_ring _ _ _ Hl Hb) as Hb'. apply elem_of_cons in Ha' as [->|Ha']; [rewrite (l_base _ _ Hl) in Ea; injection Ea as <-; lia|].
    apply elem_frees in Ha' as [k Hk]. pose proof (l_sizes _ _ Hl) as Hs. rewrite Forall_forall in Hs. pose proof (Hs _ Hk) as Ek. cbn in Ek.
    rewrite Ea in Ek. injection Ek as <-. apply elem_of_cons in Hb' as [->|Hb'].
    + apply (tiled_in _ _ _ _ (l_tiled _ _ Hl)) in Hk. unfold HEADER in *. cbn in Hk. lia.
    + by eapply frees_apart; [apply Hl|apply Hl|..].
Qed.

(** [malloc] gives up only when there is no memory.  From every state clients
    reach it returns 0 only if the kernel refuses the block it asks [sbrk] for, and
    no block on the free list has room for the request; otherwise it returns a
    block that [free] takes back. *)
Theorem malloc_fails_only_when_full s0 s (live : list (Z * Z)) n r s' :
  untouched s0 → rtc ustep (s0, []) (s, live) → 0 ≤ n < 2 ^ 31 - 2 * HEADER → malloc base n s = Some (r, s') →
  if r =? 0 then refused (units_for n) (ukern s) ∧
    (freep s ≠ 0 → ∀ a sz, on_list s a → m_size s !! a = Some sz → sz < units_for n)
  else ∃ s'', free r s' = Some (tt, s'').
Proof.
  intros Hu Hr Hn Em. destruct (reachable_held _ _ Hu Hr) as [bl Hh]. cbn [fst snd] in Hh. pose proof Hh as (Hrd & Hp & Hsz).
  destruct (malloc_ok _ _ _ Hrd Hn) as (r1 & s1 & E & Hm). rewrite Em in E. injection E as <- <-.
  destruct Hm as [(-> & Hl & Hex & Href)|(Hr0 & _)].
  - cbn [Z.eqb]. split; [done|]. intros Hf a sz Ha Ea. destruct Hrd as [Hl0|(E & _)]; [|done].
    pose proof (on_list_ring _ _ _ Hl0 Ha) as Ha'. pose proof (units_bounds n Hn).
    apply elem_of_cons in Ha' as [->|Ha']; [rewrite (l_base _ _ Hl0) in Ea; injection Ea as <-; unfold HEADER in *; lia|].
    apply elem_frees in Ha' as [k Hk]. pose proof (l_sizes _ _ Hl0) as Hs. rewrite Forall_forall in Hs. pose proof (Hs _ Hk) as Ek. cbn in Ek.
    rewrite Ea in Ek. injection Ek as <-. by apply (Hex _ Hk).
  - rewrite (proj2 (Z.eqb_neq r 0)) by done. destruct (malloc_held _ _ _ _ Hh Hn) as (r1 & s1 & E & bl' & Hh'). rewrite Em in E. injection E as <- <-.
    rewrite (proj2 (Z.eqb_neq r 0)) in Hh' by done. destruct (free_held s' [] r n live bl' Hh') as ([] & s'' & E'' & _). by exists s''.
Qed.
End Proofs.

(** *** A small machine *)

(** The bytes that are left below 2^30. *)
#[local] Instance left_sbrk : SbrkKernel N := {
  sys_sbrk n k := if n <=? Z.of_N k then (2 ^ 30 - Z.of_N k, (k - Z.to_N n)%N) else (SBRK_ERROR, k);
  brk_of k := 2 ^ 30 - Z.of_N k;
}.
#[local] Instance left_laws : SbrkLaws N.
Proof.
  split; cbn.
  - intros n k Hn. destruct (Z.leb_spec n (Z.of_N k)); [right|left; split; [done|lia]]. rewrite N2Z.inj_sub by lia. lia.
  - intros k. lia.
Qed.

Definition fresh_heap : umalloc_t N := Umalloc ∅ ∅ 0 (2 ^ 17)%N.
Definition after_malloc (n : Z) (s : umalloc_t N) : Z * umalloc_t N := default (0, s) (malloc 4096 n s).
Definition after_free (r : Z) (s : umalloc_t N) : umalloc_t N := default s (snd <$> free r s).
Definition first : Z * umalloc_t N := after_malloc 100 fresh_heap.
Definition second : Z * umalloc_t N := after_malloc 40 (snd first).
Definition third : umalloc_t N := after_free (fst first) (snd second).

Lemma three_calls : rtc (ustep 4096) (fresh_heap, []) (third, [(fst second, 40)]).
Proof.
  eapply rtc_l; [apply (u_malloc 4096 fresh_heap [] 100 (fst first) (snd first)); [unfold HEADER; lia|vm_compute; reflexivity]|].
  eapply rtc_l; [apply (u_malloc 4096 (snd first) [(fst first, 100)] 40 (fst second) (snd second)); [unfold HEADER; lia|vm_compute; reflexivity]|].
  eapply rtc_l; [|apply rtc_refl]. apply (u_free 4096 (snd second) [(fst second, 40)] (fst first) 100 [] third). vm_compute. reflexivity.
Qed.

Lemma allocator_safe_witness : ∃ s', free (fst second) third = Some (tt, s').
Proof.
  destruct (allocator_safe 4096 ltac:(lia) fresh_heap third [(fst second, 40)]) as (_ & _ & _ & Hf & _).
  - split; [reflexivity|vm_compute; discriminate].
  - exact three_calls.
  - apply (Hf _ 40). apply list_elem_of_singleton. reflexivity.
Defined.

Lemma malloc_fails_only_when_full_witness : fst (after_malloc 70000 third) = 0 ∧ refused (units_for 70000) (ukern third).
Proof.
  pose proof (malloc_fails_only_when_full 4096 ltac:(lia) fresh_heap third [(fst second, 40)] 70000 (fst (after_malloc 70000 third))
    (snd (after_malloc 70000 third))) as Hm.
  assert (E : fst (after_malloc 70000 third) = 0) by (vm_compute; reflexivity). split; [exact E|]. rewrite E in Hm. apply Hm.
  - split; [reflexivity|vm_compute; discriminate].
  - exact three_calls.
  - unfold HEADER. lia.
  - rewrite <- E. vm_compute. reflexivity.
Defined.

(** A request for 2^32 - 1 bytes is granted with no memory behind it: the number of
    bytes [morecore] asks for does not fit the [int] parameter of [sbrk] and is cut
    to 16, the size of the header. *)
Lemma huge_request_granted_without_memory :
  let '(r, s) := after_malloc (2 ^ 32 - 1) fresh_heap in r ≠ 0 ∧ r = brk_of (ukern s).
Proof. vm_compute. split; [discriminate|reflexivity]. Qed.
