(* ===== verification/Ulib.v ===== *)
(** * Memory and string loops of the C library (src/xv6-riscv/user/ulib.c)

    Memory is one list of bytes, a pointer an offset into it; an access outside
    it is [None]. *)
From S2P Require Import Prelude.

Definition load (m : list Z) (a : Z) : option Z := if 0 <=? a then m !! Z.to_nat a else None.
Definition store (m : list Z) (a v : Z) : option (list Z) :=
  if (0 <=? a) && (a <? len m) then Some (<[Z.to_nat a := u8 v]> m) else None.

(** ** The functions *)

(** [while(n-- > 0) *dst++ = *src++;] *)
Fixpoint move_up (n : nat) (dst src : Z) (m : list Z) : option (list Z) :=
  match n with
  | O => Some m
  | S n => v ← load m src; m ← store m dst v; move_up n (dst + 1) (src + 1) m
  end.
(** [while(n-- > 0) *--dst = *--src;] *)
Fixpoint move_down (n : nat) (dst src : Z) (m : list Z) : option (list Z) :=
  match n with
  | O => Some m
  | S n => v ← load m (src - 1); m ← store m (dst - 1) v; move_down n (dst - 1) (src - 1) m
  end.
Definition memmove (vdst vsrc n : Z) (m : list Z) : option (list Z) :=
  if vdst <? vsrc then move_up (Z.to_nat n) vdst vsrc m
  else move_down (Z.to_nat n) (vdst + n) (vsrc + n) m.

Fixpoint memset_loop (n : nat) (dst c : Z) (m : list Z) : option (list Z) :=
  match n with
  | O => Some m
  | S n => m ← store m dst c; memset_loop n (dst + 1) c m
  end.
Definition memset (dst c n : Z) (m : list Z) : option (list Z) := memset_loop (Z.to_nat n) dst c m.

(** The pointer found, [Some None] for the null pointer; the loop runs off the
    memory when no NUL follows. *)
Fixpoint strchr_loop (fuel : nat) (m : list Z) (s c : Z) : option (option Z) :=
  match fuel with
  | O => None
  | S fuel =>
      x ← load m s;
      if x =? 0 then Some None
      else if x =? c then Some (Some s)
      else strchr_loop fuel m (s + 1) c
  end.
Definition strchr (m : list Z) (s c : Z) : option (option Z) := strchr_loop (S (length m)) m s c.

Fixpoint memcmp_loop (n : nat) (m : list Z) (p1 p2 : Z) : option Z :=
  match n with
  | O => Some 0
  | S n =>
      x ← load m p1;
      y ← load m p2;
      if negb (x =? y) then Some (x - y) else memcmp_loop n m (p1 + 1) (p2 + 1)
  end.
Definition memcmp (s1 s2 n : Z) (m : list Z) : option Z := memcmp_loop (Z.to_nat n) m s1 s2.

(** The copy ends with the NUL, or runs off the memory. *)
Fixpoint strcpy_loop (fuel : nat) (s t : Z) (m : list Z) : option (list Z) :=
  match fuel with
  | O => None
  | S fuel =>
      v ← load m t;
      m ← store m s v;
      if u8 v =? 0 then Some m else strcpy_loop fuel (s + 1) (t + 1) m
  end.
Definition strcpy (s t : Z) (m : list Z) : option (list Z) := strcpy_loop (S (length m)) s t m.

(** The string at an address. *)
Fixpoint until_nul (l : list Z) : list Z :=
  match l with
  | c :: l => if c =? 0 then [] else c :: until_nul l
  | [] => []
  end.
Definition string_at (m : list Z) (p : Z) : list Z := until_nul (drop (Z.to_nat p) m).

(** ** What they do *)

Lemma string_at_app w l r : 0 ∉ l → string_at (w ++ l ++ 0 :: r) (len w) = l.
Proof.
  intros Hl. unfold string_at. rewrite to_nat_len, drop_app_length. induction l as [|c l IH]; [done|]. apply not_elem_of_cons in Hl as [Hc Hl].
  cbn [app until_nul]. rewrite (proj2 (Z.eqb_neq c 0)) by done. f_equal. by apply IH.
Qed.

Lemma load_at w x r : load (w ++ x :: r) (len w) = Some x.
Proof.
  unfold load. pose proof (len_nonneg w). rewrite (proj2 (Z.leb_le _ _)), to_nat_len by lia. by rewrite lookup_app_r, Nat.sub_diag by lia.
Qed.

Lemma load_byte m a : 0 ≤ a < len m → load m a = Some (byte_at m a).
Proof.
  intros Ha. unfold load, byte_at, len in *. rewrite (proj2 (Z.leb_le _ _)) by lia. destruct (lookup_lt_is_Some_2 m (Z.to_nat a)) as [x Hx]; [lia|].
  rewrite Hx. symmetry. f_equal. apply nth_lookup_Some with (d := 0) in Hx. done.
Qed.

Lemma store_at w x r v : is_byte v → store (w ++ x :: r) (len w) v = Some (w ++ v :: r).
Proof.
  intros Hv. unfold store. pose proof (len_nonneg w). pose proof (len_nonneg r).
  rewrite (proj2 (Z.leb_le _ _)), (proj2 (Z.ltb_lt _ _)) by (rewrite ?len_app, ?len_cons; lia). cbn [andb]. rewrite to_nat_len, u8_id by done.
  by rewrite insert_app_r_alt, Nat.sub_diag by lia.
Qed.

Lemma load_nat m (a : nat) x : m !! a = Some x → load m (Z.of_nat a) = Some x.
Proof. intros E. unfold load. by rewrite (proj2 (Z.leb_le _ _)), Nat2Z.id by lia. Qed.

Lemma store_nat m (a : nat) v : (a < length m)%nat → is_byte v → store m (Z.of_nat a) v = Some (<[a := v]> m).
Proof.
  intros Ha Hv. unfold store, len. rewrite (proj2 (Z.leb_le _ _)), (proj2 (Z.ltb_lt _ _)) by lia. cbn [andb]. by rewrite Nat2Z.id, u8_id.
Qed.

Lemma bytes_lookup m (a : nat) x : is_bytes m → m !! a = Some x → is_byte x.
Proof. intros Hm E. by eapply (Forall_lookup_1 _ _ _ _ Hm). Qed.

(** What a copy leaves at every place. *)
Definition copied (m : list Z) (d s n : nat) (m' : list Z) : Prop :=
  length m' = length m ∧ is_bytes m' ∧ ∀ i, m' !! i = if decide (d ≤ i < d + n)%nat then m !! (s + (i - d))%nat else m !! i.

Lemma move_up_spec n d s m : (d < s)%nat → (s + n ≤ length m)%nat → is_bytes m →
  ∃ m', move_up n (Z.of_nat d) (Z.of_nat s) m = Some m' ∧ copied m d s n m'.
Proof.
  revert d s m. induction n as [|n IH]; intros d s m Hds Hl Hm; cbn [move_up].
  - exists m. split; [done|]. split; [done|]. split; [done|]. intros i. by rewrite decide_False by lia.
  - destruct (lookup_lt_is_Some_2 m s) as [v Hv]; [lia|]. pose proof (bytes_lookup _ _ _ Hm Hv) as Hb.
    rewrite (load_nat _ _ _ Hv). cbn [mbind option_bind]. rewrite store_nat by (done || lia). cbn [mbind option_bind].
    replace (Z.of_nat d + 1) with (Z.of_nat (S d)) by lia. replace (Z.of_nat s + 1) with (Z.of_nat (S s)) by lia.
    destruct (IH (S d) (S s) (<[d := v]> m)) as (m' & E & L & B & H); [lia|rewrite length_insert; lia|by apply Forall_insert|].
    exists m'. split; [done|]. rewrite length_insert in L. split; [done|]. split; [done|]. intros i. rewrite H.
    destruct (decide (i = d)) as [->|Hne].
    + rewrite decide_False, decide_True by lia. rewrite list_lookup_insert_eq by lia. by rewrite Nat.sub_diag, Nat.add_0_r.
    + destruct (decide (S d ≤ i < S d + n)%nat).
      * rewrite decide_True by lia. rewrite list_lookup_insert_ne by lia. f_equal. lia.
      * rewrite decide_False by lia. by rewrite list_lookup_insert_ne by lia.
Qed.

Lemma move_down_spec n d s m : (s ≤ d)%nat → (d + n ≤ length m)%nat → is_bytes m →
  ∃ m', move_down n (Z.of_nat (d + n)) (Z.of_nat (s + n)) m = Some m' ∧ copied m d s n m'.
Proof.
  revert m. induction n as [|n IH]; intros m Hds Hl Hm; cbn [move_down].
  - exists m. split; [done|]. split; [done|]. split; [done|]. intros i. by rewrite decide_False by lia.
  - destruct (lookup_lt_is_Some_2 m (s + n)) as [v Hv]; [lia|]. pose proof (bytes_lookup _ _ _ Hm Hv) as Hb.
    replace (Z.of_nat (s + S n) - 1) with (Z.of_nat (s + n)) by lia. replace (Z.of_nat (d + S n) - 1) with (Z.of_nat (d + n)) by lia.
    rewrite (load_nat _ _ _ Hv). cbn [mbind option_bind]. rewrite store_nat by (done || lia). cbn [mbind option_bind].
    destruct (IH (<[(d + n)%nat := v]> m)) as (m' & E & L & B & H); [lia|rewrite length_insert; lia|by apply Forall_insert|].
    exists m'. split; [done|]. rewrite length_insert in L. split; [done|]. split; [done|]. intros i. rewrite H.
    destruct (decide (i = d + n)%nat) as [->|Hne].
    + rewrite decide_False, decide_True by lia. rewrite list_lookup_insert_eq by lia. rewrite <- Hv. f_equal. lia.
    + destruct (decide (d ≤ i < d + n)%nat).
      * rewrite decide_True by lia. by rewrite list_lookup_insert_ne by lia.
      * rewrite decide_False by lia. by rewrite list_lookup_insert_ne by lia.
Qed.

(** [memmove] copies as if through a buffer of its own, also when the two regions
    overlap, and touches nothing else. *)
Lemma memmove_exact d s n m :
  0 ≤ d → 0 ≤ s → 0 ≤ n → d + n ≤ len m → s + n ≤ len m → is_bytes m →
  ∃ m', memmove d s n m = Some m' ∧ copied m (Z.to_nat d) (Z.to_nat s) (Z.to_nat n) m'.
Proof.
  intros Hd Hs Hn Ld Ls Hm. unfold memmove, len in *. destruct (Z.ltb_spec d s).
  - pose proof (move_up_spec (Z.to_nat n) (Z.to_nat d) (Z.to_nat s) m) as Hu. rewrite !Z2Nat.id in Hu by done. apply Hu; [lia|lia|done].
  - replace (d + n) with (Z.of_nat (Z.to_nat d + Z.to_nat n)) by lia. replace (s + n) with (Z.of_nat (Z.to_nat s + Z.to_nat n)) by lia.
    apply move_down_spec; [lia|lia|done].
Qed.

(** To the front of the buffer. *)
Lemma memmove_front m w x r :
  is_bytes m → m = w ++ x ++ r → ∃ r', memmove 0 (len w) (len x) m = Some (x ++ r') ∧ length (x ++ r') = length m ∧ is_bytes (x ++ r').
Proof.
  intros Hm E. pose proof (len_nonneg w). pose proof (len_nonneg x). pose proof (len_nonneg r).
  destruct (memmove_exact 0 (len w) (len x) m) as (m' & -> & L & B & H'); try done; try (rewrite E, !len_app; lia).
  rewrite !to_nat_len in H'. change (Z.to_nat 0) with 0%nat in H'. exists (drop (length x) m').
  assert (Ex : m' = x ++ drop (length x) m').
  { rewrite <- (take_drop (length x) m') at 1. f_equal. apply list_eq. intros i. destruct (decide (i < length x)%nat) as [Hi|Hi].
    - rewrite lookup_take_lt, H', decide_True by lia. rewrite E, lookup_app_r, lookup_app_l by lia. f_equal. lia.
    - rewrite lookup_take_ge by lia. symmetry. apply lookup_ge_None_2. lia. }
  rewrite <- Ex. done.
Qed.

Lemma strchr_loop_spec fuel m w a x r c :
  m = w ++ a ++ x :: r → 0 ∉ a → c ∉ a → (length a < fuel)%nat →
  strchr_loop fuel m (len w) c = if x =? 0 then Some None else if x =? c then Some (Some (len w + len a)) else strchr_loop (fuel - S (length a)) m (len w + len a + 1) c.
Proof.
  revert fuel w. induction a as [|y a IH]; intros fuel w E H0 Hc Hf; (destruct fuel as [|fuel]; [cbn in Hf; lia|]); cbn [strchr_loop].
  - rewrite E. cbn [app]. rewrite load_at. cbn [mbind option_bind length]. rewrite len_nil, Z.add_0_r, Nat.sub_succ, Nat.sub_0_r. done.
  - apply not_elem_of_cons in H0 as [Hy0 H0]. apply not_elem_of_cons in Hc as [Hyc Hc].
    replace (load m (len w)) with (Some y) by (rewrite E; cbn [app]; by rewrite load_at). cbn [mbind option_bind].
    rewrite (proj2 (Z.eqb_neq y 0)), (proj2 (Z.eqb_neq y c)) by done. replace (len w + 1) with (len (w ++ [y])) by (rewrite len_app, len_cons, len_nil; lia).
    rewrite IH; [|rewrite E, <- app_assoc; done|done|done|cbn in Hf; lia]. rewrite !len_app, !len_cons, len_nil. cbn [length].
    replace (len w + (1 + 0) + len a) with (len w + (1 + len a)) by lia. done.
Qed.

Lemma strchr_found m w a c r : m = w ++ a ++ c :: r → 0 ∉ a → c ∉ a → c ≠ 0 → strchr m (len w) c = Some (Some (len w + len a)).
Proof.
  intros E H0 Hc Hne. unfold strchr. rewrite (strchr_loop_spec _ m w a c r) by (done || (rewrite E, !length_app; cbn [length]; lia)).
  by rewrite (proj2 (Z.eqb_neq c 0)), Z.eqb_refl by done.
Qed.

Lemma strchr_absent m w a c r : m = w ++ a ++ 0 :: r → 0 ∉ a → c ∉ a → strchr m (len w) c = Some None.
Proof.
  intros E H0 Hc. unfold strchr. by rewrite (strchr_loop_spec _ m w a 0 r) by (done || (rewrite E, !length_app; cbn [length]; lia)).
Qed.

(** [memset] fills its region and nothing else. *)
Lemma memset_exact d c n m : 0 ≤ d → 0 ≤ n → d + n ≤ len m →
  ∃ m', memset d c n m = Some m' ∧ length m' = length m ∧
    ∀ i, m' !! i = if decide (Z.to_nat d ≤ i < Z.to_nat (d + n))%nat then Some (u8 c) else m !! i.
Proof.
  intros Hd Hn Hl. unfold memset. replace (Z.to_nat (d + n)) with (Z.to_nat d + Z.to_nat n)%nat by lia.
  assert (Hl' : (Z.to_nat d + Z.to_nat n ≤ length m)%nat) by (unfold len in Hl; lia). clear Hl Hn. revert d m Hd Hl'.
  induction (Z.to_nat n) as [|k IH]; intros d m Hd Hl'; cbn [memset_loop].
  - exists m. split; [done|]. split; [done|]. intros i. by rewrite decide_False by lia.
  - unfold store. rewrite (proj2 (Z.leb_le _ _)), (proj2 (Z.ltb_lt _ _)) by (unfold len; lia). cbn [andb mbind option_bind].
    destruct (IH (d + 1) (<[Z.to_nat d := u8 c]> m)) as (m' & E & L & H); [lia|rewrite length_insert; lia|]. exists m'. split; [done|].
    rewrite length_insert in L. split; [done|]. intros i. rewrite H. replace (Z.to_nat (d + 1)) with (S (Z.to_nat d)) by lia.
    destruct (decide (i = Z.to_nat d)) as [->|Hne].
    + rewrite decide_False, decide_True by lia. by rewrite list_lookup_insert_eq by lia.
    + destruct (decide (S (Z.to_nat d) ≤ i < S (Z.to_nat d) + k)%nat); [by rewrite decide_True by lia|].
      rewrite decide_False by lia. by rewrite list_lookup_insert_ne by lia.
Qed.

(** [memcmp] returns 0 exactly for equal regions. *)
Lemma memcmp_equal m w1 x r1 w2 y r2 : m = w1 ++ x ++ r1 → m = w2 ++ y ++ r2 → length x = length y →
  ∃ v, memcmp (len w1) (len w2) (len x) m = Some v ∧ (v = 0 ↔ x = y).
Proof.
  unfold memcmp. rewrite to_nat_len. revert w1 w2 y. induction x as [|a x IH]; intros w1 w2 [|b y] E1 E2 Hl; try done; cbn [length memcmp_loop].
  - by exists 0.
  - replace (load m (len w1)) with (Some a) by (rewrite E1; cbn [app]; by rewrite load_at).
    replace (load m (len w2)) with (Some b) by (rewrite E2; cbn [app]; by rewrite load_at). cbn [mbind option_bind].
    destruct (Z.eqb_spec a b) as [->|Hne]; cbn [negb]; [|exists (a - b); split; [done|]; split; [lia|by intros [= ? _]]].
    destruct (IH (w1 ++ [b]) (w2 ++ [b]) y) as (v & E & Hv); [by rewrite <- app_assoc|by rewrite <- app_assoc|by injection Hl|].
    rewrite !len_app, len_cons, len_nil in E. exists v. split; [exact E|]. rewrite Hv. split; [by intros ->|by intros [= ->]].
Qed.

(** [strcpy] copies the string and its NUL to a region that lies before it. *)
Lemma strcpy_exact w g t str r : is_bytes str → 0 ∉ str → (length str < length g)%nat →
  let m := w ++ g ++ t ++ str ++ 0 :: r in
  strcpy (len w) (len (w ++ g ++ t)) m = Some (w ++ (str ++ [0]) ++ drop (S (length str)) g ++ t ++ str ++ 0 :: r).
Proof.
  intros Hb H0 Hl m. unfold strcpy.
  assert (Hgo : ∀ fuel w g t str r, is_bytes str → 0 ∉ str → (length str < length g)%nat → (length str < fuel)%nat →
    strcpy_loop fuel (len w) (len (w ++ g ++ t)) (w ++ g ++ t ++ str ++ 0 :: r) = Some (w ++ (str ++ [0]) ++ drop (S (length str)) g ++ t ++ str ++ 0 :: r)).
  { clear. induction fuel as [|fuel IH]; intros w g t str r Hb H0 Hl Hf; [lia|]. cbn [strcpy_loop]. destruct g as [|y g]; [cbn in Hl; lia|]. destruct str as [|v str].
    - replace (w ++ (y :: g) ++ t ++ [] ++ 0 :: r) with ((w ++ (y :: g) ++ t) ++ 0 :: r) by (by rewrite <- !app_assoc). rewrite load_at. cbn [mbind option_bind].
      replace ((w ++ (y :: g) ++ t) ++ 0 :: r) with (w ++ y :: g ++ t ++ 0 :: r) by (by rewrite <- !app_assoc). rewrite store_at by (unfold is_byte; lia). done.
    - replace (w ++ (y :: g) ++ t ++ (v :: str) ++ 0 :: r) with ((w ++ (y :: g) ++ t) ++ v :: str ++ 0 :: r) by (by rewrite <- !app_assoc). rewrite load_at. cbn [mbind option_bind].
      apply Forall_cons in Hb as [Hv Hb]. apply not_elem_of_cons in H0 as [Hz H0].
      replace ((w ++ (y :: g) ++ t) ++ v :: str ++ 0 :: r) with (w ++ y :: g ++ t ++ v :: str ++ 0 :: r) by (by rewrite <- !app_assoc). rewrite store_at by done. cbn [mbind option_bind].
      rewrite u8_id by done. rewrite (proj2 (Z.eqb_neq v 0)) by congruence. specialize (IH (w ++ [v]) g (t ++ [v]) str r Hb H0 ltac:(cbn in Hl; lia) ltac:(cbn in Hf; lia)).
      rewrite <- !app_assoc in IH. cbn [app] in IH. rewrite !len_app, !len_cons, !len_app, !len_nil in *. rewrite !len_cons, len_nil in IH.
      replace (len w + (1 + 0)) with (len w + 1) in IH by lia. replace (len w + (1 + (len g + (len t + (1 + 0))))) with (len w + (1 + len g + len t) + 1) in IH by lia.
      rewrite IH. by rewrite <- !app_assoc. }
  apply Hgo; [done|done|done|]. unfold m. rewrite !length_app. cbn [length]. lia.
Qed.
