(* ===== verification/Grep.v ===== *)
(** * grep (src/xv6-riscv/user/grep.c)

    The matcher of regular expressions, and the loop that cuts what it reads into
    lines in a buffer of 1024 bytes.  A string is the list of its characters; the
    character after the last is the NUL.  Opening the files is not modelled. *)
From S2P Require Import Prelude Ulib.

Definition CARET : Z := 94.
Definition DOLLAR : Z := 36.
Definition STAR : Z := 42.
Definition DOT : Z := 46.
Definition NEWLINE : Z := 10.

(** ** The matcher *)

(** [here] is [matchhere] for the rest of the expression. *)
Fixpoint matchstar (here : list Z → bool) (c : Z) (text : list Z) : bool :=
  if here text then true
  else
    match text with
    | x :: text => if (x =? c) || (c =? DOT) then matchstar here c text else false
    | [] => false
    end.

Fixpoint matchhere (re text : list Z) {struct re} : bool :=
  match re with
  | [] => true
  | c :: re1 =>
      let one :=
        match text with
        | x :: text => if (c =? DOT) || (c =? x) then matchhere re1 text else false
        | [] => false
        end in
      match re1 with
      | d :: re2 => if d =? STAR then matchstar (matchhere re2) c text else one
      | [] => if c =? DOLLAR then match text with [] => true | _ => false end else one
      end
  end.

Fixpoint match_loop (re text : list Z) : bool :=
  if matchhere re text then true
  else
    match text with
    | [] => false
    | _ :: text => match_loop re text
    end.
Definition match_ (re text : list Z) : bool :=
  match re with
  | c :: re1 => if c =? CARET then matchhere re1 text else match_loop re text
  | [] => match_loop re text
  end.

(** ** The lines *)

Section Grep.
(** [read]: the count it returns and the bytes it stores. *)
Context {K : Type} (sys_read : Z → K → Z * list Z * K).

(** The inner loop: the pointer [p] it ends with, the buffer and the output. *)
Fixpoint scan (fuel : nat) (pattern : list Z) (p : Z) (buf out : list Z) : option (Z * list Z * list Z) :=
  match fuel with
  | O => None
  | S fuel =>
      q ← strchr buf p NEWLINE;
      match q with
      | None => Some (p, buf, out)
      | Some q =>
          buf ← store buf q 0;
          if match_ pattern (string_at buf p) then
            buf ← store buf q NEWLINE;
            scan fuel pattern (q + 1) buf (out ++ slice p (q + 1 - p) buf)
          else scan fuel pattern (q + 1) buf out
      end
  end.

Fixpoint grep_loop (fuel : nat) (pattern : list Z) (m : Z) (buf out : list Z) (k : K) : option (list Z * list Z * K) :=
  match fuel with
  | O => None
  | S fuel =>
      let '(n, bs, k) := sys_read (1024 - m - 1) k in
      if 0 <? n then
        let buf := splice m bs buf in
        let m := m + n in
        buf ← store buf m 0;
        '(p, buf, out) ← scan (S (length buf)) pattern 0 buf out;
        if 0 <? m then
          let m := m - p in
          buf ← memmove 0 p m buf;
          grep_loop fuel pattern m buf out k
        else grep_loop fuel pattern m buf out k
      else Some (out, buf, k)
  end.

(** What [grep] writes to the console. *)
Definition grep (fuel : nat) (pattern buf : list Z) (k : K) : option (list Z * list Z * K) := grep_loop fuel pattern 0 buf [] k.
End Grep.

(** ** The meaning of an expression

    The expression is a word of items, possibly anchored at either end. *)
Inductive item := One (c : Z) | Star (c : Z).

Fixpoint items (re : list Z) : list item * bool :=
  match re with
  | [] => ([], false)
  | c :: re1 =>
      match re1 with
      | d :: re2 => if d =? STAR then let '(l, e) := items re2 in (Star c :: l, e) else let '(l, e) := items re1 in (One c :: l, e)
      | [] => if c =? DOLLAR then ([], true) else ([One c], false)
      end
  end.

Definition accepts (c x : Z) : Prop := c = DOT ∨ c = x.

Inductive lang : list item → list Z → Prop :=
  | lang_nil : lang [] []
  | lang_one c x l w : accepts c x → lang l w → lang (One c :: l) (x :: w)
  | lang_star c u l w : Forall (accepts c) u → lang l w → lang (Star c :: l) (u ++ w).

(** A match at the beginning of a text. *)
Definition here (l : list item) (e : bool) (text : list Z) : Prop :=
  ∃ mid post, text = mid ++ post ∧ lang l mid ∧ (e = true → post = []).

Lemma matchstar_spec f c text (Q : list Z → Prop) :
  (∀ t, f t = true ↔ Q t) →
  matchstar f c text = true ↔ ∃ u v, text = u ++ v ∧ Forall (accepts c) u ∧ Q v.
Proof.
  intros HQ. induction text as [|x text IH]; cbn [matchstar].
  - destruct (f []) eqn:E; split; try done.
    + intros _. exists [], []. split; [done|]. split; [constructor|by apply HQ].
    + intros (u & v & Euv & _ & Hv). symmetry in Euv. apply app_nil in Euv as [-> ->]. apply HQ in Hv. congruence.
  - destruct (f (x :: text)) eqn:E.
    + split; [|done]. intros _. exists [], (x :: text). split; [done|]. split; [constructor|by apply HQ].
    + destruct ((x =? c) || (c =? DOT)) eqn:Ea.
      * rewrite IH. assert (Ha : accepts c x) by (apply orb_true_iff in Ea as [Ea%Z.eqb_eq|Ea%Z.eqb_eq]; [by right|by left]). split.
        -- intros (u & v & -> & Hu & Hv). exists (x :: u), v. split; [done|]. split; [by constructor|done].
        -- intros ([|y u] & v & Euv & Hu & Hv); [cbn in Euv; subst v; apply HQ in Hv; congruence|].
           injection Euv as <- ->. apply Forall_cons in Hu as [_ Hu]. by exists u, v.
      * split; [done|]. intros ([|y u] & v & Euv & Hu & Hv); [cbn in Euv; subst v; apply HQ in Hv; congruence|].
        injection Euv as <- ->. apply Forall_cons in Hu as [Ha _]. apply orb_false_iff in Ea as [E1%Z.eqb_neq E2%Z.eqb_neq]. by destruct Ha.
Qed.

Lemma here_one c l e text : here (One c :: l) e text ↔ ∃ x t, text = x :: t ∧ accepts c x ∧ here l e t.
Proof.
  split.
  - intros (mid & post & -> & Hl & He). inversion Hl; subst. eexists _, _. split; [done|]. split; [done|]. by eexists _, post.
  - intros (x & t & -> & Ha & mid & post & -> & Hl & He). exists (x :: mid), post. split; [done|]. split; [by constructor|done].
Qed.

Lemma here_star c l e text : here (Star c :: l) e text ↔ ∃ u v, text = u ++ v ∧ Forall (accepts c) u ∧ here l e v.
Proof.
  split.
  - intros (mid & post & -> & Hl & He). inversion Hl as [| |? u ? w Hu Hw]; subst. exists u, (w ++ post). rewrite app_assoc. split; [done|]. split; [done|]. by exists w, post.
  - intros (u & v & -> & Hu & mid & post & -> & Hl & He). exists (u ++ mid), post. rewrite app_assoc. split; [done|]. split; [by constructor|done].
Qed.

Lemma one_spec c l e text (f : list Z → bool) :
  (∀ t, f t = true ↔ here l e t) →
  match text with x :: t => if (c =? DOT) || (c =? x) then f t else false | [] => false end = true ↔ here (One c :: l) e text.
Proof.
  intros Hf. rewrite here_one. destruct text as [|x t]; [split; [done|by intros (? & ? & ? & _)]|].
  destruct ((c =? DOT) || (c =? x)) eqn:E.
  - rewrite Hf. split; [|by intros (? & ? & [= <- <-] & _ & ?)]. intros Ht. exists x, t. split; [done|]. split; [|done].
    by apply orb_true_iff in E as [E%Z.eqb_eq|E%Z.eqb_eq]; [left|right].
  - split; [done|]. intros (? & ? & [= <- <-] & Ha & _). apply orb_false_iff in E as [E1%Z.eqb_neq E2%Z.eqb_neq]. by destruct Ha.
Qed.

Lemma matchhere_spec re text : matchhere re text = true ↔ here (fst (items re)) (snd (items re)) text.
Proof.
  revert text. induction re as [re IH] using (induction_ltof1 _ (@length Z)); unfold ltof in IH. intros text.
  destruct re as [|c [|d re2]]; cbn [matchhere items].
  - split; [|done]. intros _. exists [], text. split; [done|]. split; [constructor|done].
  - destruct (c =? DOLLAR); cbn [fst snd].
    + split; [destruct text; [|done]; intros _; exists [], []; split; [done|]; split; [constructor|done]|].
      intros (mid & post & -> & Hl & He). inversion Hl; subst. by rewrite He.
    + apply one_spec. intros t. split; [|done]. intros _. exists [], t. split; [done|]. split; [constructor|done].
  - destruct (d =? STAR).
    + pose proof (IH re2 ltac:(cbn; lia)) as H2. destruct (items re2) as [l e]. cbn [fst snd] in *. rewrite here_star. by apply matchstar_spec.
    + pose proof (IH (d :: re2) ltac:(cbn; lia)) as H2. cbn [matchhere items] in H2. destruct (match re2 with [] => _ | _ => _ end) as [l e]. cbn [fst snd] in *.
      by apply one_spec.
Qed.

Lemma match_loop_spec re text : match_loop re text = true ↔ ∃ pre t, text = pre ++ t ∧ matchhere re t = true.
Proof.
  induction text as [|x text IH]; cbn [match_loop].
  - destruct (matchhere re []) eqn:E; split; try done; [by exists [], []|]. intros (pre & t & Et & H). symmetry in Et. apply app_nil in Et as [-> ->]. congruence.
  - destruct (matchhere re (x :: text)) eqn:E; [split; [|done]; by exists [], (x :: text)|]. rewrite IH. split.
    + intros (pre & t & -> & H). by exists (x :: pre), t.
    + intros ([|y pre] & t & Et & H); [cbn in Et; subst t; congruence|]. injection Et as <- ->. by exists pre, t.
Qed.

(** ** Lines of a stream *)

(** The complete lines, and what follows the last newline. *)
Fixpoint split_lines (d : list Z) : list (list Z) * list Z :=
  match d with
  | [] => ([], [])
  | c :: d =>
      let '(ls, t) := split_lines d in
      if c =? NEWLINE then ([] :: ls, t)
      else match ls with [] => ([], c :: t) | l :: ls => ((c :: l) :: ls, t) end
  end.

Lemma split_none d : NEWLINE ∉ d → split_lines d = ([], d).
Proof.
  induction d as [|c d IH]; [done|]. intros Hd. apply not_elem_of_cons in Hd as [Hc Hd]. cbn [split_lines]. rewrite IH by done.
  by rewrite (proj2 (Z.eqb_neq c NEWLINE)) by done.
Qed.

Lemma split_line l d : NEWLINE ∉ l → split_lines (l ++ NEWLINE :: d) = (l :: fst (split_lines d), snd (split_lines d)).
Proof.
  induction l as [|c l IH]; cbn [app split_lines].
  - intros _. destruct (split_lines d). done.
  - intros Hl. apply not_elem_of_cons in Hl as [Hc Hl]. rewrite IH by done. by rewrite (proj2 (Z.eqb_neq c NEWLINE)) by done.
Qed.

(** The lines can be cut off as they arrive. *)
Lemma split_app a b :
  split_lines (a ++ b) = (fst (split_lines a) ++ fst (split_lines (snd (split_lines a) ++ b)), snd (split_lines (snd (split_lines a) ++ b))).
Proof.
  induction a as [|c a IH]; cbn [app split_lines fst snd]; [by destruct (split_lines b)|]. rewrite IH. destruct (split_lines a) as [ls t]. cbn [fst snd].
  destruct (c =? NEWLINE) eqn:Ec; [done|]. destruct ls as [|l ls]; cbn [app fst snd split_lines]; [|done]. rewrite Ec. destruct (split_lines (t ++ b)) as [[|l ls] t']; done.
Qed.

Lemma split_tail d : NEWLINE ∉ snd (split_lines d).
Proof.
  induction d as [|c d IH]; cbn [split_lines]; [apply not_elem_of_nil|]. destruct (split_lines d) as [ls t]. cbn [snd] in *.
  destruct (Z.eqb_spec c NEWLINE); [done|]. destruct ls; cbn [snd]; [|done]. apply not_elem_of_cons. split; [congruence|done].
Qed.

Lemma split_tail_sub x d : x ∈ snd (split_lines d) → x ∈ d.
Proof.
  induction d as [|c d IH]; cbn [split_lines]; [done|]. destruct (split_lines d) as [ls t]. cbn [snd] in *. destruct (c =? NEWLINE); [by right; apply IH|].
  destruct ls; cbn [snd]; [|by right; apply IH]. rewrite !elem_of_cons. intros [->|Hx]; [by left|right; by apply IH].
Qed.

Lemma split_tail_length d : (length (snd (split_lines d)) ≤ length d)%nat.
Proof.
  induction d as [|c d IH]; cbn [split_lines]; [done|]. destruct (split_lines d) as [ls t]. cbn [snd length] in *. destruct (c =? NEWLINE); [cbn; lia|].
  destruct ls; cbn [snd length]; lia.
Qed.

(** What is printed for a list of lines. *)
Definition printed (pattern : list Z) (ls : list (list Z)) : list Z := concat (map (λ l, l ++ [NEWLINE]) (filter (λ l, match_ pattern l = true) ls)).

Lemma printed_app pattern ls1 ls2 : printed pattern (ls1 ++ ls2) = printed pattern ls1 ++ printed pattern ls2.
Proof. unfold printed. by rewrite filter_app, map_app, concat_app. Qed.

Lemma scan_spec fuel pattern pre d r out :
  0 ∉ d → is_bytes (pre ++ d ++ 0 :: r) → (length d < fuel)%nat →
  ∃ pre', scan fuel pattern (len pre) (pre ++ d ++ 0 :: r) out =
      Some (len pre', pre' ++ snd (split_lines d) ++ 0 :: r, out ++ printed pattern (fst (split_lines d))) ∧
    (length pre' + length (snd (split_lines d)) = length pre + length d)%nat ∧ is_bytes pre'.
Proof.
  revert pre d out. induction fuel as [|fuel IH]; intros pre d out H0 Hb Hf; [lia|]. cbn [scan].
  destruct (decide (NEWLINE ∈ d)) as [Hin|Hout].
  - apply list_elem_of_split_l in Hin as (l & d' & -> & Hl). rewrite split_line by done. cbn [fst snd].
    apply not_elem_of_app in H0 as [H0l H0d]. apply not_elem_of_cons in H0d as [_ H0d]. apply Forall_app in Hb as [Hpre Hb].
    apply Forall_app in Hb as [Hb Hr]. apply Forall_app in Hb as [Hbl Hb]. apply Forall_cons in Hb as [_ Hbd].
    assert (E : pre ++ (l ++ NEWLINE :: d') ++ 0 :: r = pre ++ l ++ NEWLINE :: (d' ++ 0 :: r)) by (by rewrite <- !app_assoc).
    rewrite (strchr_found _ pre l NEWLINE (d' ++ 0 :: r)) by done. cbn [mbind option_bind]. rewrite E.
    replace (len pre + len l) with (len (pre ++ l)) by (by rewrite len_app). rewrite (app_assoc pre l), store_at by (unfold is_byte; lia).
    cbn [mbind option_bind]. rewrite <- app_assoc, string_at_app, app_assoc by done.
    assert (Hgo : ∀ x out', is_byte x → ∃ pre', scan fuel pattern (len (pre ++ l) + 1) ((pre ++ l) ++ x :: d' ++ 0 :: r) out' =
        Some (len pre', pre' ++ snd (split_lines d') ++ 0 :: r, out' ++ printed pattern (fst (split_lines d'))) ∧
        (length pre' + length (snd (split_lines d')) = length pre + length (l ++ NEWLINE :: d'))%nat ∧ is_bytes pre').
    { intros x out' Hx. destruct (IH ((pre ++ l) ++ [x]) d' out') as (pre' & Es & Hlen & Hp).
      - done.
      - repeat (apply Forall_app; split); try done. by apply Forall_singleton.
      - rewrite length_app in Hf. cbn in Hf. lia.
      - exists pre'. rewrite <- (app_assoc (pre ++ l) [x]) in Es. cbn [app] in Es. rewrite len_app, len_cons, len_nil in Es.
        replace (len (pre ++ l) + (1 + 0)) with (len (pre ++ l) + 1) in Es by lia. split; [exact Es|]. split; [|done].
        rewrite Hlen, !length_app. cbn [length]. lia. }
    destruct (match_ pattern l) eqn:Em.
    + rewrite store_at by (unfold is_byte, NEWLINE; lia). cbn [mbind option_bind].
      destruct (Hgo NEWLINE (out ++ slice (len pre) (len (pre ++ l) + 1 - len pre) ((pre ++ l) ++ NEWLINE :: d' ++ 0 :: r))) as (pre' & -> & Hrest);
        [unfold is_byte, NEWLINE; lia|].
      exists pre'. split; [|done]. do 2 f_equal. unfold printed at 2. rewrite filter_cons_True by done. cbn [map concat]. fold (printed pattern (fst (split_lines d'))).
      rewrite (app_assoc out). f_equal. f_equal. rewrite <- app_assoc. cbn [app].
      replace (l ++ NEWLINE :: d' ++ 0 :: r) with ((l ++ [NEWLINE]) ++ d' ++ 0 :: r) by (by rewrite <- app_assoc).
      apply slice_app. rewrite !len_app, len_cons, len_nil. lia.
    + destruct (Hgo 0 out) as (pre' & -> & Hrest); [unfold is_byte; lia|]. exists pre'. split; [|done]. do 2 f_equal.
      unfold printed at 2. rewrite filter_cons_False by congruence. done.
  - rewrite (strchr_absent _ pre d NEWLINE r) by done. cbn [mbind option_bind]. rewrite split_none by done. cbn [fst snd].
    exists pre. split; [by rewrite app_nil_r|]. split; [done|]. by apply Forall_app in Hb as [Hb _].
Qed.

Lemma split_prefix t r : NEWLINE ∉ t →
  fst (split_lines (t ++ r)) = match fst (split_lines r) with [] => [] | l :: ls => (t ++ l) :: ls end.
Proof.
  induction t as [|c t IH]; cbn [app]; [by destruct (fst _)|]. intros Ht. apply not_elem_of_cons in Ht as [Hc Ht]. specialize (IH Ht). cbn [split_lines].
  destruct (split_lines (t ++ r)) as [ls u]. cbn [fst] in IH. subst ls. rewrite (proj2 (Z.eqb_neq c NEWLINE)) by done. by destruct (fst (split_lines r)).
Qed.

Section Reading.
(** [read] without errors: it returns at least one byte of what is to come, in
    order, unless nothing was asked for or nothing is left. *)
Context {K : Type} (sys_read : Z → K → Z * list Z * K) (pending : K → list Z).
Context (read_law : ∀ n k, 0 ≤ n → let '(rc, bs, k') := sys_read n k in
  rc = len bs ∧ rc ≤ n ∧ pending k = bs ++ pending k' ∧ (rc = 0 → n = 0 ∨ pending k = [])).

Definition short (d : list Z) : Prop := Forall (λ l, len l ≤ 1022) (fst (split_lines d)).

Lemma grep_loop_spec fuel pattern t junk out k :
  is_bytes (t ++ junk) → length (t ++ junk) = 1024%nat → len t ≤ 1023 → NEWLINE ∉ t → 0 ∉ t →
  is_bytes (pending k) → 0 ∉ pending k → short (t ++ pending k) → (length (pending k) < fuel)%nat →
  ∃ buf' k', grep_loop sys_read fuel pattern (len t) (t ++ junk) out k = Some (out ++ printed pattern (fst (split_lines (t ++ pending k))), buf', k').
Proof.
  revert t junk out k. induction fuel as [|fuel IH]; intros t junk out k Hb Hl Ht Hnl H0 Hpb Hp0 Hs Hf; [lia|]. cbn [grep_loop].
  pose proof (read_law (1024 - len t - 1) k ltac:(lia)) as Hr. destruct (sys_read (1024 - len t - 1) k) as [[rc bs] k'] eqn:Er.
  destruct Hr as (Hrc & Hle & Hp & Hz). pose proof (len_nonneg bs). pose proof (len_nonneg t). destruct (Z.ltb_spec 0 rc) as [Hpos|Hnon].
  - rewrite Hp in *. apply Forall_app in Hpb as [Hbs Hpb]. apply not_elem_of_app in Hp0 as [H0b Hp0]. apply Forall_app in Hb as [Hbt Hbj].
    rewrite splice_app. assert (Hj : (length bs < length junk)%nat) by (rewrite length_app in Hl; unfold len in *; lia).
    destruct (drop (length bs) junk) as [|x r] eqn:Ed; [apply (f_equal length) in Ed; rewrite length_drop in Ed; cbn in Ed; lia|].
    assert (Hxr : Forall is_byte (x :: r)) by (rewrite <- Ed; by apply Forall_drop). apply Forall_cons in Hxr as [_ Hxr].
    rewrite Hrc. replace (len t + len bs) with (len (t ++ bs)) by (by rewrite len_app). rewrite app_assoc, store_at by (unfold is_byte; lia). cbn [mbind option_bind].
    assert (Hbb : is_bytes ((t ++ bs) ++ 0 :: r)) by (repeat (apply Forall_app; split); [done|done|constructor; [unfold is_byte; lia|done]]).
    assert (Hlen : length ((t ++ bs) ++ 0 :: r) = 1024%nat).
    { apply (f_equal length) in Ed. rewrite length_drop in Ed. rewrite !length_app in *. cbn [length] in *. lia. }
    destruct (scan_spec (S (length ((t ++ bs) ++ 0 :: r))) pattern [] (t ++ bs) r out) as (pre & Es & Hpl & Hpb'); [by apply not_elem_of_app|done|rewrite (length_app (t ++ bs)); lia|].
    change (len []) with 0 in Es. cbn [app] in Es. rewrite Es. cbn [mbind option_bind]. rewrite (proj2 (Z.ltb_lt 0 _)) by (rewrite len_app; lia).
    set (t' := snd (split_lines (t ++ bs))) in *. replace (len (t ++ bs) - len pre) with (len t') by (unfold len; cbn in Hpl; lia).
    assert (Ht' : is_bytes t').
    { apply Forall_forall. intros y Hy. apply split_tail_sub in Hy. apply (proj1 (Forall_forall is_byte (t ++ bs))); [by apply Forall_app|done]. }
    assert (Hbuf : is_bytes (pre ++ t' ++ 0 :: r)) by (repeat (apply Forall_app; split); [done|done|constructor; [unfold is_byte; lia|done]]).
    destruct (memmove_front (pre ++ t' ++ 0 :: r) pre t' (0 :: r) Hbuf eq_refl) as (r' & -> & Hl' & Hb'). cbn [mbind option_bind].
    assert (Htl : (length t' ≤ length (t ++ bs))%nat) by apply split_tail_length.
    pose proof (split_app (t ++ bs) (pending k')) as Hsp. fold t' in Hsp. rewrite <- app_assoc in Hsp.
    destruct (IH t' r' (out ++ printed pattern (fst (split_lines (t ++ bs)))) k') as (buf' & k2 & E).
    + done.
    + rewrite Hl', !length_app. rewrite !length_app in Hlen. rewrite !length_app in Hpl. cbn [length] in *. lia.
    + rewrite length_app in Htl. unfold len in *. lia.
    + apply split_tail.
    + intros Hy. apply split_tail_sub in Hy. apply elem_of_app in Hy. by destruct Hy.
    + done.
    + done.
    + unfold short in *. rewrite Hsp in Hs. cbn [fst] in Hs. by apply Forall_app in Hs as [_ Hs].
    + rewrite length_app in Hf. unfold len in *. lia.
    + exists buf', k2. rewrite E, Hsp. cbn [fst]. by rewrite printed_app, app_assoc.
  - exists (t ++ junk), k'. assert (E : fst (split_lines (t ++ pending k)) = []); [|by rewrite E, app_nil_r].
    destruct (Hz ltac:(lia)) as [Hfull | ->]; [|by rewrite app_nil_r, split_none].
    unfold short in Hs. rewrite split_prefix in * by done. destruct (fst (split_lines (pending k))) as [|l ls]; [done|]. exfalso.
    apply Forall_cons in Hs as [Hs _]. rewrite len_app in Hs. pose proof (len_nonneg l). lia.
Qed.
End Reading.

(** ** Properties *)

(** C22: The matcher decides the meaning of a regular expression: [match] returns 1
    exactly when some part of the text is a word of the expression, the part
    beginning the text after a leading '^' and ending it before a final '$'. *)
Theorem match_is_regex re text :
  let anchored := match re with c :: _ => c =? CARET | [] => false end in
  let '(l, e) := items (if anchored then drop 1 re else re) in
  match_ re text = true ↔
    ∃ pre mid post, text = pre ++ mid ++ post ∧ lang l mid ∧ (anchored = true → pre = []) ∧ (e = true → post = []).
Proof.
  intros anchored. destruct (items _) as [l e] eqn:Ei. assert (Hloop : ∀ b, b = false → items re = (l, e) → match_loop re text = true ↔
    ∃ pre mid post, text = pre ++ mid ++ post ∧ lang l mid ∧ (b = true → pre = []) ∧ (e = true → post = [])).
  { intros b Hb E. rewrite match_loop_spec. split.
    - intros (pre & t & -> & H). apply matchhere_spec in H. rewrite E in H. destruct H as (mid & post & -> & Hm & He). exists pre, mid, post. by rewrite Hb.
    - intros (pre & mid & post & -> & Hm & _ & He). exists pre, (mid ++ post). split; [done|]. apply matchhere_spec. rewrite E. by exists mid, post. }
  destruct re as [|c re]; unfold anchored in *; [by apply Hloop|]. cbn [match_]. destruct (Z.eqb_spec c CARET) as [->|Hne]; [|by apply Hloop].
  cbn [drop] in Ei. change (skipn 0 re) with re in Ei. rewrite matchhere_spec, Ei. cbn [fst snd]. split.
  - intros (mid & post & -> & Hm & He). by exists [], mid, post.
  - intros (pre & mid & post & -> & Hm & Ha & He). rewrite (Ha eq_refl). by exists mid, post.
Qed.

(** C23: [grep] prints the matching lines.  However [read] cuts the stream, if no line
    is longer than 1022 characters and the stream has no NUL, [grep] ends without
    leaving its buffer and writes exactly the complete lines that match, in order,
    each with its newline; what follows the last newline is not looked at. *)
Theorem grep_prints_matching_lines {K : Type} (sys_read : Z → K → Z * list Z * K) (pending : K → list Z) fuel pattern buf k :
  (∀ n k, 0 ≤ n → let '(rc, bs, k') := sys_read n k in
    rc = len bs ∧ rc ≤ n ∧ pending k = bs ++ pending k' ∧ (rc = 0 → n = 0 ∨ pending k = [])) →
  length buf = 1024%nat → is_bytes buf → is_bytes (pending k) → 0 ∉ pending k → short (pending k) → (length (pending k) < fuel)%nat →
  ∃ buf' k', grep sys_read fuel pattern buf k = Some (printed pattern (fst (split_lines (pending k))), buf', k').
Proof.
  intros Hlaw Hl Hb Hp H0 Hs Hf. apply (grep_loop_spec sys_read pending Hlaw fuel pattern [] buf [] k); try done; apply not_elem_of_nil.
Qed.

(** A file that gives out at most three bytes at a time. *)
Definition three (n : Z) (k : list Z) : Z * list Z * list Z := (len (take (Z.to_nat (Z.min n 3)) k), take (Z.to_nat (Z.min n 3)) k, drop (Z.to_nat (Z.min n 3)) k).
Definition three_file : list Z := [104; 101; 108; 108; 111; 10; 119; 111; 114; 108; 100; 10; 104; 111].

Lemma grep_prints_matching_lines_witness :
  ∃ buf' k', grep three 15 [94; 104; 46; 42; 111; 36] (replicate 1024 0) three_file = Some ([104; 101; 108; 108; 111; 10], buf', k').
Proof.
  apply (grep_prints_matching_lines three (λ k, k)).
  - intros n k Hn. unfold three, len. rewrite length_take, take_drop. repeat split; [lia|]. intros H. destruct k; [by right|left; cbn in H; lia].
  - reflexivity.
  - apply Forall_replicate. unfold is_byte. lia.
  - repeat (apply Forall_cons; split; [unfold is_byte; lia|]). apply Forall_nil. exact I.
  - apply (bool_decide_eq_true_1 (0 ∉ three_file)). reflexivity.
  - unfold short. repeat (apply Forall_cons; split; [vm_compute; discriminate|]). apply Forall_nil. exact I.
  - cbn. lia.
Defined.
