(* ===== verification/Printf.v ===== *)
(** * printf (src/xv6-riscv/user/printf.c)

    What [vprintf] writes, one byte per [putc]; the result of [write] is ignored by
    the code.  A format is the list of its bytes without the NUL.  An argument
    is a register of 64 bits, a string or a double; taking one that is missing
    or of another kind is [None], and so is a store behind the end of a local
    array.  [double] arithmetic is a parameter. *)
From S2P Require Import Prelude Text.

(** [digits]: "0123456789abcdef". *)
Definition digits : list Z := [48; 49; 50; 51; 52; 53; 54; 55; 56; 57; 97; 98; 99; 100; 101; 102].

(** [buf[i++] = c] in an array of [cap] bytes. *)
Definition put_char (cap : Z) (buf : list Z) (c : Z) : option (list Z) := if len buf <? cap then Some (buf ++ [c]) else None.
Fixpoint put_all (cap : Z) (buf cs : list Z) : option (list Z) :=
  match cs with
  | [] => Some buf
  | c :: cs => buf ← put_char cap buf c; put_all cap buf cs
  end.

(** [do { buf[i++] = digits[x % base]; } while((x /= base) != 0);] *)
Fixpoint digit_loop (fuel : nat) (base x : Z) (buf : list Z) : option (list Z) :=
  match fuel with
  | O => None
  | S fuel =>
      c ← digits !! Z.to_nat (x mod base);
      buf ← put_char 32 buf c;
      let x := x / base in
      if x =? 0 then Some buf else digit_loop fuel base x buf
  end.

(** [while(pad-- > 0) putc(fd, ' ');] for a text of [n] bytes. *)
Definition padding (width n : Z) : list Z := replicate (Z.to_nat (if n <? width then width - n else 0)) 32.

(** A 64-bit number has at most 64 digits. *)
Definition printint (xx base : Z) (sgn : bool) (width : Z) : option (list Z) :=
  let '(neg, x) := if sgn && (xx <? 0) then (true, u64 (- xx)) else (false, u64 xx) in
  buf ← digit_loop 64 base x [];
  buf ← (if neg : bool then put_char 32 buf 45 else Some buf);
  Some (padding width (len buf) ++ rev buf).

Section Printf.
Context {D : Type} `{DoubleOps D}.

Fixpoint frac_loop (prec : nat) (frac : D) (buf : list Z) : option (list Z) :=
  match prec with
  | O => Some buf
  | S prec =>
      let frac := dmul frac (d_of 10) in
      let digit := s32 (d_trunc frac) in
      buf ← put_char 64 buf (u8 (48 + digit));
      frac_loop prec (dsub frac (d_of digit)) buf
  end.

Definition printdouble (d : D) (width prec : Z) : option (list Z) :=
  '(buf, d) ← (if d_ltz d then buf ← put_char 64 [] 45; Some (buf, dneg d) else Some ([], d));
  let intpart := s64 (d_trunc d) in
  let frac := dsub d (d_of intpart) in
  ibuf ← digit_loop 64 10 (u64 intpart) [];
  buf ← put_all 64 buf (rev ibuf);
  buf ← put_char 64 buf 46;
  buf ← frac_loop (Z.to_nat prec) frac buf;
  _ ← put_char 64 buf 0;
  Some (padding width (len buf) ++ buf).

(** [for (i = 0; i < 16; i++, x <<= 4)] *)
Fixpoint ptr_loop (n : nat) (x : Z) : option (list Z) :=
  match n with
  | O => Some []
  | S n => c ← digits !! Z.to_nat (x ≫ 60); cs ← ptr_loop n (u64 (x ≪ 4)); Some (c :: cs)
  end.
Definition printptr (x : Z) : option (list Z) := cs ← ptr_loop 16 x; Some ([48; 120] ++ cs).

(** ** vprintf *)

Inductive arg := ARegister (v : Z) | AString (s : option (list Z)) | ADouble (d : D).

(** [va_arg] *)
Definition va_int (ap : list arg) : option (Z * list arg) := match ap with ARegister v :: ap => Some (s32 v, ap) | _ => None end.
Definition va_uint32 (ap : list arg) : option (Z * list arg) := match ap with ARegister v :: ap => Some (u32 v, ap) | _ => None end.
(** A [uint64], passed on as a [long long]. *)
Definition va_uint64 (ap : list arg) : option (Z * list arg) := match ap with ARegister v :: ap => Some (s64 v, ap) | _ => None end.

Definition prints (m : option (list Z)) (ap : list arg) (skip : nat) : option (list Z * list arg * nat) := cs ← m; Some (cs, ap, skip).

(** The chain of tests for a conversion: what it writes, the arguments left and how
    many more characters of the format it takes. *)
Definition conversion (c0 c1 c2 : Z) (width prec : Z) (ap : list arg) : option (list Z * list arg * nat) :=
  if c0 =? 100 then '(v, ap) ← va_int ap; prints (printint v 10 true width) ap 0
  else if (c0 =? 108) && (c1 =? 100) then '(v, ap) ← va_uint64 ap; prints (printint v 10 true width) ap 1
  else if (c0 =? 108) && (c1 =? 108) && (c2 =? 100) then '(v, ap) ← va_uint64 ap; prints (printint v 10 true width) ap 2
  else if c0 =? 117 then '(v, ap) ← va_uint32 ap; prints (printint v 10 false width) ap 0
  else if (c0 =? 108) && (c1 =? 117) then '(v, ap) ← va_uint64 ap; prints (printint v 10 false width) ap 1
  else if (c0 =? 108) && (c1 =? 108) && (c2 =? 117) then '(v, ap) ← va_uint64 ap; prints (printint v 10 false width) ap 2
  else if c0 =? 120 then '(v, ap) ← va_uint32 ap; prints (printint v 16 false width) ap 0
  else if (c0 =? 108) && (c1 =? 120) then '(v, ap) ← va_uint64 ap; prints (printint v 16 false width) ap 1
  else if (c0 =? 108) && (c1 =? 108) && (c2 =? 120) then '(v, ap) ← va_uint64 ap; prints (printint v 16 false width) ap 2
  else if c0 =? 112 then '(v, ap) ← va_uint64 ap; prints (printptr (u64 v)) ap 0
  else if c0 =? 99 then '(v, ap) ← va_uint32 ap; prints (Some [u8 v]) ap 0
  else if c0 =? 115 then
    match ap with
    | AString s :: ap =>
        let s := cstr (default [40; 110; 117; 108; 108; 41] s) in
        prints (Some (padding width (len s) ++ s)) ap 0
    | _ => None
    end
  else if c0 =? 102 then
    match ap with
    | ADouble d :: ap => prints (printdouble d width (if prec <? 0 then 6 else prec)) ap 0
    | _ => None
    end
  else if c0 =? 37 then prints (Some [37]) ap 0
  else prints (Some [37; c0]) ap 0.

(** Width and precision at the beginning of [fmt], and what follows them. *)
Definition read_spec (fmt : list Z) : Z * Z * list Z :=
  let width := digits_value s32 fmt in
  let fmt := skip_while xisdigit fmt in
  if deref fmt =? 46 then (width, digits_value s32 (tail fmt), skip_while xisdigit (tail fmt)) else (width, -1, fmt).

(** The loop, from the suffix of the format at [i]; [percent] is its [state].  A
    format that ends inside a conversion with a width makes the code step over the
    NUL: [None].  [c2] may be the byte behind the NUL, which no test depends on. *)
Fixpoint vprintf_loop (fuel : nat) (indent : Z) (fmt : list Z) (percent at_line_start : bool) (ap : list arg) : option (list Z) :=
  match fuel with
  | O => None
  | S fuel =>
      match fmt with
      | [] => Some []
      | c0 :: rest =>
          let starts := at_line_start && negb (c0 =? 10) in
          let ind := if starts then replicate (Z.to_nat indent) 32 else [] in
          let at_line_start := at_line_start && negb starts in
          if negb percent then
            if c0 =? 37 then out ← vprintf_loop fuel indent rest true at_line_start ap; Some (ind ++ out)
            else out ← vprintf_loop fuel indent rest false at_line_start ap; Some (ind ++ c0 :: out)
          else
            let '(width, prec, fmt) := read_spec fmt in
            match fmt with
            | [] => None
            | c0 :: rest =>
                '(cs, ap, skip) ← conversion c0 (deref rest) (deref (tail rest)) width prec ap;
                out ← vprintf_loop fuel indent (drop skip rest) false at_line_start ap;
                Some (ind ++ cs ++ out)
            end
      end
  end.

Definition vprintf (indent : Z) (fmt : list Z) (ap : list arg) : option (list Z) :=
  vprintf_loop (S (length fmt)) indent fmt false true ap.
End Printf.
#[global] Arguments arg : clear implicits.

(** [printf_set_indent]: the value of [print_indent_level]. *)
Definition printf_set_indent (spaces : Z) : Z := if spaces <? 0 then 0 else spaces.

(** ** Numerals *)

Definition digit_value (c : Z) : Z := if c <? 58 then c - 48 else c - 87.
(** The value of digits, the least significant first. *)
Fixpoint value (base : Z) (ds : list Z) : Z := match ds with [] => 0 | d :: ds => value base ds * base + digit_value d end.

(** The numeral of [x]: digits of the base with the value [x], the most significant
    first, without leading zeros. *)
Definition numeral (base x : Z) (cs : list Z) : Prop :=
  value base (rev cs) = x ∧ Forall (λ c, c ∈ take (Z.to_nat base) digits) cs ∧ (cs = [48] ∨ ∃ c r, cs = c :: r ∧ c ≠ 48).

Lemma digit_at d : 0 ≤ d < 16 → ∃ c, digits !! Z.to_nat d = Some c ∧ digit_value c = d ∧ (c = 48 → d = 0).
Proof.
  intros Hd. assert (Hn : (Z.to_nat d < 16)%nat) by lia. destruct (lookup_lt_is_Some_2 digits (Z.to_nat d) Hn) as [c Hc]. exists c. split; [done|].
  rewrite <- (Z2Nat.id d) by lia. generalize dependent (Z.to_nat d). intros n _ Hc.
  do 16 (destruct n as [|n]; [injection Hc as <-; vm_compute; split; [reflexivity|discriminate || reflexivity]|]). done.
Qed.

Lemma put_room cap buf c : len buf < cap → put_char cap buf c = Some (buf ++ [c]).
Proof. intros Hl. unfold put_char. by rewrite (proj2 (Z.ltb_lt _ _)). Qed.

Lemma digit_loop_spec base k fuel x buf :
  2 ≤ base ≤ 16 → 0 ≤ x < base ^ Z.of_nat (S k) → (k < fuel)%nat → len buf + Z.of_nat k < 32 →
  ∃ ds, digit_loop fuel base x buf = Some (buf ++ ds) ∧ (1 ≤ length ds ≤ S k)%nat ∧ numeral base x (rev ds).
Proof.
  intros Hb. revert fuel x buf. induction k as [|k IH]; intros fuel x buf Hx Hf Hl; (destruct fuel as [|fuel]; [lia|]); cbn [digit_loop];
    (pose proof (Z.mod_pos_bound x base ltac:(lia)) as Hm); (destruct (digit_at (x mod base)) as (c & Ec & Ev & Ez); [lia|]); rewrite Ec; cbn [mbind option_bind];
    rewrite put_room by lia; cbn [mbind option_bind].
  - assert (x / base = 0) as -> by (rewrite Z.pow_1_r in Hx; by apply Z.div_small). cbn [Z.eqb]. exists [c]. split; [done|]. split; [cbn; lia|].
    rewrite Z.pow_1_r in Hx. rewrite Z.mod_small in * by done. split; [cbn [rev app value]; lia|]. split.
    + constructor; [|constructor]. apply list_elem_of_lookup. exists (Z.to_nat x). by rewrite lookup_take_lt by lia.
    + destruct (decide (c = 48)) as [->|Hc]; [by left|right; by exists c, []].
  - destruct (Z.eqb_spec (x / base) 0) as [Hz|Hz].
    + exists [c]. split; [done|]. split; [cbn; lia|]. apply Z.div_small_iff in Hz; [|lia]. destruct Hz as [Hz|Hz]; [|lia]. rewrite Z.mod_small in * by done.
      split; [cbn [rev app value]; lia|]. split.
      * constructor; [|constructor]. apply list_elem_of_lookup. exists (Z.to_nat x). by rewrite lookup_take_lt by lia.
      * destruct (decide (c = 48)) as [->|Hc]; [by left|right; by exists c, []].
    + rewrite (Nat2Z.inj_succ (S k)), Z.pow_succ_r in Hx by lia. pose proof (Z.div_mod x base ltac:(lia)) as Hdm.
      destruct (IH fuel (x / base) (buf ++ [c])) as (ds & -> & Hlen & Hval & Hdig & Hhead).
      * split; [apply Z.div_pos; lia|]. apply Z.div_lt_upper_bound; lia.
      * lia.
      * rewrite len_app, len_cons, len_nil. lia.
      * exists (c :: ds). split; [by rewrite <- app_assoc|]. split; [cbn; lia|]. rewrite rev_involutive in Hval. split; [|split].
        -- rewrite rev_involutive. cbn [value]. rewrite Hval, Ev. lia.
        -- cbn [rev]. apply Forall_app. split; [done|]. constructor; [|constructor]. apply list_elem_of_lookup. exists (Z.to_nat (x mod base)).
           by rewrite lookup_take_lt by lia.
        -- right. cbn [rev]. destruct Hhead as [E|(c' & r & E & Hc')].
           ++ exfalso. apply Hz. rewrite <- Hval. apply (f_equal (@rev Z)) in E. rewrite rev_involutive in E. by rewrite E.
           ++ exists c', (r ++ [c]). by rewrite E.
Qed.

Lemma pow_bound base : 10 ≤ base → 2 ^ 64 < base ^ Z.of_nat 20.
Proof. intros Hb. apply (Z.lt_le_trans _ (10 ^ 20)); [done|]. by apply Z.pow_le_mono_l. Qed.

(** What [printint] writes, for every 64-bit number. *)
Definition int_text (xx base : Z) (sgn : bool) (width : Z) (out : list Z) : Prop :=
  ∃ cs, let neg := sgn && (xx <? 0) in
    numeral base (if neg then - xx else u64 xx) cs ∧
    let text := (if neg then [45] else []) ++ cs in out = padding width (len text) ++ text.

Lemma printint_spec xx base sgn width : 10 ≤ base ≤ 16 → - 2 ^ 63 ≤ xx < 2 ^ 63 →
  ∃ out, printint xx base sgn width = Some out ∧ int_text xx base sgn width out.
Proof.
  intros Hb Hx. unfold printint, int_text. set (neg := sgn && (xx <? 0)).
  assert (Hneg : neg = true → xx < 0) by (unfold neg; intros H; apply andb_true_iff in H as [_ H%Z.ltb_lt]; lia).
  set (x := if neg then - xx else u64 xx). assert (Hxr : 0 ≤ x < 2 ^ 64).
  { unfold x. destruct neg; [specialize (Hneg eq_refl); lia|]. unfold u64. apply Z.mod_pos_bound. lia. }
  pose proof (pow_bound base ltac:(lia)) as Hp. destruct (digit_loop_spec base 19 64 x []) as (ds & E & Hl & Hn); [lia|lia|lia|rewrite len_nil; lia|].
  cbn [app] in E. assert (Ex : (if neg then (true, u64 (- xx)) else (false, u64 xx)) = (neg, x)).
  { unfold x. destruct neg; [|done]. specialize (Hneg eq_refl). unfold u64. rewrite Z.mod_small by lia. done. }
  fold neg. rewrite Ex, E. cbn [mbind option_bind]. exists (padding width (len ((if neg then [45] else []) ++ rev ds)) ++ (if neg then [45] else []) ++ rev ds).
  split; [|exists (rev ds); done]. destruct neg.
  - rewrite put_room by (unfold len; lia). cbn [mbind option_bind]. rewrite rev_app_distr. do 3 f_equal. unfold len. rewrite !length_app, length_rev. cbn [length]. f_equal. lia.
  - cbn [mbind option_bind app]. do 3 f_equal. unfold len. by rewrite length_rev.
Qed.

Lemma decimal_digit c : c ∈ take (Z.to_nat 10) digits → xisdigit c = true ∧ digit_value c = c - 48.
Proof.
  intros Hc. assert (Hf : Forall (λ c, xisdigit c = true ∧ digit_value c = c - 48) (take (Z.to_nat 10) digits)) by (vm_compute; repeat constructor).
  by apply (proj1 (Forall_forall _ _) Hf).
Qed.

Lemma value_number ds : Forall (λ c, c ∈ take (Z.to_nat 10) digits) ds → value 10 ds = number ds ∧ Forall (λ c, xisdigit c = true) ds.
Proof.
  induction 1 as [|c ds Hc _ [IH1 IH2]]; [done|]. destruct (decimal_digit c Hc) as [H1 H2]. cbn [value number]. rewrite IH1, H2. split; [done|by constructor].
Qed.

Lemma xatoi_padding n s : xatoi (replicate n 32 ++ s) = xatoi s.
Proof. unfold xatoi. induction n as [|n IH]; [done|]. cbn [replicate app skip_while]. exact IH. Qed.

(** ** Pointers *)

Lemma value_app base a c : value base (a ++ [c]) = value base a + digit_value c * base ^ len a.
Proof.
  induction a as [|d a IH]; cbn [app value]; [rewrite len_nil, Z.pow_0_r; lia|]. rewrite IH, len_cons, Z.pow_add_r, Z.pow_1_r by (pose proof (len_nonneg a); lia). lia.
Qed.

Lemma ptr_loop_spec n x : (n ≤ 16)%nat → 0 ≤ x < 2 ^ 64 →
  ∃ cs, ptr_loop n x = Some cs ∧ length cs = n ∧ Forall (λ c, c ∈ digits) cs ∧ value 16 (rev cs) = x / 2 ^ (64 - 4 * Z.of_nat n).
Proof.
  revert x. induction n as [|n IH]; intros x Hn Hx; cbn [ptr_loop].
  - exists []. split; [done|]. split; [done|]. split; [constructor|]. symmetry. apply Z.div_small. exact Hx.
  - set (d := x ≫ 60). assert (Ed : d = x / 2 ^ 60) by (unfold d; apply Z.shiftr_div_pow2; lia).
    assert (Hd : 0 ≤ d < 16) by (rewrite Ed; Z.div_mod_to_equations; lia). destruct (digit_at d Hd) as (c & Ec & Ev & _). rewrite Ec. cbn [mbind option_bind].
    assert (Ex : u64 (x ≪ 4) = 16 * (x mod 2 ^ 60)) by (unfold u64; rewrite Z.shiftl_mul_pow2 by lia; Z.div_mod_to_equations; lia).
    destruct (IH (u64 (x ≪ 4))) as (cs & -> & Hl & Hf & Hv); [lia|rewrite Ex; Z.div_mod_to_equations; lia|].
    exists (c :: cs). split; [done|]. split; [cbn; lia|]. split; [constructor; [by eapply list_elem_of_lookup_2|done]|].
    cbn [rev]. rewrite value_app, Hv, Ev, Ex. unfold len. rewrite length_rev, Hl.
    set (k := 64 - 4 * Z.of_nat (S n)). assert (Hk : 0 ≤ k) by (unfold k; lia). replace (64 - 4 * Z.of_nat n) with (k + 4) by (unfold k; lia).
    rewrite Z.pow_add_r by lia. change (2 ^ 4) with 16. rewrite (Z.mul_comm (2 ^ k) 16), Z.div_mul_cancel_l by lia.
    assert (E60 : 2 ^ 60 = 16 ^ Z.of_nat n * 2 ^ k).
    { change 16 with (2 ^ 4). rewrite <- Z.pow_mul_r, <- Z.pow_add_r by lia. f_equal. unfold k. lia. }
    rewrite (Z.div_mod x (2 ^ 60)) at 2 by lia. rewrite <- Ed, E60. replace (16 ^ Z.of_nat n * 2 ^ k * d) with (d * 16 ^ Z.of_nat n * 2 ^ k) by lia.
    rewrite Z.div_add_l by lia. rewrite <- E60. lia.
Qed.

(** ** The buffer of [printdouble] *)

Lemma put_all_spec cap buf cs : len buf ≤ cap →
  put_all cap buf cs = if len buf + len cs <=? cap then Some (buf ++ cs) else None.
Proof.
  revert buf. induction cs as [|c cs IH]; intros buf Hb; cbn [put_all].
  - rewrite len_nil, Z.add_0_r, (proj2 (Z.leb_le _ _)), app_nil_r by lia. done.
  - unfold put_char. destruct (Z.ltb_spec (len buf) cap) as [Hlt|Hge]; cbn [mbind option_bind].
    + rewrite IH by (rewrite len_app, len_cons, len_nil; lia). rewrite len_app, !len_cons, len_nil, <- app_assoc.
      by replace (len buf + (1 + 0) + len cs) with (len buf + (1 + len cs)) by lia.
    + rewrite len_cons, (proj2 (Z.leb_gt _ _)) by (pose proof (len_nonneg cs); lia). done.
Qed.

Section Doubles.
Context {D : Type} `{DoubleOps D}.

(** The digits behind the point: ten times the fraction, its integral part, and on
    with what is left. *)
Fixpoint decimals (n : nat) (frac : D) : list Z :=
  match n with
  | O => []
  | S n =>
      let digit := s32 (d_trunc (dmul frac (d_of 10))) in
      u8 (48 + digit) :: decimals n (dsub (dmul frac (d_of 10)) (d_of digit))
  end.

Lemma decimals_length n frac : length (decimals n frac) = n.
Proof. revert frac. induction n as [|n IH]; intros frac; [done|]. cbn. by rewrite IH. Qed.

(** A fraction that stands for [x / K], in an arithmetic that is exact for it. *)
Fixpoint exact_frac (K : Z) (n : nat) (frac : D) (x : Z) : Prop :=
  match n with
  | O => True
  | S n => d_trunc (dmul frac (d_of 10)) = 10 * x / K ∧
      exact_frac K n (dsub (dmul frac (d_of 10)) (d_of (10 * x / K))) (10 * x - 10 * x / K * K)
  end.

(** They are the decimal digits of the fraction, cut off behind the last. *)
Lemma decimals_exact K n frac x : 0 ≤ x < K → exact_frac K n frac x → value 10 (rev (decimals n frac)) = x * 10 ^ Z.of_nat n / K.
Proof.
  revert frac x. induction n as [|n IH]; intros frac x Hx; cbn [exact_frac decimals rev value].
  { intros _. rewrite Z.mul_1_r. symmetry. by apply Z.div_small. }
  intros [-> He]. set (q := 10 * x / K) in *. assert (Hq : 0 ≤ q < 10) by (unfold q; split; [apply Z.div_pos; lia|apply Z.div_lt_upper_bound; lia]).
  assert (Es : s32 q = q) by (unfold s32; Z.div_mod_to_equations; lia). assert (Eu : u8 (48 + q) = 48 + q) by (unfold u8; apply Z.mod_small; lia).
  assert (Hr : 10 * x - q * K = 10 * x mod K) by (unfold q; rewrite (Z.div_mod (10 * x) K) at 1 by lia; lia).
  pose proof (Z.mod_pos_bound (10 * x) K ltac:(lia)) as Hm. rewrite <- Hr in Hm. rewrite Es, Eu, value_app, (IH _ _ Hm He).
  unfold len, digit_value. rewrite length_rev, decimals_length, (proj2 (Z.ltb_lt _ _)) by lia.
  rewrite Nat2Z.inj_succ, Z.pow_succ_r by lia. replace (x * (10 * 10 ^ Z.of_nat n)) with ((10 * x - q * K) * 10 ^ Z.of_nat n + q * 10 ^ Z.of_nat n * K) by ring.
  rewrite Z.div_add by lia. lia.
Qed.

Lemma frac_loop_spec prec (frac : D) buf : len buf ≤ 64 →
  frac_loop prec frac buf = if len buf + Z.of_nat prec <=? 64 then Some (buf ++ decimals prec frac) else None.
Proof.
  revert frac buf. induction prec as [|prec IH]; intros frac buf Hb; cbn [frac_loop decimals].
  - rewrite Z.add_0_r, (proj2 (Z.leb_le _ _)), app_nil_r by lia. done.
  - set (c := u8 _). unfold put_char. destruct (Z.ltb_spec (len buf) 64) as [Hlt|Hge]; cbn [mbind option_bind].
    + rewrite IH by (rewrite len_app, len_cons, len_nil; lia). rewrite len_app, len_cons, len_nil, <- app_assoc.
      by replace (len buf + (1 + 0) + Z.of_nat prec) with (len buf + Z.of_nat (S prec)) by lia.
    + rewrite (proj2 (Z.leb_gt _ _)) by lia. done.
Qed.

(** The magnitude of a double, its integral part and its fraction. *)
Definition magnitude (d : D) : D := if d_ltz d then dneg d else d.
Definition integral (d : D) : Z := u64 (s64 (d_trunc (magnitude d))).
Definition fraction (d : D) : D := dsub (magnitude d) (d_of (s64 (d_trunc (magnitude d)))).
Definition sign_text (d : D) : list Z := if d_ltz d then [45] else [].

Lemma integral_range d : 0 ≤ integral d < 2 ^ 64.
Proof. unfold integral, u64. apply Z.mod_pos_bound. lia. Qed.

(** The digits of the integral part, at most [k] when it is below [10 ^ k]. *)
Lemma integral_digits d : ∃ ds, digit_loop 64 10 (integral d) [] = Some ds ∧ numeral 10 (integral d) (rev ds) ∧
  1 ≤ len (rev ds) ≤ 20 ∧ ∀ k, 1 ≤ k → integral d < 10 ^ k → len (rev ds) ≤ k.
Proof.
  pose proof (integral_range d) as Hx. pose proof (pow_bound 10 ltac:(lia)) as Hb.
  destruct (digit_loop_spec 10 19 64 (integral d) []) as (ds & E & Hl & Hn); [lia|lia|lia|rewrite len_nil; lia|]. exists ds.
  split; [done|]. split; [done|]. unfold len. rewrite length_rev. split; [lia|]. intros k Hk Hlt. destruct (decide (k < 20)) as [H20|]; [|lia].
  destruct (digit_loop_spec 10 (Z.to_nat (k - 1)) 64 (integral d) []) as (ds' & E' & Hl' & _); [lia| |lia|rewrite len_nil; lia|].
  { replace (Z.of_nat (S (Z.to_nat (k - 1)))) with k by lia. lia. }
  rewrite E in E'. injection E' as <-. lia.
Qed.

Lemma printdouble_spec d width prec : 0 ≤ prec → ∃ cs, numeral 10 (integral d) cs ∧ (∀ k, 1 ≤ k → integral d < 10 ^ k → len cs ≤ k) ∧
  let n := len (sign_text d) + len cs + 1 + prec in
  printdouble d width prec =
    if n <=? 63 then Some (padding width n ++ sign_text d ++ cs ++ [46] ++ decimals (Z.to_nat prec) (fraction d)) else None.
Proof.
  intros Hp. destruct (integral_digits d) as (ds & E & Hn & Hcs & Hk). exists (rev ds). split; [exact Hn|]. split; [exact Hk|]. cbv zeta.
  assert (Hsg : 0 ≤ len (sign_text d) ≤ 1) by (unfold sign_text; destruct (d_ltz d); vm_compute; split; discriminate).
  assert (Ep : printdouble d width prec =
    (ibuf ← digit_loop 64 10 (integral d) [];
     buf ← put_all 64 (sign_text d) (rev ibuf);
     buf ← put_char 64 buf 46;
     buf ← frac_loop (Z.to_nat prec) (fraction d) buf;
     _ ← put_char 64 buf 0;
     Some (padding width (len buf) ++ buf))).
  { unfold printdouble, integral, fraction, magnitude, sign_text. destruct (d_ltz d); reflexivity. }
  rewrite Ep, E. cbn [mbind option_bind app]. rewrite put_all_spec, (proj2 (Z.leb_le (len (sign_text d) + len (rev ds)) 64)) by lia. cbn [mbind option_bind].
  rewrite put_room by (rewrite len_app; lia). cbn [mbind option_bind]. rewrite frac_loop_spec by (rewrite !len_app, len_cons, len_nil; lia).
  set (fs := decimals _ _). assert (Hfl : len fs = prec) by (unfold len, fs; rewrite decimals_length; lia).
  rewrite !len_app, len_cons, len_nil, Z2Nat.id by lia. destruct (Z.leb_spec (len (sign_text d) + len (rev ds) + 1 + prec) 63).
  - rewrite (proj2 (Z.leb_le _ _)) by lia. cbn [mbind option_bind]. rewrite put_room by (rewrite !len_app, len_cons, len_nil, Hfl; lia). cbn [mbind option_bind].
    rewrite !len_app, len_cons, len_nil, Hfl, <- !app_assoc.
    by replace (len (sign_text d) + len (rev ds) + (1 + 0) + prec) with (len (sign_text d) + len (rev ds) + 1 + prec) by lia.
  - destruct (Z.leb_spec (len (sign_text d) + len (rev ds) + (1 + 0) + prec) 64); [|done]. cbn [mbind option_bind]. unfold put_char at 1.
    rewrite (proj2 (Z.ltb_ge _ _)) by (rewrite !len_app, len_cons, len_nil, Hfl; lia). done.
Qed.

(** ** Formats as sequences of segments *)

(** A character, "%%", an integer conversion (field width, number of 'l's, letter,
    register), a pointer, a character, a string, a double. *)
Inductive seg :=
  | SChar (c : Z)
  | SPercent
  | SInt (w : list Z) (l : nat) (letter v : Z)
  | SPtr (v : Z)
  | SCharArg (v : Z)
  | SStr (w : list Z) (s : option (list Z))
  | SDouble (w : list Z) (p : option (list Z)) (d : D).

Definition seg_fmt (g : seg) : list Z :=
  match g with
  | SChar c => [c]
  | SPercent => [37; 37]
  | SInt w l letter _ => 37 :: w ++ replicate l 108 ++ [letter]
  | SPtr _ => [37; 112]
  | SCharArg _ => [37; 99]
  | SStr w _ => 37 :: w ++ [115]
  | SDouble w p _ => 37 :: w ++ match p with Some p => 46 :: p | None => [] end ++ [102]
  end.
Definition seg_args (g : seg) : list (arg D) :=
  match g with
  | SChar _ | SPercent => []
  | SInt _ _ _ v | SPtr v | SCharArg v => [ARegister v]
  | SStr _ s => [AString s]
  | SDouble _ _ d => [ADouble d]
  end.

(** The number an integer conversion prints. *)
Definition seg_int (l : nat) (letter v : Z) : Z :=
  match l with O => if letter =? 100 then s32 v else u32 v | S _ => s64 v end.

(** The precision, six by default. *)
Definition seg_prec (p : option (list Z)) : Z :=
  match p with Some p => if digits_value s32 p <? 0 then 6 else digits_value s32 p | None => 6 end.

Definition seg_text (g : seg) (out : list Z) : Prop :=
  match g with
  | SChar c => out = [c]
  | SPercent => out = [37]
  | SInt w l letter v => int_text (seg_int l letter v) (if letter =? 120 then 16 else 10) (letter =? 100) (digits_value s32 w) out
  | SPtr v => ∃ cs, out = [48; 120] ++ cs ∧ length cs = 16%nat ∧ Forall (λ c, c ∈ digits) cs ∧ value 16 (rev cs) = u64 v
  | SCharArg v => out = [u8 v]
  | SStr w s => let s := cstr (default [40; 110; 117; 108; 108; 41] s) in out = padding (digits_value s32 w) (len s) ++ s
  | SDouble w p d => ∃ cs, numeral 10 (integral d) cs ∧
      let text := sign_text d ++ cs ++ [46] ++ decimals (Z.to_nat (seg_prec p)) (fraction d) in
      out = padding (digits_value s32 w) (len text) ++ text
  end.

(** The letters and widths of the conversions; a double whose integral part has at
    most [k] digits, such that with the sign, the point and the precision it is no
    longer than 63 characters. *)
Definition all_digits (w : list Z) : Prop := Forall (λ c, xisdigit c = true) w.
Definition seg_ok (g : seg) : Prop :=
  match g with
  | SChar c => c ≠ 37
  | SPercent | SPtr _ | SCharArg _ => True
  | SInt w l letter _ => all_digits w ∧ (l ≤ 2)%nat ∧ letter ∈ [100; 117; 120]
  | SStr w _ => all_digits w
  | SDouble w p d => all_digits w ∧ match p with Some p => all_digits p | None => True end ∧
      ∃ k, 1 ≤ k ∧ integral d < 10 ^ k ∧ len (sign_text d) + k + 1 + seg_prec p ≤ 63
  end.

Lemma skip_app w r : all_digits w → xisdigit (deref r) = false → skip_while xisdigit (w ++ r) = r ∧ span_while xisdigit (w ++ r) = w.
Proof.
  intros Hw Hr. induction Hw as [|c w Hc _ [IH1 IH2]]; cbn [app skip_while span_while].
  - destruct r as [|c r]; [done|]. cbn in Hr |- *. by rewrite Hr.
  - rewrite Hc. split; [done|by rewrite IH2].
Qed.

Lemma digits_app w r : all_digits w → xisdigit (deref r) = false → digits_value s32 (w ++ r) = digits_value s32 w.
Proof. intros Hw Hr. unfold digits_value. rewrite (proj2 (skip_app w r Hw Hr)), span_all by done. done. Qed.

Lemma read_spec_width w c r : all_digits w → xisdigit c = false → c ≠ 46 → read_spec (w ++ c :: r) = (digits_value s32 w, -1, c :: r).
Proof.
  intros Hw Hc H46. unfold read_spec. rewrite digits_app, (proj1 (skip_app w (c :: r) Hw Hc)) by done. cbn [deref].
  by rewrite (proj2 (Z.eqb_neq c 46)) by done.
Qed.

Lemma read_spec_prec w p c r : all_digits w → all_digits p → xisdigit c = false →
  read_spec (w ++ 46 :: p ++ c :: r) = (digits_value s32 w, digits_value s32 p, c :: r).
Proof.
  intros Hw Hp Hc. unfold read_spec. rewrite digits_app, (proj1 (skip_app w (46 :: p ++ c :: r) Hw eq_refl)) by done. cbn [deref tail Z.eqb].
  rewrite digits_app, (proj1 (skip_app p (c :: r) Hp Hc)) by done. done.
Qed.

(** The two passes of the loop over one conversion. *)
Lemma conversion_step fuel indent w r als (ap : list (arg D)) width prec c0 rest cs ap' skip out :
  w ++ r ≠ [] → read_spec (w ++ r) = (width, prec, c0 :: rest) →
  conversion c0 (deref rest) (deref (tail rest)) width prec ap = Some (cs, ap', skip) →
  vprintf_loop fuel indent (drop skip rest) false false ap' = Some out →
  vprintf_loop (S (S fuel)) indent (37 :: w ++ r) false als ap = Some ((if als then replicate (Z.to_nat indent) 32 else []) ++ cs ++ out).
Proof.
  intros Hne Hs Hc Ho. cbn [vprintf_loop]. change (37 =? 10) with false. change (37 =? 37) with true. cbn [negb]. rewrite !andb_true_r.
  destruct (w ++ r) as [|c q] eqn:Ewr; [done|]. assert (Hals : als && negb als = false) by (by destruct als). rewrite Hals. cbn [andb negb].
  rewrite Hs, Hc. cbn [mbind option_bind]. rewrite Ho. cbn [mbind option_bind]. by destruct als.
Qed.

Lemma loop_more fuel fuel' indent fmt percent als (ap : list (arg D)) out :
  (fuel ≤ fuel')%nat → vprintf_loop fuel indent fmt percent als ap = Some out → vprintf_loop fuel' indent fmt percent als ap = Some out.
Proof.
  revert fuel' fmt percent als ap out. induction fuel as [|fuel IH]; intros fuel' fmt percent als ap out Hle; [done|].
  destruct fuel' as [|fuel']; [lia|]. cbn [vprintf_loop]. destruct fmt as [|c0 rest]; [done|]. destruct (negb percent).
  - destruct (c0 =? 37); (destruct (vprintf_loop fuel _ _ _ _ _) as [o|] eqn:E; [|done]); by rewrite (IH fuel' _ _ _ _ _ ltac:(lia) E).
  - destruct (read_spec (c0 :: rest)) as [[width prec] [|c1 q]]; [done|]. destruct (conversion _ _ _ _ _ _) as [[[cs ap'] skip]|]; [|done]. cbn [mbind option_bind].
    destruct (vprintf_loop fuel _ _ _ _ _) as [o|] eqn:E; [|done]. by rewrite (IH fuel' _ _ _ _ _ ltac:(lia) E).
Qed.

Definition is_newline (g : seg) : bool := match g with SChar c => c =? 10 | _ => false end.

(** What is needed of a conversion that is written [w ++ r]. *)
Definition converts (w r : list Z) (args : list (arg D)) (cs : list Z) : Prop := ∀ tl ap, ∃ width prec c0 rest skip,
  read_spec (w ++ r ++ tl) = (width, prec, c0 :: rest) ∧ drop skip rest = tl ∧
  conversion c0 (deref rest) (deref (tail rest)) width prec (args ++ ap) = Some (cs, ap, skip).

Lemma seg_int_range l letter v : - 2 ^ 63 ≤ seg_int l letter v < 2 ^ 63.
Proof. unfold seg_int, s32, u32, s64. destruct l; [destruct (letter =? 100)|]; Z.div_mod_to_equations; lia. Qed.

Lemma int_converts w l letter v : all_digits w → (l ≤ 2)%nat → letter ∈ [100; 117; 120] →
  ∃ cs, seg_text (SInt w l letter v) cs ∧ converts w (replicate l 108 ++ [letter]) [ARegister v] cs.
Proof.
  intros Hw Hl Hk. destruct (printint_spec (seg_int l letter v) (if letter =? 120 then 16 else 10) (letter =? 100) (digits_value s32 w)) as (cs & E & Ht);
    [destruct (letter =? 120); lia|apply seg_int_range|]. exists cs. split; [exact Ht|]. intros tl ap.
  destruct l as [|[|[|l]]]; [..|lia]; cbn [replicate app]; [exists (digits_value s32 w), (-1), letter, tl, 0%nat|
    exists (digits_value s32 w), (-1), 108, (letter :: tl), 1%nat|exists (digits_value s32 w), (-1), 108, (108 :: letter :: tl), 2%nat];
    (split; [apply read_spec_width; [done|..]; rewrite ?elem_of_cons in Hk; (destruct Hk as [->|[->|[->|Hk]]]; [done..|by apply elem_of_nil in Hk]) || done|]);
    (split; [done|]); rewrite !elem_of_cons in Hk; (destruct Hk as [->|[->|[->|Hk]]]; [| | |by apply elem_of_nil in Hk]);
    unfold conversion; cbn [Z.eqb Pos.eqb andb deref tail app va_int va_uint32 va_uint64 mbind option_bind seg_int prints] in *; by rewrite E.
Qed.

Lemma double_converts w p d : seg_ok (SDouble w p d) →
  ∃ cs, seg_text (SDouble w p d) cs ∧ converts w (match p with Some p => 46 :: p | None => [] end ++ [102]) [ADouble d] cs.
Proof.
  intros (Hw & Hp & k & Hk & Hd & Hlen). assert (H0 : 0 ≤ seg_prec p).
  { unfold seg_prec. destruct p as [p|]; [|done]. destruct (Z.ltb_spec (digits_value s32 p) 0); lia. }
  destruct (printdouble_spec d (digits_value s32 w) (seg_prec p) H0) as (cs & Hn & Hl & E). cbv zeta in E. specialize (Hl k Hk Hd).
  rewrite (proj2 (Z.leb_le _ 63)) in E by lia. set (text := sign_text d ++ _) in E.
  assert (Ht : len (sign_text d) + len cs + 1 + seg_prec p = len text).
  { unfold text. rewrite !len_app. unfold len at 6. rewrite decimals_length, Z2Nat.id by lia. change (len [46]) with 1. lia. }
  rewrite Ht in E. exists (padding (digits_value s32 w) (len text) ++ text). split; [by exists cs|]. clear Ht. intros tl ap. destruct p as [p|].
  - exists (digits_value s32 w), (digits_value s32 p), 102, tl, 0%nat. split; [|split; [done|]].
    + cbn [app]. rewrite <- app_assoc. by apply read_spec_prec.
    + unfold conversion. cbn [Z.eqb Pos.eqb andb app]. cbn [seg_prec] in E. by rewrite E.
  - exists (digits_value s32 w), (-1), 102, tl, 0%nat. split; [by apply read_spec_width|]. split; [done|].
    unfold conversion. cbn [Z.eqb Pos.eqb andb app Z.ltb Z.compare]. cbn [seg_prec] in E. by rewrite E.
Qed.

Lemma seg_converts g : seg_ok g → (∀ c, g ≠ SChar c) →
  ∃ w r cs, seg_fmt g = 37 :: w ++ r ∧ r ≠ [] ∧ seg_text g cs ∧ converts w r (seg_args g) cs.
Proof.
  intros Hok Hne. destruct g as [c| |w l letter v|v|v|w s|w p d]; [by destruct (Hne c)|..].
  - exists [], [37], [37]. split; [done|]. split; [done|]. split; [done|]. intros tl ap. by exists 0, (-1), 37, tl, 0%nat.
  - destruct Hok as (Hw & Hl & Hk). destruct (int_converts w l letter v Hw Hl Hk) as (cs & Ht & Hc).
    exists w, (replicate l 108 ++ [letter]), cs. split; [done|]. split; [by destruct l|]. done.
  - destruct (ptr_loop_spec 16 (u64 v) ltac:(lia)) as (cs & E & Hl & Hd & Hv); [unfold u64; apply Z.mod_pos_bound; lia|].
    exists [], [112], ([48; 120] ++ cs). split; [done|]. split; [done|]. split.
    + exists cs. split; [done|]. split; [done|]. split; [done|]. rewrite Hv. apply Z.div_1_r.
    + intros tl ap. exists 0, (-1), 112, tl, 0%nat. split; [done|]. split; [done|].
      unfold conversion. cbn [Z.eqb Pos.eqb andb app seg_args va_uint64 mbind option_bind prints].
      assert (Eu : u64 (s64 v) = u64 v) by (unfold u64, s64; Z.div_mod_to_equations; lia). unfold printptr. rewrite Eu, E. done.
  - exists [], [99], [u8 v]. split; [done|]. split; [done|]. split; [done|]. intros tl ap. exists 0, (-1), 99, tl, 0%nat. split; [done|]. split; [done|].
    unfold conversion. cbn [Z.eqb Pos.eqb andb app seg_args va_uint32 mbind option_bind prints].
    do 4 f_equal. unfold u8, u32. Z.div_mod_to_equations. lia.
  - exists w, [115], (let s := cstr (default [40; 110; 117; 108; 108; 41] s) in padding (digits_value s32 w) (len s) ++ s).
    split; [done|]. split; [done|]. split; [done|]. intros tl ap. exists (digits_value s32 w), (-1), 115, tl, 0%nat.
    split; [by apply read_spec_width|]. by split.
  - destruct (double_converts w p d Hok) as (cs & Ht & Hc). exists w, (match p with Some p => 46 :: p | None => [] end ++ [102]), cs.
    split; [done|]. split; [by destruct p as [[|]|]|]. done.
Qed.

(** One segment; the line has started behind it unless it is a newline. *)
Lemma seg_step g indent als : seg_ok g → ∃ cs, seg_text g cs ∧
  ∀ fuel tl ap out, vprintf_loop fuel indent tl false (als && is_newline g) ap = Some out →
    vprintf_loop (length (seg_fmt g) + fuel) indent (seg_fmt g ++ tl) false als (seg_args g ++ ap) =
      Some ((if als && negb (is_newline g) then replicate (Z.to_nat indent) 32 else []) ++ cs ++ out).
Proof.
  intros Hok. destruct g as [c| |w l letter v|v|v|w s|w p d] eqn:Eg.
  { exists [c]. split; [done|]. intros fuel tl ap out E. cbn [seg_fmt seg_args app is_newline length Nat.add vprintf_loop negb] in *. cbn [seg_ok] in Hok.
    rewrite (proj2 (Z.eqb_neq c 37)) by done.
    assert (Ea : als && negb (als && negb (c =? 10)) = als && (c =? 10)) by (by destruct als, (c =? 10)). by rewrite Ea, E. }
  all: destruct (seg_converts g) as (w' & r & cs & Ef & Hr & Ht & Hc); [by rewrite Eg|by rewrite Eg|]; rewrite Eg in Ef, Ht, Hc;
    exists cs; (split; [exact Ht|]); intros fuel tl ap out E; rewrite Ef; cbn [app]; rewrite <- app_assoc;
    cbn [is_newline negb] in *; rewrite andb_false_r in E; rewrite andb_true_r;
    destruct (Hc tl ap) as (width & prec & c0 & rest & skip & H1 & H2 & H3); rewrite <- H2 in E;
    (apply (loop_more (S (S fuel))); [cbn [length]; rewrite length_app; destruct r; [done|cbn [length]; lia]|]);
    eapply conversion_step; [|exact H1|exact H3|exact E]; by destruct w', r.
Qed.

(** The texts of the segments, the indentation before the first that is not a
    newline. *)
Fixpoint indented (indent : Z) (gs : list seg) (texts : list (list Z)) : list Z :=
  match gs, texts with
  | g :: gs, cs :: texts =>
      if is_newline g then cs ++ indented indent gs texts else replicate (Z.to_nat indent) 32 ++ cs ++ concat texts
  | _, _ => []
  end.

Lemma segs_run indent gs als : Forall seg_ok gs → ∃ texts, Forall2 seg_text gs texts ∧
  vprintf_loop (S (length (flat_map seg_fmt gs))) indent (flat_map seg_fmt gs) false als (flat_map seg_args gs) =
    Some (if als then indented indent gs texts else concat texts).
Proof.
  intros Hg. revert als. induction Hg as [|g gs Hok _ IH]; intros als; [exists []; split; [constructor|by destruct als]|].
  destruct (IH (als && is_newline g)) as (texts & Ht & E). destruct (seg_step g indent als Hok) as (cs & Hcs & Hrun).
  exists (cs :: texts). split; [by constructor|]. cbn [flat_map]. rewrite length_app, <- Nat.add_succ_r, (Hrun _ _ _ _ E). f_equal.
  cbn [indented concat]. destruct als; [|done]. cbn [andb]. by destruct (is_newline g).
Qed.
End Doubles.

(** ** Properties *)

(** C20: [printf] writes what its format says.  For every format made of characters,
    "%%", integer conversions (any of d, u, x, with up to two 'l's and a width),
    %p, %c, %s and %f, with an argument of the right kind for each: the output is
    the text of each in order (the numeral in its base without leading zeros, with
    the sign and the padding; the string or "(null)"), and the indentation once,
    before the first character that is not a newline.  The text of %f is the sign,
    the numeral of the integral part, the point and the decimals, six of them or as
    many as the precision says, padded to the width; it is assumed to fit the 63
    characters of the local array.  *)
Theorem printf_renders {D : Type} `{DoubleOps D} indent (gs : list (seg (D := D))) :
  Forall seg_ok gs → ∃ texts, Forall2 seg_text gs texts ∧
    vprintf (printf_set_indent indent) (flat_map seg_fmt gs) (flat_map seg_args gs) = Some (indented (printf_set_indent indent) gs texts).
Proof. intros Hg. by apply (segs_run (printf_set_indent indent) gs true). Qed.

(** What [printf] writes for an [int], at any width, [xatoi] reads back. *)
Theorem printed_int_reads_back v width : - 2 ^ 31 ≤ v < 2 ^ 31 →
  ∃ out, printint v 10 true width = Some out ∧ xatoi out = v ∧ (width ≤ len out)%Z.
Proof.
  intros Hv. destruct (printint_spec v 10 true width) as (out & E & cs & (Hval & Hdig & Hhead) & ->); [lia|lia|]. eexists. split; [exact E|]. cbn [andb] in *.
  split; [|unfold padding; rewrite len_app; unfold len at 1; rewrite length_replicate; set (n := len _); destruct (Z.ltb_spec n width); lia].
  unfold padding. rewrite xatoi_padding.
  assert (Hr : Forall (λ c, c ∈ take (Z.to_nat 10) digits) (rev cs)) by (by apply Forall_rev).
  destruct (value_number _ Hr) as [Hn Hx]. assert (Hcs : ∃ c r, cs = c :: r) by (destruct Hhead as [->|(c & r & -> & _)]; by eexists _, _).
  destruct Hcs as (c & r & ->). rewrite (xatoi_digits (v <? 0) c r (rev (c :: r))) by (done || apply rev_involutive). rewrite <- Hn, Hval.
  destruct (Z.ltb_spec v 0); unfold s32, u64; Z.div_mod_to_equations; lia.
Qed.

(** C21: [printdouble] keeps to its buffer of 64 bytes exactly when the sign, the
    digits of the integral part, the point and the precision leave room for the
    NUL; a larger precision writes behind it. *)
Theorem printdouble_buffer {D : Type} `{DoubleOps D} (d : D) width prec : 0 ≤ prec →
  ∃ cs, numeral 10 (u64 (s64 (d_trunc (if d_ltz d then dneg d else d)))) cs ∧
    let n := (if d_ltz d then 1 else 0) + len cs + 1 + prec in
    if n <=? 63 then ∃ fs, len fs = prec ∧
      let text := (if d_ltz d then [45] else []) ++ cs ++ [46] ++ fs in printdouble d width prec = Some (padding width n ++ text)
    else printdouble d width prec = None.
Proof.
  intros Hp. destruct (printdouble_spec d width prec Hp) as (cs & Hn & _ & E). exists cs. split; [exact Hn|]. cbv zeta in *.
  assert (Hs : len (sign_text d) = if d_ltz d then 1 else 0) by (unfold sign_text; by destruct (d_ltz d)). rewrite Hs in E.
  destruct (_ <=? 63); [|exact E]. exists (decimals (Z.to_nat prec) (fraction d)).
  split; [unfold len; rewrite decimals_length; lia|exact E].
Qed.
(** Doubles that are integers. *)
#[local] Instance int_doubles : DoubleOps Z := {|
  d_of := λ z, z; d_half := 0; d_tenth := 0; dadd := Z.add; dsub := Z.sub; dmul := Z.mul; ddiv := Z.div; dneg := Z.opp;
  d_nan := λ _, false; d_pinf := λ _, false; d_ninf := λ _, false; d_ltz := λ d, d <? 0; d_gez := λ d, 0 <=? d; d_trunc := λ d, d |}.

Lemma printf_renders_witness :
  ∃ out, vprintf 2 [10; 120; 37; 53; 100; 37; 115; 37; 46; 51; 102] [ARegister (-42); AString None; ADouble (-7)] = Some out.
Proof.
  destruct (printf_renders 2 [SChar 10; SChar 120; SInt [53] 0 100 (-42); SStr [] None; SDouble [] (Some [51]) (-7)]) as (texts & _ & E).
  - repeat (apply Forall_cons; split); [discriminate|discriminate| | | |apply Forall_nil; exact I].
    + split; [apply Forall_cons; split; [reflexivity|apply Forall_nil; exact I]|]. split; [lia|left].
    + apply Forall_nil. exact I.
    + split; [apply Forall_nil; exact I|]. split; [apply Forall_cons; split; [reflexivity|apply Forall_nil; exact I]|].
      exists 1. vm_compute. split; [discriminate|split; [reflexivity|discriminate]].
  - eexists. exact E.
Defined.

Lemma printed_int_reads_back_witness : ∃ out, printint (-2147483648) 10 true 15 = Some out ∧ xatoi out = -2147483648.
Proof. destruct (printed_int_reads_back (-2147483648) 15) as (out & E & Hx & _); [lia|]. exists out. split; [exact E|exact Hx]. Defined.

Lemma printdouble_buffer_witness : printdouble (-7) 0 61 = None.
Proof.
  destruct (printdouble_buffer (-7) 0 61) as (cs & (_ & _ & Hc) & H); [lia|]. assert (Hl : 1 ≤ len cs).
  { destruct Hc as [->|(c & r & -> & _)]; unfold len; cbn [length]; lia. }
  cbv zeta in H. change (d_ltz (-7)) with true in H. cbv iota in H. destruct (Z.leb_spec (1 + len cs + 1 + 61) 63); [lia|exact H].
Defined.

(** A format that ends in a width makes the loop step over its NUL. *)
Lemma width_at_end_runs_on : vprintf (D := Z) 0 [37; 53] [] = None.
Proof. reflexivity. Qed.
