(* ===== verification/Shell.v ===== *)
(** * The shell's parser (src/xv6-riscv/user/sh.c)

    The line is in memory, NUL-terminated; the cursor [*ps] and the strings of a
    command are addresses.  The nodes of a command are in a heap of their own, a
    pointer is the index of a node; [malloc] gives a new one.  An access outside
    the memory or outside the [MAXARGS] entries of [argv] and [eargv] is a fault,
    [panic] ends a function without a result. *)
From S2P Require Import Prelude Ulib.

(** ** Commands in memory *)

Inductive node :=
  | EXEC (args : list (Z * Z))       (* argv[i], eargv[i], before the null pointer *)
  | REDIR (cmd : nat) (file efile mode fd : Z)
  | PIPE (left right : nat)
  | LIST (left right : nat)
  | BACK (cmd : nat).

Definition MAXARGS : Z := 20.
Definition O_RDONLY : Z := 0.
Definition O_WRONLY : Z := 1.
Definition O_CREATE : Z := 0x200.
Definition O_TRUNC : Z := 0x400.

Record sh_t := Sh { mem : list Z; heap : list node; ps : Z }.

Definition read (a : Z) : M sh_t Z := λ s, (λ v, (v, s)) <$> load (mem s) a.
Definition write0 (a : Z) : M sh_t unit := λ s, (λ m, (tt, Sh m (heap s) (ps s))) <$> store (mem s) a 0.
Definition set_ps (a : Z) : M sh_t unit := modify (λ s, Sh (mem s) (heap s) a).
Definition new (n : node) : M sh_t nat := λ s, Some (length (heap s), Sh (mem s) (heap s ++ [n]) (ps s)).
Definition node_at (p : nat) : M sh_t node := λ s, (λ n, (n, s)) <$> heap s !! p.

Definition execcmd : M sh_t nat := new (EXEC []).
Definition redircmd (subcmd : nat) (file efile mode fd : Z) : M sh_t nat := new (REDIR subcmd file efile mode fd).
Definition pipecmd (left right : nat) : M sh_t nat := new (PIPE left right).
Definition listcmd (left right : nat) : M sh_t nat := new (LIST left right).
Definition backcmd (subcmd : nat) : M sh_t nat := new (BACK subcmd).

(** The arrays [argv] and [eargv] have an element [argc]. *)
Definition argv_has (argc : Z) : bool := (0 <=? argc) && (argc <? MAXARGS).

(** [cmd->argv[argc] = q; cmd->eargv[argc] = eq; argc++;]  The arguments so far are
    the first [argc]. *)
Definition add_arg (p : nat) (q eq : Z) : M sh_t Z :=
  let* n := node_at p in
  match n with
  | EXEC args =>
      let argc := Z.of_nat (length args) in
      if argv_has argc then
        λ s, Some (argc + 1, Sh (mem s) (<[p := EXEC (args ++ [(q, eq)])]> (heap s)) (ps s))
      else fault
  | _ => fault
  end.

(** [cmd->argv[argc] = 0; cmd->eargv[argc] = 0;] *)
Definition end_args (p : nat) : M sh_t unit :=
  let* n := node_at p in
  match n with
  | EXEC args => if argv_has (Z.of_nat (length args)) then ret tt else fault
  | _ => fault
  end.

(** ** Tokens *)

Definition whitespace : list Z := [32; 9; 13; 10; 11].
Definition symbols : list Z := [60; 124; 62; 38; 59; 40; 41].

(** [strchr(set, c)] for a set without NUL. *)
Definition in_set (set : list Z) (c : Z) : bool := bool_decide (c ∈ set).

(** [while(s < es && f( *s)) s++;] *)
Fixpoint skip_loop (n : nat) (f : Z → bool) (s : Z) : M sh_t Z :=
  match n with
  | O => ret s
  | S n => let* c := read s in if f c then skip_loop n f (s + 1) else ret s
  end.
Definition skip (f : Z → bool) (es s : Z) : M sh_t Z := skip_loop (Z.to_nat (es - s)) f s.
Definition skip_white (es s : Z) : M sh_t Z := skip (in_set whitespace) es s.

(** The token, [*q] and [*eq]. *)
Definition gettoken (es : Z) : M sh_t (Z * Z * Z) :=
  let* s := gets ps in
  let* s := skip_white es s in
  let q := s in
  let* c := read s in
  if c =? 34 then
    let s := s + 1 in
    let q := s in
    let* s := skip (λ c, negb (c =? 34)) es s in
    let eq := s in
    let* c := read s in
    let s := if c =? 34 then s + 1 else s in
    let* s := skip_white es s in
    set_ps s ;;*
    ret (97, q, eq)
  else
    let* (tok, s) :=
      (if c =? 0 then ret (0, s)
       else if in_set [124; 40; 41; 59; 38; 60] c then ret (c, s + 1)
       else if c =? 62 then
         let* d := read (s + 1) in
         if d =? 62 then ret (43, s + 2) else ret (62, s + 1)
       else
         let* s := skip (λ c, negb (in_set whitespace c) && negb (in_set symbols c)) es s in
         ret (97, s)) in
    let eq := s in
    let* s := skip_white es s in
    set_ps s ;;*
    ret (tok, q, eq).

Definition peek (es : Z) (toks : list Z) : M sh_t bool :=
  let* s := gets ps in
  let* s := skip_white es s in
  set_ps s ;;*
  let* c := read s in
  ret (negb (c =? 0) && in_set toks c).

(** ** The parser *)

Fixpoint parseredirs (fuel : nat) (es : Z) (cmd : nat) : M sh_t (option nat) :=
  match fuel with
  | O => fault
  | S fuel =>
      let* more := peek es [60; 62] in
      if negb more then next cmd
      else
        let* (tok, _, _) := gettoken es in
        let* (t, q, eq) := gettoken es in
        if negb (t =? 97) then goto_fail
        else
          let* cmd :=
            (if tok =? 60 then redircmd cmd q eq O_RDONLY 0
             else if tok =? 62 then redircmd cmd q eq (Z.lor (Z.lor O_WRONLY O_CREATE) O_TRUNC) 1
             else if tok =? 43 then redircmd cmd q eq (Z.lor O_WRONLY O_CREATE) 1
             else ret cmd) in
          parseredirs fuel es cmd
  end.

(** The loop over the arguments of [cmd], which [r] wraps, and the null pointers
    behind the last one. *)
Fixpoint args_loop (fuel : nat) (es : Z) (cmd r : nat) : M sh_t (option nat) :=
  match fuel with
  | O => fault
  | S fuel =>
      let* stop := peek es [124; 41; 38; 59] in
      if stop then end_args cmd ;;* next r
      else
        let* (tok, q, eq) := gettoken es in
        if tok =? 0 then end_args cmd ;;* next r
        else if negb (tok =? 97) then goto_fail
        else
          let* argc := add_arg cmd q eq in
          if MAXARGS <=? argc then goto_fail
          else
            let? r := parseredirs fuel es r in
            args_loop fuel es cmd r
  end.

(** [while(peek(ps, es, "&"))] *)
Fixpoint back_loop (fuel : nat) (es : Z) (cmd : nat) : M sh_t (option nat) :=
  match fuel with
  | O => fault
  | S fuel =>
      let* more := peek es [38] in
      if negb more then next cmd
      else
        let* _ := gettoken es in
        let* cmd := backcmd cmd in
        back_loop fuel es cmd
  end.

Fixpoint parseline (fuel : nat) (es : Z) : M sh_t (option nat) :=
  match fuel with
  | O => fault
  | S fuel =>
      let? cmd := parsepipe fuel es in
      let? cmd := back_loop fuel es cmd in
      let* more := peek es [59] in
      if more then
        let* _ := gettoken es in
        let? r := parseline fuel es in
        let* cmd := listcmd cmd r in
        next cmd
      else next cmd
  end
with parsepipe (fuel : nat) (es : Z) : M sh_t (option nat) :=
  match fuel with
  | O => fault
  | S fuel =>
      let? cmd := parseexec fuel es in
      let* more := peek es [124] in
      if more then
        let* _ := gettoken es in
        let? r := parsepipe fuel es in
        let* cmd := pipecmd cmd r in
        next cmd
      else next cmd
  end
with parseexec (fuel : nat) (es : Z) : M sh_t (option nat) :=
  match fuel with
  | O => fault
  | S fuel =>
      let* block := peek es [40] in
      if block then parseblock fuel es
      else
        let* cmd := execcmd in
        let? r := parseredirs fuel es cmd in
        args_loop fuel es cmd r
  end
with parseblock (fuel : nat) (es : Z) : M sh_t (option nat) :=
  match fuel with
  | O => fault
  | S fuel =>
      let* block := peek es [40] in
      if negb block then goto_fail
      else
        let* _ := gettoken es in
        let? cmd := parseline fuel es in
        let* closed := peek es [41] in
        if negb closed then goto_fail
        else
          let* _ := gettoken es in
          parseredirs fuel es cmd
  end.

(** [for(i=0; ecmd->argv[i]; i++) *ecmd->eargv[i] = 0;]  The null pointer that ends
    the loop is read too. *)
Fixpoint terminate_args (i : Z) (args : list (Z * Z)) : M sh_t unit :=
  if negb (argv_has i) then fault
  else
    match args with
    | [] => ret tt
    | (_, eq) :: args => write0 eq ;;* terminate_args (i + 1) args
    end.

Fixpoint nulterminate (fuel : nat) (cmd : nat) : M sh_t unit :=
  match fuel with
  | O => fault
  | S fuel =>
      let* n := node_at cmd in
      match n with
      | EXEC args => terminate_args 0 args
      | REDIR c _ efile _ _ => nulterminate fuel c ;;* write0 efile
      | PIPE l r => nulterminate fuel l ;;* nulterminate fuel r
      | LIST l r => nulterminate fuel l ;;* nulterminate fuel r
      | BACK c => nulterminate fuel c
      end
  end.

(** [strlen(s)]. *)
Fixpoint strlen_loop (n : nat) (s : Z) : M sh_t Z :=
  match n with
  | O => fault
  | S n => let* c := read s in if c =? 0 then ret s else strlen_loop n (s + 1)
  end.

(** Each of the four functions is entered at most once per character and level. *)
Definition parse_fuel (s es : Z) : nat := Z.to_nat (4 * (es - s) + 8).

Definition parsecmd (s : Z) : M sh_t (option nat) :=
  let* size := gets (λ st, S (length (mem st))) in
  let* es := strlen_loop size s in
  set_ps s ;;*
  let? cmd := parseline (parse_fuel s es) es in
  let* _ := peek es [] in
  let* s := gets ps in
  if negb (s =? es) then goto_fail
  else
    nulterminate (S cmd) cmd ;;*
    next cmd.

(** ** Commands *)

Definition node_spans (n : node) : list (Z * Z) :=
  match n with EXEC args => args | REDIR _ file efile _ _ => [(file, efile)] | _ => [] end.
Definition kids (n : node) : list nat :=
  match n with EXEC _ => [] | REDIR c _ _ _ _ => [c] | PIPE l r => [l; r] | LIST l r => [l; r] | BACK c => [c] end.

(** What a command in memory stands for, when [text] gives its strings. *)
Inductive cmd :=
  | Exec (argv : list (list Z))
  | Redir (c : cmd) (file : list Z) (mode fd : Z)
  | Pipe (l r : cmd)
  | Seq (l r : cmd)
  | Back (c : cmd).

Section Tree.
Context (h : list node).

Fixpoint tree_of (fuel : nat) (text : Z * Z → list Z) (p : nat) : option cmd :=
  match fuel with
  | O => None
  | S fuel =>
      n ← h !! p;
      match n with
      | EXEC args => Some (Exec (map text args))
      | REDIR c file efile mode fd => c ← tree_of fuel text c; Some (Redir c (text (file, efile)) mode fd)
      | PIPE l r => l ← tree_of fuel text l; r ← tree_of fuel text r; Some (Pipe l r)
      | LIST l r => l ← tree_of fuel text l; r ← tree_of fuel text r; Some (Seq l r)
      | BACK c => c ← tree_of fuel text c; Some (Back c)
      end
  end.

(** The strings of a command. *)
Fixpoint reach (fuel : nat) (p : nat) : list (Z * Z) :=
  match fuel with
  | O => []
  | S fuel => match h !! p with Some n => flat_map (reach fuel) (kids n) ++ node_spans n | None => [] end
  end.
End Tree.

(** The children of a node have smaller addresses. *)
Definition tree (h : list node) (text : Z * Z → list Z) (p : nat) : option cmd := tree_of h (S p) text p.

(** ** The parser keeps to the line *)

(** The strings of all commands. *)
Definition spans (h : list node) : list (Z * Z) := flat_map node_spans h.

(** Two strings that do not touch. *)
Definition apart (x y : Z * Z) : Prop := snd x < fst y ∨ snd y < fst x ∨ x = y.

Section Line.
Context (m0 : list Z) (s0 es : Z).
Context (Hs0 : 0 ≤ s0 ≤ es) (Hes : es < len m0) (Hend : byte_at m0 es = 0) (Hline : ∀ a, s0 ≤ a < es → byte_at m0 a ≠ 0).

(** A string that ends at [e] is complete when the cursor is at [p]: what follows it
    is not part of a word. *)
Definition complete (e p : Z) : Prop := e < p ∨ e = p ∧ (byte_at m0 p ∈ symbols ∨ p = es).

Record ok (st : sh_t) : Prop := {
  ok_mem : mem st = m0;
  ok_ps : s0 ≤ ps st ≤ es;
  ok_spans : ∀ x, x ∈ spans (heap st) → s0 ≤ fst x ≤ snd x ∧ complete (snd x) (ps st);
  ok_apart : ∀ x y, x ∈ spans (heap st) → y ∈ spans (heap st) → apart x y;
  ok_kids : ∀ i n, heap st !! i = Some n → Forall (λ c, (c < i)%nat) (kids n);
  ok_args : ∀ i args, heap st !! i = Some (EXEC args) → Z.of_nat (length args) < MAXARGS;
}.

Definition move (st : sh_t) (p : Z) : sh_t := Sh (mem st) (heap st) p.

Lemma complete_later e p p' : p ≤ p' ≤ es → complete e p → complete e p'.
Proof. intros Hp [H|[-> H]]; [left; lia|]. destruct (decide (p = p')) as [<-|]; [by right|left; lia]. Qed.

Lemma ok_move st p : ok st → ps st ≤ p ≤ es → ok (move st p).
Proof.
  intros [H1 H2 H3 H4 H5 H6] Hp. split; [done|cbn; lia| |done|done|done]. intros x Hx. destruct (H3 x Hx) as [Hr Hc]. split; [done|].
  by apply (complete_later _ (ps st)).
Qed.

Lemma read_run st a : ok st → 0 ≤ a ≤ es → read a st = Some (byte_at m0 a, st).
Proof. intros Hok Ha. unfold read. rewrite (ok_mem _ Hok), load_byte by lia. done. Qed.

Lemma skip_run f st s : ok st → s0 ≤ s ≤ es → ∃ r, skip f es s st = Some (r, st) ∧ s ≤ r ≤ es ∧ (r < es → f (byte_at m0 r) = false) ∧ (s < r → f (byte_at m0 s) = true).
Proof.
  intros Hok Hs. unfold skip. remember (Z.to_nat (es - s)) as n eqn:En. revert s Hs En. induction n as [|n IH]; intros s Hs En; cbn [skip_loop].
  - exists s. split; [done|]. split; [lia|]. split; lia.
  - rewrite (bind_run _ _ _ _ _ (read_run st s Hok ltac:(lia))). destruct (f (byte_at m0 s)) eqn:Ef.
    + destruct (IH (s + 1)) as (r & E & Hr & Hf & _); [lia|lia|]. exists r. split; [done|]. split; [lia|]. split; [done|done].
    + exists s. split; [done|]. split; [lia|]. split; [done|lia].
Qed.

Lemma in_set_true set c : in_set set c = true ↔ c ∈ set.
Proof. apply bool_decide_eq_true. Qed.
Lemma in_set_false set c : in_set set c = false ↔ c ∉ set.
Proof. apply bool_decide_eq_false. Qed.

Lemma peek_run toks st : ok st → ∃ b p, peek es toks st = Some (b, move st p) ∧ ps st ≤ p ≤ es ∧ (b = true → p < es ∧ byte_at m0 p ∈ toks).
Proof.
  intros Hok. pose proof (ok_ps _ Hok) as Hp. destruct (skip_run (in_set whitespace) st (ps st) Hok ltac:(lia)) as (p & E & Hr & _ & _).
  unfold peek, skip_white. rewrite (bind_run (gets ps) _ st (ps st) st eq_refl), (bind_run _ _ _ _ _ E), (bind_run (set_ps p) _ st tt (move st p) eq_refl).
  rewrite (bind_run _ _ _ _ _ (read_run (move st p) p (ok_move _ _ Hok Hr) ltac:(lia))). eexists _, p. split; [reflexivity|]. split; [done|].
  intros [Hc Hi]%andb_true_iff. apply in_set_true in Hi. split; [|done]. destruct (decide (p = es)) as [->|]; [by rewrite Hend in Hc|lia].
Qed.

(** What [gettoken] promises. *)
Definition token_at (st : sh_t) (tok q e p : Z) : Prop :=
  ps st ≤ q ∧ q ≤ e ≤ p ∧ p ≤ es ∧ ((tok ≠ 0 ∨ (ps st < es ∧ byte_at m0 (ps st) ∉ whitespace)) → ps st < p) ∧
  (tok = 97 → (ps st < q ∨ ps st = q ∧ q < es ∧ byte_at m0 q ∉ symbols) ∧ complete e p).

Lemma gettoken_run st : ok st → ∃ tok q e p, gettoken es st = Some ((tok, q, e), move st p) ∧ token_at st tok q e p.
Proof.
  intros Hok. pose proof (ok_ps _ Hok) as Hp. destruct (skip_run (in_set whitespace) st (ps st) Hok ltac:(lia)) as (s & E & Hr & Hns & Hw).
  unfold gettoken, skip_white. rewrite (bind_run (gets ps) _ st (ps st) st eq_refl), (bind_run _ _ _ _ _ E).
  rewrite (bind_run _ _ _ _ _ (read_run st s Hok ltac:(lia))). set (c := byte_at m0 s) in *.
  assert (Hc0 : c ≠ 0 → s < es) by (intros Hc; destruct (decide (s = es)) as [->|]; [done|lia]).
  destruct (Z.eqb_spec c 34) as [Hq|Hq].
  { assert (s < es) by (apply Hc0; lia). destruct (skip_run (λ c, negb (c =? 34)) st (s + 1) Hok ltac:(lia)) as (e & E1 & Hr1 & Hs1 & _).
    rewrite (bind_run _ _ _ _ _ E1), (bind_run _ _ _ _ _ (read_run st e Hok ltac:(lia))). set (s2 := if byte_at m0 e =? 34 then e + 1 else e).
    assert (Hs2 : e ≤ s2 ≤ es ∧ (e < s2 ∨ e = es)).
    { unfold s2. destruct (Z.eqb_spec (byte_at m0 e) 34) as [H34|Hne].
      - assert (e ≠ es) by (intros ->; rewrite Hend in H34; done). lia.
      - destruct (decide (e < es)) as [Hlt|]; [|lia]. by specialize (Hs1 Hlt). }
    clearbody s2.
    destruct (skip_run (in_set whitespace) st s2 Hok ltac:(lia)) as (p & E2 & Hr2 & _ & _). rewrite (bind_run _ _ _ _ _ E2).
    exists 97, (s + 1), e, p. split; [reflexivity|]. split; [lia|]. split; [lia|]. split; [lia|]. split; [intros _; lia|]. intros _. split; [lia|].
    destruct (proj2 Hs2) as [Hlt|Heq]; [left; lia|right; split; [lia|right; lia]]. }
  assert (Hhere : ps st < es → byte_at m0 (ps st) ∉ whitespace → c ≠ 0).
  { intros H1 H2. apply in_set_false in H2. destruct (decide (ps st < s)) as [Hlt|Hge]; [rewrite Hw in H2 by done; done|].
    assert (s = ps st) as Es by lia. unfold c. rewrite Es. apply Hline. lia. }
  assert (Htail : ∀ tok e, s ≤ e ≤ es → (c ≠ 0 ∨ tok ≠ 0 → s < e) → (tok = 97 → s < es ∧ (c ∉ symbols) ∧ (e < es → in_set whitespace (byte_at m0 e) = true ∨ byte_at m0 e ∈ symbols)) →
    ∃ tok' q e' p, bind (skip_white es e) (λ s', set_ps s' ;;* ret (tok, s, e)) st = Some ((tok', q, e'), move st p) ∧ token_at st tok' q e' p).
  { intros tok e He Hlt H97. destruct (skip_run (in_set whitespace) st e Hok ltac:(lia)) as (p & E2 & Hr2 & Hs2 & _). unfold skip_white. rewrite (bind_run _ _ _ _ _ E2).
    exists tok, s, e, p. split; [reflexivity|]. split; [lia|]. split; [lia|]. split; [lia|]. split; [intros H0; apply (Z.le_lt_trans _ s); [lia|]; apply (Z.lt_le_trans _ e); [|lia]; apply Hlt; destruct H0 as [H0|[H0 H1]]; [by right|left; by apply Hhere]|].
    intros H. destruct (H97 H) as (Hse & Hsym & Hstop). split; [destruct (decide (ps st < s)); [by left|right; split; [lia|by split]]|].
    destruct (decide (e < p)) as [|Hge]; [by left|]. right. split; [lia|]. assert (p = e) as -> by lia. destruct (decide (e = es)) as [|Hne]; [by right|left].
    destruct (Hstop ltac:(lia)) as [Hw'|]; [|done]. rewrite Hs2 in Hw'; [done|lia]. }
  destruct (Z.eqb_spec c 0) as [H0|H0].
  { rewrite (bind_run (ret (0, s)) _ st (0, s) st eq_refl). apply Htail; [lia|intros [?|?]; done|done]. }
  specialize (Hc0 H0). destruct (in_set [124; 40; 41; 59; 38; 60] c) eqn:Esym.
  { rewrite (bind_run (ret (c, s + 1)) _ st (c, s + 1) st eq_refl). apply Htail; [lia|lia|]. intros H97. by rewrite H97 in Esym. }
  destruct (Z.eqb_spec c 62) as [Hgt|Hgt].
  { rewrite (bind_run (bind _ _) _ st (if byte_at m0 (s + 1) =? 62 then (43, s + 2) else (62, s + 1)) st).
    - destruct (Z.eqb_spec (byte_at m0 (s + 1)) 62) as [H62|]; apply Htail; try lia; try done; try (intros _; lia). assert (s + 1 ≠ es) by (intros Heq; rewrite Heq, Hend in H62; done). lia.
    - rewrite (bind_run _ _ _ _ _ (read_run st (s + 1) Hok ltac:(lia))). by destruct (_ =? 62). }
  destruct (skip_run (λ c, negb (in_set whitespace c) && negb (in_set symbols c)) st s Hok ltac:(lia)) as (e & E1 & Hr1 & Hs1 & Hw1).
  assert (Hcs : c ∉ symbols).
  { unfold symbols. apply in_set_false in Esym. intros Hin. apply Esym. rewrite !elem_of_cons in *. intuition. }
  assert (Hcw : in_set whitespace c = false) by (by apply Hns).
  rewrite (bind_run (bind _ _) _ st (97, e) st) by (by rewrite (bind_run _ _ _ _ _ E1)). apply Htail; [lia| |].
  - intros _. destruct (decide (s < e)) as [|Hge]; [done|]. exfalso. assert (e = s) as -> by lia. specialize (Hs1 Hc0). fold c in Hs1.
    apply in_set_false in Hcs. by rewrite Hcw, Hcs in Hs1.
  - intros _. split; [done|]. split; [done|]. intros Hlt. specialize (Hs1 Hlt). apply andb_false_iff in Hs1 as [Hs1|Hs1]; apply negb_false_iff in Hs1; [by left|right; by apply in_set_true].
Qed.

(** *** The heap grows *)

Definition grows (st st' : sh_t) : Prop :=
  ps st ≤ ps st' ∧ (length (heap st) ≤ length (heap st'))%nat ∧
  ∀ i args, heap st !! i = Some (EXEC args) → ∃ args', heap st' !! i = Some (EXEC args').
Definition good (st : sh_t) (r : option nat) (st' : sh_t) : Prop :=
  match r with Some _ => ok st' | None => True end ∧ grows st st' ∧
  match r with Some p => (p < length (heap st'))%nat | None => True end.

Lemma grows_trans st1 st2 st3 : grows st1 st2 → grows st2 st3 → grows st1 st3.
Proof.
  intros (H1 & H2 & H3) (G1 & G2 & G3). split; [lia|]. split; [lia|]. intros i args Hi. destruct (H3 _ _ Hi) as [a' Ha']. by apply (G3 _ _ Ha').
Qed.

Lemma grows_move st p : ps st ≤ p → grows st (move st p).
Proof. intros Hp. split; [done|]. split; [done|]. intros i args Hi. by exists args. Qed.

Lemma good_from st1 st2 r st3 : grows st1 st2 → good st2 r st3 → good st1 r st3.
Proof. intros Hg (H1 & H2 & H3). split; [done|]. split; [by eapply grows_trans|done]. Qed.

Definition with_node (st : sh_t) (n : node) : sh_t := Sh (mem st) (heap st ++ [n]) (ps st).

Lemma spans_app h n : spans (h ++ [n]) = spans h ++ node_spans n.
Proof. unfold spans. rewrite flat_map_app. cbn. by rewrite app_nil_r. Qed.

Lemma ok_new st n :
  ok st → (∀ args, n = EXEC args → args = []) → Forall (λ c, (c < length (heap st))%nat) (kids n) →
  (∀ x, x ∈ node_spans n → s0 ≤ fst x ≤ snd x ∧ complete (snd x) (ps st) ∧ ∀ y, y ∈ spans (heap st) → snd y < fst x) →
  (∀ x y, x ∈ node_spans n → y ∈ node_spans n → x = y) → ok (with_node st n) ∧ grows st (with_node st n).
Proof.
  intros [H1 H2 H3 H4 H5 H6] Hempty Hk Hx Hone. split.
  - split; [done|done|..]; cbn [heap with_node ps].
    + intros x. rewrite spans_app, elem_of_app. intros [?|Hin]; [by apply H3|]. destruct (Hx x Hin) as (? & ? & _). done.
    + intros x y. rewrite spans_app, !elem_of_app. intros [Hxh|Hxn] [Hyh|Hyn]; [by apply H4|..].
      * left. by apply Hx.
      * right. left. by apply Hx.
      * right. right. by apply Hone.
    + intros i m Hi. apply lookup_app_Some in Hi as [Hi|[Hle Hi]]; [by apply H5|]. apply list_lookup_singleton_Some in Hi as [Hi ->].
      eapply Forall_impl; [exact Hk|]. intros c Hc. cbn in Hc. lia.
    + intros i args Hi. apply lookup_app_Some in Hi as [Hi|[Hle Hi]]; [by apply (H6 i)|]. apply list_lookup_singleton_Some in Hi as [_ Hn].
      by rewrite (Hempty _ Hn).
  - split; [done|]. split; [cbn; rewrite length_app; lia|]. intros i args Hi. exists args. cbn. by apply lookup_app_l_Some.
Qed.

(** A new word lies behind every string so far. *)
Lemma word_behind st q e p x : ok st → token_at st 97 q e p → x ∈ spans (heap st) → snd x < q.
Proof.
  intros Hok (H1 & H2 & H3 & _ & H97) Hx. destruct (H97 eq_refl) as [Hq _]. destruct (ok_spans _ Hok x Hx) as [_ Hc].
  destruct Hc as [Hc|[Hc Hs]]; [lia|]. destruct Hq as [|(Hq & Hlt & Hsym)]; [lia|]. exfalso. destruct Hs as [Hs|Hs]; [|lia].
  by rewrite Hq in Hs.
Qed.

Lemma redir_ok st q e p cmd mode fd :
  ok st → token_at st 97 q e p → (cmd < length (heap st))%nat →
  ok (with_node (move st p) (REDIR cmd q e mode fd)) ∧ grows st (with_node (move st p) (REDIR cmd q e mode fd)).
Proof.
  intros Hok Ht Hc. pose proof Ht as (T1 & T2 & T3 & T4 & T5). destruct (T5 eq_refl) as [_ Hcomp]. pose proof (ok_ps _ Hok).
  destruct (ok_new (move st p) (REDIR cmd q e mode fd)) as [H1 H2]; [apply ok_move; [done|lia]|done|by repeat constructor| | |].
  - intros x Hx. apply list_elem_of_singleton in Hx as ->. cbn [fst snd ps move heap]. split; [lia|]. split; [done|]. intros y Hy. by eapply word_behind.
  - intros x y Hx Hy. apply list_elem_of_singleton in Hx as ->. by apply list_elem_of_singleton in Hy as ->.
  - split; [done|]. eapply grows_trans; [|exact H2]. apply grows_move. lia.
Qed.

Lemma parseredirs_wp fuel cmd st :
  ok st → (cmd < length (heap st))%nat → es - ps st < Z.of_nat fuel → wp (parseredirs fuel es cmd) (good st) st.
Proof.
  revert cmd st. induction fuel as [|fuel IH]; intros cmd st Hok Hc Hf; [pose proof (ok_ps _ Hok); lia|]. cbn [parseredirs].
  destruct (peek_run [60; 62] st Hok) as (b & p & E & Hp & Hb). apply wp_bind. eexists _, _. split; [exact E|].
  pose proof (ok_move _ _ Hok Hp) as Hok1. pose proof (grows_move st p ltac:(lia)) as G1.
  destruct b; cbn [negb]; [|apply wp_ret; split; [done|]; by split]. specialize (Hb eq_refl).
  destruct (gettoken_run _ Hok1) as (tok & q1 & e1 & p1 & E1 & T1). apply wp_bind. eexists _, _. split; [exact E1|].
  pose proof T1 as (A1 & A2 & A3 & _ & _). cbn [ps move] in A1. assert (Hok2 : ok (move (move st p) p1)) by (apply ok_move; [done|cbn; lia]).
  destruct (gettoken_run _ Hok2) as (t & q & e & p2 & E2 & T2). apply wp_bind. eexists _, _. split; [exact E2|].
  pose proof T2 as (B1 & B2 & B3 & B4 & B5). cbn [ps move] in B1, B4. assert (G2 : grows st (move (move (move st p) p1) p2)) by (apply (grows_move st p2); lia).
  destruct (Z.eqb_spec t 97) as [->|Hne]; cbn [negb].
  2: { apply wp_ret. split; [done|]. by split. }
  assert (Hred : ∀ mode fd, wp (parseredirs fuel es (length (heap st))) (good st) (with_node (move (move (move st p) p1) p2) (REDIR cmd q e mode fd))).
  { intros mode fd. destruct (redir_ok _ q e p2 cmd mode fd Hok2 T2 Hc) as [Hok3 G3].
    eapply wp_mono; [apply IH; [done|cbn; rewrite length_app; cbn; lia|cbn; specialize (B4 ltac:(left; lia)); lia]|].
    intros r st' Hg. eapply good_from; [|exact Hg]. eapply grows_trans; [|exact G3]. apply (grows_move st p1). lia. }
  apply wp_bind. destruct (tok =? 60); [eexists _, _; split; [reflexivity|apply Hred]|]. destruct (tok =? 62); [eexists _, _; split; [reflexivity|apply Hred]|].
  destruct (tok =? 43); [eexists _, _; split; [reflexivity|apply Hred]|]. eexists _, _. split; [reflexivity|].
  eapply wp_mono; [apply IH; [apply ok_move; [done|cbn; lia]|done|cbn; specialize (B4 ltac:(left; lia)); lia]|].
  intros r st' Hg. by eapply good_from.
Qed.

Definition with_arg (st : sh_t) (cmd : nat) (args : list (Z * Z)) (q e : Z) : sh_t := Sh (mem st) (<[cmd := EXEC (args ++ [(q, e)])]> (heap st)) (ps st).

Lemma spans_insert h i args q e x : h !! i = Some (EXEC args) →
  x ∈ spans (<[i := EXEC (args ++ [(q, e)])]> h) → x ∈ spans h ∨ x = (q, e).
Proof.
  intros Hi. unfold spans. rewrite !list_elem_of_In, !in_flat_map. intros (n & Hn & Hx). apply list_elem_of_In, list_elem_of_lookup in Hn as [j Hj].
  destruct (decide (i = j)) as [<-|Hne].
  - rewrite list_lookup_insert_eq in Hj by (by eapply lookup_lt_Some). injection Hj as <-. cbn in Hx. apply in_app_iff in Hx as [Hx|[<-|[]]]; [|by right].
    left. exists (EXEC args). split; [by eapply list_elem_of_In, list_elem_of_lookup_2|done].
  - rewrite list_lookup_insert_ne in Hj by done. left. exists n. split; [by eapply list_elem_of_In, list_elem_of_lookup_2|done].
Qed.

Lemma arg_ok st cmd args q e p :
  ok st → token_at st 97 q e p → heap st !! cmd = Some (EXEC args) →
  (Z.of_nat (length args) + 1 < MAXARGS → ok (with_arg (move st p) cmd args q e)) ∧ grows st (with_arg (move st p) cmd args q e).
Proof.
  intros Hok Ht Hc. pose proof Ht as (T1 & T2 & T3 & T4 & T5). destruct (T5 eq_refl) as [_ Hcomp]. pose proof (ok_ps _ Hok) as Hps.
  pose proof (lookup_lt_Some _ _ _ Hc) as Hlt. split.
  - intros Hmax. pose proof (ok_move st p Hok ltac:(lia)) as [H1 H2 H3 H4 H5 H6]. cbn [heap move ps mem] in *. split; [done|done|..]; cbn [heap with_arg ps move].
    + intros x Hx. apply (spans_insert _ _ _ _ _ _ Hc) in Hx as [Hx| ->]; [by apply H3|]. cbn [fst snd]. split; [lia|done].
    + intros x y Hx Hy. apply (spans_insert _ _ _ _ _ _ Hc) in Hx. apply (spans_insert _ _ _ _ _ _ Hc) in Hy.
      destruct Hx as [Hx| ->], Hy as [Hy| ->]; [by apply H4| | |by right; right].
      * left. by eapply word_behind.
      * right. left. by eapply word_behind.
    + intros i n Hi. destruct (decide (cmd = i)) as [<-|Hne]; [|rewrite list_lookup_insert_ne in Hi by done; by apply H5].
      rewrite list_lookup_insert_eq in Hi by done. injection Hi as <-. constructor.
    + intros i a Hi. destruct (decide (cmd = i)) as [<-|Hne]; [|rewrite list_lookup_insert_ne in Hi by done; by apply (H6 i)].
      rewrite list_lookup_insert_eq in Hi by done. injection Hi as <-. rewrite length_app. cbn. lia.
  - split; [cbn; lia|]. split; [cbn; by rewrite length_insert|]. intros i a Hi. cbn [heap with_arg move].
    destruct (decide (cmd = i)) as [<-|Hne]; [|exists a; by rewrite list_lookup_insert_ne]. eexists. by apply list_lookup_insert_eq.
Qed.

Lemma argv_room st cmd args : ok st → heap st !! cmd = Some (EXEC args) → argv_has (Z.of_nat (length args)) = true.
Proof. intros Hok Hc. pose proof (ok_args _ Hok _ _ Hc). unfold argv_has. rewrite (proj2 (Z.leb_le _ _)), (proj2 (Z.ltb_lt _ _)); [done|lia..]. Qed.

Lemma end_args_run st cmd args : ok st → heap st !! cmd = Some (EXEC args) → end_args cmd st = Some (tt, st).
Proof. intros Hok Hc. unfold end_args, node_at, bind. rewrite Hc. cbn. by rewrite (argv_room st cmd). Qed.

Lemma args_loop_wp fuel cmd r st :
  ok st → (∃ args, heap st !! cmd = Some (EXEC args)) → (r < length (heap st))%nat → es - ps st < Z.of_nat fuel → wp (args_loop fuel es cmd r) (good st) st.
Proof.
  revert r st. induction fuel as [|fuel IH]; intros r st Hok [args Hc] Hr Hf; [pose proof (ok_ps _ Hok); lia|]. cbn [args_loop].
  destruct (peek_run [124; 41; 38; 59] st Hok) as (b & p & E & Hp & Hb). apply wp_bind. eexists _, _. split; [exact E|].
  pose proof (ok_move _ _ Hok Hp) as Hok1. pose proof (grows_move st p ltac:(lia)) as G1.
  destruct b; [apply wp_bind; eexists _, _; split; [by apply (end_args_run _ _ args)|]; apply wp_ret; split; [done|]; by split|].
  destruct (gettoken_run _ Hok1) as (tok & q & e & p1 & E1 & T1). apply wp_bind. eexists _, _. split; [exact E1|].
  pose proof T1 as (A1 & A2 & A3 & A4 & _). cbn [ps move] in A1, A4. assert (Hok2 : ok (move (move st p) p1)) by (apply ok_move; [done|cbn; lia]).
  assert (G2 : grows st (move (move st p) p1)) by (apply (grows_move st p1); lia).
  destruct (Z.eqb_spec tok 0) as [->|Hne0]; [apply wp_bind; eexists _, _; split; [by apply (end_args_run _ _ args)|]; apply wp_ret; split; [done|]; by split|]. specialize (A4 (or_introl Hne0)).
  destruct (Z.eqb_spec tok 97) as [->|Hne]; cbn [negb]; [|apply wp_ret; split; [done|]; by split].
  destruct (arg_ok _ cmd args q e p1 Hok1 T1 Hc) as [Hok3 G3]. pose proof (grows_trans _ _ _ G1 G3) as G4.
  apply wp_bind. exists (Z.of_nat (length args) + 1), (with_arg (move (move st p) p1) cmd args q e). split.
  { unfold add_arg, node_at, bind. cbn [heap move]. rewrite Hc. cbn [fmap option_fmap option_map]. by rewrite (argv_room st cmd). }
  destruct (Z.leb_spec MAXARGS (Z.of_nat (length args) + 1)) as [_|Hmax]; [apply wp_ret; split; [done|]; by split|].
  specialize (Hok3 Hmax). apply wp_try.
  eapply wp_mono; [apply parseredirs_wp; [done|cbn; rewrite length_insert; exact Hr|cbn; lia]|].
  intros [r'|] st' (H1 & H2 & H3); [|split; [done|]; split; [by eapply grows_trans|done]].
  eapply wp_mono; [apply IH; [done| |done|]|].
  - destruct H2 as (_ & _ & H2). apply (H2 cmd (args ++ [(q, e)])). cbn. apply list_lookup_insert_eq. by eapply lookup_lt_Some.
  - destruct H2 as (H2 & _). cbn in H2. lia.
  - intros r2 st2 Hg. eapply good_from; [by eapply grows_trans|exact Hg].
Qed.

Lemma plain_node_ok st n :
  ok st → Forall (λ c, (c < length (heap st))%nat) (kids n) → node_spans n = [] →
  ok (with_node st n) ∧ grows st (with_node st n) ∧ (length (heap st) < length (heap (with_node st n)))%nat.
Proof.
  intros Hok Hk Hn. destruct (ok_new st n Hok) as [H1 H2]; [intros args ->; exact Hn|exact Hk|rewrite Hn; intros x Hx; by apply not_elem_of_nil in Hx|rewrite Hn; intros x y Hx; by apply not_elem_of_nil in Hx|].
  split; [done|]. split; [done|]. cbn. rewrite length_app. cbn. lia.
Qed.

(** [peek] and [gettoken] of a symbol. *)
Lemma symbol_eaten toks st : ok st → (∀ c, c ∈ toks → c ∉ whitespace) →
  ∃ b p, peek es toks st = Some (b, move st p) ∧ ps st ≤ p ≤ es ∧
    (b = true → ∃ tok p', gettoken es (move st p) = Some (tok, move st p') ∧ ps st < p' ≤ es).
Proof.
  intros Hok Ht. destruct (peek_run toks st Hok) as (b & p & E & Hp & Hb). exists b, p. split; [done|]. split; [done|]. intros Hbt.
  destruct (Hb Hbt) as [Hlt Hin]. destruct (gettoken_run _ (ok_move _ _ Hok Hp)) as (tok & q & e & p1 & E1 & (T1 & T2 & T3 & T4 & _)).
  exists (tok, q, e), p1. split; [exact E1|]. cbn [ps move] in *. specialize (T4 (or_intror (conj Hlt (Ht _ Hin)))). lia.
Qed.

Ltac not_white := let c := fresh in let Hin := fresh in intros c Hin; rewrite !elem_of_cons in Hin; unfold whitespace; rewrite !not_elem_of_cons;
  repeat (destruct Hin as [->|Hin]; [repeat split; first [lia|apply not_elem_of_nil]|]); by apply elem_of_nil in Hin.

Lemma back_loop_wp fuel cmd st : ok st → (cmd < length (heap st))%nat → es - ps st < Z.of_nat fuel → wp (back_loop fuel es cmd) (good st) st.
Proof.
  revert cmd st. induction fuel as [|fuel IH]; intros cmd st Hok Hc Hf; [pose proof (ok_ps _ Hok); lia|]. cbn [back_loop].
  destruct (symbol_eaten [38] st Hok) as (b & p & E & Hp & Hb); [not_white|]. apply wp_bind. eexists _, _. split; [exact E|].
  pose proof (ok_move _ _ Hok Hp) as Hok1. destruct b; cbn [negb]; [|apply wp_ret; split; [done|]; split; [apply grows_move; lia|done]].
  destruct (Hb eq_refl) as (tok & p1 & E1 & Hp1). apply wp_bind. eexists _, _. split; [exact E1|].
  destruct (plain_node_ok (move st p1) (BACK cmd)) as (H1 & H2 & H3); [apply ok_move; [done|lia]|by repeat constructor|done|].
  apply wp_bind. eexists _, _. split; [reflexivity|]. eapply wp_mono; [apply IH; [exact H1|exact H3|cbn; lia]|].
  intros r st' Hg. eapply good_from; [|exact Hg]. eapply grows_trans; [|exact H2]. apply grows_move. lia.
Qed.

Lemma good_node st1 st2 n : grows st1 st2 → ok st2 → Forall (λ c, (c < length (heap st2))%nat) (kids n) → node_spans n = [] →
  good st1 (Some (length (heap st2))) (with_node st2 n).
Proof.
  intros Hg Hok Hk Hn. destruct (plain_node_ok st2 n Hok Hk Hn) as (H1 & H2 & H3). split; [done|]. split; [by eapply grows_trans|done].
Qed.

(** One of the four functions, with fuel for every character that is left. *)
Definition parses (f : nat → Z → M sh_t (option nat)) (slack : Z) (k : nat) : Prop :=
  ∀ st, ok st → 4 * (es - ps st) + slack ≤ Z.of_nat k → wp (f k es) (good st) st.

Lemma parseline_step k : parses parsepipe 3 k → parses parseline 4 k → parses parseline 4 (S k).
Proof.
  intros IHpipe IHline st Hok Hf. pose proof (ok_ps _ Hok) as Hps. cbn [parseline].
  apply wp_try. eapply wp_mono; [apply IHpipe; [done|lia]|]. intros [cmd|] st1 (H1 & G1 & V1); [|by split].
  pose proof (ok_ps _ H1). assert (Hle : ps st ≤ ps st1) by apply G1. apply wp_try. eapply wp_mono; [apply back_loop_wp; [done|done|lia]|].
  intros [cmd'|] st2 (H2 & G2 & V2); [|split; [done|]; split; [by eapply grows_trans|done]]. pose proof (grows_trans _ _ _ G1 G2) as G3.
  destruct (symbol_eaten [59] st2 H2) as (b & p & E & Hp & Hb); [not_white|]. apply wp_bind. eexists _, _. split; [exact E|].
  assert (G4 : grows st (move st2 p)) by (eapply grows_trans; [exact G3|apply grows_move; lia]).
  destruct b; [|apply wp_ret; split; [by apply ok_move|]; by split]. destruct (Hb eq_refl) as (tok & p1 & E1 & Hp1).
  apply wp_bind. eexists _, _. split; [exact E1|]. assert (Hle2 : ps st1 ≤ ps st2) by apply G2. assert (Hokm : ok (move st2 p1)) by (apply ok_move; [done|lia]).
  assert (G5 : grows st (move st2 p1)) by (eapply grows_trans; [exact G3|apply grows_move; lia]).
  apply wp_try. eapply wp_mono; [apply IHline; [done|cbn; lia]|]. intros [r|] st3 (H3 & G6 & V3); [|split; [done|]; split; [by eapply grows_trans|done]].
  apply wp_bind. eexists _, _. split; [reflexivity|]. apply wp_ret. apply good_node; [by eapply grows_trans|done| |done].
  destruct G6 as (_ & G6 & _). cbn in G6. repeat constructor; [lia|done].
Qed.

Lemma parsepipe_step k : parses parseexec 2 k → parses parsepipe 3 k → parses parsepipe 3 (S k).
Proof.
  intros IHexec IHpipe st Hok Hf. pose proof (ok_ps _ Hok) as Hps. cbn [parsepipe].
  apply wp_try. eapply wp_mono; [apply IHexec; [done|lia]|]. intros [cmd|] st1 (H1 & G1 & V1); [|by split]. assert (Hle : ps st ≤ ps st1) by apply G1.
  destruct (symbol_eaten [124] st1 H1) as (b & p & E & Hp & Hb); [not_white|]. apply wp_bind. eexists _, _. split; [exact E|].
  assert (G4 : grows st (move st1 p)) by (eapply grows_trans; [exact G1|apply grows_move; lia]).
  destruct b; [|apply wp_ret; split; [by apply ok_move|]; by split]. destruct (Hb eq_refl) as (tok & p1 & E1 & Hp1).
  apply wp_bind. eexists _, _. split; [exact E1|]. assert (Hokm : ok (move st1 p1)) by (apply ok_move; [done|lia]).
  assert (G5 : grows st (move st1 p1)) by (eapply grows_trans; [exact G1|apply grows_move; lia]).
  apply wp_try. eapply wp_mono; [apply IHpipe; [done|cbn; lia]|]. intros [r|] st3 (H3 & G6 & V3); [|split; [done|]; split; [by eapply grows_trans|done]].
  apply wp_bind. eexists _, _. split; [reflexivity|]. apply wp_ret. apply good_node; [by eapply grows_trans|done| |done].
  destruct G6 as (_ & G6 & _). cbn in G6. repeat constructor; [lia|done].
Qed.

Lemma parseexec_step k : parses parseblock 1 k → parses parseexec 2 (S k).
Proof.
  intros IHblock st Hok Hf. pose proof (ok_ps _ Hok) as Hps. cbn [parseexec].
  destruct (peek_run [40] st Hok) as (b & p & E & Hp & Hb). apply wp_bind. eexists _, _. split; [exact E|]. pose proof (ok_move _ _ Hok Hp) as Hok1.
  assert (G1 : grows st (move st p)) by (apply grows_move; lia). destruct b.
  + eapply wp_mono; [apply IHblock; [done|cbn; lia]|]. intros r st' Hg. by eapply good_from.
  + destruct (plain_node_ok (move st p) (EXEC [])) as (H1 & H2 & H3); [done|by constructor|done|].
    apply wp_bind. eexists _, _. split; [reflexivity|]. fold (with_node (move st p) (EXEC [])). apply wp_try.
    eapply wp_mono; [apply parseredirs_wp; [exact H1|exact H3|cbn; lia]|].
    intros [r|] st2 (K1 & K2 & K3); [|split; [done|]; split; [by do 2 (eapply grows_trans; [done|])|done]].
    assert (Hle2 : p ≤ ps st2) by apply K2. eapply wp_mono; [apply args_loop_wp; [done| |done|lia]|].
    * destruct K2 as (_ & _ & K2). apply (K2 (length (heap st)) []). cbn. by rewrite lookup_app_r, Nat.sub_diag by lia.
    * intros r2 st3 Hg. eapply good_from; [|exact Hg]. by do 2 (eapply grows_trans; [done|]).
Qed.

Lemma parseblock_step k : parses parseline 4 k → parses parseblock 1 (S k).
Proof.
  intros IHline st Hok Hf. pose proof (ok_ps _ Hok) as Hps. cbn [parseblock].
  destruct (symbol_eaten [40] st Hok) as (b & p & E & Hp & Hb); [not_white|]. apply wp_bind. eexists _, _. split; [exact E|].
  assert (G1 : grows st (move st p)) by (apply grows_move; lia). destruct b; cbn [negb]; [|apply wp_ret; split; [done|]; by split].
  destruct (Hb eq_refl) as (tok & p1 & E1 & Hp1). apply wp_bind. eexists _, _. split; [exact E1|].
  assert (Hokm : ok (move st p1)) by (apply ok_move; [done|lia]). assert (G2 : grows st (move st p1)) by (apply grows_move; lia).
  apply wp_try. eapply wp_mono; [apply IHline; [done|cbn; lia]|]. intros [cmd|] st2 (H2 & G3 & V2); [|split; [done|]; split; [by eapply grows_trans|done]].
  assert (Hle : p1 ≤ ps st2) by apply G3. pose proof (grows_trans _ _ _ G2 G3) as G4.
  destruct (symbol_eaten [41] st2 H2) as (b & p2 & E2 & Hp2 & Hb2); [not_white|]. apply wp_bind. eexists _, _. split; [exact E2|].
  destruct b; cbn [negb]; [|apply wp_ret; split; [done|]; split; [eapply grows_trans; [exact G4|apply grows_move; lia]|done]].
  destruct (Hb2 eq_refl) as (tok2 & p3 & E3 & Hp3). apply wp_bind. eexists _, _. split; [exact E3|].
  eapply wp_mono; [apply parseredirs_wp; [apply ok_move; [done|lia]|done|cbn; lia]|]. intros r st3 Hg. eapply good_from; [|exact Hg].
  eapply grows_trans; [exact G4|apply grows_move; lia].
Qed.

Lemma parse_all k : parses parseline 4 k ∧ parses parsepipe 3 k ∧ parses parseexec 2 k ∧ parses parseblock 1 k.
Proof.
  induction k as [|k (H1 & H2 & H3 & H4)].
  - repeat split; intros st Hok Hf; pose proof (ok_ps _ Hok); lia.
  - split; [by apply parseline_step|]. split; [by apply parsepipe_step|]. split; [by apply parseexec_step|by apply parseblock_step].
Qed.
End Line.

(** ** Ending the strings *)

Section Terminate.
Context (h : list node) (Hkids : ∀ i n, h !! i = Some n → Forall (λ c, (c < i)%nat) (kids n)).
Context (Hargs : ∀ i args, h !! i = Some (EXEC args) → Z.of_nat (length args) < MAXARGS).

Definition spans_in (p : Z) : Prop := ∃ x, x ∈ spans h ∧ snd x = p.

Lemma node_spans_in i n x : h !! i = Some n → x ∈ node_spans n → x ∈ spans h.
Proof. intros Hi Hx. unfold spans. apply list_elem_of_In, in_flat_map. exists n. split; [by eapply list_elem_of_In, list_elem_of_lookup_2|by apply list_elem_of_In]. Qed.

Lemma reach_in fuel p x : x ∈ reach h fuel p → x ∈ spans h.
Proof.
  revert p. induction fuel as [|fuel IH]; intros p; cbn [reach]; [by intros ?%elem_of_nil|]. destruct (h !! p) as [n|] eqn:En; [|by intros ?%elem_of_nil].
  rewrite elem_of_app. intros [Hx|Hx]; [|by eapply node_spans_in]. apply list_elem_of_In, in_flat_map in Hx as (c & _ & Hx). by apply (IH c), list_elem_of_In.
Qed.

Lemma tree_total fuel text p : (p < length h)%nat → (p < fuel)%nat → ∃ c, tree_of h fuel text p = Some c.
Proof.
  revert p. induction fuel as [|fuel IH]; intros p Hp Hf; [lia|]. cbn [tree_of]. destruct (lookup_lt_is_Some_2 h p Hp) as [n En]. rewrite En. cbn [mbind option_bind].
  pose proof (Hkids _ _ En) as Hk. assert (Hsub : ∀ c, (c < p)%nat → ∃ t, tree_of h fuel text c = Some t) by (intros c Hc; apply IH; lia).
  assert (Htwo : ∀ l r (f : cmd → cmd → cmd), (l < p)%nat → (r < p)%nat → ∃ t, (l ← tree_of h fuel text l; r ← tree_of h fuel text r; Some (f l r)) = Some t).
  { intros l r f Hl Hr. destruct (Hsub l Hl) as [t1 ->], (Hsub r Hr) as [t2 ->]. by eexists. }
  destruct n as [args|c f e mode fd|l r|l r|c]; cbn [kids] in Hk; rewrite ?Forall_cons in Hk; [by eexists| |apply Htwo; lia|apply Htwo; lia|];
    destruct (Hsub c) as [t1 ->]; [lia|by eexists|lia|by eexists].
Qed.

Lemma tree_ext fuel t1 t2 p : (∀ x, x ∈ reach h fuel p → t1 x = t2 x) → tree_of h fuel t1 p = tree_of h fuel t2 p.
Proof.
  revert p. induction fuel as [|fuel IH]; intros p Hx; [done|]. cbn [tree_of]. cbn [reach] in Hx. destruct (h !! p) as [n|]; [|done]. cbn [mbind option_bind].
  assert (Hk : ∀ c, c ∈ kids n → tree_of h fuel t1 c = tree_of h fuel t2 c).
  { intros c Hc. apply IH. intros x Hr. apply Hx. apply elem_of_app. left. apply list_elem_of_In, in_flat_map. exists c. by split; apply list_elem_of_In. }
  assert (Hn : ∀ x, x ∈ node_spans n → t1 x = t2 x) by (intros x Hr; apply Hx, elem_of_app; by right).
  destruct n as [args|c f e mode fd|l r|l r|c]; cbn [kids node_spans] in *.
  - do 2 f_equal. apply map_ext_in. intros x Hr. by apply Hn, list_elem_of_In.
  - rewrite (Hk c) by left. by rewrite (Hn (f, e)) by left.
  - rewrite (Hk l) by left. by rewrite (Hk r) by (right; left).
  - rewrite (Hk l) by left. by rewrite (Hk r) by (right; left).
  - by rewrite (Hk c) by left.
Qed.

(** Only ends of strings are overwritten. *)
Definition zeroed (m m' : list Z) (done : list (Z * Z)) : Prop :=
  length m' = length m ∧
  (∀ a, m' !! a = m !! a ∨ m' !! a = Some 0 ∧ spans_in (Z.of_nat a)) ∧
  (∀ x, x ∈ done → m' !! Z.to_nat (snd x) = Some 0).

Lemma zeroed_trans m1 m2 m3 d1 d2 : zeroed m1 m2 d1 → zeroed m2 m3 d2 → zeroed m1 m3 (d1 ++ d2).
Proof.
  intros (L1 & A1 & Z1) (L2 & A2 & Z2). split; [congruence|]. split.
  - intros a. destruct (A2 a) as [E|H]; [|by right]. rewrite E. apply A1.
  - intros x. rewrite elem_of_app. intros [Hx|Hx]; [|by apply Z2]. destruct (A2 (Z.to_nat (snd x))) as [E|[E _]]; [|done]. rewrite E. by apply Z1.
Qed.

Definition ends (st : sh_t) (done : list (Z * Z)) (_ : unit) (st' : sh_t) : Prop := heap st' = heap st ∧ zeroed (mem st) (mem st') done.

Lemma write0_wp st x : x ∈ spans h → 0 ≤ snd x < len (mem st) → wp (write0 (snd x)) (ends st [x]) st.
Proof.
  intros Hx Hr. exists tt, (Sh (<[Z.to_nat (snd x) := 0]> (mem st)) (heap st) (ps st)).
  split; [unfold write0, store; by rewrite (proj2 (Z.leb_le _ _)), (proj2 (Z.ltb_lt _ _)) by lia|]. split; [done|]. cbn [mem]. unfold len in Hr. split; [by rewrite length_insert|]. split.
  - intros a. destruct (decide (Z.to_nat (snd x) = a)) as [<-|Hne]; [|left; by rewrite list_lookup_insert_ne].
    right. split; [apply list_lookup_insert_eq; lia|]. exists x. split; [done|lia].
  - intros y Hy. apply list_elem_of_singleton in Hy as ->. apply list_lookup_insert_eq. lia.
Qed.

Lemma terminate_args_wp i args st : 0 ≤ i → i + Z.of_nat (length args) < MAXARGS → (∀ x, x ∈ args → x ∈ spans h ∧ 0 ≤ snd x < len (mem st)) → wp (terminate_args i args) (ends st args) st.
Proof.
  revert i st. induction args as [|[q e] args IH]; intros i st Hi Hmax Hx; cbn [terminate_args]; cbn [length] in Hmax;
    unfold argv_has; rewrite (proj2 (Z.leb_le _ _)), (proj2 (Z.ltb_lt _ _)) by lia; cbn [andb negb].
  - apply wp_ret. split; [done|]. split; [done|]. split; [by left|]. by intros x ?%elem_of_nil.
  - apply wp_bind. destruct (Hx (q, e) ltac:(left)) as [H1 H2]. eapply wp_mono; [apply (write0_wp st (q, e)); done|]. intros [] st1 [E1 Z1].
    eapply wp_mono; [apply IH; [lia|lia|]|].
    + intros x Hin. destruct (Hx x ltac:(by right)) as [H3 H4]. split; [done|]. destruct Z1 as [L _]. unfold len in *. by rewrite L.
    + intros [] st2 [E2 Z2]. split; [congruence|]. exact (zeroed_trans _ _ _ _ _ Z1 Z2).
Qed.

Lemma nulterminate_wp fuel p st :
  heap st = h → (p < length h)%nat → (p < fuel)%nat → (∀ x, x ∈ spans h → 0 ≤ snd x < len (mem st)) →
  wp (nulterminate fuel p) (ends st (reach h fuel p)) st.
Proof.
  revert p st. induction fuel as [|fuel IH]; intros p st Hh Hp Hf Hr; [lia|]. cbn [nulterminate reach]. destruct (lookup_lt_is_Some_2 h p Hp) as [n En]. rewrite En.
  apply wp_bind. exists n, st. split; [unfold node_at; by rewrite Hh, En|]. pose proof (Hkids _ _ En) as Hk.
  assert (Hkid : ∀ c st1, heap st1 = h → len (mem st1) = len (mem st) → (c < p)%nat → wp (nulterminate fuel c) (ends st1 (reach h fuel c)) st1).
  { intros c st1 E1 L1 Hc. apply IH; [done|lia|lia|]. intros x Hx. rewrite L1. by apply Hr. }
  assert (Htwo : ∀ l r, (l < p)%nat → (r < p)%nat → wp (nulterminate fuel l ;;* nulterminate fuel r) (ends st (reach h fuel l ++ reach h fuel r)) st).
  { intros l r Hl Hrr. apply wp_bind. eapply wp_mono; [by apply Hkid|]. intros [] st1 [E1 Z1]. eapply wp_mono; [apply (Hkid r); [congruence| |done]|].
    - destruct Z1 as [L _]. unfold len. by rewrite L.
    - intros [] st2 [E2 Z2]. split; [congruence|]. by eapply zeroed_trans. }
  destruct n as [args|c f e mode fd|l r|l r|c]; cbn [kids node_spans flat_map] in *; rewrite ?Forall_cons in Hk; rewrite ?app_nil_r.
  - apply terminate_args_wp; [done|by apply (Hargs p)|]. intros x Hx. assert (x ∈ spans h) by (by eapply node_spans_in). split; [done|by apply Hr].
  - apply wp_bind. eapply wp_mono; [apply Hkid; [done|done|lia]|]. intros [] st1 [E1 Z1]. assert (Hx : (f, e) ∈ spans h) by (eapply node_spans_in; [exact En|left]).
    eapply wp_mono; [apply (write0_wp st1 (f, e)); [done|destruct Z1 as [L _]; unfold len in *; rewrite L; by apply Hr]|].
    intros [] st2 [E2 Z2]. split; [congruence|]. by eapply zeroed_trans.
  - apply Htwo; lia.
  - apply Htwo; lia.
  - apply Hkid; [done|done|lia].
Qed.
End Terminate.

(** ** A line in memory *)

Lemma string_between (m m' : list Z) q e :
  0 ≤ q ≤ e → e < len m → length m' = length m → (∀ a, q ≤ a < e → byte_at m a ≠ 0 ∧ m' !! Z.to_nat a = m !! Z.to_nat a) → m' !! Z.to_nat e = Some 0 →
  string_at m' q = slice q (e - q) m.
Proof.
  intros Hq He Hl Hin H0. unfold len in *. set (n := Z.to_nat (e - q)). assert (Es : take n (drop (Z.to_nat q) m') = slice q (e - q) m).
  { unfold slice. apply list_eq. intros i. destruct (decide (i < n)%nat) as [Hi|Hi]; [|by rewrite !lookup_take_ge by lia].
    rewrite !lookup_take_lt, !lookup_drop by lia. destruct (Hin (q + Z.of_nat i)) as [_ E]; [lia|]. replace (Z.to_nat (q + Z.of_nat i)) with (Z.to_nat q + i)%nat in E by lia. done. }
  rewrite <- Es. assert (Em : m' = take (Z.to_nat q) m' ++ take n (drop (Z.to_nat q) m') ++ 0 :: drop (S (Z.to_nat e)) m').
  { rewrite <- (take_drop (Z.to_nat q) m') at 1. f_equal. rewrite <- (take_drop n (drop (Z.to_nat q) m')) at 1. f_equal. rewrite drop_drop.
    replace (Z.to_nat q + n)%nat with (Z.to_nat e) by lia. by apply drop_S. }
  pose proof (string_at_app (take (Z.to_nat q) m') (take n (drop (Z.to_nat q) m')) (drop (S (Z.to_nat e)) m')) as Hs. rewrite <- Em in Hs.
  replace (len (take (Z.to_nat q) m')) with q in Hs by (unfold len; rewrite length_take; lia). apply Hs.
  rewrite Es. intros Hz. apply list_elem_of_lookup in Hz as [i Hi]. unfold slice in Hi. apply lookup_take_Some in Hi as [Hi Hlt]. rewrite lookup_drop in Hi.
  destruct (Hin (q + Z.of_nat i)) as [Hne _]; [lia|]. apply Hne. unfold byte_at. replace (Z.to_nat (q + Z.of_nat i)) with (Z.to_nat q + i)%nat by lia.
  by apply nth_lookup_Some.
Qed.

Section Memory.
Context (w line r : list Z) (Hline : 0 ∉ line).
Abbreviation m0 := (w ++ line ++ 0 :: r).
Abbreviation es := (len w + len line).

Lemma memory_end : byte_at m0 es = 0.
Proof. pose proof (len_nonneg line). rewrite byte_at_app_r by lia. rewrite <- (Z.add_0_r (len line)). by rewrite byte_at_app_r by lia. Qed.

Lemma memory_line a : len w ≤ a < es → byte_at m0 a ≠ 0.
Proof.
  intros Ha. replace a with (len w + (a - len w)) by lia. rewrite byte_at_app_r by lia. rewrite byte_at_app_l by lia. unfold byte_at.
  intros E. apply Hline. rewrite <- E. apply list_elem_of_In, nth_In. unfold len in *. lia.
Qed.

Lemma memory_bound : es < len m0.
Proof. rewrite !len_app, len_cons. pose proof (len_nonneg r). lia. Qed.

Lemma strlen_run st : mem st = m0 → strlen_loop (S (length m0)) (len w) st = Some (es, st).
Proof.
  intros Hm. pose proof (len_nonneg line). pose proof (len_nonneg w). pose proof memory_bound as Hb.
  assert (Hgo : ∀ n a, len w ≤ a ≤ es → es - a < Z.of_nat n → strlen_loop n a st = Some (es, st)).
  { induction n as [|n IH]; intros a Ha Hn; [lia|]. cbn [strlen_loop]. assert (E : read a st = Some (byte_at m0 a, st)) by (unfold read; by rewrite Hm, load_byte by lia).
    rewrite (bind_run _ _ _ _ _ E). destruct (decide (a = es)) as [->|Hne].
    - by rewrite memory_end.
    - rewrite (proj2 (Z.eqb_neq _ _)) by (apply memory_line; lia). apply IH; lia. }
  apply Hgo; [lia|]. unfold len in *. lia.
Qed.

(** The state before [nulterminate], which then ends every string. *)
Lemma parsecmd_run st0 : mem st0 = m0 → heap st0 = [] → ∃ res st1, 
  parseline (parse_fuel (len w) es) es (Sh m0 [] (len w)) = Some (res, st1) ∧
  match res with
  | None => parsecmd (len w) st0 = Some (None, st1)
  | Some p => ∃ st2, peek es [] st1 = Some (false, st2) ∧ heap st2 = heap st1 ∧ (p < length (heap st1))%nat ∧
      if negb (ps st2 =? es) then parsecmd (len w) st0 = Some (None, st2)
      else ∃ st3, parsecmd (len w) st0 = Some (Some p, st3) ∧ heap st3 = heap st1 ∧
        (∀ x, x ∈ reach (heap st1) (S p) p → string_at (mem st3) (fst x) = slice (fst x) (snd x - fst x) m0) ∧
        (∀ a, (a < length w ∨ length w + length line ≤ a)%nat → mem st3 !! a = m0 !! a) ∧
        (∀ text, ∃ c, tree (heap st1) text p = Some c)
  end.
Proof.
  intros Hm Hh. pose proof (len_nonneg line). pose proof (len_nonneg w). pose proof memory_bound as Hb. set (st := Sh m0 [] (len w)).
  assert (Hok : ok m0 (len w) es st).
  { split; [done|cbn; lia|..]; cbn [heap st]; [by intros x ?%elem_of_nil|by intros x y ?%elem_of_nil|intros i n; by rewrite lookup_nil..]. }
  destruct (parse_all m0 (len w) es ltac:(lia) Hb memory_end memory_line (parse_fuel (len w) es)) as (Hp & _).
  destruct (Hp st Hok) as (res & st1 & E & Hok1 & Hg & Hv); [unfold parse_fuel; cbn; lia|]. exists res, st1. split; [exact E|].
  assert (Epre : parsecmd (len w) st0 = (let? cmd := parseline (parse_fuel (len w) es) es in
    let* _ := peek es [] in let* s := gets ps in if negb (s =? es) then goto_fail else nulterminate (S cmd) cmd ;;* next cmd) st).
  { unfold parsecmd. rewrite (bind_run (gets _) _ st0 (S (length m0)) st0) by (unfold gets; by rewrite Hm).
    rewrite (bind_run _ _ _ _ _ (strlen_run st0 Hm)). rewrite (bind_run (set_ps (len w)) _ st0 tt st); [done|]. unfold set_ps, modify, st. by rewrite Hm, Hh. }
  destruct res as [p|]; [|rewrite Epre; unfold try at 1; by rewrite (bind_run _ _ _ _ _ E)]. rewrite (try_next _ _ _ _ _ E) in Epre.
  destruct (peek_run m0 (len w) es ltac:(lia) Hb memory_end [] st1 Hok1) as (b & q & Eq & Hq & Hbt).
  assert (b = false) as -> by (destruct b; [destruct (Hbt eq_refl) as [_ Hin]; by apply elem_of_nil in Hin|done]).
  exists (move st1 q). split; [exact Eq|]. split; [done|]. split; [done|]. rewrite (bind_run _ _ _ _ _ Eq), (bind_run (gets ps) _ (move st1 q) q (move st1 q) eq_refl) in Epre.
  cbn [ps move]. destruct (negb (q =? es)); [exact Epre|]. pose proof (ok_mem _ _ _ _ Hok1) as Hm1. pose proof (ok_ps _ _ _ _ Hok1) as Hps1.
  assert (Hr : ∀ x, x ∈ spans (heap st1) → len w ≤ fst x ≤ snd x ∧ snd x ≤ es).
  { intros x Hx. destruct (ok_spans _ _ _ _ Hok1 x Hx) as [H1 H2]. split; [done|]. destruct H2 as [H2|[H2 _]]; lia. }
  destruct (nulterminate_wp (heap st1) (ok_kids _ _ _ _ Hok1) (ok_args _ _ _ _ Hok1) (S p) p (move st1 q) eq_refl Hv ltac:(lia)) as ([] & st3 & E3 & Eh & Hz).
  { intros x Hx. cbn [mem move]. rewrite Hm1. specialize (Hr x Hx). lia. }
  exists st3. rewrite (bind_run _ _ _ _ _ E3) in Epre. split; [exact Epre|]. split; [exact Eh|]. split; [|split; [|intros text; apply (tree_total _ (ok_kids _ _ _ _ Hok1)); [done|lia]]].
  2: { intros a Ha. destruct Hz as (_ & Az & _). cbn [mem move] in Az. rewrite Hm1 in Az. destruct (Az a) as [|[Ez ([q2 e2] & Hx2 & He2)]]; [done|].
    specialize (Hr _ Hx2). cbn [fst snd] in Hr, He2. unfold len in Hr. assert (a = (length w + length line)%nat) as -> by lia. rewrite Ez.
    rewrite lookup_app_r by lia. rewrite lookup_app_r by lia. by replace (_ - _ - _)%nat with 0%nat by lia. }
  intros [q1 e1] Hx. pose proof (reach_in _ _ _ _ Hx) as Hxs. pose proof (Hr _ Hxs) as Hr1. cbn [fst snd mem move] in *. destruct Hz as (Lz & Az & Zz). cbn [mem move] in *. rewrite Hm1 in *.
  apply string_between; [lia|lia|done| |by apply (Zz (q1, e1))]. intros a Ha. split; [apply memory_line; lia|].
  destruct (Az (Z.to_nat a)) as [|[_ ([q2 e2] & Hx2 & He2)]]; [done|]. exfalso. rewrite Z2Nat.id in He2 by lia. cbn [snd] in He2. subst e2.
  destruct (ok_apart _ _ _ _ Hok1 _ _ Hxs Hx2) as [Hap|[Hap|Hap]]; cbn [fst snd] in Hap; [|lia|injection Hap; lia].
  specialize (Hr _ Hx2). cbn [fst snd] in Hr. lia.
Qed.
End Memory.

(** A memory that differs in the line alone. *)
Lemma frame_line (w line r m : list Z) :
  (∀ a, (a < length w ∨ length w + length line ≤ a)%nat → m !! a = (w ++ line ++ 0 :: r) !! a) →
  ∃ line', m = w ++ line' ++ 0 :: r ∧ len line' = len line.
Proof.
  intros Hm. exists (take (length line) (drop (length w) m)). assert (Hw : take (length w) m = w).
  { rewrite <- (take_app_length w (line ++ 0 :: r)) at 2. apply list_eq. intros i. destruct (decide (i < length w)%nat) as [Hi|Hi].
    - rewrite !lookup_take_lt by lia. apply Hm. by left.
    - by rewrite !lookup_take_ge by lia. }
  assert (Hr : drop (length w + length line) m = 0 :: r).
  { apply list_eq. intros i. rewrite lookup_drop, Hm by lia. rewrite lookup_app_r by lia. rewrite lookup_app_r by lia. f_equal. lia. }
  rewrite <- Hr, <- drop_drop, take_drop, <- Hw at 1. split; [by rewrite take_drop|].
  assert (Hl : length (drop (length w + length line) m) = S (length r)) by (by rewrite Hr). rewrite length_drop in Hl.
  unfold len. rewrite length_take, length_drop. lia.
Qed.

(** The command at [p]: with the strings as the pointers into the line delimit them,
    and as the C code reads them, up to the NUL. *)
Definition delimited (m : list Z) (x : Z * Z) : list Z := slice (fst x) (snd x - fst x) m.
Definition c_string (m : list Z) (x : Z * Z) : list Z := string_at m (fst x).

(** C25: Parsing any line: no access outside the memory, the argument arrays or the
    nodes, the recursion ends, and either the
    shell panics (a syntax error, or more arguments than a command holds) or the command's
    strings, read up to their NUL, are those that were
    delimited in the line; nothing but the line is overwritten.  The allocations of
    the nodes succeed. *)
Theorem parsecmd_exact w line r p0 : 0 ∉ line → ∃ res st',
  parsecmd (len w) (Sh (w ++ line ++ 0 :: r) [] p0) = Some (res, st') ∧
  match res with
  | None => True
  | Some p => (∃ c, tree (heap st') (delimited (w ++ line ++ 0 :: r)) p = Some c ∧ tree (heap st') (c_string (mem st')) p = Some c) ∧
      ∃ line', mem st' = w ++ line' ++ 0 :: r ∧ len line' = len line
  end.
Proof.
  intros Hline. destruct (parsecmd_run w line r Hline (Sh (w ++ line ++ 0 :: r) [] p0) eq_refl eq_refl) as (res & st1 & _ & Hres).
  destruct res as [p|]; [|by exists None, st1]. destruct Hres as (st2 & _ & _ & _ & Hend). destruct (negb _); [by exists None, st2|].
  destruct Hend as (st3 & E & Eh & Hs & Hout & Ht). exists (Some p), st3. split; [exact E|]. rewrite Eh. split.
  - destruct (Ht (delimited (w ++ line ++ 0 :: r))) as [c Hc]. exists c. split; [done|]. rewrite <- Hc. apply tree_ext. exact Hs.
  - by apply frame_line.
Qed.

(** echo hi > out &; (cat in | wc); ls *)
Definition sample_line : list Z :=
  [101; 99; 104; 111; 32; 104; 105; 32; 62; 32; 111; 117; 116; 32; 38; 59; 32; 40; 99; 97; 116; 32; 105; 110; 32; 124; 32; 119; 99; 41; 59; 32; 108; 115; 10].

Lemma parsecmd_exact_witness : ∃ res st',
  parsecmd (len [7]) (Sh ([7] ++ sample_line ++ 0 :: [9; 9]) [] 0) = Some (res, st') ∧
  match res with
  | None => True
  | Some p => (∃ c, tree (heap st') (delimited ([7] ++ sample_line ++ 0 :: [9; 9])) p = Some c ∧ tree (heap st') (c_string (mem st')) p = Some c) ∧
      ∃ line', mem st' = [7] ++ line' ++ 0 :: [9; 9] ∧ len line' = len sample_line
  end.
Proof. apply (parsecmd_exact [7] sample_line [9; 9] 0). apply (bool_decide_unpack (0 ∉ sample_line)). vm_compute. exact I. Defined.
