(* ===== verification/ShellGrammar.v ===== *)
(** * The grammar of the shell (src/xv6-riscv/user/sh.c)

    The tokens of a line and the grammar of commands, and that [parsecmd] of Shell.v
    returns a command exactly for the lines of the grammar: the one the grammar gives. *)
From S2P Require Import Prelude Ulib Shell.

(** ** Tokens *)

Inductive tok := TWord (s : list Z) | TSym (c : Z) | TAppend.

(** The longest beginning with [f], and the rest. *)
Fixpoint span (f : Z → bool) (l : list Z) : list Z * list Z :=
  match l with
  | [] => ([], [])
  | c :: l' => if f c then (c :: fst (span f l'), snd (span f l')) else ([], l)
  end.

Definition blank (l : list Z) : list Z := snd (span (in_set whitespace) l).
Definition plain (c : Z) : bool := negb (in_set whitespace c) && negb (in_set symbols c).

(** The first token and what follows it: a string in quotes, a symbol, or a word up
    to white space or a symbol. *)
Definition first_tok (l : list Z) : option (tok * list Z) :=
  match blank l with
  | [] => None
  | c :: l1 =>
      if c =? 34 then let x := span (λ c, negb (c =? 34)) l1 in Some (TWord (fst x), blank (tail (snd x)))
      else if in_set [124; 40; 41; 59; 38; 60] c then Some (TSym c, blank l1)
      else if c =? 62 then
        match l1 with
        | d :: l2 => if d =? 62 then Some (TAppend, blank l2) else Some (TSym 62, blank l1)
        | [] => Some (TSym 62, [])
        end
      else let x := span plain (c :: l1) in Some (TWord (fst x), blank (snd x))
  end.

Fixpoint lex_loop (n : nat) (l : list Z) : list tok :=
  match n with
  | O => []
  | S n => match first_tok l with None => [] | Some (t, l') => t :: lex_loop n l' end
  end.
Definition lex (l : list Z) : list tok := lex_loop (length l) l.

Lemma span_app f l : fst (span f l) ++ snd (span f l) = l.
Proof. induction l as [|c l IH]; [done|]. cbn [span]. destruct (f c); cbn; [by rewrite IH|done]. Qed.

Lemma span_stop f l c l' : snd (span f l) = c :: l' → f c = false.
Proof. induction l as [|d l IH]; [done|]. cbn [span]. destruct (f d) eqn:Ed; cbn; [done|]. intros E. by injection E as -> ->. Qed.

Lemma span_short f l : (length (snd (span f l)) ≤ length l)%nat.
Proof. rewrite <- (span_app f l) at 2. rewrite length_app. lia. Qed.

Lemma blank_blank l : blank (blank l) = blank l.
Proof. unfold blank at 1. destruct (blank l) as [|c l'] eqn:E; [done|]. cbn [span]. by rewrite (span_stop _ _ _ _ E). Qed.

Lemma first_tok_blank l : first_tok (blank l) = first_tok l.
Proof. unfold first_tok. by rewrite blank_blank. Qed.

Lemma blank_short l : (length (blank l) ≤ length l)%nat.
Proof. apply span_short. Qed.

Lemma first_tok_short l t l' : first_tok l = Some (t, l') → (length l' < length l)%nat.
Proof.
  unfold first_tok. pose proof (blank_short l) as Hb. destruct (blank l) as [|c l1] eqn:El; [done|]. cbn in Hb.
  assert (H1 : (length (blank l1) ≤ length l1)%nat) by apply blank_short.
  destruct (c =? 34) eqn:Eq.
  { intros E. injection E as _ <-. pose proof (span_short (λ c, negb (c =? 34)) l1). pose proof (blank_short (tail (snd (span (λ c, negb (c =? 34)) l1)))) as H2. destruct (snd (span (λ c, negb (c =? 34)) l1)) as [|x l2]; cbn [tail length] in *; lia. }
  destruct (in_set [124; 40; 41; 59; 38; 60] c) eqn:Es; [intros E; injection E as _ <-; lia|]. destruct (Z.eqb_spec c 62) as [->|Hne].
  { destruct l1 as [|d l2]; [intros E; injection E as _ <-; cbn in *; lia|]. pose proof (blank_short l2). cbn [length] in *. destruct (d =? 62); intros E; injection E as _ <-; lia. }
  intros E. injection E as _ <-. assert (Hp : plain c = true).
  { unfold plain. rewrite (span_stop _ _ _ _ El). apply in_set_false in Es. assert (Hn : c ∉ symbols) by (unfold symbols; rewrite !not_elem_of_cons in *; intuition). apply in_set_false in Hn. by rewrite Hn. }
  cbn [span]. rewrite Hp. cbn [snd]. pose proof (blank_short (snd (span plain l1))). pose proof (span_short plain l1). lia.
Qed.

Lemma lex_more n l : (length l ≤ n)%nat → lex_loop n l = lex l.
Proof.
  unfold lex. revert l. assert (Hgo : ∀ n m l, (length l ≤ n)%nat → (length l ≤ m)%nat → lex_loop n l = lex_loop m l); [|intros l Hn; by apply Hgo].
  clear n. induction n as [|n IH]; intros m l Hn Hm.
  - destruct l; [|cbn in Hn; lia]. by destruct m.
  - destruct m as [|m]; [destruct l; [done|cbn in Hm; lia]|]. cbn [lex_loop]. destruct (first_tok l) as [[t l']|] eqn:E; [|done].
    apply first_tok_short in E. f_equal. apply IH; lia.
Qed.

Lemma lex_eq l : lex l = match first_tok l with None => [] | Some (t, l') => t :: lex l' end.
Proof.
  rewrite <- (lex_more (S (length l)) l) by lia. cbn [lex_loop]. destruct (first_tok l) as [[t l']|] eqn:E; [|done].
  apply first_tok_short in E. by rewrite lex_more by lia.
Qed.

Lemma lex_blank l : lex (blank l) = lex l.
Proof. by rewrite lex_eq, first_tok_blank, <- lex_eq. Qed.

(** The tokens written with quotes around the words and a blank behind each token. *)
Definition tok_text (t : tok) : list Z := match t with TWord s => 34 :: s ++ [34] | TSym c => [c] | TAppend => [62; 62] end.
Definition print (ts : list tok) : list Z := flat_map (λ t, tok_text t ++ [32]) ts.

Definition tok_ok (t : tok) : Prop := match t with TSym c => c ∈ symbols | _ => True end.

(** Whether the first character of the tokens is in [set]. *)
Definition starts (set : list Z) (ts : list tok) : bool :=
  match ts with
  | TSym c :: _ => in_set set c
  | TAppend :: _ => in_set set 62
  | _ => false
  end.

Ltac symbol := unfold symbols, whitespace in *; rewrite ?elem_of_cons, ?not_elem_of_cons, ?elem_of_nil in *; intuition (subst; try lia; try discriminate).

Lemma first_tok_start set l : set ⊆ symbols →
  in_set set (hd 0 (blank l)) = match first_tok l with None => false | Some (t, _) => starts set [t] end ∧
  match first_tok l with None => blank l = [] | Some (t, _) => tok_ok t end.
Proof.
  intros Hs. assert (Hout : ∀ c, c ∉ symbols → in_set set c = false) by (intros c Hc; apply in_set_false; intros Hin; by apply Hc, Hs).
  unfold first_tok. destruct (blank l) as [|c l1]; cbn [hd]; [split; [apply Hout; symbol|done]|].
  destruct (Z.eqb_spec c 34) as [->|_]; [split; [apply Hout; symbol|done]|].
  destruct (in_set [124; 40; 41; 59; 38; 60] c) eqn:Es; [apply in_set_true in Es; split; [done|cbn; symbol]|apply in_set_false in Es].
  destruct (Z.eqb_spec c 62) as [->|Hne]; [|split; [apply Hout; symbol|done]].
  assert (62 ∈ symbols) by symbol. destruct l1 as [|d l2]; [done|]. by destruct (d =? 62).
Qed.

Lemma starts_lex set l : set ⊆ symbols → in_set set (hd 0 (blank l)) = starts set (lex l).
Proof. intros Hs. destruct (first_tok_start set l Hs) as [-> _]. rewrite lex_eq. by destruct (first_tok l) as [[t l']|]. Qed.

Lemma lex_loop_ok n l : Forall tok_ok (lex_loop n l).
Proof.
  revert l. induction n as [|n IH]; intros l; cbn [lex_loop]; [constructor|]. destruct (first_tok_start [] l) as [_ H]; [by intros c ?%elem_of_nil|].
  destruct (first_tok l) as [[t l']|]; [|constructor]. constructor; [done|apply IH].
Qed.

Lemma span_until f x c l : Forall (λ d, f d = true) x → f c = false → span f (x ++ c :: l) = (x, c :: l).
Proof. intros Hx Hc. induction Hx as [|d x Hd _ IH]; cbn [app span]; [by rewrite Hc|]. by rewrite Hd, IH. Qed.

(** Whatever the words are, the lexer reads the tokens back. *)
Lemma lex_print ts : Forall (λ t, tok_ok t ∧ ∀ s, t = TWord s → 34 ∉ s) ts → lex (print ts) = ts.
Proof.
  induction 1 as [|t ts [Ht Hw] _ IH]; [done|]. cbn [print flat_map]. fold (print ts). rewrite <- app_assoc, lex_eq.
  assert (E : first_tok (tok_text t ++ [32] ++ print ts) = Some (t, blank (print ts))); [|by rewrite E, lex_blank, IH].
  assert (Hb : blank (32 :: print ts) = blank (print ts)) by done. destruct t as [s|c|]; cbn [tok_text app]; [| |done].
  - unfold first_tok, blank at 1. cbn [span]. change (in_set whitespace 34) with false. cbv iota. cbn [snd]. change (34 =? 34) with true. cbv iota. rewrite <- app_assoc. cbn [app].
    rewrite span_until; [cbn [fst snd tail]; by rewrite Hb| |done]. apply Forall_forall. intros d Hd. apply negb_true_iff, Z.eqb_neq. intros ->. by apply (Hw s).
  - assert (Hc : c ∈ symbols) by done. unfold symbols in Hc. rewrite !elem_of_cons, elem_of_nil in Hc. unfold first_tok. destruct Hc as [->|[->|[->|[->|[->|[->|[->|[]]]]]]]]; done.
Qed.

(** ** The grammar *)

Inductive redir := RIn (file : list Z) | ROut (file : list Z) | RApp (file : list Z).

Definition wrap (c : cmd) (r : redir) : cmd :=
  match r with
  | RIn file => Redir c file O_RDONLY 0
  | ROut file => Redir c file (Z.lor (Z.lor O_WRONLY O_CREATE) O_TRUNC) 1
  | RApp file => Redir c file (Z.lor O_WRONLY O_CREATE) 1
  end.
Definition redir_toks (r : redir) : list tok :=
  match r with RIn file => [TSym 60; TWord file] | ROut file => [TSym 62; TWord file] | RApp file => [TAppend; TWord file] end.

(** A simple command: words and redirections in any order. *)
Inductive item := Arg (s : list Z) | Red (r : redir).
Definition item_toks (i : item) : list tok := match i with Arg s => [TWord s] | Red r => redir_toks r end.
Definition args_of (its : list item) : list (list Z) := flat_map (λ i, match i with Arg s => [s] | Red _ => [] end) its.
Definition redirs_of (its : list item) : list redir := flat_map (λ i, match i with Arg _ => [] | Red r => [r] end) its.

(** [line ::= pipe '&'* (';' line)?], [pipe ::= exec ('|' pipe)?],
    [exec ::= '(' line ')' redir* | (word | redir)*]. *)
Inductive gline : list tok → cmd → Prop :=
  | gline_last ts c n : gpipe ts c → gline (ts ++ repeat (TSym 38) n) (Nat.iter n Back c)
  | gline_seq ts c n ts' c' : gpipe ts c → gline ts' c' → gline (ts ++ repeat (TSym 38) n ++ TSym 59 :: ts') (Seq (Nat.iter n Back c) c')
with gpipe : list tok → cmd → Prop :=
  | gpipe_last ts c : gexec ts c → gpipe ts c
  | gpipe_more ts c ts' c' : gexec ts c → gpipe ts' c' → gpipe (ts ++ TSym 124 :: ts') (Pipe c c')
with gexec : list tok → cmd → Prop :=
  | gexec_items its : Z.of_nat (length (args_of its)) < MAXARGS → gexec (flat_map item_toks its) (fold_left wrap (redirs_of its) (Exec (args_of its)))
  | gexec_block ts c rs : gline ts c → gexec (TSym 40 :: ts ++ TSym 41 :: flat_map redir_toks rs) (fold_left wrap rs c).

(** ** A parser of tokens

    The recursive descent without memory and addresses.  The outer option is the fuel,
    the inner one a panic. *)

Definition redir_op (t : tok) : option (list Z → redir) :=
  match t with
  | TSym c => if c =? 60 then Some RIn else if c =? 62 then Some ROut else None
  | TAppend => Some RApp
  | TWord _ => None
  end.

Fixpoint predirs (ts : list tok) : option (list redir * list tok) :=
  match ts with
  | [] => Some ([], [])
  | t :: ts1 =>
      match redir_op t with
      | None => Some ([], ts)
      | Some op => match ts1 with TWord f :: ts2 => (λ x, (op f :: fst x, snd x)) <$> predirs ts2 | _ => None end
      end
  end.

(** The items of a simple command with [n] arguments so far. *)
Fixpoint pitems (n : nat) (ts : list tok) : option (list (list Z) * list redir * list tok) :=
  match ts with
  | [] => Some ([], [], [])
  | t :: ts1 =>
      match redir_op t with
      | Some op => match ts1 with TWord f :: ts2 => (λ '(ws, rs, r), (ws, op f :: rs, r)) <$> pitems n ts2 | _ => None end
      | None =>
          match t with
          | TWord s => if MAXARGS <=? Z.of_nat n + 1 then None else (λ '(ws, rs, r), (s :: ws, rs, r)) <$> pitems (S n) ts1
          | _ => if starts [124; 41; 38; 59] ts then Some ([], [], ts) else None
          end
      end
  end.

Fixpoint backs (c : cmd) (ts : list tok) : cmd * list tok :=
  match ts with
  | t :: ts1 => if starts [38] ts then backs (Back c) ts1 else (c, ts)
  | [] => (c, [])
  end.

Definition result := option (cmd * list tok).
Definition then_ (r : option result) (k : cmd → list tok → option result) : option result :=
  match r with
  | None => None
  | Some None => Some None
  | Some (Some (c, ts)) => k c ts
  end.

Fixpoint pline (k : nat) (ts : list tok) : option result :=
  match k with
  | O => None
  | S k => then_ (ppipe k ts) (λ c ts1, let x := backs c ts1 in
      if starts [59] (snd x) then then_ (pline k (tail (snd x))) (λ c' ts2, Some (Some (Seq (fst x) c', ts2))) else Some (Some x))
  end
with ppipe (k : nat) (ts : list tok) : option result :=
  match k with
  | O => None
  | S k => then_ (pexec k ts) (λ c ts1,
      if starts [124] ts1 then then_ (ppipe k (tail ts1)) (λ c' ts2, Some (Some (Pipe c c', ts2))) else Some (Some (c, ts1)))
  end
with pexec (k : nat) (ts : list tok) : option result :=
  match k with
  | O => None
  | S k =>
      if starts [40] ts then pblock k ts
      else Some (match pitems 0 ts with Some (ws, rs, ts1) => Some (fold_left wrap rs (Exec ws), ts1) | None => None end)
  end
with pblock (k : nat) (ts : list tok) : option result :=
  match k with
  | O => None
  | S k => then_ (pline k (tail ts)) (λ c ts1,
      if starts [41] ts1 then Some (match predirs (tail ts1) with Some (rs, ts2) => Some (fold_left wrap rs c, ts2) | None => None end) else Some None)
  end.

Lemma redir_op_starts t ts : starts [60; 62] (t :: ts) = match redir_op t with Some _ => true | None => false end.
Proof.
  destruct t as [f|c|]; [done| |done]. cbn [starts redir_op]. destruct (Z.eqb_spec c 60) as [->|H1]; [done|]. destruct (Z.eqb_spec c 62) as [->|H2]; [done|].
  apply in_set_false. symbol.
Qed.

(** A rule for the lists that [predirs] and [pitems] walk, one or two tokens at a time. *)
Lemma toks_ind (P : list tok → Prop) : P [] → (∀ t ts, P ts → (∀ t' ts', ts = t' :: ts' → P ts') → P (t :: ts)) → ∀ ts, P ts.
Proof.
  intros H0 HS. assert (Hgo : ∀ ts, P ts ∧ ∀ t' ts', ts = t' :: ts' → P ts').
  { induction ts as [|t ts [IH1 IH2]]; [split; [done|by intros]|]. split; [by apply HS|]. intros t' ts' E. by injection E as _ <-. }
  intros ts. apply Hgo.
Qed.

Lemma predirs_rest ts rs ts' : predirs ts = Some (rs, ts') → starts [60; 62] ts' = false.
Proof.
  revert rs. induction ts as [|t ts _ IH] using toks_ind; intros rs; cbn [predirs]; [intros E; by injection E as _ <-|].
  pose proof (redir_op_starts t ts) as Hs. destruct (redir_op t) as [op|]; [|intros E; by injection E as _ <-].
  destruct ts as [|[f| |] ts2]; try done. destruct (predirs ts2) as [[rs2 r2]|] eqn:E2; [|done]. intros E. injection E as _ <-. by eapply (IH (TWord f) ts2).
Qed.

Lemma pitems_predirs n ts : pitems n ts = match predirs ts with Some (rs, ts') => (λ '(ws, rs', r), (ws, rs ++ rs', r)) <$> pitems n ts' | None => None end.
Proof.
  induction ts as [|t ts _ IH] using toks_ind; [done|]. cbn [predirs]. destruct (redir_op t) as [op|] eqn:Eo.
  - cbn [pitems]. rewrite Eo. destruct ts as [|[f| |] ts2]; try done. rewrite (IH (TWord f) ts2 eq_refl). destruct (predirs ts2) as [[rs r]|]; [|done]. cbn.
    by destruct (pitems n r) as [[[ws rs'] r']|].
  - by destruct (pitems n (t :: ts)) as [[[ws rs'] r']|].
Qed.

(** ** Trees in a growing heap *)

Lemma tree_more h fuel fuel' text p c : (fuel ≤ fuel')%nat → tree_of h fuel text p = Some c → tree_of h fuel' text p = Some c.
Proof.
  revert fuel' p c. induction fuel as [|fuel IH]; intros fuel' p c Hle; [done|]. destruct fuel' as [|fuel']; [lia|]. cbn [tree_of].
  destruct (h !! p) as [n|]; [|done]. cbn [mbind option_bind].
  assert (Hsub : ∀ q t, tree_of h fuel text q = Some t → tree_of h fuel' text q = Some t) by (intros q t; apply IH; lia).
  destruct n as [args|q f e mode fd|l r|l r|q]; [done|..].
  - destruct (tree_of h fuel text q) as [t1|] eqn:E1; [|done]. by rewrite (Hsub _ _ E1).
  - destruct (tree_of h fuel text l) as [t1|] eqn:E1; [|done]. destruct (tree_of h fuel text r) as [t2|] eqn:E2; [|done]. by rewrite (Hsub _ _ E1), (Hsub _ _ E2).
  - destruct (tree_of h fuel text l) as [t1|] eqn:E1; [|done]. destruct (tree_of h fuel text r) as [t2|] eqn:E2; [|done]. by rewrite (Hsub _ _ E1), (Hsub _ _ E2).
  - destruct (tree_of h fuel text q) as [t1|] eqn:E1; [|done]. by rewrite (Hsub _ _ E1).
Qed.

Lemma tree_app h h' fuel text p c : tree_of h fuel text p = Some c → tree_of (h ++ h') fuel text p = Some c.
Proof.
  revert p c. induction fuel as [|fuel IH]; intros p c; [done|]. cbn [tree_of]. destruct (h !! p) as [n|] eqn:En; [|done]. rewrite (lookup_app_l_Some _ _ _ _ En). cbn [mbind option_bind].
  destruct n as [args|q f e mode fd|l r|l r|q]; [done|..].
  - destruct (tree_of h fuel text q) as [t1|] eqn:E1; [|done]. by rewrite (IH _ _ E1).
  - destruct (tree_of h fuel text l) as [t1|] eqn:E1; [|done]. destruct (tree_of h fuel text r) as [t2|] eqn:E2; [|done]. by rewrite (IH _ _ E1), (IH _ _ E2).
  - destruct (tree_of h fuel text l) as [t1|] eqn:E1; [|done]. destruct (tree_of h fuel text r) as [t2|] eqn:E2; [|done]. by rewrite (IH _ _ E1), (IH _ _ E2).
  - destruct (tree_of h fuel text q) as [t1|] eqn:E1; [|done]. by rewrite (IH _ _ E1).
Qed.

Lemma tree_lt h text p c : tree h text p = Some c → (p < length h)%nat.
Proof. unfold tree. cbn [tree_of]. destruct (h !! p) as [n|] eqn:En; [|done]. intros _. by eapply lookup_lt_Some. Qed.


Lemma tree_child h text p q t : (q < p)%nat → tree h text q = Some t → tree_of h p text q = Some t.
Proof. intros Hq. by apply tree_more. Qed.

Lemma tree_node h text p n c : h !! p = Some n →
  match n with
  | EXEC args => c = Exec (map text args)
  | REDIR q f e mode fd => ∃ t, (q < p)%nat ∧ tree h text q = Some t ∧ c = Redir t (text (f, e)) mode fd
  | PIPE l r => ∃ t1 t2, (l < p)%nat ∧ (r < p)%nat ∧ tree h text l = Some t1 ∧ tree h text r = Some t2 ∧ c = Pipe t1 t2
  | LIST l r => ∃ t1 t2, (l < p)%nat ∧ (r < p)%nat ∧ tree h text l = Some t1 ∧ tree h text r = Some t2 ∧ c = Seq t1 t2
  | BACK q => ∃ t, (q < p)%nat ∧ tree h text q = Some t ∧ c = Back t
  end → tree h text p = Some c.
Proof.
  intros Hp Hn. unfold tree. cbn [tree_of]. rewrite Hp. cbn [mbind option_bind]. destruct n as [args|q f e mode fd|l r|l r|q]; [by rewrite Hn|..].
  - destruct Hn as (t & Hq & Ht & ->). by rewrite (tree_child _ _ _ _ _ Hq Ht).
  - destruct Hn as (t1 & t2 & Hl & Hr & H1 & H2 & ->). by rewrite (tree_child _ _ _ _ _ Hl H1), (tree_child _ _ _ _ _ Hr H2).
  - destruct Hn as (t1 & t2 & Hl & Hr & H1 & H2 & ->). by rewrite (tree_child _ _ _ _ _ Hl H1), (tree_child _ _ _ _ _ Hr H2).
  - destruct Hn as (t & Hq & Ht & ->). by rewrite (tree_child _ _ _ _ _ Hq Ht).
Qed.

Lemma tree_grow h h' text p c : tree h text p = Some c → tree (h ++ h') text p = Some c.
Proof. apply tree_app. Qed.

(** ** Tokens in memory *)

Section Line.
Context (m0 rest : list Z).
Abbreviation es := (len m0 - len rest - 1).
Abbreviation text := (delimited m0).

(** The cursor is before [l], the rest of the line. *)
Definition before (p : Z) (l : list Z) : Prop := ∃ pre, m0 = pre ++ l ++ 0 :: rest ∧ p = len pre.
Record at_rest (st : sh_t) (l : list Z) : Prop := { at_mem : mem st = m0; at_ps : before (ps st) l; at_line : 0 ∉ l }.

Lemma before_end p l : before p l → es = p + len l.
Proof. intros (pre & E & ->). rewrite E at 1. rewrite !len_app, len_cons. lia. Qed.

Lemma before_skip p x l : before p (x ++ l) → before (p + len x) l.
Proof. intros (pre & E & ->). exists (pre ++ x). by rewrite len_app, <- !app_assoc in *. Qed.

Lemma before_cons p c l : before p (c :: l) → before (p + 1) l.
Proof. exact (before_skip p [c] l). Qed.

Lemma read_before st p l : mem st = m0 → before p l → read p st = Some (hd 0 l, st).
Proof. intros Hm (pre & E & ->). unfold read. rewrite Hm, E. destruct l as [|c l]; cbn [app hd]; by rewrite load_at. Qed.

Lemma skip_before f st p l : mem st = m0 → before p l → skip f es p st = Some (p + len (fst (span f l)), st) ∧ before (p + len (fst (span f l))) (snd (span f l)).
Proof.
  intros Hm Hb. split; [|apply before_skip; by rewrite span_app].
  unfold skip. rewrite (before_end _ _ Hb). replace (p + len l - p) with (len l) by lia. unfold len at 1. rewrite Nat2Z.id.
  revert p Hb. induction l as [|c l IH]; intros p Hb; cbn [length skip_loop span fst].
  - rewrite len_nil, Z.add_0_r. done.
  - rewrite (bind_run _ _ _ _ _ (read_before st p _ Hm Hb)). cbn [hd]. destruct (f c); cbn [fst].
    + rewrite IH by (by eapply before_cons). rewrite len_cons. do 2 f_equal. lia.
    + by rewrite len_nil, Z.add_0_r.
Qed.

Lemma skip_blank st p l : mem st = m0 → before p l → ∃ p', skip_white es p st = Some (p', st) ∧ before p' (blank l).
Proof. intros Hm Hb. destruct (skip_before (in_set whitespace) st p l Hm Hb) as [E H]. by eexists. Qed.

Lemma not_in_rest (c : Z) x l : c ∉ x ++ l → c ∉ l.
Proof. rewrite not_elem_of_app. tauto. Qed.

Lemma blank_line (c : Z) l : c ∉ l → c ∉ blank l.
Proof. rewrite <- (span_app (in_set whitespace) l) at 1. apply not_in_rest. Qed.

Lemma text_before p x l : before p (x ++ l) → text (p, p + len x) = x.
Proof. intros (pre & E & ->). unfold delimited. cbn [fst snd]. rewrite E. replace (len pre + len x - len pre) with (len x) by lia. rewrite <- app_assoc. by apply slice_app. Qed.

Lemma peek_at set st l : at_rest st l → 0 ∉ set → ∃ p, peek es set st = Some (in_set set (hd 0 (blank l)), move st p) ∧ at_rest (move st p) (blank l).
Proof.
  intros [Hm Hp H0] Hs. destruct (skip_blank st _ l Hm Hp) as (p & E & Hb). exists p. unfold peek.
  rewrite (bind_run (gets ps) _ st (ps st) st eq_refl), (bind_run _ _ _ _ _ E), (bind_run (set_ps p) _ st tt (move st p) eq_refl).
  rewrite (bind_run _ _ _ _ _ (read_before (move st p) p _ Hm Hb)). split; [|split; [done|done|by apply blank_line]].
  unfold ret. do 2 f_equal. destruct (Z.eqb_spec (hd 0 (blank l)) 0) as [->|]; [|done]. cbn [negb andb]. symmetry. by apply in_set_false.
Qed.

Definition tok_code (t : tok) : Z := match t with TWord _ => 97 | TSym c => c | TAppend => 43 end.

(** The end of [gettoken]: the token ends where [l] begins. *)
Lemma token_end st (code q e : Z) l : mem st = m0 → before e l → 0 ∉ l →
  ∃ p, bind (skip_white es e) (λ s, set_ps s ;;* ret (code, q, e)) st = Some ((code, q, e), move st p) ∧ at_rest (move st p) (blank l).
Proof.
  intros Hm Hb H0. destruct (skip_blank st e l Hm Hb) as (p & E & Hp). exists p. rewrite (bind_run _ _ _ _ _ E). split; [done|]. split; [done|done|by apply blank_line].
Qed.

Lemma quoted_at st p l : mem st = m0 → before p l → 0 ∉ l → ∃ e p',
  bind (skip (λ c, negb (c =? 34)) es p) (λ s, let* c := read s in let* s' := skip_white es (if c =? 34 then s + 1 else s) in set_ps s' ;;* ret (97, p, s)) st = Some ((97, p, e), move st p') ∧
  text (p, e) = fst (span (λ c, negb (c =? 34)) l) ∧ at_rest (move st p') (blank (tail (snd (span (λ c, negb (c =? 34)) l)))).
Proof.
  intros Hm Hb H0. set (f := λ c, negb (c =? 34)). destruct (skip_before f st p l Hm Hb) as [E He]. rewrite (bind_run _ _ _ _ _ E).
  rewrite (bind_run _ _ _ _ _ (read_before st _ _ Hm He)). set (e := p + len (fst (span f l))) in *.
  assert (Ht : text (p, e) = fst (span f l)) by (apply (text_before _ _ (snd (span f l))); by rewrite span_app).
  assert (H1 : 0 ∉ snd (span f l)) by (rewrite <- (span_app f l) in H0; by eapply not_in_rest).
  destruct (snd (span f l)) as [|d l'] eqn:El; cbn [hd tail] in *.
  - destruct (skip_blank st e [] Hm He) as (p' & E' & Hp'). rewrite (bind_run _ _ _ _ _ E'). by exists e, p'.
  - pose proof (span_stop _ _ _ _ El) as Hd. unfold f in Hd. apply negb_false_iff in Hd. rewrite Hd. apply before_cons in He.
    destruct (skip_blank st (e + 1) l' Hm He) as (p' & E' & Hp'). rewrite (bind_run _ _ _ _ _ E'). exists e, p'. split; [done|]. split; [done|].
    split; [done|done|]. apply blank_line. by apply (not_in_rest 0 [d]).
Qed.

Lemma gettoken_at st l : at_rest st l → ∃ code q e p, gettoken es st = Some ((code, q, e), move st p) ∧
  match first_tok l with
  | None => code = 0 ∧ at_rest (move st p) []
  | Some (t, l') => code = tok_code t ∧ at_rest (move st p) l' ∧ ∀ s, t = TWord s → text (q, e) = s
  end.
Proof.
  intros [Hm Hp H0]. destruct (skip_blank st _ l Hm Hp) as (s & E & Hb). unfold gettoken.
  rewrite (bind_run (gets ps) _ st (ps st) st eq_refl), (bind_run _ _ _ _ _ E), (bind_run _ _ _ _ _ (read_before st s _ Hm Hb)).
  unfold first_tok. pose proof (blank_line 0 l H0) as H1. pose proof (λ c l', span_stop (in_set whitespace) l c l') as Hw. fold (blank l) in Hw.
  destruct (blank l) as [|c l1] eqn:El; cbn [hd].
  { change (0 =? 34) with false. change (0 =? 0) with true. cbv iota. rewrite (bind_run (ret (0, s)) _ st (0, s) st eq_refl).
    destruct (token_end st 0 s s [] Hm Hb H1) as (p & Ep & Hr). by exists 0, s, s, p. }
  specialize (Hw c l1 eq_refl). assert (Hc0 : c ≠ 0) by (intros ->; apply H1; left). assert (H2 : 0 ∉ l1) by (by apply (not_in_rest 0 [c])). pose proof (before_cons _ _ _ Hb) as Hb1.
  destruct (c =? 34) eqn:Eq.
  { destruct (quoted_at st (s + 1) l1 Hm Hb1 H2) as (e & p & Ep & Ht & Hr). exists 97, (s + 1), e, p. split; [exact Ep|]. split; [done|]. split; [done|]. intros x Hx. by injection Hx as <-. }
  rewrite (proj2 (Z.eqb_neq c 0) Hc0). destruct (in_set [124; 40; 41; 59; 38; 60] c) eqn:Es.
  { rewrite (bind_run (ret (c, s + 1)) _ st (c, s + 1) st eq_refl). destruct (token_end st c s (s + 1) l1 Hm Hb1 H2) as (p & Ep & Hr). exists c, s, (s + 1), p. by split. }
  destruct (Z.eqb_spec c 62) as [->|Hne].
  { rewrite (bind_run (bind (read (s + 1)) _) _ st (if hd 0 l1 =? 62 then (43, s + 2) else (62, s + 1)) st).
    2: { rewrite (bind_run _ _ _ _ _ (read_before st _ _ Hm Hb1)). by destruct (_ =? 62). }
    assert (Hgt : ∃ p, bind (skip_white es (s + 1)) (λ s', set_ps s' ;;* ret (62, s, s + 1)) st = Some ((62, s, s + 1), move st p) ∧ at_rest (move st p) (blank l1)) by (by apply token_end).
    destruct Hgt as (p & Ep & Hr). destruct l1 as [|d l2]; cbn [hd]; [by exists 62, s, (s + 1), p|]. destruct (d =? 62) eqn:Ed; [|by exists 62, s, (s + 1), p].
    destruct (token_end st 43 s (s + 2) l2 Hm) as (p2 & Ep2 & Hr2); [apply before_cons in Hb1; by replace (s + 1 + 1) with (s + 2) in Hb1 by lia|by apply (not_in_rest 0 [d])|].
    by exists 43, s, (s + 2), p2. }
  destruct (skip_before plain st s (c :: l1) Hm Hb) as [E1 He]. rewrite (bind_run (bind (skip _ _ _) _) _ st (97, s + len (fst (span plain (c :: l1)))) st) by (unfold plain in E1 |- *; by rewrite (bind_run _ _ _ _ _ E1)).
  set (e := s + len _) in *. destruct (token_end st 97 s e _ Hm He) as (p & Ep & Hr); [rewrite <- (span_app plain (c :: l1)) in H1; by eapply not_in_rest|].
  exists 97, s, e, p. split; [exact Ep|]. split; [done|]. split; [done|]. intros x Hx. injection Hx as <-. apply (text_before _ _ (snd (span plain (c :: l1)))). by rewrite span_app.
Qed.
(** The cursor is before the tokens [ts], the last of the line. *)
Definition at_toks (st : sh_t) (ts : list tok) : Prop := ∃ l, at_rest st l ∧ lex l = ts.

Lemma wlp_peek {A} set (k : bool → M sh_t A) Q st ts :
  at_toks st ts → set ⊆ symbols → (∀ st1, heap st1 = heap st → at_toks st1 ts → wlp (k (starts set ts)) Q st1) → wlp (bind (peek es set) k) Q st.
Proof.
  intros (l & Hr & <-) Hs Hk. destruct (peek_at set st l Hr) as (p & E & Hp); [intros H0; apply Hs in H0; symbol|].
  apply wlp_bind. intros b st1. rewrite E. intros X. injection X as <- <-. rewrite (starts_lex set l Hs). apply Hk; [done|].
  exists (blank l). split; [done|apply lex_blank].
Qed.

(** What [gettoken] reads. *)
Definition token (ts : list tok) (code q e : Z) (st : sh_t) : Prop :=
  match ts with
  | [] => code = 0 ∧ at_toks st []
  | t :: ts' => tok_ok t ∧ code = tok_code t ∧ at_toks st ts' ∧ ∀ s, t = TWord s → text (q, e) = s
  end.

Lemma wlp_gettoken {A} (k : Z * Z * Z → M sh_t A) Q st ts :
  at_toks st ts → (∀ code q e st1, heap st1 = heap st → token ts code q e st1 → wlp (k (code, q, e)) Q st1) → wlp (bind (gettoken es) k) Q st.
Proof.
  intros (l & Hr & <-) Hk. destruct (gettoken_at st l Hr) as (code & q & e & p & E & Ht).
  apply wlp_bind. intros x st1. rewrite E. intros X. injection X as <- <-. apply Hk; [done|]. rewrite lex_eq. unfold token.
  destruct (first_tok_start [] l) as [_ Hok]; [by intros c ?%elem_of_nil|]. destruct (first_tok l) as [[t l']|]; [|destruct Ht as [-> Ht]; split; [done|by exists []]].
  destruct Ht as (-> & Ht & Hx). split; [done|]. split; [done|]. split; [by exists l'|done].
Qed.
(** *** Redirections around a command *)

(** [q] is the command [p] inside the redirections [rs], the first innermost. *)
Inductive chain (h : list node) (p : nat) : list redir → nat → Prop :=
  | chain_nil : chain h p [] p
  | chain_snoc rs q r q' f e mode fd : chain h p rs q → h !! q' = Some (REDIR q f e mode fd) → (q < q')%nat →
      (∀ c, wrap c r = Redir c (text (f, e)) mode fd) → chain h p (rs ++ [r]) q'.

Lemma chain_grow h h' p rs q : chain h p rs q → chain (h ++ h') p rs q.
Proof. induction 1 as [|rs q r q' f e mode fd _ IH Hq Hlt Hw]; [constructor|]. eapply chain_snoc; [exact IH| |done|done]. by apply lookup_app_l_Some. Qed.

Lemma chain_arg h p rs q args args' : h !! p = Some (EXEC args) → chain h p rs q → chain (<[p := EXEC args']> h) p rs q.
Proof.
  intros Hp. induction 1 as [|rs q r q' f e mode fd _ IH Hq Hlt Hw]; [constructor|]. eapply chain_snoc; [exact IH| |done|done].
  rewrite list_lookup_insert_ne; [done|]. intros ->. by rewrite Hp in Hq.
Qed.

Lemma chain_trans h p rs q rs' q' : chain h p rs q → chain h q rs' q' → chain h p (rs ++ rs') q'.
Proof. intros H1. induction 1 as [|rs' q1 r q2 f e mode fd _ IH Hq Hlt Hw]; [by rewrite app_nil_r|]. rewrite app_assoc. by eapply chain_snoc. Qed.

Lemma chain_tree h p rs q c : chain h p rs q → tree h text p = Some c → tree h text q = Some (fold_left wrap rs c).
Proof.
  intros Hc Hp. induction Hc as [|rs q r q' f e mode fd _ IH Hq Hlt Hw]; [done|]. rewrite fold_left_app. cbn [fold_left]. rewrite Hw.
  apply (tree_node _ _ _ _ _ Hq). by eexists.
Qed.

Lemma chain_lt h p rs q : chain h p rs q → (p < length h)%nat → (q < length h)%nat.
Proof. destruct 1 as [|rs q r q' f e mode fd _ Hq]; [done|]. intros _. by eapply lookup_lt_Some. Qed.

Lemma redir_kind t op f cmd q e : redir_op t = Some op → ∃ mode fd,
  (if tok_code t =? 60 then redircmd cmd q e O_RDONLY 0
   else if tok_code t =? 62 then redircmd cmd q e (Z.lor (Z.lor O_WRONLY O_CREATE) O_TRUNC) 1
   else if tok_code t =? 43 then redircmd cmd q e (Z.lor O_WRONLY O_CREATE) 1 else ret cmd) = redircmd cmd q e mode fd ∧
  ∀ c, wrap c (op f) = Redir c f mode fd.
Proof.
  destruct t as [w|c|]; [done| |]; cbn [redir_op tok_code].
  - destruct (c =? 60); [intros E; injection E as <-; by do 2 eexists|]. destruct (c =? 62); [intros E; injection E as <-; by do 2 eexists|done].
  - intros E. injection E as <-. by do 2 eexists.
Qed.

(** Only a word has the code of a word. *)
Lemma token_word ts q e st : token ts 97 q e st → ∃ ts', ts = TWord (text (q, e)) :: ts' ∧ at_toks st ts'.
Proof.
  destruct ts as [|[f|c|] ts]; cbn [token tok_code]; [by intros [? _]|..].
  - intros (_ & _ & Ha & Hf). rewrite (Hf f eq_refl). by exists ts.
  - intros (Hc & <- & _). exfalso. cbn in Hc. symbol.
  - by intros (_ & ? & _).
Qed.

Ltac symset := intros ? ?; symbol.

Lemma parseredirs_sim fuel cmd st ts : at_toks st ts → (cmd < length (heap st))%nat → wlp (parseredirs fuel es cmd) (λ r st',
  match r with
  | None => predirs ts = None
  | Some p => ∃ rs ts' h', predirs ts = Some (rs, ts') ∧ at_toks st' ts' ∧ heap st' = heap st ++ h' ∧ chain (heap st') cmd rs p
  end) st.
Proof.
  revert cmd st ts. induction fuel as [|fuel IH]; intros cmd st ts Hat Hc; cbn [parseredirs]; [apply wlp_fault|].
  eapply wlp_peek; [exact Hat|symset|]. intros st1 Hh1 Hat1.
  assert (Hstop : predirs ts = Some ([], ts) → ∃ rs ts' h', predirs ts = Some (rs, ts') ∧ at_toks st1 ts' ∧ heap st1 = heap st ++ h' ∧ chain (heap st1) cmd rs cmd).
  { intros E. exists [], ts, []. split; [done|]. split; [done|]. split; [by rewrite app_nil_r|constructor]. }
  destruct ts as [|t ts1]; [apply wlp_ret; by apply Hstop|]. rewrite redir_op_starts. cbn [predirs] in *.
  destruct (redir_op t) as [op|] eqn:Eo; cbn [negb]; [clear Hstop|apply wlp_ret; by apply Hstop].
  eapply wlp_gettoken; [exact Hat1|]. intros code q1 e1 st2 Hh2 (_ & -> & Hat2 & _). eapply wlp_gettoken; [exact Hat2|]. intros code q e st3 Hh3 Ht.
  destruct (Z.eqb_spec code 97) as [->|Hne]; cbn [negb].
  2: { apply wlp_ret. destruct ts1 as [|[f|c|] ts2]; try done. by destruct Ht as (_ & Hcode & _). }
  apply token_word in Ht as (ts2 & -> & Hat3). set (f := text (q, e)) in *. destruct (redir_kind t op f cmd q e Eo) as (mode & fd & -> & Hw).
  assert (Hh : heap st3 = heap st) by congruence. apply wlp_bind. intros p st4 E. injection E as <- <-. eapply wlp_mono.
  { apply (IH _ _ ts2); [|cbn; rewrite length_app; cbn; lia]. destruct Hat3 as (l & [Hm Hp H0] & Hl). by exists l. }
  cbn [heap]. intros [p|] st'; [|by intros ->]. intros (rs & ts' & h' & -> & Ha & Eh & Hch). exists (op f :: rs), ts', (REDIR cmd q e mode fd :: h').
  split; [done|]. split; [done|]. split; [rewrite Eh, Hh; by rewrite <- app_assoc|]. apply (chain_trans _ _ [op f] (length (heap st3))); [|done].
  apply (chain_snoc _ _ [] cmd _ _ q e mode fd); [constructor| |by rewrite Hh|done].
  rewrite Eh. apply lookup_app_l_Some. by rewrite lookup_app_r, Nat.sub_diag by lia.
Qed.
Lemma wlp_try {A B} (m : M sh_t (option A)) (k : A → M sh_t (option B)) Q st :
  wlp m (λ r st', match r with Some a => wlp (k a) Q st' | None => Q None st' end) st → wlp (try m k) Q st.
Proof. intros Hm. apply wlp_bind. eapply wlp_mono; [exact Hm|]. intros [a|] st'; [done|]. intros HQ. by apply wlp_ret. Qed.

Lemma at_toks_heap st ts h : at_toks st ts → at_toks (Sh (mem st) h (ps st)) ts.
Proof. intros (l & [Hm Hp H0] & Hl). by exists l. Qed.

(** *** Simple commands *)

Lemma pitems_stop n ts : starts [60; 62] ts = false → starts [124; 41; 38; 59] ts = true → pitems n ts = Some ([], [], ts).
Proof.
  destruct ts as [|t ts]; [done|]. rewrite redir_op_starts. cbn [pitems]. destruct (redir_op t); [done|]. intros _ Hs. destruct t as [w|c|]; [done|by rewrite Hs|by rewrite Hs].
Qed.

Lemma pitems_other n ts code q e st : starts [60; 62] ts = false → starts [124; 41; 38; 59] ts = false → token ts code q e st → code ≠ 97 → code ≠ 0 → pitems n ts = None.
Proof.
  destruct ts as [|t ts]; [by intros _ _ [? _]|]. rewrite redir_op_starts. cbn [pitems]. destruct (redir_op t); [done|]. intros _ Hs (_ & Hc & _) H97 _.
  destruct t as [w|c|]; [done|by rewrite Hs|by rewrite Hs].
Qed.

Lemma token_none ts q e st : token ts 0 q e st → ts = [] ∧ at_toks st [].
Proof. destruct ts as [|[f|c|] ts]; cbn [token tok_code]; [by intros [_ ?]|by intros (_ & ? & _)| |by intros (_ & ? & _)]. intros (Hc & <- & _). exfalso. cbn in Hc. symbol. Qed.

Lemma wlp_end_args {A} cmd (k : M sh_t A) Q st : wlp k Q st → wlp (end_args cmd ;;* k) Q st.
Proof.
  intros Hk. apply wlp_bind. intros [] st1 E. unfold end_args, node_at, bind in E. destruct (heap st !! cmd) as [[args| | | |]|]; try done. cbn in E.
  destruct (argv_has _); [|done]. by injection E as <-.
Qed.

Lemma args_loop_sim fuel cmd r st ts args rs0 :
  at_toks st ts → starts [60; 62] ts = false → heap st !! cmd = Some (EXEC args) → chain (heap st) cmd rs0 r → wlp (args_loop fuel es cmd r) (λ res st',
  match res with
  | None => pitems (length args) ts = None
  | Some p => ∃ ws rs ts' h' args', pitems (length args) ts = Some (ws, rs, ts') ∧ at_toks st' ts' ∧
      heap st' = <[cmd := EXEC args']> (heap st) ++ h' ∧ map text args' = map text args ++ ws ∧ chain (heap st') cmd (rs0 ++ rs) p
  end) st.
Proof.
  revert r st ts args rs0. induction fuel as [|fuel IH]; intros r st ts args rs0 Hat Hnr Hc Hch; cbn [args_loop]; [apply wlp_fault|].
  eapply wlp_peek; [exact Hat|symset|]. intros st1 Hh1 Hat1.
  assert (Hstop : ∀ st' ts', heap st' = heap st → at_toks st' ts' → pitems (length args) ts = Some ([], [], ts') → ∃ ws rs ts' h' args', pitems (length args) ts = Some (ws, rs, ts') ∧
    at_toks st' ts' ∧ heap st' = <[cmd := EXEC args']> (heap st) ++ h' ∧ map text args' = map text args ++ ws ∧ chain (heap st') cmd (rs0 ++ rs) r).
  { intros st' ts' Eh Ha Ep. exists [], [], ts', [], args. rewrite list_insert_id, !app_nil_r by done. rewrite Eh. by repeat split. }
  destruct (starts [124; 41; 38; 59] ts) eqn:Es; [apply wlp_end_args, wlp_ret; apply (Hstop _ ts); [done|done|by apply pitems_stop]|].
  eapply wlp_gettoken; [exact Hat1|]. intros code q e st2 Hh2 Ht. rewrite Hh1 in Hh2.
  destruct (Z.eqb_spec code 0) as [->|H0]; [apply token_none in Ht as [-> Ha]; apply wlp_end_args, wlp_ret; by apply (Hstop _ [])|]. clear Hstop.
  destruct (Z.eqb_spec code 97) as [->|Hne]; cbn [negb]; [|apply wlp_ret; by eapply pitems_other].
  apply token_word in Ht as (ts1 & -> & Hat2). cbn [pitems redir_op]. set (st3 := Sh (mem st2) (<[cmd := EXEC (args ++ [(q, e)])]> (heap st)) (ps st2)).
  apply wlp_bind. intros argc st3' E. unfold add_arg, node_at, bind in E. rewrite Hh2, Hc in E. cbn [fmap option_fmap option_map] in E. destruct (argv_has _); [|done]. cbn in E. rewrite Hh2 in E. injection E as <- <-. fold st3.
  destruct (MAXARGS <=? _) eqn:Emax; [by apply wlp_ret|]. pose proof (lookup_lt_Some _ _ _ Hc) as Hlt. pose proof (chain_lt _ _ _ _ Hch Hlt) as Hr.
  apply wlp_try. eapply wlp_mono; [apply (parseredirs_sim _ _ st3 ts1); [by apply at_toks_heap|cbn; by rewrite length_insert]|]. cbn [heap st3].
  intros [r'|] st4; [|intros E; rewrite pitems_predirs, E; done]. intros (rs1 & ts2 & h1 & E1 & Ha & Eh & Hc1). rewrite pitems_predirs, E1.
  assert (Hc4 : heap st4 !! cmd = Some (EXEC (args ++ [(q, e)]))) by (rewrite Eh; apply lookup_app_l_Some; by apply list_lookup_insert_eq).
  eapply wlp_mono; [apply (IH r' st4 ts2 (args ++ [(q, e)]) (rs0 ++ rs1)); [done|by eapply predirs_rest|done|]|].
  { apply (chain_trans _ _ _ r); [|done]. rewrite Eh. apply chain_grow. by eapply chain_arg. }
  rewrite length_app, Nat.add_1_r. intros [p|] st5; [|by intros ->]. intros (ws & rs & ts' & h' & args' & -> & Ha' & Eh' & Em & Hc'). cbn [fmap option_fmap option_map].
  exists (text (q, e) :: ws), (rs1 ++ rs), ts', (h1 ++ h'), args'. split; [done|]. split; [done|]. split; [|split; [|by rewrite app_assoc]].
  - rewrite Eh', Eh, insert_app_l by (by rewrite length_insert). by rewrite list_insert_insert_eq, <- app_assoc.
  - rewrite Em, map_app. by rewrite <- app_assoc.
Qed.
(** *** The four functions *)

Definition sim (F : option result) (st : sh_t) (r : option nat) (st' : sh_t) : Prop :=
  match r with
  | None => F = Some None
  | Some p => ∃ c ts h, F = Some (Some (c, ts)) ∧ at_toks st' ts ∧ heap st' = heap st ++ h ∧ tree (heap st') text p = Some c
  end.

Lemma token_tail ts code q e st : token ts code q e st → at_toks st (tail ts).
Proof. destruct ts as [|t ts]; [by intros [_ ?]|by intros (_ & _ & ? & _)]. Qed.

(** A symbol that [peek] saw is eaten. *)
Lemma wlp_eat {A} (k : Z * Z * Z → M sh_t A) Q st ts : at_toks st ts → (∀ x st1, heap st1 = heap st → at_toks st1 (tail ts) → wlp (k x) Q st1) → wlp (bind (gettoken es) k) Q st.
Proof. intros Ha Hk. eapply wlp_gettoken; [exact Ha|]. intros code q e st1 Hh Ht. apply Hk; [done|by eapply token_tail]. Qed.

Lemma back_loop_sim fuel p st ts c : at_toks st ts → tree (heap st) text p = Some c → wlp (back_loop fuel es p) (λ r st',
  ∃ q h, r = Some q ∧ at_toks st' (snd (backs c ts)) ∧ heap st' = heap st ++ h ∧ tree (heap st') text q = Some (fst (backs c ts))) st.
Proof.
  revert p st ts c. induction fuel as [|fuel IH]; intros p st ts c Hat Hp; cbn [back_loop]; [apply wlp_fault|].
  eapply wlp_peek; [exact Hat|symset|]. intros st1 Hh1 Hat1. destruct (starts [38] ts) eqn:Es; cbn [negb].
  - destruct ts as [|t ts]; [done|]. cbn [backs]. rewrite Es. eapply wlp_eat; [exact Hat1|]. intros x st2 Hh2 Hat2. cbn [tail] in Hat2. rewrite Hh1 in Hh2.
    apply wlp_bind. intros q st3 E. injection E as <- <-. eapply wlp_mono; [apply (IH _ _ ts (Back c)); [by apply at_toks_heap|]|].
    + cbn [heap]. rewrite Hh2. eapply tree_node; [by rewrite lookup_app_r, Nat.sub_diag by lia|]. exists c. split; [by eapply tree_lt|]. split; [by apply tree_grow|done].
    + cbn [heap]. intros r st' (q & h & -> & Ha & Eh & Ht). exists q, ([BACK p] ++ h). split; [done|]. split; [done|]. split; [|done]. by rewrite Eh, Hh2, <- app_assoc.
  - assert (Eb : backs c ts = (c, ts)) by (destruct ts; [done|]; cbn [backs]; by rewrite Es). rewrite Eb. apply wlp_ret. exists p, []. rewrite app_nil_r, Hh1. done.
Qed.

Definition sims (f : nat → Z → M sh_t (option nat)) (F : nat → list tok → option result) (k : nat) : Prop :=
  ∀ st ts, at_toks st ts → wlp (f k es) (sim (F k ts) st) st.

(** Two commands, the second behind the symbol [c], make the node [n] of a new command. *)
Lemma pair_sim (n : nat → nat → node) (mk : cmd → cmd → cmd) f F k p st0 st h0 ts c :
  (∀ h l r q t1 t2, h !! q = Some (n l r) → (l < q)%nat → (r < q)%nat → tree h text l = Some t1 → tree h text r = Some t2 → tree h text q = Some (mk t1 t2)) →
  sims f F k → at_toks st ts → heap st = heap st0 ++ h0 → tree (heap st) text p = Some c →
  wlp (bind (gettoken es) (λ _, try (f k es) (λ r, bind (new (n p r)) next))) (sim (then_ (F k (tail ts)) (λ c' ts2, Some (Some (mk c c', ts2)))) st0) st.
Proof.
  intros Hn Hf Hat Hh Hp. eapply wlp_eat; [exact Hat|]. intros x st1 Hh1 Hat1. apply wlp_try. eapply wlp_mono; [by apply Hf|].
  intros [r|] st2; cbn [sim]; [|by intros ->]. intros (c' & ts2 & h & -> & Ha & Eh & Ht). apply wlp_bind. intros q st3 E. injection E as <- <-. apply wlp_ret. cbn [sim then_ heap].
  exists (mk c c'), ts2, (h0 ++ h ++ [n p r]). split; [done|]. split; [by apply at_toks_heap|]. rewrite Hh1 in Eh. split; [rewrite Eh, Hh; by rewrite <- !app_assoc|].
  assert (Hp2 : tree (heap st2) text p = Some c) by (rewrite Eh; by apply tree_grow).
  eapply Hn; [by rewrite lookup_app_r, Nat.sub_diag by lia|by eapply tree_lt|by eapply tree_lt|by apply tree_grow|by apply tree_grow].
Qed.

Lemma sim_stop c p st0 st h ts : at_toks st ts → heap st = heap st0 ++ h → tree (heap st) text p = Some c → wlp (next p) (sim (Some (Some (c, ts))) st0) st.
Proof. intros Ha Hh Ht. apply wlp_ret. by exists c, ts, h. Qed.

Lemma parseline_sim k : sims parsepipe ppipe k → sims parseline pline k → sims parseline pline (S k).
Proof.
  intros Hpipe Hline st ts Hat. cbn [parseline pline]. apply wlp_try. eapply wlp_mono; [by apply Hpipe|]. intros [p|] st1; cbn [sim]; [|by intros ->].
  intros (c & ts1 & h1 & -> & Ha1 & Eh1 & Ht1). cbn [then_]. apply wlp_try. eapply wlp_mono; [by apply (back_loop_sim _ _ _ ts1 c)|].
  intros r st2 (p2 & h2 & -> & Ha2 & Eh2 & Ht2). destruct (backs c ts1) as [c2 ts2]. cbn [fst snd] in *. rewrite Eh1, <- app_assoc in Eh2.
  eapply wlp_peek; [exact Ha2|symset|]. intros st3 Hh3 Ha3. rewrite <- Hh3 in Ht2, Eh2. destruct (starts [59] ts2); [|by eapply sim_stop].
  eapply (pair_sim LIST Seq); [|done|done|done|done]. intros h l r q t1 t2 Hq Hl Hr H1 H2. apply (tree_node _ _ _ _ _ Hq). by exists t1, t2.
Qed.

Lemma parsepipe_sim k : sims parseexec pexec k → sims parsepipe ppipe k → sims parsepipe ppipe (S k).
Proof.
  intros Hexec Hpipe st ts Hat. cbn [parsepipe ppipe]. apply wlp_try. eapply wlp_mono; [by apply Hexec|]. intros [p|] st1; cbn [sim]; [|by intros ->].
  intros (c & ts1 & h1 & -> & Ha1 & Eh1 & Ht1). cbn [then_]. eapply wlp_peek; [exact Ha1|symset|]. intros st3 Hh3 Ha3. rewrite <- Hh3 in Ht1, Eh1.
  destruct (starts [124] ts1); [|by eapply sim_stop].
  eapply (pair_sim PIPE Pipe); [|done|done|done|done]. intros h l r q t1 t2 Hq Hl Hr H1 H2. apply (tree_node _ _ _ _ _ Hq). by exists t1, t2.
Qed.

Lemma simple_sim fuel st ts : at_toks st ts → wlp (let* cmd := execcmd in let? r := parseredirs fuel es cmd in args_loop fuel es cmd r)
  (sim (Some (match pitems 0 ts with Some (ws, rs, ts1) => Some (fold_left wrap rs (Exec ws), ts1) | None => None end)) st) st.
Proof.
  intros Hat. apply wlp_bind. intros p0 st1 E. injection E as <- <-. apply wlp_try.
  eapply wlp_mono; [apply (parseredirs_sim _ _ _ ts); [by apply at_toks_heap|cbn; rewrite length_app; cbn; lia]|]. cbn [heap].
  intros [r|] st2; cbn [sim]; [|intros E; by rewrite pitems_predirs, E]. intros (rs & ts1 & h1 & E1 & Ha & Eh & Hch). rewrite pitems_predirs, E1.
  assert (H0 : (heap st ++ [EXEC []]) !! length (heap st) = Some (EXEC [])) by (by rewrite lookup_app_r, Nat.sub_diag by lia).
  eapply wlp_mono; [apply (args_loop_sim _ _ _ _ ts1 [] rs); [done|by eapply predirs_rest|rewrite Eh; by apply lookup_app_l_Some|done]|].
  intros [p|] st3; cbn [sim length map app]; [|by intros ->]. intros (ws & rs' & ts2 & h2 & args & -> & Ha3 & Eh3 & <- & Hc3). cbn [fmap option_fmap option_map].
  eexists _, ts2, (EXEC args :: h1 ++ h2). split; [reflexivity|]. split; [done|].
  assert (Eh4 : heap st3 = heap st ++ EXEC args :: h1 ++ h2).
  { rewrite Eh3, Eh, <- app_assoc. rewrite (insert_app_r_alt _ _ (length (heap st))), Nat.sub_diag by lia. cbn. by rewrite <- app_assoc. }
  split; [done|]. eapply chain_tree; [exact Hc3|]. eapply tree_node; [rewrite Eh4; by rewrite lookup_app_r, Nat.sub_diag by lia|done].
Qed.

Lemma parseblock_sim k st ts : sims parseline pline k → at_toks st ts → starts [40] ts = true → wlp (parseblock (S k) es) (sim (pblock (S k) ts) st) st.
Proof.
  intros Hline Hat Hs. cbn [parseblock pblock]. eapply wlp_peek; [exact Hat|symset|]. intros st1 Hh1 Ha1. rewrite Hs. cbn [negb].
  eapply wlp_eat; [exact Ha1|]. intros x st2 Hh2 Ha2. apply wlp_try. eapply wlp_mono; [by apply Hline|]. intros [p|] st3; cbn [sim]; [|by intros ->].
  intros (c & ts1 & h1 & -> & Ha3 & Eh3 & Ht3). cbn [then_]. eapply wlp_peek; [exact Ha3|symset|]. intros st4 Hh4 Ha4. destruct (starts [41] ts1); cbn [negb]; [|by apply wlp_ret].
  eapply wlp_eat; [exact Ha4|]. intros y st5 Hh5 Ha5. assert (E5 : heap st5 = heap st3) by congruence.
  eapply wlp_mono; [apply (parseredirs_sim _ _ _ (tail ts1)); [done|rewrite E5; by eapply tree_lt]|]. intros [q|] st6; cbn [sim]; [|by intros ->].
  intros (rs & ts2 & h2 & -> & Ha6 & Eh6 & Hch). eexists _, ts2, (h1 ++ h2). split; [reflexivity|]. split; [done|].
  split; [rewrite Eh6, E5, Eh3, app_assoc; congruence|]. eapply chain_tree; [exact Hch|]. rewrite Eh6, E5. by apply tree_grow.
Qed.

Lemma parseexec_sim k : (∀ st ts, at_toks st ts → starts [40] ts = true → wlp (parseblock k es) (sim (pblock k ts) st) st) → sims parseexec pexec (S k).
Proof.
  intros Hblock st ts Hat. cbn [parseexec pexec]. eapply wlp_peek; [exact Hat|symset|]. intros st1 Hh1 Ha1. destruct (starts [40] ts) eqn:Es.
  - eapply wlp_mono; [by apply Hblock|]. intros r st2. unfold sim. by rewrite Hh1.
  - eapply wlp_mono; [by apply simple_sim|]. intros r st2. unfold sim. by rewrite Hh1.
Qed.

Lemma parse_sim k : sims parseline pline k ∧ sims parsepipe ppipe k ∧ sims parseexec pexec k ∧
  ∀ st ts, at_toks st ts → starts [40] ts = true → wlp (parseblock k es) (sim (pblock k ts) st) st.
Proof.
  induction k as [|k (H1 & H2 & H3 & H4)]; [split; [|split; [|split]]; intros st ts _; [apply wlp_fault..|intros _; apply wlp_fault]|].
  split; [by apply parseline_sim|]. split; [by apply parsepipe_sim|]. split; [by apply parseexec_sim|]. intros st ts. by apply parseblock_sim.
Qed.
End Line.

(** ** The token parser and the grammar *)

Lemma starts_one c ts : c ≠ 62 → starts [c] ts = true → ts = TSym c :: tail ts.
Proof. intros Hc. destruct ts as [|[w|d|] ts]; try done; cbn [starts tail]; intros H; apply in_set_true in H; [by apply list_elem_of_singleton in H as ->|by apply list_elem_of_singleton in H; lia]. Qed.

Lemma redir_op_toks t op f : redir_op t = Some op → redir_toks (op f) = [t; TWord f].
Proof.
  destruct t as [w|c|]; [done| |intros E; by injection E as <-]. cbn [redir_op]. destruct (Z.eqb_spec c 60) as [->|_]; [intros E; by injection E as <-|].
  destruct (Z.eqb_spec c 62) as [->|_]; [intros E; by injection E as <-|done].
Qed.

Lemma backs_sound c ts : ∃ n, ts = repeat (TSym 38) n ++ snd (backs c ts) ∧ fst (backs c ts) = Nat.iter n Back c.
Proof.
  revert c. induction ts as [|t ts IH]; intros c; cbn [backs]; [by exists 0%nat|]. destruct (starts [38] (t :: ts)) eqn:Es; [|by exists 0%nat].
  apply starts_one in Es; [|lia]. injection Es as ->. destruct (IH (Back c)) as (n & E & Ec). exists (S n). split; [cbn; by rewrite <- E|]. rewrite Ec. by rewrite Nat.iter_succ_r.
Qed.

Lemma predirs_sound ts rs ts' : predirs ts = Some (rs, ts') → ts = flat_map redir_toks rs ++ ts'.
Proof.
  revert rs. induction ts as [|t ts _ IH] using toks_ind; intros rs; cbn [predirs]; [intros E; by injection E as <- <-|].
  destruct (redir_op t) as [op|] eqn:Eo; [|intros E; by injection E as <- <-]. destruct ts as [|[f| |] ts2]; try done.
  destruct (predirs ts2) as [[rs2 r2]|] eqn:E2; [|done]. intros E. injection E as <- <-. cbn [fst snd flat_map]. rewrite (redir_op_toks _ _ _ Eo), (IH _ _ eq_refl _ E2) at 1. done.
Qed.

Lemma pitems_sound n ts ws rs ts' : pitems n ts = Some (ws, rs, ts') → Z.of_nat n < MAXARGS →
  ∃ its, ts = flat_map item_toks its ++ ts' ∧ args_of its = ws ∧ redirs_of its = rs ∧ Z.of_nat (n + length ws) < MAXARGS.
Proof.
  revert n ws rs. induction ts as [|t ts IH1 IH2] using toks_ind; intros n ws rs; cbn [pitems]; [intros E Hn; injection E as <- <- <-; exists []; cbn; rewrite Nat.add_0_r; done|].
  destruct (redir_op t) as [op|] eqn:Eo.
  - destruct ts as [|[f| |] ts2]; try done. destruct (pitems n ts2) as [[[ws2 rs2] r2]|] eqn:E2; [|done]. intros E Hn. injection E as <- <- <-.
    destruct (IH2 _ _ eq_refl _ _ _ E2 Hn) as (its & Et & Ha & Hr & Hl). exists (Red (op f) :: its). cbn [flat_map item_toks args_of redirs_of]. rewrite (redir_op_toks _ _ _ Eo), Et at 1.
    split; [done|]. split; [done|]. split; [by rewrite <- Hr|done].
  - destruct t as [w|c|].
    + destruct (Z.leb_spec MAXARGS (Z.of_nat n + 1)) as [|Hlt]; [done|]. destruct (pitems (S n) ts) as [[[ws2 rs2] r2]|] eqn:E2; [|done]. intros E Hn. injection E as <- <- <-.
      destruct (IH1 _ _ _ E2) as (its & Et & Ha & Hr & Hl); [lia|]. exists (Arg w :: its). cbn [flat_map item_toks args_of redirs_of]. rewrite Et at 1.
      split; [done|]. split; [by rewrite <- Ha|]. split; [done|]. cbn [length]. lia.
    + destruct (starts _ _); [|done]. intros E Hn. injection E as <- <- <-. exists []. cbn. rewrite Nat.add_0_r. done.
    + done.
Qed.

Lemma then_inv r k c ts : then_ r k = Some (Some (c, ts)) → ∃ c1 ts1, r = Some (Some (c1, ts1)) ∧ k c1 ts1 = Some (Some (c, ts)).
Proof. destruct r as [[[c1 ts1]|]|]; [|done|done]. intros E. by exists c1, ts1. Qed.

Definition sound (F : nat → list tok → option result) (g : list tok → cmd → Prop) (k : nat) : Prop :=
  ∀ ts c ts', F k ts = Some (Some (c, ts')) → ∃ ts1, ts = ts1 ++ ts' ∧ g ts1 c.

Lemma pline_sound k : sound ppipe gpipe k → sound pline gline k → sound pline gline (S k).
Proof.
  intros Hp Hl ts c ts' E. cbn [pline] in E. apply then_inv in E as (c1 & ts1 & E1 & E). apply Hp in E1 as (x & -> & Hx).
  destruct (backs_sound c1 ts1) as (n & Eb & Ec). destruct (starts [59] (snd (backs c1 ts1))) eqn:Es.
  - apply then_inv in E as (c2 & ts2 & E2 & E). injection E as <- <-. apply Hl in E2 as (y & E2 & Hy). apply starts_one in Es; [|lia]. rewrite E2 in Es.
    exists (x ++ repeat (TSym 38) n ++ TSym 59 :: y). split; [rewrite Eb, Es; by rewrite <- !app_assoc|]. rewrite Ec. by constructor.
  - injection E as E. rewrite E in *. cbn [fst snd] in *. exists (x ++ repeat (TSym 38) n). split; [by rewrite Eb, app_assoc|]. rewrite Ec. by constructor.
Qed.

Lemma ppipe_sound k : sound pexec gexec k → sound ppipe gpipe k → sound ppipe gpipe (S k).
Proof.
  intros He Hp ts c ts' E. cbn [ppipe] in E. apply then_inv in E as (c1 & ts1 & E1 & E). apply He in E1 as (x & -> & Hx). destruct (starts [124] ts1) eqn:Es.
  - apply then_inv in E as (c2 & ts2 & E2 & E). injection E as <- <-. apply Hp in E2 as (y & E2 & Hy). apply starts_one in Es; [|lia]. rewrite E2 in Es.
    exists (x ++ TSym 124 :: y). split; [rewrite Es; by rewrite <- app_assoc|]. by constructor.
  - injection E as <- <-. exists x. split; [done|]. by constructor.
Qed.

Lemma pblock_sound k ts c ts' : sound pline gline k → starts [40] ts = true → pblock (S k) ts = Some (Some (c, ts')) → ∃ ts1, ts = ts1 ++ ts' ∧ gexec ts1 c.
Proof.
  intros Hl Hs E. cbn [pblock] in E. apply then_inv in E as (c1 & ts1 & E1 & E). apply Hl in E1 as (x & E1 & Hx). apply starts_one in Hs; [|lia]. rewrite Hs, E1.
  destruct (starts [41] ts1) eqn:Es; [|done]. apply starts_one in Es; [|lia]. destruct (predirs (tail ts1)) as [[rs ts2]|] eqn:Er; [|done]. injection E as <- <-.
  apply predirs_sound in Er. exists (TSym 40 :: x ++ TSym 41 :: flat_map redir_toks rs). split; [rewrite Es, Er; by rewrite <- app_comm_cons, <- app_assoc|]. by constructor.
Qed.

Lemma pexec_sound k : (∀ ts c ts', starts [40] ts = true → pblock k ts = Some (Some (c, ts')) → ∃ ts1, ts = ts1 ++ ts' ∧ gexec ts1 c) → sound pexec gexec (S k).
Proof.
  intros Hb ts c ts' E. cbn [pexec] in E. destruct (starts [40] ts) eqn:Es; [by apply Hb|]. destruct (pitems 0 ts) as [[[ws rs] ts1]|] eqn:Ei; [|done]. injection E as <- <-.
  apply pitems_sound in Ei as (its & -> & <- & <- & Hl); [|done]. exists (flat_map item_toks its). split; [done|]. by constructor.
Qed.

Lemma parser_sound k : sound pline gline k ∧ sound ppipe gpipe k ∧ sound pexec gexec k ∧
  ∀ ts c ts', starts [40] ts = true → pblock k ts = Some (Some (c, ts')) → ∃ ts1, ts = ts1 ++ ts' ∧ gexec ts1 c.
Proof.
  induction k as [|k (H1 & H2 & H3 & H4)]; [split; [done|]; split; [done|]; by split|].
  split; [by apply pline_sound|]. split; [by apply ppipe_sound|]. split; [by apply pexec_sound|]. intros ts c ts'. by apply pblock_sound.
Qed.

(** *** More fuel *)

Lemma then_more r r' k k' x : (∀ y, r = Some y → r' = Some y) → (∀ c ts y, k c ts = Some y → k' c ts = Some y) → then_ r k = Some x → then_ r' k' = Some x.
Proof. intros Hr Hk. destruct r as [y|]; [|done]. rewrite (Hr y eq_refl). destruct y as [[c ts]|]; [|done]. apply Hk. Qed.

Lemma parser_step k ts x :
  (pline k ts = Some x → pline (S k) ts = Some x) ∧ (ppipe k ts = Some x → ppipe (S k) ts = Some x) ∧
  (pexec k ts = Some x → pexec (S k) ts = Some x) ∧ (pblock k ts = Some x → pblock (S k) ts = Some x).
Proof.
  revert ts x. induction k as [|k IH]; intros ts x; [done|]. assert (Hl : ∀ ts y, pline k ts = Some y → pline (S k) ts = Some y) by (intros; by apply IH).
  assert (Hp : ∀ ts y, ppipe k ts = Some y → ppipe (S k) ts = Some y) by (intros; by apply IH). split; [|split; [|split]].
  - change (pline (S k) ts) with (then_ (ppipe k ts) (λ c ts1, let x := backs c ts1 in
      if starts [59] (snd x) then then_ (pline k (tail (snd x))) (λ c' ts2, Some (Some (Seq (fst x) c', ts2))) else Some (Some x))).
    apply then_more; [apply Hp|]. intros c ts1 y. cbv zeta. destruct (starts _ _); [|done]. apply then_more; [apply Hl|done].
  - change (ppipe (S k) ts) with (then_ (pexec k ts) (λ c ts1,
      if starts [124] ts1 then then_ (ppipe k (tail ts1)) (λ c' ts2, Some (Some (Pipe c c', ts2))) else Some (Some (c, ts1)))).
    apply then_more; [intros y; apply IH|]. intros c ts1 y. destruct (starts _ _); [|done]. apply then_more; [apply Hp|done].
  - change (pexec (S k) ts) with (if starts [40] ts then pblock k ts
      else Some (match pitems 0 ts with Some (ws, rs, ts1) => Some (fold_left wrap rs (Exec ws), ts1) | None => None end)).
    change (pexec (S (S k)) ts) with (if starts [40] ts then pblock (S k) ts
      else Some (match pitems 0 ts with Some (ws, rs, ts1) => Some (fold_left wrap rs (Exec ws), ts1) | None => None end)).
    destruct (starts _ _); [apply IH|done].
  - change (pblock (S k) ts) with (then_ (pline k (tail ts)) (λ c ts1,
      if starts [41] ts1 then Some (match predirs (tail ts1) with Some (rs, ts2) => Some (fold_left wrap rs c, ts2) | None => None end) else Some None)).
    apply then_more; [apply Hl|done].
Qed.

Lemma parser_more k k' ts x : (k ≤ k')%nat →
  (pline k ts = Some x → pline k' ts = Some x) ∧ (ppipe k ts = Some x → ppipe k' ts = Some x) ∧ (pexec k ts = Some x → pexec k' ts = Some x).
Proof. induction 1 as [|k' _ (H1 & H2 & H3)]; [done|]. destruct (parser_step k' ts x) as (S1 & S2 & S3 & _). split; [|split]; auto. Qed.

(** *** Every command of the grammar is read *)

Definition follow (set : list Z) (ts : list tok) : Prop := ts = [] ∨ starts set ts = true.
Definition after_exec : list Z := [124; 41; 38; 59].
Definition after_pipe : list Z := [41; 38; 59].
Definition after_line : list Z := [41].

(** The sets are lists, so that inclusion and disjointness compute. *)
Lemma follow_sub set set' ts : forallb (in_set set') set = true → follow set ts → follow set' ts.
Proof.
  rewrite forallb_forall. intros Hs [->|H]; [by left|right].
  destruct ts as [|[w|c|] ts]; try done; cbn [starts] in *; apply in_set_true in H; by apply Hs, list_elem_of_In.
Qed.

Lemma follow_not set set' ts : forallb (λ c, negb (in_set set' c)) set = true → follow set ts → starts set' ts = false.
Proof.
  rewrite forallb_forall. intros Hs [->|H]; [done|].
  destruct ts as [|[w|c|] ts]; try done; cbn [starts] in *; apply in_set_true in H; by apply negb_true_iff, Hs, list_elem_of_In.
Qed.

Lemma predirs_reads rs ts : follow after_exec ts → predirs (flat_map redir_toks rs ++ ts) = Some (rs, ts).
Proof.
  intros Hf. induction rs as [|r rs IH]; cbn [flat_map app].
  - destruct ts as [|t ts]; [done|]. pose proof (follow_not after_exec [60; 62] _ eq_refl Hf) as Hn. rewrite redir_op_starts in Hn. cbn [predirs]. by destruct (redir_op t).
  - rewrite <- app_assoc. destruct r; cbn [redir_toks app predirs redir_op]; cbn; by rewrite IH.
Qed.

Lemma pitems_reads n its ts : follow after_exec ts → Z.of_nat (n + length (args_of its)) < MAXARGS →
  pitems n (flat_map item_toks its ++ ts) = Some (args_of its, redirs_of its, ts).
Proof.
  intros Hf. revert n. induction its as [|i its IH]; intros n Hn; cbn [flat_map app].
  - destruct Hf as [->|Hf]; [done|]. apply pitems_stop; [|done]. apply (follow_not after_exec); [done|by right].
  - rewrite <- app_assoc. destruct i as [w|r].
    + cbn [item_toks app pitems redir_op]. cbn [args_of flat_map app length] in Hn. fold (args_of its) in Hn. destruct (Z.leb_spec MAXARGS (Z.of_nat n + 1)) as [|_]; [lia|].
      rewrite IH by lia. done.
    + destruct r; cbn [item_toks redir_toks app pitems redir_op]; cbn; by rewrite IH.
Qed.

Lemma items_first its ts : follow after_exec ts → starts [40] (flat_map item_toks its ++ ts) = false.
Proof. intros Hf. destruct its as [|[w|[f|f|f]] its]; try done. by apply (follow_not after_exec). Qed.

Lemma backs_reads n c ts : starts [38] ts = false → backs c (repeat (TSym 38) n ++ ts) = (Nat.iter n Back c, ts).
Proof.
  intros Hs. revert c. induction n as [|n IH]; intros c; [destruct ts as [|t ts]; [done|]; cbn [repeat app backs Nat.iter]; by rewrite Hs|].
  cbn [repeat app backs]. change (starts [38] (TSym 38 :: _)) with true. cbv iota. rewrite IH. by rewrite Nat.iter_succ_r.
Qed.

Lemma follow_backs n ts : follow after_pipe ts → follow after_pipe (repeat (TSym 38) n ++ ts).
Proof. intros Hf. destruct n; [done|]. by right. Qed.

Scheme gline_mut := Minimality for gline Sort Prop
  with gpipe_mut := Minimality for gpipe Sort Prop
  with gexec_mut := Minimality for gexec Sort Prop.
Combined Scheme grammar_ind from gline_mut, gpipe_mut, gexec_mut.

Definition reads (F : nat → list tok → option result) (set : list Z) (ts : list tok) (c : cmd) : Prop :=
  ∀ ts', follow set ts' → ∃ k, F k (ts ++ ts') = Some (Some (c, ts')).

Lemma pline_last ts c n : reads ppipe after_pipe ts c → reads pline after_line (ts ++ repeat (TSym 38) n) (Nat.iter n Back c).
Proof.
  intros Hp ts' Hf. assert (Hf' : follow after_pipe ts') by (by apply (follow_sub after_line)). destruct (Hp _ (follow_backs n _ Hf')) as [k E].
  exists (S k). cbn [pline]. rewrite <- app_assoc, E. cbn [then_]. rewrite backs_reads by (by apply (follow_not after_line)). cbn [fst snd].
  by rewrite (follow_not after_line [59] ts') by done.
Qed.

Lemma pline_seq ts c n ts2 c2 : reads ppipe after_pipe ts c → reads pline after_line ts2 c2 →
  reads pline after_line (ts ++ repeat (TSym 38) n ++ TSym 59 :: ts2) (Seq (Nat.iter n Back c) c2).
Proof.
  intros Hp Hl ts' Hf. destruct (Hl _ Hf) as [k2 E2]. destruct (Hp (repeat (TSym 38) n ++ TSym 59 :: ts2 ++ ts')) as [k1 E1]; [apply follow_backs; by right|].
  exists (S (k1 + k2)). cbn [pline]. rewrite <- !app_assoc, <- app_comm_cons. rewrite (proj1 (proj2 (parser_more k1 (k1 + k2) _ _ ltac:(lia))) E1). cbn [then_].
  rewrite backs_reads by done. cbn [fst snd tail]. change (starts [59] (TSym 59 :: _)) with true. cbv iota. by rewrite (proj1 (parser_more k2 (k1 + k2) _ _ ltac:(lia)) E2).
Qed.

Lemma ppipe_last ts c : reads pexec after_exec ts c → reads ppipe after_pipe ts c.
Proof.
  intros He ts' Hf. destruct (He ts') as [k E]; [by apply (follow_sub after_pipe)|]. exists (S k). cbn [ppipe]. rewrite E. cbn [then_].
  by rewrite (follow_not after_pipe [124] ts') by done.
Qed.

Lemma ppipe_seq ts c ts2 c2 : reads pexec after_exec ts c → reads ppipe after_pipe ts2 c2 → reads ppipe after_pipe (ts ++ TSym 124 :: ts2) (Pipe c c2).
Proof.
  intros He Hp ts' Hf. destruct (Hp _ Hf) as [k2 E2]. destruct (He (TSym 124 :: ts2 ++ ts')) as [k1 E1]; [by right|].
  exists (S (k1 + k2)). cbn [ppipe]. rewrite <- app_assoc, <- app_comm_cons. rewrite (proj2 (proj2 (parser_more k1 (k1 + k2) _ _ ltac:(lia))) E1). cbn [then_ tail].
  change (starts [124] (TSym 124 :: _)) with true. cbv iota. by rewrite (proj1 (proj2 (parser_more k2 (k1 + k2) _ _ ltac:(lia))) E2).
Qed.

Lemma pexec_items its : Z.of_nat (length (args_of its)) < MAXARGS → reads pexec after_exec (flat_map item_toks its) (fold_left wrap (redirs_of its) (Exec (args_of its))).
Proof. intros Hn ts' Hf. exists 1%nat. cbn [pexec]. rewrite items_first by done. by rewrite (pitems_reads 0 its ts' Hf Hn). Qed.

Lemma pexec_block ts c rs : reads pline after_line ts c → reads pexec after_exec (TSym 40 :: ts ++ TSym 41 :: flat_map redir_toks rs) (fold_left wrap rs c).
Proof.
  intros Hl ts' Hf. destruct (Hl (TSym 41 :: flat_map redir_toks rs ++ ts')) as [k E]; [by right|]. exists (S (S k)). cbn [pexec pblock]. rewrite <- app_comm_cons, <- app_assoc, <- app_comm_cons.
  change (starts [40] (TSym 40 :: _)) with true. cbv iota. cbn [tail]. rewrite E. cbn [then_ tail]. change (starts [41] (TSym 41 :: _)) with true. cbv iota. by rewrite predirs_reads.
Qed.

Lemma parser_reads : (∀ ts c, gline ts c → reads pline after_line ts c) ∧ (∀ ts c, gpipe ts c → reads ppipe after_pipe ts c) ∧ (∀ ts c, gexec ts c → reads pexec after_exec ts c).
Proof. apply grammar_ind; eauto using pline_last, pline_seq, ppipe_last, ppipe_seq, pexec_items, pexec_block. Qed.

(** With its fuel exhausted or not, the parser decides the grammar. *)
Lemma pline_decides k ts x : pline k ts = Some x → ∀ c, gline ts c ↔ x = Some (c, []).
Proof.
  intros E c. split.
  - intros Hg. destruct (proj1 parser_reads ts c Hg []) as [k' E']; [by left|]. rewrite app_nil_r in E'.
    apply (proj1 (parser_more k (k + k') ts x ltac:(lia))) in E. apply (proj1 (parser_more k' (k + k') ts _ ltac:(lia))) in E'. congruence.
  - intros ->. destruct (proj1 (parser_sound k) _ _ _ E) as (ts1 & -> & Hg). by rewrite app_nil_r.
Qed.

(** ** The theorem *)

Lemma lex_nil l : lex l = [] ↔ blank l = [].
Proof.
  rewrite lex_eq. destruct (first_tok_start [] l) as [_ H]; [by intros c ?%elem_of_nil|]. split.
  - destruct (first_tok l) as [[t l']|]; [done|by intros _].
  - intros Hb. unfold first_tok. by rewrite Hb.
Qed.

(** C24: [parsecmd] returns a command exactly for the lines of the grammar, the one the
    grammar gives, and panics for every other line. *)
Theorem parsecmd_grammar w line r p0 : 0 ∉ line → ∃ res st',
  parsecmd (len w) (Sh (w ++ line ++ 0 :: r) [] p0) = Some (res, st') ∧
  match res with
  | Some p => ∃ c, gline (lex line) c ∧ tree (heap st') (c_string (mem st')) p = Some c
  | None => ∀ c, ¬ gline (lex line) c
  end.
Proof.
  intros Hline. set (m0 := w ++ line ++ 0 :: r). assert (Ees : len w + len line = len m0 - len r - 1) by (unfold m0; rewrite !len_app, len_cons; lia).
  destruct (parsecmd_run w line r Hline (Sh m0 [] p0) eq_refl eq_refl) as (res & st1 & E & Hres). fold m0 in E, Hres. rewrite Ees in E, Hres.
  assert (Hat : at_toks m0 r (Sh m0 [] (len w)) (lex line)) by (exists line; split; [split; [done|by exists w|done]|done]).
  pose proof (proj1 (parse_sim m0 r _) _ _ Hat _ _ E) as Hsim. destruct res as [p|]; cbn [sim] in Hsim.
  2: { exists None, st1. split; [done|]. intros c Hg. by apply (pline_decides _ _ _ Hsim) in Hg. }
  destruct Hsim as (c & ts & h & Ep & (l & Hr & Hl) & _ & Ht). destruct Hres as (st2 & Epeek & _ & _ & Hend).
  destruct (peek_at m0 r [] st1 l Hr) as (q & Eq & Hq); [by intros ?%elem_of_nil|]. rewrite Eq in Epeek. injection Epeek as <-. cbn [ps move] in Hend.
  pose proof (before_end _ _ _ _ (at_ps _ _ _ _ Hq)) as Hqe. cbn [ps move] in Hqe. pose proof (lex_nil l) as Hnil. rewrite Hl in Hnil.
  destruct (Z.eqb_spec q (len m0 - len r - 1)) as [Hq0|Hq0]; cbn [negb] in Hend.
  - destruct Hend as (st3 & E3 & Eh & Hs & _). exists (Some p), st3. split; [done|]. exists c. split.
    + apply (pline_decides _ _ _ Ep). do 2 f_equal. apply Hnil. destruct (blank l); [done|]. rewrite len_cons in Hqe. pose proof (len_nonneg l0). lia.
    + rewrite Eh. rewrite <- Ht. symmetry. apply tree_ext. intros x Hx. symmetry. by apply Hs.
  - exists None, (move st1 q). split; [done|]. intros c' Hg. apply (pline_decides _ _ _ Ep) in Hg. injection Hg as _ ->. rewrite (proj1 Hnil eq_refl), len_nil in Hqe. lia.
Qed.

Lemma parsecmd_grammar_witness :
  (∃ res st', parsecmd (len [7]) (Sh ([7] ++ sample_line ++ 0 :: [9]) [] 0) = Some (res, st') ∧
    match res with
    | Some p => ∃ c, gline (lex sample_line) c ∧ tree (heap st') (c_string (mem st')) p = Some c
    | None => ∀ c, ¬ gline (lex sample_line) c
    end) ∧
  (∃ res st', parsecmd (len []) (Sh ([] ++ [62; 41] ++ 0 :: []) [] 0) = Some (res, st') ∧
    match res with
    | Some p => ∃ c, gline (lex [62; 41]) c ∧ tree (heap st') (c_string (mem st')) p = Some c
    | None => ∀ c, ¬ gline (lex [62; 41]) c
    end).
Proof.
  split.
  - apply (parsecmd_grammar [7] sample_line [9] 0). apply (bool_decide_unpack (0 ∉ sample_line)). vm_compute. exact I.
  - apply (parsecmd_grammar [] [62; 41] [] 0). apply (bool_decide_unpack (0 ∉ [62; 41])). vm_compute. exact I.
Defined.

(** The command of the sample line. *)
Lemma sample_command :
  match parsecmd 0 (Sh (sample_line ++ [0]) [] 0) with Some (Some p, st) => tree (heap st) (c_string (mem st)) p | _ => None end =
  Some (Seq (Back (Redir (Exec [[101; 99; 104; 111]; [104; 105]]) [111; 117; 116] 0x601 1))
         (Seq (Pipe (Exec [[99; 97; 116]; [105; 110]]) (Exec [[119; 99]])) (Exec [[108; 115]]))).
Proof. vm_compute. reflexivity. Qed.
